(** * GPAC filters: the MPEG program stream demuxer and the FFmpeg encoder

    A shallow embedding of [src/filters/dmx_mpegps.c] and
    [src/filters/ff_enc.c], and the properties of their filter callbacks
    ([configure_pid], [process], [process_event]).

    The filter session (pids, packets, properties), the MPEG-2 PS parsing
    library and the codec engine are collaborators of the two filters.  The
    session is a [World]: the input queue, the would-block oracle and the
    chronological trace of every call a filter makes on its pids and on its
    collaborators.  The library and the codec are interfaces ([Class]es) the
    filter code is parametric in. *)

From Stdlib Require Import ZArith Lia.
From Stdlib Require Import Floats.PrimFloat Floats.FloatOps Floats.SpecFloat.
From Stdlib Require Import Floats.FloatAxioms.
From stdpp Require Import base option list strings.

Open Scope Z_scope.

(** ** Machine integers

    C integers are [Z] with the wrap-around written out. *)

Definition u32 (z : Z) : Z := z mod 2 ^ 32.
Definition u64 (z : Z) : Z := z mod 2 ^ 64.
Definition s32 (z : Z) : Z := (z + 2 ^ 31) mod 2 ^ 32 - 2 ^ 31.
Definition s64 (z : Z) : Z := (z + 2 ^ 63) mod 2 ^ 64 - 2 ^ 63.

(** [Double] is the C [double]; [==] is [PrimFloat.eqb] (false on NaN). *)
Definition Double : Set := float.

(** Conversion of a double to an integer type truncates toward zero. *)
Definition double_to_Z (f : Double) : Z :=
  match Prim2SF f with
  | S754_finite s m e =>
      let v := if 0 <=? e then Z.pos m * 2 ^ e else Z.pos m / 2 ^ (- e) in
      if s then - v else v
  | _ => 0
  end.

(** ** Errors, properties, packets *)

Inductive GF_Err :=
| GF_OK
| GF_EOS
| GF_NOT_SUPPORTED
| GF_SERVICE_ERROR
| GF_NON_COMPLIANT_BITSTREAM
| GF_URL_ERROR
| GF_OUT_OF_MEM
| GF_REQUIRES_NEW_INSTANCE.

#[global] Instance GF_Err_eq_dec : EqDecision GF_Err.
Proof. solve_decision. Defined.

(** What a callback does: it returns an error code, or the process stops in
    it (a failed [assert], a call through a null function pointer). *)
Inductive Outcome :=
| Ret (e : GF_Err)
| Abort.

Inductive PropKey :=
| GF_PROP_PID_ID
| GF_PROP_PID_CLOCK_ID
| GF_PROP_PID_STREAM_TYPE
| GF_PROP_PID_OTI
| GF_PROP_PID_CODECID
| GF_PROP_PID_TIMESCALE
| GF_PROP_PID_DURATION
| GF_PROP_PID_WIDTH
| GF_PROP_PID_HEIGHT
| GF_PROP_PID_FPS
| GF_PROP_PID_SAR
| GF_PROP_PID_SAMPLE_RATE
| GF_PROP_PID_NUM_CHANNELS
| GF_PROP_PID_BITRATE
| GF_PROP_PID_AUDIO_SKIP
| GF_PROP_PID_FILEPATH.

#[global] Instance PropKey_eq_dec : EqDecision PropKey.
Proof. solve_decision. Defined.

Inductive PropVal :=
| PROP_UINT (v : Z)
| PROP_FRAC (num den : Z)
| PROP_BOOL (b : bool)
| PROP_STRING (s : string).

#[global] Instance PropVal_eq_dec : EqDecision PropVal.
Proof. solve_decision. Defined.

(** Stream types and object type indications ([gpac/constants.h]). *)
Definition GF_STREAM_VISUAL : Z := 4.
Definition GF_STREAM_AUDIO : Z := 5.
Definition GPAC_OTI_VIDEO_MPEG2_MAIN : Z := 97.
Definition GPAC_OTI_VIDEO_MPEG1 : Z := 106.
Definition GPAC_OTI_AUDIO_MPEG1 : Z := 107.
Definition GPAC_OTI_AUDIO_AC3 : Z := 165.
Definition GF_4CC (a b c d : Z) : Z :=
  Z.lor (Z.lor (Z.lor (Z.shiftl a 24) (Z.shiftl b 16)) (Z.shiftl c 8)) d.
Definition GF_4CC_LPCM : Z := GF_4CC 76 80 67 77.

Definition GF_FILTER_SAP_NONE : Z := 0.
Definition GF_FILTER_SAP_1 : Z := 1.
Definition AV_PKT_FLAG_KEY : Z := 1.
Definition AV_PICTURE_TYPE_I : Z := 1.

(** A hardware frame of an input packet: [get_plane] may be missing. *)
Record GF_FilterHWFrame := {
  get_plane : option (Z -> GF_Err * Z * Z)
}.

(** A packet pending on an input pid. *)
Record InPck := {
  in_data : option (list Z);
  in_cts : Z;
  in_interlaced : Z;
  in_hw_frame : option GF_FilterHWFrame;
  in_start : bool;
  in_end : bool
}.

(** A packet built on an output pid: [gf_filter_pck_new_alloc] gives the
    payload, the setters fill the rest, [gf_filter_pck_send] dispatches it. *)
Record Packet := {
  pck_data : list Z;
  pck_dts : option Z;
  pck_cts : option Z;
  pck_sap : option Z;
  pck_duration : option Z
}.

#[global] Instance Packet_eq_dec : EqDecision Packet.
Proof. solve_decision. Defined.

Definition pck_new (data : list Z) : Packet :=
  {| pck_data := data; pck_dts := None; pck_cts := None;
     pck_sap := None; pck_duration := None |}.
Definition gf_filter_pck_set_dts (p : Packet) (dts : Z) : Packet :=
  {| pck_data := pck_data p; pck_dts := Some (u64 dts); pck_cts := pck_cts p;
     pck_sap := pck_sap p; pck_duration := pck_duration p |}.
Definition gf_filter_pck_set_cts (p : Packet) (cts : Z) : Packet :=
  {| pck_data := pck_data p; pck_dts := pck_dts p; pck_cts := Some (u64 cts);
     pck_sap := pck_sap p; pck_duration := pck_duration p |}.
Definition gf_filter_pck_set_sap (p : Packet) (sap : Z) : Packet :=
  {| pck_data := pck_data p; pck_dts := pck_dts p; pck_cts := pck_cts p;
     pck_sap := Some sap; pck_duration := pck_duration p |}.
Definition gf_filter_pck_set_duration (p : Packet) (d : Z) : Packet :=
  {| pck_data := pck_data p; pck_dts := pck_dts p; pck_cts := pck_cts p;
     pck_sap := pck_sap p; pck_duration := Some (u32 d) |}.

(** The coded unit an encode call leaves in [pkt]; [pkt.size] is the
    length of [pkt_data]. *)
Record AVPacket := {
  pkt_data : list Z;
  pkt_pts : Z;
  pkt_dts : Z;
  pkt_flags : Z;
  pkt_duration : Z
}.

(** What an encode call returns: the result code, [got_packet], [pkt]. *)
Record EncReply := {
  enc_res : Z;
  enc_gotpck : Z;
  enc_pkt : AVPacket
}.

#[global] Instance AVPacket_eq_dec : EqDecision AVPacket.
Proof. solve_decision. Defined.
#[global] Instance EncReply_eq_dec : EqDecision EncReply.
Proof. solve_decision. Defined.

(** ** The trace of a filter's calls *)

Inductive StreamKind := Video | Audio.

#[global] Instance StreamKind_eq_dec : EqDecision StreamKind.
Proof. solve_decision. Defined.

Inductive LogLevel := GF_LOG_ERROR | GF_LOG_WARNING.

#[global] Instance LogLevel_eq_dec : EqDecision LogLevel.
Proof. solve_decision. Defined.

Inductive Ev :=
(* the session *)
| EvPidNew (pid : nat)
| EvPidRemove (pid : nat)
| EvSetFramingMode (pid : nat) (full : bool)
| EvSetProperty (pid : nat) (key : PropKey) (val : option PropVal)
| EvPckNewAlloc (pid : nat) (size : Z)
| EvPckSend (pid : nat) (pck : Packet)
| EvSetEos (pid : nat)
| EvDropPacket
| EvSetupFailure (e : GF_Err)
| EvLog (lvl : LogLevel) (msg : string)
(* the MPEG-2 PS library *)
| EvPsInit (url : option string)
| EvPsClose
| EvPsSeek (k : StreamKind) (stream_num : Z) (msec : Z)
| EvPsGetFrame (k : StreamKind) (stream_num : Z)
(* the codec engine: an encode call on a frame (or none: a flush) and its reply *)
| EvEncode (k : StreamKind) (frame_pts : option Z) (reply : EncReply).

#[global] Instance Ev_eq_dec : EqDecision Ev.
Proof. solve_decision. Defined.

(** ** The session seen from one filter *)

Record World := {
  w_inq : list InPck;            (* packets pending on the input pid, oldest first *)
  w_in_eos : bool;               (* the input pid is at end of stream *)
  w_would_block : nat -> bool;   (* gf_filter_pid_would_block, per output pid *)
  w_npids : nat;                 (* output pids created so far *)
  w_trace : list Ev              (* the calls made so far, oldest first *)
}.

Definition emit (e : Ev) (w : World) : World :=
  {| w_inq := w_inq w; w_in_eos := w_in_eos w; w_would_block := w_would_block w;
     w_npids := w_npids w; w_trace := w_trace w ++ [e] |}.

Definition gf_filter_pid_get_packet (w : World) : option InPck := head (w_inq w).
Definition gf_filter_pid_is_eos (w : World) : bool := w_in_eos w.
Definition gf_filter_pid_would_block (w : World) (pid : nat) : bool := w_would_block w pid.

Definition gf_filter_pid_drop_packet (w : World) : World :=
  {| w_inq := tail (w_inq w); w_in_eos := w_in_eos w; w_would_block := w_would_block w;
     w_npids := w_npids w; w_trace := w_trace w ++ [EvDropPacket] |}.

Definition gf_filter_pid_new (w : World) : nat * World :=
  (w_npids w,
   {| w_inq := w_inq w; w_in_eos := w_in_eos w; w_would_block := w_would_block w;
      w_npids := S (w_npids w); w_trace := w_trace w ++ [EvPidNew (w_npids w)] |}).

Definition gf_filter_pid_remove (pid : nat) : World -> World := emit (EvPidRemove pid).
Definition gf_filter_pid_set_framing_mode (pid : nat) (full : bool) : World -> World :=
  emit (EvSetFramingMode pid full).
Definition gf_filter_pid_set_property (pid : nat) (k : PropKey) (v : option PropVal)
  : World -> World := emit (EvSetProperty pid k v).
Definition gf_filter_pid_set_eos (pid : nat) : World -> World := emit (EvSetEos pid).
Definition gf_filter_setup_failure (e : GF_Err) : World -> World := emit (EvSetupFailure e).
Definition GF_LOG (lvl : LogLevel) (msg : string) : World -> World := emit (EvLog lvl msg).

(** [gf_filter_pck_new_alloc] followed by the setters and [gf_filter_pck_send]:
    the allocation and the dispatch are both calls on the pid. *)
Definition gf_filter_pck_new_alloc (pid : nat) (size : Z) : World -> World :=
  emit (EvPckNewAlloc pid size).
Definition gf_filter_pck_send (pid : nat) (p : Packet) : World -> World :=
  emit (EvPckSend pid p).

(** The calls made between two states of the session. *)
Definition emitted (w w' : World) : list Ev := drop (length (w_trace w)) (w_trace w').

(** Modelled from the spec: the property store of a pid, which lives in the
    session.  A pid has at most one value per key; setting a key to the null
    value removes it.  [pid_property tr pid k] is the value visible on [pid]
    after the calls of [tr]. *)
Definition sets_property (pid : nat) (k : PropKey) (e : Ev) : option (option PropVal) :=
  match e with
  | EvSetProperty pid' k' v =>
      if decide (pid' = pid /\ k' = k) then Some v else None
  | _ => None
  end.

Fixpoint pid_property_from (cur : option PropVal) (tr : list Ev) (pid : nat) (k : PropKey)
  : option PropVal :=
  match tr with
  | [] => cur
  | e :: tr' =>
      pid_property_from
        (match sets_property pid k e with Some v => v | None => cur end) tr' pid k
  end.

Definition pid_property (tr : list Ev) : nat -> PropKey -> option PropVal :=
  pid_property_from None tr.

(** ** The MPEG-2 program stream demuxer ([dmx_mpegps.c]) *)

Module M2PSDmx.

(** *** The MPEG-2 PS library ([media_tools/mpeg2_ps.h]) *)

Inductive mpeg2ps_video_type_t :=
| MPEG_VIDEO_MPEG1 | MPEG_VIDEO_MPEG2 | MPEG_VIDEO_UNKNOWN.
Inductive mpeg2ps_audio_type_t :=
| MPEG_AUDIO_MPEG | MPEG_AUDIO_AC3 | MPEG_AUDIO_LPCM | MPEG_AUDIO_UNKNOWN.

#[global] Instance mpeg2ps_video_type_eq_dec : EqDecision mpeg2ps_video_type_t.
Proof. solve_decision. Defined.
#[global] Instance mpeg2ps_audio_type_eq_dec : EqDecision mpeg2ps_audio_type_t.
Proof. solve_decision. Defined.

(** What [mpeg2ps_get_video_frame] and [mpeg2ps_get_audio_frame] hand out. *)
Record VideoFrame := {
  vf_buf : list Z; vf_ftype : Z; vf_dts : Z; vf_cts : Z
}.
Record AudioFrame := {
  af_buf : list Z; af_cts : Z
}.

(** The library is opaque: a handle type and the calls the filter makes.
    A call that moves the read position returns the handle after it.
    A file name is a C string, possibly null. *)
Class Mpeg2Ps := {
  mpeg2ps_t : Type;
  mpeg2ps_init : option string -> option mpeg2ps_t;
  gf_file_exists : option string -> bool;
  mpeg2ps_get_max_time_msec : mpeg2ps_t -> Z;
  mpeg2ps_get_first_cts : mpeg2ps_t -> Z;
  mpeg2ps_get_video_stream_count : mpeg2ps_t -> nat;
  mpeg2ps_get_video_stream_type : mpeg2ps_t -> Z -> mpeg2ps_video_type_t;
  mpeg2ps_get_video_stream_framerate : mpeg2ps_t -> Z -> Double;
  mpeg2ps_get_video_stream_width : mpeg2ps_t -> Z -> Z;
  mpeg2ps_get_video_stream_height : mpeg2ps_t -> Z -> Z;
  mpeg2ps_get_video_stream_aspect_ratio : mpeg2ps_t -> Z -> Z;
  mpeg2ps_get_audio_stream_count : mpeg2ps_t -> nat;
  mpeg2ps_get_audio_stream_type : mpeg2ps_t -> Z -> mpeg2ps_audio_type_t;
  mpeg2ps_get_audio_stream_sample_freq : mpeg2ps_t -> Z -> Z;
  mpeg2ps_get_audio_stream_channels : mpeg2ps_t -> Z -> Z;
  mpeg2ps_get_audio_stream_bitrate : mpeg2ps_t -> Z -> Z;
  mpeg2ps_get_video_frame : mpeg2ps_t -> Z -> option VideoFrame * mpeg2ps_t;
  mpeg2ps_get_audio_frame : mpeg2ps_t -> Z -> option AudioFrame * mpeg2ps_t;
  mpeg2ps_seek_video_frame : mpeg2ps_t -> Z -> Z -> mpeg2ps_t;
  mpeg2ps_seek_audio_frame : mpeg2ps_t -> Z -> Z -> mpeg2ps_t
}.

(** *** Filter state *)

(** [M2PSStream]; [dts_inc] and [frames] are never read or written. *)
Record M2PSStream := {
  opid : nat;
  stream_type : Z;
  stream_num : Z;
  in_use : bool
}.

#[global] Instance M2PSStream_eq_dec : EqDecision M2PSStream.
Proof. solve_decision. Defined.

(** The input pid handed to [configure_pid]: its identity, the verdict of
    [gf_filter_pid_check_caps] and its [GF_PROP_PID_FILEPATH] property. *)
Record GF_FilterPid := {
  pid_id : nat;
  pid_check_caps : bool;
  pid_filepath : option string
}.

Inductive GF_FilterEvent :=
| GF_FEVT_PLAY (play_start_range : Double)
| GF_FEVT_STOP
| GF_FEVT_SET_SPEED
| GF_FEVT_OTHER.

Section Demux.
Context {lib : Mpeg2Ps}.

(** [GF_M2PSDmxCtx]: the fields the callbacks touch (the options
    [reframe], [index_dur] and the index fields are never used). *)
Record GF_M2PSDmxCtx := {
  ipid : option nat;
  src_url : option string;
  ps : option mpeg2ps_t;
  start_range : Double;
  first_dts : Z;
  is_playing : bool;
  in_seek : bool;
  streams : list M2PSStream
}.

Definition set_ipid (v : option nat) (c : GF_M2PSDmxCtx) : GF_M2PSDmxCtx :=
  {| ipid := v; src_url := src_url c; ps := ps c; start_range := start_range c;
     first_dts := first_dts c; is_playing := is_playing c; in_seek := in_seek c;
     streams := streams c |}.
Definition set_src_url (v : option string) (c : GF_M2PSDmxCtx) : GF_M2PSDmxCtx :=
  {| ipid := ipid c; src_url := v; ps := ps c; start_range := start_range c;
     first_dts := first_dts c; is_playing := is_playing c; in_seek := in_seek c;
     streams := streams c |}.
Definition set_ps (v : option mpeg2ps_t) (c : GF_M2PSDmxCtx) : GF_M2PSDmxCtx :=
  {| ipid := ipid c; src_url := src_url c; ps := v; start_range := start_range c;
     first_dts := first_dts c; is_playing := is_playing c; in_seek := in_seek c;
     streams := streams c |}.
Definition set_start_range (v : Double) (c : GF_M2PSDmxCtx) : GF_M2PSDmxCtx :=
  {| ipid := ipid c; src_url := src_url c; ps := ps c; start_range := v;
     first_dts := first_dts c; is_playing := is_playing c; in_seek := in_seek c;
     streams := streams c |}.
Definition set_first_dts (v : Z) (c : GF_M2PSDmxCtx) : GF_M2PSDmxCtx :=
  {| ipid := ipid c; src_url := src_url c; ps := ps c; start_range := start_range c;
     first_dts := v; is_playing := is_playing c; in_seek := in_seek c;
     streams := streams c |}.
Definition set_is_playing (v : bool) (c : GF_M2PSDmxCtx) : GF_M2PSDmxCtx :=
  {| ipid := ipid c; src_url := src_url c; ps := ps c; start_range := start_range c;
     first_dts := first_dts c; is_playing := v; in_seek := in_seek c;
     streams := streams c |}.
Definition set_in_seek (v : bool) (c : GF_M2PSDmxCtx) : GF_M2PSDmxCtx :=
  {| ipid := ipid c; src_url := src_url c; ps := ps c; start_range := start_range c;
     first_dts := first_dts c; is_playing := is_playing c; in_seek := v;
     streams := streams c |}.
Definition set_streams (v : list M2PSStream) (c : GF_M2PSDmxCtx) : GF_M2PSDmxCtx :=
  {| ipid := ipid c; src_url := src_url c; ps := ps c; start_range := start_range c;
     first_dts := first_dts c; is_playing := is_playing c; in_seek := in_seek c;
     streams := v |}.

(** The private state block is zeroed at allocation; [m2psdmx_initialize]
    creates the (empty) stream list. *)
Definition m2psdmx_initialize : GF_M2PSDmxCtx :=
  {| ipid := None; src_url := None; ps := None; start_range := 0%float;
     first_dts := 0; is_playing := false; in_seek := false; streams := [] |}.

(** *** [get_video_timing] : (timescale, dts_inc) *)
Definition get_video_timing (fps : Double) : Z * Z :=
  let fps_1000 := u32 (double_to_Z (fps * 1000 + 0.5)%float) in
  if fps_1000 =? 29970 then (30000, 1001)
  else if fps_1000 =? 23976 then (24000, 1001)
  else if fps_1000 =? 59940 then (60000, 1001)
  else (fps_1000, 1000).

(** *** [m2psdmx_setup] *)

Definition mark_stream (i : nat) (st : M2PSStream) : M2PSStream :=
  {| opid := opid st; stream_type := stream_type st;
     stream_num := Z.of_nat i; in_use := true |}.

(** The search loop [for (j=0; j<count; j++)]: the first entry of the
    given type that is not in use, with its position. *)
Definition find_unused (ty : Z) (sts : list M2PSStream) : option (nat * M2PSStream) :=
  list_find (fun st => stream_type st = ty /\ in_use st = false) sts.

(** The entry a stream of the source gets: the one found, or a fresh
    entry on a new pid, appended to the list. *)
Definition get_stream (ty : Z) (sts : list M2PSStream) (w : World)
  : nat * M2PSStream * list M2PSStream * World :=
  match find_unused ty sts with
  | Some (j, st) => (j, st, sts, w)
  | None =>
      let '(pid, w) := gf_filter_pid_new w in
      let st := {| opid := pid; stream_type := ty; stream_num := 0; in_use := false |} in
      (length sts, st, sts ++ [st], w)
  end.

(** The state the two loops of [m2psdmx_setup] carry: the stream list,
    [sync_id] and the session. *)
Definition SetupSt : Type := list M2PSStream * Z * World.

(** One round of the video loop, for stream [i] of the source. *)
Definition setup_video (p : mpeg2ps_t) (dur : PropVal) (acc : SetupSt) (i : nat) : SetupSt :=
  let '(sts, sync_id, w) := acc in
  let '(j, st, sts, w) := get_stream GF_STREAM_VISUAL sts w in
  let st := mark_stream i st in
  let sts := <[j := st]> sts in
  let sync_id := if sync_id =? 0 then u32 (1 + stream_num st) else sync_id in
  let o := opid st in
  let w := gf_filter_pid_set_property o GF_PROP_PID_STREAM_TYPE
             (Some (PROP_UINT (stream_type st))) w in
  let w := match mpeg2ps_get_video_stream_type p (stream_num st) with
           | MPEG_VIDEO_MPEG1 =>
               gf_filter_pid_set_property o GF_PROP_PID_OTI
                 (Some (PROP_UINT GPAC_OTI_VIDEO_MPEG1)) w
           | MPEG_VIDEO_MPEG2 =>
               gf_filter_pid_set_property o GF_PROP_PID_OTI
                 (Some (PROP_UINT GPAC_OTI_VIDEO_MPEG2_MAIN)) w
           | MPEG_VIDEO_UNKNOWN => w
           end in
  let w := gf_filter_pid_set_property o GF_PROP_PID_TIMESCALE (Some (PROP_UINT 90000)) w in
  let w := gf_filter_pid_set_property o GF_PROP_PID_ID
             (Some (PROP_UINT (u32 (1 + stream_num st)))) w in
  let w := gf_filter_pid_set_property o GF_PROP_PID_CLOCK_ID (Some (PROP_UINT sync_id)) w in
  let fps := mpeg2ps_get_video_stream_framerate p (Z.of_nat i) in
  let w := if negb (fps =? 0)%float then
             let '(ts, inc) := get_video_timing fps in
             gf_filter_pid_set_property o GF_PROP_PID_FPS (Some (PROP_FRAC (s32 ts) inc)) w
           else w in
  let w := gf_filter_pid_set_property o GF_PROP_PID_WIDTH
             (Some (PROP_UINT (mpeg2ps_get_video_stream_width p (Z.of_nat i)))) w in
  let w := gf_filter_pid_set_property o GF_PROP_PID_WIDTH
             (Some (PROP_UINT (mpeg2ps_get_video_stream_height p (Z.of_nat i)))) w in
  let par := mpeg2ps_get_video_stream_aspect_ratio p (Z.of_nat i) in
  let w := if negb (par =? 0) then
             gf_filter_pid_set_property o GF_PROP_PID_SAR
               (Some (PROP_FRAC (Z.shiftr par 16) (Z.land par 65535))) w
           else w in
  let w := gf_filter_pid_set_property o GF_PROP_PID_DURATION (Some dur) w in
  (sts, sync_id, w).

(** One round of the audio loop. *)
Definition setup_audio (p : mpeg2ps_t) (dur : PropVal) (acc : SetupSt) (i : nat) : SetupSt :=
  let '(sts, sync_id, w) := acc in
  match mpeg2ps_get_audio_stream_type p (Z.of_nat i) with
  | MPEG_AUDIO_UNKNOWN => acc
  | _ =>
      let '(j, st, sts, w) := get_stream GF_STREAM_AUDIO sts w in
      let st := mark_stream i st in
      let sts := <[j := st]> sts in
      let sync_id := if sync_id =? 0 then u32 (100 + stream_num st) else sync_id in
      let o := opid st in
      let w := gf_filter_pid_set_property o GF_PROP_PID_STREAM_TYPE
                 (Some (PROP_UINT (stream_type st))) w in
      let w := match mpeg2ps_get_audio_stream_type p (stream_num st) with
               | MPEG_AUDIO_MPEG =>
                   gf_filter_pid_set_property o GF_PROP_PID_OTI
                     (Some (PROP_UINT GPAC_OTI_AUDIO_MPEG1)) w
               | MPEG_AUDIO_AC3 =>
                   gf_filter_pid_set_property o GF_PROP_PID_OTI
                     (Some (PROP_UINT GPAC_OTI_AUDIO_AC3)) w
               | MPEG_AUDIO_LPCM =>
                   gf_filter_pid_set_property o GF_PROP_PID_OTI
                     (Some (PROP_UINT GF_4CC_LPCM)) w
               | MPEG_AUDIO_UNKNOWN => w
               end in
      let w := gf_filter_pid_set_property o GF_PROP_PID_SAMPLE_RATE
                 (Some (PROP_UINT (mpeg2ps_get_audio_stream_sample_freq p (Z.of_nat i)))) w in
      let w := gf_filter_pid_set_property o GF_PROP_PID_NUM_CHANNELS
                 (Some (PROP_UINT (mpeg2ps_get_audio_stream_channels p (Z.of_nat i)))) w in
      let w := gf_filter_pid_set_property o GF_PROP_PID_BITRATE
                 (Some (PROP_UINT (mpeg2ps_get_audio_stream_bitrate p (Z.of_nat i)))) w in
      let w := gf_filter_pid_set_property o GF_PROP_PID_TIMESCALE
                 (Some (PROP_UINT 90000)) w in
      let w := gf_filter_pid_set_property o GF_PROP_PID_ID
                 (Some (PROP_UINT (u32 (100 + stream_num st)))) w in
      let w := gf_filter_pid_set_property o GF_PROP_PID_CLOCK_ID
                 (Some (PROP_UINT sync_id)) w in
      let w := gf_filter_pid_set_property o GF_PROP_PID_DURATION (Some dur) w in
      (sts, sync_id, w)
  end.

(** [m2psdmx_setup], on the handle [p] that [ctx->ps] holds. *)
Definition m2psdmx_setup (p : mpeg2ps_t) (ctx : GF_M2PSDmxCtx) (w : World)
  : GF_M2PSDmxCtx * World :=
  let dur := PROP_FRAC (s32 (mpeg2ps_get_max_time_msec p)) 1000 in
  let ctx := set_first_dts (mpeg2ps_get_first_cts p) ctx in
  let acc : SetupSt := (streams ctx, 0, w) in
  let acc := foldl (setup_video p dur) acc (seq 0 (mpeg2ps_get_video_stream_count p)) in
  let acc := foldl (setup_audio p dur) acc (seq 0 (mpeg2ps_get_audio_stream_count p)) in
  let '(sts, _, w) := acc in
  (set_streams sts ctx, w).

(** *** [m2psdmx_configure_pid] *)

Definition mark_unused (st : M2PSStream) : M2PSStream :=
  {| opid := opid st; stream_type := stream_type st;
     stream_num := stream_num st; in_use := false |}.

(** [while (gf_list_count(ctx->streams))]: the entries are popped from
    the back and their pids removed. *)
Definition remove_streams (sts : list M2PSStream) (w : World) : World :=
  foldl (fun w st => gf_filter_pid_remove (opid st) w) w (reverse sts).

Definition mpeg2ps_close (w : World) : World := emit EvPsClose w.

Definition m2psdmx_configure_pid (w : World) (ctx : GF_M2PSDmxCtx)
    (pid : GF_FilterPid) (is_remove : bool) : GF_Err * GF_M2PSDmxCtx * World :=
  if is_remove then
    let ctx := set_ipid None ctx in
    let w := remove_streams (streams ctx) w in
    (GF_OK, set_streams [] ctx, w)
  else if negb (pid_check_caps pid) then (GF_NOT_SUPPORTED, ctx, w)
  else
    let ctx := set_ipid (Some (pid_id pid)) ctx in
    let w := gf_filter_pid_set_framing_mode (pid_id pid) true w in
    match pid_filepath pid with
    | None => (GF_NOT_SUPPORTED, ctx, w)
    | Some path =>
        if bool_decide (src_url ctx = Some path) then (GF_OK, ctx, w)
        else
          let '(ctx, w) :=
            match ps ctx with
            | Some _ =>
                (set_streams (mark_unused <$> streams ctx) ctx, mpeg2ps_close w)
            | None => (ctx, w)
            end in
          let ctx := set_ps None ctx in
          let ctx := set_src_url (Some path) ctx in
          (GF_OK, ctx, w)
    end.

(** *** [m2psdmx_process_event]: the flag returned cancels the event *)

Definition m2psdmx_process_event (ctx : GF_M2PSDmxCtx) (evt : GF_FilterEvent)
  : bool * GF_M2PSDmxCtx :=
  match evt with
  | GF_FEVT_PLAY range =>
      if is_playing ctx && (start_range ctx =? range)%float then (true, ctx)
      else
        let ctx := set_start_range range ctx in
        let ctx := set_is_playing true ctx in
        let ctx := set_in_seek true ctx in
        (true, ctx)
  | GF_FEVT_STOP => (false, set_is_playing false ctx)
  | GF_FEVT_SET_SPEED => (true, ctx)
  | GF_FEVT_OTHER => (false, ctx)
  end.

(** *** [m2psdmx_process] *)

Definition stream_kind (st : M2PSStream) : StreamKind :=
  if stream_type st =? GF_STREAM_VISUAL then Video else Audio.

(** One round of the seek loop. *)
Definition seek_stream (seek_to : Z) (acc : mpeg2ps_t * World) (st : M2PSStream)
  : mpeg2ps_t * World :=
  let '(p, w) := acc in
  if negb (in_use st) then acc
  else if stream_type st =? GF_STREAM_VISUAL then
    (mpeg2ps_seek_video_frame p (stream_num st) seek_to,
     emit (EvPsSeek Video (stream_num st) seek_to) w)
  else
    (mpeg2ps_seek_audio_frame p (stream_num st) seek_to,
     emit (EvPsSeek Audio (stream_num st) seek_to) w).

(** The test on the last bytes of a video frame: a trailing start code
    prefix [00 00 01 xx] is cut off.  (A frame shorter than four bytes
    is read out of bounds by the source; no prefix is seen here.) *)
Definition ends_with_start_code (buf : list Z) : bool :=
  let n := length buf in
  bool_decide (buf !! (n - 4)%nat = Some 0 /\ buf !! (n - 3)%nat = Some 0 /\
               buf !! (n - 2)%nat = Some 1 /\ (4 <= n)%nat).

(** The state of the dispatch loop: the handle, [nb_done], the session. *)
Definition DispatchSt : Type := mpeg2ps_t * nat * World.

(** One round of the dispatch loop, for the entry [st]. *)
Definition process_stream (first_dts : Z) (acc : DispatchSt) (st : M2PSStream)
  : DispatchSt :=
  let '(p, nb_done, w) := acc in
  if negb (in_use st) then (p, S nb_done, w)
  else if gf_filter_pid_would_block w (opid st) then acc
  else if stream_type st =? GF_STREAM_VISUAL then
    let w := emit (EvPsGetFrame Video (stream_num st)) w in
    match mpeg2ps_get_video_frame p (stream_num st) with
    | (None, p) => (p, S nb_done, w)
    | (Some fr, p) =>
        let dts := u64 (vf_dts fr - first_dts) in
        let cts := u64 (vf_cts fr - first_dts) in
        let buf := vf_buf fr in
        let buf := if ends_with_start_code buf then take (length buf - 4) buf else buf in
        let w := gf_filter_pck_new_alloc (opid st) (Z.of_nat (length buf)) w in
        let dst_pck := pck_new buf in
        let dst_pck := if vf_ftype fr =? 1
                       then gf_filter_pck_set_sap dst_pck GF_FILTER_SAP_1 else dst_pck in
        let dst_pck := gf_filter_pck_set_dts dst_pck dts in
        let dst_pck := gf_filter_pck_set_cts dst_pck cts in
        (p, nb_done, gf_filter_pck_send (opid st) dst_pck w)
    end
  else
    let w := emit (EvPsGetFrame Audio (stream_num st)) w in
    match mpeg2ps_get_audio_frame p (stream_num st) with
    | (None, p) => (p, S nb_done, w)
    | (Some fr, p) =>
        let cts := u64 (af_cts fr - first_dts) in
        let buf := af_buf fr in
        let w := gf_filter_pck_new_alloc (opid st) (Z.of_nat (length buf)) w in
        let dst_pck := pck_new buf in
        let dst_pck := gf_filter_pck_set_sap dst_pck GF_FILTER_SAP_1 in
        let dst_pck := gf_filter_pck_set_cts dst_pck cts in
        (p, nb_done, gf_filter_pck_send (opid st) dst_pck w)
    end.

(** The end of [m2psdmx_process], from [nb_done = 0] on, with the
    handle [p] open and the filter playing. *)
Definition m2psdmx_dispatch (p : mpeg2ps_t) (ctx : GF_M2PSDmxCtx) (w : World)
  : Outcome * GF_M2PSDmxCtx * World :=
  let sts := streams ctx in
  let count := length sts in
  let '(p, ctx, w) :=
    if in_seek ctx then
      let seek_to := u64 (double_to_Z (1000 * start_range ctx)%float) in
      let '(p, w) := foldl (seek_stream seek_to) (p, w) sts in
      (p, set_in_seek false ctx, w)
    else (p, ctx, w) in
  let '(p, nb_done, w) := foldl (process_stream (first_dts ctx)) (p, 0%nat, w) sts in
  let ctx := set_ps (Some p) ctx in
  if (nb_done =? count)%nat then
    let w := foldl (fun w st => gf_filter_pid_set_eos (opid st) w) w sts in
    let w := gf_filter_pid_drop_packet w in
    (Ret GF_EOS, ctx, w)
  else (Ret GF_OK, ctx, w).

Definition m2psdmx_process (w : World) (ctx : GF_M2PSDmxCtx)
  : Outcome * GF_M2PSDmxCtx * World :=
  match gf_filter_pid_get_packet w with
  | None => (Ret GF_OK, ctx, w)
  | Some pck =>
      (* for now we only work with complete files: assert(end) *)
      if negb (in_end pck) then (Abort, ctx, w)
      else
        let opened :=
          match ps ctx with
          | Some p => inr (p, ctx, w)
          | None =>
              let w := emit (EvPsInit (src_url ctx)) w in
              match mpeg2ps_init (src_url ctx) with
              | None =>
                  let e := if negb (gf_file_exists (src_url ctx))
                           then GF_URL_ERROR else GF_NON_COMPLIANT_BITSTREAM in
                  inl (gf_filter_setup_failure e w)
              | Some p =>
                  let '(ctx, w) := m2psdmx_setup p (set_ps (Some p) ctx) w in
                  inr (p, ctx, w)
              end
          end in
        match opened with
        | inl w => (Ret GF_NOT_SUPPORTED, ctx, w)
        | inr (p, ctx, w) =>
            if negb (is_playing ctx) then (Ret GF_OK, ctx, w)
            else m2psdmx_dispatch p ctx w
        end
  end.

(** [m2psdmx_finalize] frees the stream entries and closes the handle. *)
Definition m2psdmx_finalize (w : World) (ctx : GF_M2PSDmxCtx) : GF_M2PSDmxCtx * World :=
  let w := match ps ctx with Some _ => mpeg2ps_close w | None => w end in
  (set_streams [] ctx, w).

End Demux.

Arguments GF_M2PSDmxCtx : clear implicits.
End M2PSDmx.

(** ** The FFmpeg encoder ([ff_enc.c]) *)

Module FFEnc.

(** *** The codec engine (libavcodec) *)

(** A plane pointer of a frame: null, an offset into the payload of the
    input packet, or an address a hardware frame gave. *)
Inductive DataPtr :=
| PNull
| PPck (off : Z)
| PExt (addr : Z).

Definition ptr_add (p : DataPtr) (n : Z) : DataPtr :=
  match p with
  | PNull => PNull
  | PPck off => PPck (off + n)
  | PExt a => PExt (a + n)
  end.

Record AVFrame := {
  pict_type : Z;
  f_width : Z;
  f_height : Z;
  format : Z;
  data0 : DataPtr;
  data1 : DataPtr;
  data2 : DataPtr;
  linesize0 : Z;
  linesize1 : Z;
  linesize2 : Z;
  interlaced_frame : Z;
  top_field_first : Z;
  pts : Z;
  f_pkt_pts : Z;
  f_pkt_dts : Z;
  nb_samples : Z
}.

Definition set_pict_type (v : Z) (fr : AVFrame) : AVFrame :=
  {| pict_type := v; f_width := f_width fr; f_height := f_height fr; format := format fr;
     data0 := data0 fr; data1 := data1 fr; data2 := data2 fr; linesize0 := linesize0 fr;
     linesize1 := linesize1 fr; linesize2 := linesize2 fr;
     interlaced_frame := interlaced_frame fr; top_field_first := top_field_first fr;
     pts := pts fr; f_pkt_pts := f_pkt_pts fr; f_pkt_dts := f_pkt_dts fr;
     nb_samples := nb_samples fr |}.
Definition set_f_width (v : Z) (fr : AVFrame) : AVFrame :=
  {| pict_type := pict_type fr; f_width := v; f_height := f_height fr;
     format := format fr; data0 := data0 fr; data1 := data1 fr; data2 := data2 fr;
     linesize0 := linesize0 fr; linesize1 := linesize1 fr; linesize2 := linesize2 fr;
     interlaced_frame := interlaced_frame fr; top_field_first := top_field_first fr;
     pts := pts fr; f_pkt_pts := f_pkt_pts fr; f_pkt_dts := f_pkt_dts fr;
     nb_samples := nb_samples fr |}.
Definition set_f_height (v : Z) (fr : AVFrame) : AVFrame :=
  {| pict_type := pict_type fr; f_width := f_width fr; f_height := v;
     format := format fr; data0 := data0 fr; data1 := data1 fr; data2 := data2 fr;
     linesize0 := linesize0 fr; linesize1 := linesize1 fr; linesize2 := linesize2 fr;
     interlaced_frame := interlaced_frame fr; top_field_first := top_field_first fr;
     pts := pts fr; f_pkt_pts := f_pkt_pts fr; f_pkt_dts := f_pkt_dts fr;
     nb_samples := nb_samples fr |}.
Definition set_format (v : Z) (fr : AVFrame) : AVFrame :=
  {| pict_type := pict_type fr; f_width := f_width fr; f_height := f_height fr;
     format := v; data0 := data0 fr; data1 := data1 fr; data2 := data2 fr;
     linesize0 := linesize0 fr; linesize1 := linesize1 fr; linesize2 := linesize2 fr;
     interlaced_frame := interlaced_frame fr; top_field_first := top_field_first fr;
     pts := pts fr; f_pkt_pts := f_pkt_pts fr; f_pkt_dts := f_pkt_dts fr;
     nb_samples := nb_samples fr |}.
Definition set_data0 (v : DataPtr) (fr : AVFrame) : AVFrame :=
  {| pict_type := pict_type fr; f_width := f_width fr; f_height := f_height fr;
     format := format fr; data0 := v; data1 := data1 fr; data2 := data2 fr;
     linesize0 := linesize0 fr; linesize1 := linesize1 fr; linesize2 := linesize2 fr;
     interlaced_frame := interlaced_frame fr; top_field_first := top_field_first fr;
     pts := pts fr; f_pkt_pts := f_pkt_pts fr; f_pkt_dts := f_pkt_dts fr;
     nb_samples := nb_samples fr |}.
Definition set_data1 (v : DataPtr) (fr : AVFrame) : AVFrame :=
  {| pict_type := pict_type fr; f_width := f_width fr; f_height := f_height fr;
     format := format fr; data0 := data0 fr; data1 := v; data2 := data2 fr;
     linesize0 := linesize0 fr; linesize1 := linesize1 fr; linesize2 := linesize2 fr;
     interlaced_frame := interlaced_frame fr; top_field_first := top_field_first fr;
     pts := pts fr; f_pkt_pts := f_pkt_pts fr; f_pkt_dts := f_pkt_dts fr;
     nb_samples := nb_samples fr |}.
Definition set_data2 (v : DataPtr) (fr : AVFrame) : AVFrame :=
  {| pict_type := pict_type fr; f_width := f_width fr; f_height := f_height fr;
     format := format fr; data0 := data0 fr; data1 := data1 fr; data2 := v;
     linesize0 := linesize0 fr; linesize1 := linesize1 fr; linesize2 := linesize2 fr;
     interlaced_frame := interlaced_frame fr; top_field_first := top_field_first fr;
     pts := pts fr; f_pkt_pts := f_pkt_pts fr; f_pkt_dts := f_pkt_dts fr;
     nb_samples := nb_samples fr |}.
Definition set_linesize0 (v : Z) (fr : AVFrame) : AVFrame :=
  {| pict_type := pict_type fr; f_width := f_width fr; f_height := f_height fr;
     format := format fr; data0 := data0 fr; data1 := data1 fr; data2 := data2 fr;
     linesize0 := v; linesize1 := linesize1 fr; linesize2 := linesize2 fr;
     interlaced_frame := interlaced_frame fr; top_field_first := top_field_first fr;
     pts := pts fr; f_pkt_pts := f_pkt_pts fr; f_pkt_dts := f_pkt_dts fr;
     nb_samples := nb_samples fr |}.
Definition set_linesize1 (v : Z) (fr : AVFrame) : AVFrame :=
  {| pict_type := pict_type fr; f_width := f_width fr; f_height := f_height fr;
     format := format fr; data0 := data0 fr; data1 := data1 fr; data2 := data2 fr;
     linesize0 := linesize0 fr; linesize1 := v; linesize2 := linesize2 fr;
     interlaced_frame := interlaced_frame fr; top_field_first := top_field_first fr;
     pts := pts fr; f_pkt_pts := f_pkt_pts fr; f_pkt_dts := f_pkt_dts fr;
     nb_samples := nb_samples fr |}.
Definition set_linesize2 (v : Z) (fr : AVFrame) : AVFrame :=
  {| pict_type := pict_type fr; f_width := f_width fr; f_height := f_height fr;
     format := format fr; data0 := data0 fr; data1 := data1 fr; data2 := data2 fr;
     linesize0 := linesize0 fr; linesize1 := linesize1 fr; linesize2 := v;
     interlaced_frame := interlaced_frame fr; top_field_first := top_field_first fr;
     pts := pts fr; f_pkt_pts := f_pkt_pts fr; f_pkt_dts := f_pkt_dts fr;
     nb_samples := nb_samples fr |}.
Definition set_interlaced_frame (v : Z) (fr : AVFrame) : AVFrame :=
  {| pict_type := pict_type fr; f_width := f_width fr; f_height := f_height fr;
     format := format fr; data0 := data0 fr; data1 := data1 fr; data2 := data2 fr;
     linesize0 := linesize0 fr; linesize1 := linesize1 fr; linesize2 := linesize2 fr;
     interlaced_frame := v; top_field_first := top_field_first fr; pts := pts fr;
     f_pkt_pts := f_pkt_pts fr; f_pkt_dts := f_pkt_dts fr; nb_samples := nb_samples fr |}.
Definition set_top_field_first (v : Z) (fr : AVFrame) : AVFrame :=
  {| pict_type := pict_type fr; f_width := f_width fr; f_height := f_height fr;
     format := format fr; data0 := data0 fr; data1 := data1 fr; data2 := data2 fr;
     linesize0 := linesize0 fr; linesize1 := linesize1 fr; linesize2 := linesize2 fr;
     interlaced_frame := interlaced_frame fr; top_field_first := v; pts := pts fr;
     f_pkt_pts := f_pkt_pts fr; f_pkt_dts := f_pkt_dts fr; nb_samples := nb_samples fr |}.
Definition set_pts (v : Z) (fr : AVFrame) : AVFrame :=
  {| pict_type := pict_type fr; f_width := f_width fr; f_height := f_height fr;
     format := format fr; data0 := data0 fr; data1 := data1 fr; data2 := data2 fr;
     linesize0 := linesize0 fr; linesize1 := linesize1 fr; linesize2 := linesize2 fr;
     interlaced_frame := interlaced_frame fr; top_field_first := top_field_first fr;
     pts := v; f_pkt_pts := f_pkt_pts fr; f_pkt_dts := f_pkt_dts fr;
     nb_samples := nb_samples fr |}.
Definition set_f_pkt_pts (v : Z) (fr : AVFrame) : AVFrame :=
  {| pict_type := pict_type fr; f_width := f_width fr; f_height := f_height fr;
     format := format fr; data0 := data0 fr; data1 := data1 fr; data2 := data2 fr;
     linesize0 := linesize0 fr; linesize1 := linesize1 fr; linesize2 := linesize2 fr;
     interlaced_frame := interlaced_frame fr; top_field_first := top_field_first fr;
     pts := pts fr; f_pkt_pts := v; f_pkt_dts := f_pkt_dts fr;
     nb_samples := nb_samples fr |}.
Definition set_f_pkt_dts (v : Z) (fr : AVFrame) : AVFrame :=
  {| pict_type := pict_type fr; f_width := f_width fr; f_height := f_height fr;
     format := format fr; data0 := data0 fr; data1 := data1 fr; data2 := data2 fr;
     linesize0 := linesize0 fr; linesize1 := linesize1 fr; linesize2 := linesize2 fr;
     interlaced_frame := interlaced_frame fr; top_field_first := top_field_first fr;
     pts := pts fr; f_pkt_pts := f_pkt_pts fr; f_pkt_dts := v;
     nb_samples := nb_samples fr |}.
Definition set_nb_samples (v : Z) (fr : AVFrame) : AVFrame :=
  {| pict_type := pict_type fr; f_width := f_width fr; f_height := f_height fr;
     format := format fr; data0 := data0 fr; data1 := data1 fr; data2 := data2 fr;
     linesize0 := linesize0 fr; linesize1 := linesize1 fr; linesize2 := linesize2 fr;
     interlaced_frame := interlaced_frame fr; top_field_first := top_field_first fr;
     pts := pts fr; f_pkt_pts := f_pkt_pts fr; f_pkt_dts := f_pkt_dts fr;
     nb_samples := v |}.

(** [av_frame_alloc]: a zeroed frame. *)
Definition av_frame_alloc : AVFrame :=
  {| pict_type := 0; f_width := 0; f_height := 0; format := 0;
     data0 := PNull; data1 := PNull; data2 := PNull;
     linesize0 := 0; linesize1 := 0; linesize2 := 0;
     interlaced_frame := 0; top_field_first := 0;
     pts := 0; f_pkt_pts := 0; f_pkt_dts := 0; nb_samples := 0 |}.

(** The engine is opaque: the codec context and the calls made on it.  An
    encode call gets the size of the output buffer and the frame, or no
    frame (a flush), and leaves the context changed. *)
Class AVCodec := {
  AVCodecContext : Type;
  frame_size : AVCodecContext -> Z;
  avcodec_encode_video2 : AVCodecContext -> Z -> option AVFrame -> EncReply * AVCodecContext;
  avcodec_encode_audio2 : AVCodecContext -> Z -> option AVFrame -> EncReply * AVCodecContext;
  avcodec_fill_audio_frame : AVFrame -> Z -> Z -> list Z -> Z -> Z * AVFrame
}.

Section Encoder.
Context {codec : AVCodec}.

(** [GF_FFEncodeCtx] as [ffenc_config_input] leaves it once the codec
    is open: [encoder], [frame] and [out_pid] are set and [process] is
    [ffenc_process_video] or [ffenc_process_audio].  The options
    dictionary and the fields only [ffenc_config_input] reads are left
    out; the bytes of [enc_buffer] are those of the reply. *)
Record GF_FFEncodeCtx := {
  all_intra : bool;
  encoder : AVCodecContext;
  in_pid : nat;
  out_pid : nat;
  timescale : Z;
  process : StreamKind;
  flush_done : bool;
  frame : AVFrame;
  enc_buffer_size : Z;
  width : Z;
  height : Z;
  stride : Z;
  stride_uv : Z;
  nb_planes : Z;
  pixel_fmt : Z;
  channels : Z;
  sample_rate : Z;
  bytes_per_sample : Z;
  sample_fmt : Z;
  audio_buffer : list Z;
  bytes_in_audio_buffer : Z;
  first_byte_cts : Z;
  init_cts_setup : bool;
  ts_shift : Z
}.

Definition set_encoder (v : AVCodecContext) (c : GF_FFEncodeCtx) : GF_FFEncodeCtx :=
  {| all_intra := all_intra c; encoder := v; in_pid := in_pid c; out_pid := out_pid c;
     timescale := timescale c; process := process c; flush_done := flush_done c;
     frame := frame c; enc_buffer_size := enc_buffer_size c; width := width c;
     height := height c; stride := stride c; stride_uv := stride_uv c;
     nb_planes := nb_planes c; pixel_fmt := pixel_fmt c; channels := channels c;
     sample_rate := sample_rate c; bytes_per_sample := bytes_per_sample c;
     sample_fmt := sample_fmt c; audio_buffer := audio_buffer c;
     bytes_in_audio_buffer := bytes_in_audio_buffer c;
     first_byte_cts := first_byte_cts c; init_cts_setup := init_cts_setup c;
     ts_shift := ts_shift c |}.
Definition set_flush_done (v : bool) (c : GF_FFEncodeCtx) : GF_FFEncodeCtx :=
  {| all_intra := all_intra c; encoder := encoder c; in_pid := in_pid c;
     out_pid := out_pid c; timescale := timescale c; process := process c;
     flush_done := v; frame := frame c; enc_buffer_size := enc_buffer_size c;
     width := width c; height := height c; stride := stride c;
     stride_uv := stride_uv c; nb_planes := nb_planes c; pixel_fmt := pixel_fmt c;
     channels := channels c; sample_rate := sample_rate c;
     bytes_per_sample := bytes_per_sample c; sample_fmt := sample_fmt c;
     audio_buffer := audio_buffer c; bytes_in_audio_buffer := bytes_in_audio_buffer c;
     first_byte_cts := first_byte_cts c; init_cts_setup := init_cts_setup c;
     ts_shift := ts_shift c |}.
Definition set_frame (v : AVFrame) (c : GF_FFEncodeCtx) : GF_FFEncodeCtx :=
  {| all_intra := all_intra c; encoder := encoder c; in_pid := in_pid c;
     out_pid := out_pid c; timescale := timescale c; process := process c;
     flush_done := flush_done c; frame := v; enc_buffer_size := enc_buffer_size c;
     width := width c; height := height c; stride := stride c;
     stride_uv := stride_uv c; nb_planes := nb_planes c; pixel_fmt := pixel_fmt c;
     channels := channels c; sample_rate := sample_rate c;
     bytes_per_sample := bytes_per_sample c; sample_fmt := sample_fmt c;
     audio_buffer := audio_buffer c; bytes_in_audio_buffer := bytes_in_audio_buffer c;
     first_byte_cts := first_byte_cts c; init_cts_setup := init_cts_setup c;
     ts_shift := ts_shift c |}.
Definition set_audio_buffer (v : list Z) (c : GF_FFEncodeCtx) : GF_FFEncodeCtx :=
  {| all_intra := all_intra c; encoder := encoder c; in_pid := in_pid c;
     out_pid := out_pid c; timescale := timescale c; process := process c;
     flush_done := flush_done c; frame := frame c;
     enc_buffer_size := enc_buffer_size c; width := width c; height := height c;
     stride := stride c; stride_uv := stride_uv c; nb_planes := nb_planes c;
     pixel_fmt := pixel_fmt c; channels := channels c; sample_rate := sample_rate c;
     bytes_per_sample := bytes_per_sample c; sample_fmt := sample_fmt c;
     audio_buffer := v; bytes_in_audio_buffer := bytes_in_audio_buffer c;
     first_byte_cts := first_byte_cts c; init_cts_setup := init_cts_setup c;
     ts_shift := ts_shift c |}.
Definition set_bytes_in_audio_buffer (v : Z) (c : GF_FFEncodeCtx) : GF_FFEncodeCtx :=
  {| all_intra := all_intra c; encoder := encoder c; in_pid := in_pid c;
     out_pid := out_pid c; timescale := timescale c; process := process c;
     flush_done := flush_done c; frame := frame c;
     enc_buffer_size := enc_buffer_size c; width := width c; height := height c;
     stride := stride c; stride_uv := stride_uv c; nb_planes := nb_planes c;
     pixel_fmt := pixel_fmt c; channels := channels c; sample_rate := sample_rate c;
     bytes_per_sample := bytes_per_sample c; sample_fmt := sample_fmt c;
     audio_buffer := audio_buffer c; bytes_in_audio_buffer := v;
     first_byte_cts := first_byte_cts c; init_cts_setup := init_cts_setup c;
     ts_shift := ts_shift c |}.
Definition set_first_byte_cts (v : Z) (c : GF_FFEncodeCtx) : GF_FFEncodeCtx :=
  {| all_intra := all_intra c; encoder := encoder c; in_pid := in_pid c;
     out_pid := out_pid c; timescale := timescale c; process := process c;
     flush_done := flush_done c; frame := frame c;
     enc_buffer_size := enc_buffer_size c; width := width c; height := height c;
     stride := stride c; stride_uv := stride_uv c; nb_planes := nb_planes c;
     pixel_fmt := pixel_fmt c; channels := channels c; sample_rate := sample_rate c;
     bytes_per_sample := bytes_per_sample c; sample_fmt := sample_fmt c;
     audio_buffer := audio_buffer c; bytes_in_audio_buffer := bytes_in_audio_buffer c;
     first_byte_cts := v; init_cts_setup := init_cts_setup c; ts_shift := ts_shift c |}.
Definition set_init_cts_setup (v : bool) (c : GF_FFEncodeCtx) : GF_FFEncodeCtx :=
  {| all_intra := all_intra c; encoder := encoder c; in_pid := in_pid c;
     out_pid := out_pid c; timescale := timescale c; process := process c;
     flush_done := flush_done c; frame := frame c;
     enc_buffer_size := enc_buffer_size c; width := width c; height := height c;
     stride := stride c; stride_uv := stride_uv c; nb_planes := nb_planes c;
     pixel_fmt := pixel_fmt c; channels := channels c; sample_rate := sample_rate c;
     bytes_per_sample := bytes_per_sample c; sample_fmt := sample_fmt c;
     audio_buffer := audio_buffer c; bytes_in_audio_buffer := bytes_in_audio_buffer c;
     first_byte_cts := first_byte_cts c; init_cts_setup := v; ts_shift := ts_shift c |}.
Definition set_ts_shift (v : Z) (c : GF_FFEncodeCtx) : GF_FFEncodeCtx :=
  {| all_intra := all_intra c; encoder := encoder c; in_pid := in_pid c;
     out_pid := out_pid c; timescale := timescale c; process := process c;
     flush_done := flush_done c; frame := frame c;
     enc_buffer_size := enc_buffer_size c; width := width c; height := height c;
     stride := stride c; stride_uv := stride_uv c; nb_planes := nb_planes c;
     pixel_fmt := pixel_fmt c; channels := channels c; sample_rate := sample_rate c;
     bytes_per_sample := bytes_per_sample c; sample_fmt := sample_fmt c;
     audio_buffer := audio_buffer c; bytes_in_audio_buffer := bytes_in_audio_buffer c;
     first_byte_cts := first_byte_cts c; init_cts_setup := init_cts_setup c;
     ts_shift := v |}.

(** [memcpy(dst + off, src, length src)] on a byte buffer. *)
Definition memcpy (dst : list Z) (off : nat) (src : list Z) : list Z :=
  take off (dst ++ replicate (off - length dst) 0) ++ src
    ++ drop (off + length src) dst.

(** The end of both process functions once a coded unit is there: the
    output packet, allocated and filled, gets its timestamps, SAP and
    duration and is sent. *)
Definition send_packet (pkt : AVPacket) (shift : Z) (pid : nat) (w : World) : World :=
  let dst_pck := pck_new (pkt_data pkt) in
  let dst_pck := gf_filter_pck_set_cts dst_pck (pkt_pts pkt + shift) in
  let dst_pck := gf_filter_pck_set_dts dst_pck (pkt_dts pkt + shift) in
  let dst_pck := if negb (Z.land (pkt_flags pkt) AV_PKT_FLAG_KEY =? 0)
                 then gf_filter_pck_set_sap dst_pck GF_FILTER_SAP_1
                 else gf_filter_pck_set_sap dst_pck 0 in
  let dst_pck := gf_filter_pck_set_duration dst_pck (pkt_duration pkt) in
  gf_filter_pck_send pid dst_pck w.

(** The same with the allocation, which [ffenc_process_video] makes
    right before. *)
Definition send_coded (pkt : AVPacket) (shift : Z) (pid : nat) (w : World) : World :=
  let w := gf_filter_pck_new_alloc pid (Z.of_nat (length (pkt_data pkt))) w in
  send_packet pkt shift pid w.

(** *** [ffenc_process_video] *)

(** The planes of a packet that carries its data. *)
Definition video_planes (ctx : GF_FFEncodeCtx) (fr : AVFrame) : AVFrame :=
  let fr := set_data0 (PPck 0) fr in
  let fr := set_linesize0 (stride ctx) fr in
  if 1 <? nb_planes ctx then
    let d1 := PPck (u32 (stride ctx * height ctx)) in
    let fr := set_data1 d1 fr in
    let fr := set_linesize1
                (if negb (stride_uv ctx =? 0) then stride_uv ctx else stride ctx / 2) fr in
    if 2 <? nb_planes ctx then
      let fr := set_data2 (ptr_add d1 (u32 (stride_uv ctx * height ctx) / 2)) fr in
      set_linesize2 (linesize1 fr) fr
    else set_linesize2 0 fr
  else set_linesize1 0 fr.

(** The planes of a packet that carries a hardware frame. *)
Definition hw_planes (ctx : GF_FFEncodeCtx) (pck : InPck) (fr : AVFrame) : GF_Err * AVFrame :=
  match in_hw_frame pck with
  | Some hw =>
      match get_plane hw with
      | Some gp =>
          let '(e, d0, l0) := gp 0 in
          let fr := set_linesize0 l0 (set_data0 (PExt d0) fr) in
          if bool_decide (e = GF_OK) && (1 <? nb_planes ctx) then
            let '(e, d1, l1) := gp 1 in
            let fr := set_linesize1 l1 (set_data1 (PExt d1) fr) in
            if bool_decide (e = GF_OK) && (2 <? nb_planes ctx) then
              (* plane 1 is asked for again, into data[2] *)
              let '(e, d2, l2) := gp 1 in
              (e, set_linesize2 l2 (set_data2 (PExt d2) fr))
            else (e, fr)
          else (e, fr)
      | None => (GF_NOT_SUPPORTED, fr)
      end
  | None => (GF_NOT_SUPPORTED, fr)
  end.

(** From [if (res<0)] to the end of [ffenc_process_video]. *)
Definition video_tail (r : EncReply) (ctx : GF_FFEncodeCtx) (w : World)
  : GF_Err * GF_FFEncodeCtx * World :=
  if enc_res r <? 0 then
    (GF_SERVICE_ERROR, ctx, GF_LOG GF_LOG_ERROR "[FFEnc] Error encoding frame" w)
  else if enc_gotpck r =? 0 then (GF_OK, ctx, w)
  else (GF_OK, ctx, send_coded (enc_pkt r) 0 (out_pid ctx) w).

Definition ffenc_process_video (w : World) (ctx : GF_FFEncodeCtx)
  : GF_Err * GF_FFEncodeCtx * World :=
  let pck := gf_filter_pid_get_packet w in
  if bool_decide (pck = None) && flush_done ctx && negb (gf_filter_pid_is_eos w)
  then (GF_OK, ctx, w)
  else
    let fr := frame ctx in
    let fr := set_pict_type 0 fr in
    let fr := set_f_width (width ctx) fr in
    let fr := set_f_height (height ctx) fr in
    let fr := set_format (pixel_fmt ctx) fr in
    let fr := if all_intra ctx then set_pict_type AV_PICTURE_TYPE_I fr else fr in
    match pck with
    | Some pk =>
        let '(e, fr) :=
          match in_data pk with
          | Some _ => (GF_OK, video_planes ctx fr)
          | None => hw_planes ctx pk fr
          end in
        if bool_decide (e <> GF_OK) then
          let w := GF_LOG GF_LOG_ERROR "[FFEnc] Failed to fetch frame data" w in
          let w := gf_filter_pid_drop_packet w in
          (e, set_frame fr ctx, w)
        else
          let ilaced := in_interlaced pk in
          let fr := if ilaced =? 0 then set_interlaced_frame 0 fr
                    else set_top_field_first (if ilaced =? 2 then 1 else 0)
                           (set_interlaced_frame 1 fr) in
          let cts := s64 (in_cts pk) in
          let fr := set_f_pkt_dts cts (set_f_pkt_pts cts (set_pts cts fr)) in
          let '(r, enc) := avcodec_encode_video2 (encoder ctx) (enc_buffer_size ctx) (Some fr) in
          let w := emit (EvEncode Video (Some (pts fr)) r) w in
          let ctx := set_encoder enc (set_frame fr ctx) in
          let w := gf_filter_pid_drop_packet w in
          video_tail r ctx w
    | None =>
        let '(r, enc) := avcodec_encode_video2 (encoder ctx) (enc_buffer_size ctx) None in
        let w := emit (EvEncode Video None r) w in
        let ctx := set_encoder enc (set_frame fr ctx) in
        if enc_gotpck r =? 0 then
          let ctx := set_flush_done true ctx in
          let w := gf_filter_pid_set_eos (out_pid ctx) w in
          (GF_EOS, ctx, w)
        else video_tail r ctx w
    end.

(** *** [ffenc_process_audio] *)

(** The statements under [if (size)] that keep the bytes the frame did
    not take, and date them. *)
Definition keep_remaining (pk : InPck) (data : list Z) (size nb_copy : Z)
    (ctx : GF_FFEncodeCtx) : GF_FFEncodeCtx :=
  let ctx := set_bytes_in_audio_buffer size ctx in
  if negb (size =? 0) then
    let ts_diff := nb_copy / bytes_per_sample ctx in
    let ctx := set_audio_buffer
                 (memcpy (audio_buffer ctx) 0 (take (Z.to_nat size) data)) ctx in
    let ts_diff := u64 (ts_diff * timescale ctx) in
    let ts_diff := ts_diff / sample_rate ctx in
    set_first_byte_cts (u64 (in_cts pk + ts_diff)) ctx
  else ctx.

(** The frame handed to the encoder, from [if (ctx->encoder->frame_size)]
    to the calls of [avcodec_fill_audio_frame]: a codec with a frame
    size gets the buffer topped up to one frame, another one the whole
    packet.  The result code comes with [nb_copy] and what is left of
    the packet ([data], [size]). *)
Definition fill_frame (data : list Z) (size : Z) (ctx : GF_FFEncodeCtx)
  : Z * Z * list Z * Z * GF_FFEncodeCtx :=
  let fs := frame_size (encoder ctx) in
  if negb (fs =? 0) then
    let nb_copy := u32 (bytes_per_sample ctx * fs - bytes_in_audio_buffer ctx) in
    let ctx := set_audio_buffer
                 (memcpy (audio_buffer ctx)
                    (Z.to_nat (bytes_in_audio_buffer ctx))
                    (take (Z.to_nat nb_copy) data)) ctx in
    let ctx := set_bytes_in_audio_buffer
                 (u32 (bytes_in_audio_buffer ctx + nb_copy)) ctx in
    let data := drop (Z.to_nat nb_copy) data in
    let size := u32 (size - nb_copy) in
    let fr := set_nb_samples fs (frame ctx) in
    let '(res, fr) :=
      avcodec_fill_audio_frame fr (channels ctx) (sample_fmt ctx)
        (audio_buffer ctx) (bytes_in_audio_buffer ctx) in
    (res, nb_copy, data, size, set_frame fr ctx)
  else
    let fr := set_nb_samples (size / bytes_per_sample ctx) (frame ctx) in
    let '(res, fr) :=
      avcodec_fill_audio_frame fr (channels ctx) (sample_fmt ctx) data size in
    (res, 0, [], 0, set_frame fr ctx).

(** The capture of the timestamp shift, under [if (ctx->init_cts_setup)]. *)
Definition capture_ts_shift (pkt : AVPacket) (ctx : GF_FFEncodeCtx) (w : World)
  : GF_FFEncodeCtx * World :=
  if init_cts_setup ctx then
    let ctx := set_init_cts_setup false ctx in
    let ctx := if negb (pts (frame ctx) =? pkt_pts pkt)
               then set_ts_shift (s32 (s64 (pts (frame ctx) - pkt_pts pkt))) ctx
               else ctx in
    if negb (ts_shift ctx =? 0) then
      let shift := ts_shift ctx in
      let shift := s64 (shift * sample_rate ctx) in
      let shift := Z.quot shift (timescale ctx) in
      (ctx, gf_filter_pid_set_property (out_pid ctx) GF_PROP_PID_AUDIO_SKIP
              (Some (PROP_UINT (u32 (s32 shift)))) w)
    else (ctx, w)
  else (ctx, w).

(** From [if (res<0)] to the end of [ffenc_process_audio]: the output
    packet is allocated before the shift is captured. *)
Definition audio_tail (r : EncReply) (ctx : GF_FFEncodeCtx) (w : World)
  : GF_Err * GF_FFEncodeCtx * World :=
  if enc_res r <? 0 then
    (GF_SERVICE_ERROR, ctx, GF_LOG GF_LOG_ERROR "[FFEnc] Error encoding frame" w)
  else if enc_gotpck r =? 0 then (GF_OK, ctx, w)
  else
    let w := gf_filter_pck_new_alloc (out_pid ctx)
               (Z.of_nat (length (pkt_data (enc_pkt r)))) w in
    let '(ctx, w) := capture_ts_shift (enc_pkt r) ctx w in
    (GF_OK, ctx, send_packet (enc_pkt r) (ts_shift ctx) (out_pid ctx) w).

Definition ffenc_process_audio (w : World) (ctx : GF_FFEncodeCtx)
  : GF_Err * GF_FFEncodeCtx * World :=
  let pck := gf_filter_pid_get_packet w in
  if bool_decide (pck = None) && flush_done ctx && negb (gf_filter_pid_is_eos w)
  then (GF_OK, ctx, w)
  else
    match pck with
    | Some pk =>
        match in_data pk with
        | None =>
            let w := GF_LOG GF_LOG_WARNING "[FFEnc] Packet without associated data" w in
            (GF_OK, ctx, gf_filter_pid_drop_packet w)
        | Some data =>
            let size := u32 (Z.of_nat (length data)) in
            let ctx := if bytes_in_audio_buffer ctx =? 0
                       then set_first_byte_cts (in_cts pk) ctx else ctx in
            let fs := frame_size (encoder ctx) in
            if negb (fs =? 0)
               && (u32 (size + bytes_in_audio_buffer ctx) <? u32 (bytes_per_sample ctx * fs))
            then
              let ctx := set_audio_buffer
                           (memcpy (audio_buffer ctx) (Z.to_nat (bytes_in_audio_buffer ctx))
                              (take (Z.to_nat size) data)) ctx in
              let ctx := set_bytes_in_audio_buffer
                           (u32 (bytes_in_audio_buffer ctx + size)) ctx in
              (GF_OK, ctx, gf_filter_pid_drop_packet w)
            else
              let '(res, nb_copy, data, size, ctx) := fill_frame data size ctx in
              if res <? 0 then
                let w := GF_LOG GF_LOG_ERROR "[FFEnc] Error filling raw audio frame" w in
                let ctx := keep_remaining pk data size nb_copy ctx in
                (GF_SERVICE_ERROR, ctx, gf_filter_pid_drop_packet w)
              else
                let cts := s64 (first_byte_cts ctx) in
                let fr := set_f_pkt_dts cts (set_f_pkt_pts cts (set_pts cts (frame ctx))) in
                let '(r, enc) :=
                  avcodec_encode_audio2 (encoder ctx) (enc_buffer_size ctx) (Some fr) in
                let w := emit (EvEncode Audio (Some (pts fr)) r) w in
                let ctx := set_encoder enc (set_frame fr ctx) in
                let ctx := keep_remaining pk data size nb_copy ctx in
                let w := gf_filter_pid_drop_packet w in
                audio_tail r ctx w
        end
    | None =>
        let '(r, enc) := avcodec_encode_audio2 (encoder ctx) (enc_buffer_size ctx) None in
        let w := emit (EvEncode Audio None r) w in
        let ctx := set_encoder enc ctx in
        if enc_gotpck r =? 0 then
          let ctx := set_flush_done true ctx in
          let w := gf_filter_pid_set_eos (out_pid ctx) w in
          (GF_EOS, ctx, w)
        else audio_tail r ctx w
    end.

(** *** [ffenc_process] *)

Definition ffenc_process (w : World) (ctx : GF_FFEncodeCtx)
  : GF_Err * GF_FFEncodeCtx * World :=
  if gf_filter_pid_would_block w (out_pid ctx) then (GF_OK, ctx, w)
  else match process ctx with
       | Video => ffenc_process_video w ctx
       | Audio => ffenc_process_audio w ctx
       end.

End Encoder.

Arguments GF_FFEncodeCtx : clear implicits.
End FFEnc.

(** ** Concrete collaborators

    A program stream library over in-memory sources and a codec engine that
    plays back a script of replies: the collaborators the scenarios run on. *)

Module Scenario.
Import M2PSDmx FFEnc.

Record SrcVideo := {
  sv_type : mpeg2ps_video_type_t;
  sv_fps : Double;
  sv_width : Z;
  sv_height : Z;
  sv_par : Z;
  sv_frames : list VideoFrame
}.

Record SrcAudio := {
  sa_type : mpeg2ps_audio_type_t;
  sa_freq : Z;
  sa_channels : Z;
  sa_bitrate : Z;
  sa_frames : list AudioFrame
}.

Record Source := {
  src_videos : list SrcVideo;
  src_audios : list SrcAudio;
  src_max_time_msec : Z;
  src_first_cts : Z
}.

Definition nth_video (p : Source) (n : Z) : option SrcVideo :=
  if n <? 0 then None else src_videos p !! Z.to_nat n.
Definition nth_audio (p : Source) (n : Z) : option SrcAudio :=
  if n <? 0 then None else src_audios p !! Z.to_nat n.

Definition with_video_frames (fs : list VideoFrame) (v : SrcVideo) : SrcVideo :=
  {| sv_type := sv_type v; sv_fps := sv_fps v; sv_width := sv_width v;
     sv_height := sv_height v; sv_par := sv_par v; sv_frames := fs |}.
Definition with_audio_frames (fs : list AudioFrame) (a : SrcAudio) : SrcAudio :=
  {| sa_type := sa_type a; sa_freq := sa_freq a; sa_channels := sa_channels a;
     sa_bitrate := sa_bitrate a; sa_frames := fs |}.
Definition with_video (n : Z) (v : SrcVideo) (p : Source) : Source :=
  {| src_videos := <[Z.to_nat n := v]> (src_videos p); src_audios := src_audios p;
     src_max_time_msec := src_max_time_msec p; src_first_cts := src_first_cts p |}.
Definition with_audio (n : Z) (a : SrcAudio) (p : Source) : Source :=
  {| src_videos := src_videos p; src_audios := <[Z.to_nat n := a]> (src_audios p);
     src_max_time_msec := src_max_time_msec p; src_first_cts := src_first_cts p |}.

(** Reading hands out the next frame of the stream, if any. *)
Definition read_video (p : Source) (n : Z) : option VideoFrame * Source :=
  match nth_video p n with
  | Some v =>
      match sv_frames v with
      | fr :: rest => (Some fr, with_video n (with_video_frames rest v) p)
      | [] => (None, p)
      end
  | None => (None, p)
  end.
Definition read_audio (p : Source) (n : Z) : option AudioFrame * Source :=
  match nth_audio p n with
  | Some a =>
      match sa_frames a with
      | fr :: rest => (Some fr, with_audio n (with_audio_frames rest a) p)
      | [] => (None, p)
      end
  | None => (None, p)
  end.

(** Seeking skips the frames before the time asked for (90 ticks per ms). *)
Definition skip_video (p : Source) (n msec : Z) : Source :=
  match nth_video p n with
  | Some v =>
      with_video n
        (with_video_frames (filter (fun fr => msec * 90 <= vf_dts fr) (sv_frames v)) v) p
  | None => p
  end.
Definition skip_audio (p : Source) (n msec : Z) : Source :=
  match nth_audio p n with
  | Some a =>
      with_audio n
        (with_audio_frames (filter (fun fr => msec * 90 <= af_cts fr) (sa_frames a)) a) p
  | None => p
  end.

(** The files there are: two program streams, and a file that is none. *)
Definition source_a : Source :=
  {| src_videos :=
       [ {| sv_type := MPEG_VIDEO_MPEG2; sv_fps := 25%float; sv_width := 720;
            sv_height := 576; sv_par := 0;
            sv_frames := [ {| vf_buf := [0; 0; 1; 179; 7]; vf_ftype := 1;
                              vf_dts := 0; vf_cts := 0 |} ] |};
         {| sv_type := MPEG_VIDEO_MPEG1; sv_fps := 25%float; sv_width := 352;
            sv_height := 288; sv_par := 0; sv_frames := [] |} ];
     src_audios :=
       [ {| sa_type := MPEG_AUDIO_MPEG; sa_freq := 48000; sa_channels := 2;
            sa_bitrate := 192000;
            sa_frames := [ {| af_buf := [255; 253]; af_cts := 0 |} ] |} ];
     src_max_time_msec := 10000; src_first_cts := 0 |}.

Definition source_b : Source :=
  {| src_videos :=
       [ {| sv_type := MPEG_VIDEO_MPEG2; sv_fps := 25%float; sv_width := 640;
            sv_height := 480; sv_par := 0;
            sv_frames := [ {| vf_buf := [0; 0; 1; 179; 9]; vf_ftype := 1;
                              vf_dts := 0; vf_cts := 0 |};
                           {| vf_buf := [0; 0; 1; 0; 5; 0; 0; 1; 183]; vf_ftype := 2;
                              vf_dts := 3003; vf_cts := 3003 |} ] |} ];
     src_audios :=
       [ {| sa_type := MPEG_AUDIO_AC3; sa_freq := 44100; sa_channels := 2;
            sa_bitrate := 128000;
            sa_frames := [ {| af_buf := [11; 119]; af_cts := 0 |} ] |} ];
     src_max_time_msec := 10000; src_first_cts := 0 |}.

Definition open_file (url : option string) : option Source :=
  match url with
  | Some "a.mpg"%string => Some source_a
  | Some "b.mpg"%string => Some source_b
  | _ => None
  end.

Definition file_exists (url : option string) : bool :=
  match url with
  | Some "a.mpg"%string | Some "b.mpg"%string | Some "notes.txt"%string => true
  | _ => false
  end.

Definition memory_ps : Mpeg2Ps :=
  {| mpeg2ps_t := Source;
     mpeg2ps_init := open_file;
     gf_file_exists := file_exists;
     mpeg2ps_get_max_time_msec := src_max_time_msec;
     mpeg2ps_get_first_cts := src_first_cts;
     mpeg2ps_get_video_stream_count := fun p => length (src_videos p);
     mpeg2ps_get_video_stream_type := fun p n =>
       from_option sv_type MPEG_VIDEO_UNKNOWN (nth_video p n);
     mpeg2ps_get_video_stream_framerate := fun p n =>
       from_option sv_fps 0%float (nth_video p n);
     mpeg2ps_get_video_stream_width := fun p n => from_option sv_width 0 (nth_video p n);
     mpeg2ps_get_video_stream_height := fun p n => from_option sv_height 0 (nth_video p n);
     mpeg2ps_get_video_stream_aspect_ratio := fun p n =>
       from_option sv_par 0 (nth_video p n);
     mpeg2ps_get_audio_stream_count := fun p => length (src_audios p);
     mpeg2ps_get_audio_stream_type := fun p n =>
       from_option sa_type MPEG_AUDIO_UNKNOWN (nth_audio p n);
     mpeg2ps_get_audio_stream_sample_freq := fun p n => from_option sa_freq 0 (nth_audio p n);
     mpeg2ps_get_audio_stream_channels := fun p n => from_option sa_channels 0 (nth_audio p n);
     mpeg2ps_get_audio_stream_bitrate := fun p n => from_option sa_bitrate 0 (nth_audio p n);
     mpeg2ps_get_video_frame := read_video;
     mpeg2ps_get_audio_frame := read_audio;
     mpeg2ps_seek_video_frame := skip_video;
     mpeg2ps_seek_audio_frame := skip_audio |}.

(** A codec engine that answers the encode calls from a script. *)
Record Scripted := {
  sc_frame_size : Z;
  sc_replies : list EncReply
}.

Definition no_packet : EncReply :=
  {| enc_res := 0; enc_gotpck := 0;
     enc_pkt := {| pkt_data := []; pkt_pts := 0; pkt_dts := 0;
                   pkt_flags := 0; pkt_duration := 0 |} |}.

Definition next_reply (c : Scripted) (size : Z) (fr : option AVFrame) : EncReply * Scripted :=
  match sc_replies c with
  | r :: rest => (r, {| sc_frame_size := sc_frame_size c; sc_replies := rest |})
  | [] => (no_packet, c)
  end.

Definition scripted_codec : AVCodec :=
  {| AVCodecContext := Scripted;
     frame_size := sc_frame_size;
     avcodec_encode_video2 := next_reply;
     avcodec_encode_audio2 := next_reply;
     avcodec_fill_audio_frame := fun fr _ _ _ _ => (0, fr) |}.

(** A session with nothing in it, and a complete file as a packet. *)
Definition idle_world : World :=
  {| w_inq := []; w_in_eos := false; w_would_block := fun _ => false;
     w_npids := 0; w_trace := [] |}.

Definition file_pck : InPck :=
  {| in_data := Some []; in_cts := 0; in_interlaced := 0; in_hw_frame := None;
     in_start := true; in_end := true |}.

Definition in_pid_for (path : string) : GF_FilterPid :=
  {| pid_id := 0; pid_check_caps := true; pid_filepath := Some path |}.

(** The calls a session makes on the demuxer, and what it does between
    them on the filter's pids. *)
Inductive Call :=
| Enqueue (pck : InPck)
| Blocking (blocked : nat -> bool)
| Configure (pid : GF_FilterPid) (is_remove : bool)
| Event (evt : GF_FilterEvent)
| Process.

Section Driver.
Context {lib : Mpeg2Ps}.

Definition DmxState : Type := GF_M2PSDmxCtx lib * World.

Definition call (st : DmxState) (c : Call) : DmxState :=
  let '(ctx, w) := st in
  match c with
  | Enqueue pck =>
      (ctx, {| w_inq := w_inq w ++ [pck]; w_in_eos := w_in_eos w;
               w_would_block := w_would_block w; w_npids := w_npids w;
               w_trace := w_trace w |})
  | Blocking b =>
      (ctx, {| w_inq := w_inq w; w_in_eos := w_in_eos w;
               w_would_block := b; w_npids := w_npids w;
               w_trace := w_trace w |})
  | Configure pid is_remove =>
      let '(_, ctx, w) := m2psdmx_configure_pid w ctx pid is_remove in (ctx, w)
  | Event evt => (snd (m2psdmx_process_event ctx evt), w)
  | Process => let '(_, ctx, w) := m2psdmx_process w ctx in (ctx, w)
  end.

(** The filter after a sequence of calls, from its initial state. *)
Definition after (calls : list Call) : DmxState :=
  foldl call (m2psdmx_initialize, idle_world) calls.
End Driver.

(** The demuxer playing [a.mpg] (two video streams, one audio stream),
    then connected to [b.mpg] (one video stream, one audio stream). *)
Definition playing_a : list Call :=
  [ Enqueue file_pck; Configure (in_pid_for "a.mpg") false;
    Event (GF_FEVT_PLAY 0%float); Process ].
Definition switched_to_b : list Call :=
  playing_a ++ [ Configure (in_pid_for "b.mpg") false ].

(** An audio encoder configured for 48 kHz, timescale 48000, whose codec
    takes frames of any size and answers from [replies]. *)
Definition audio_ctx (replies : list EncReply) : GF_FFEncodeCtx scripted_codec :=
  {| all_intra := false;
     encoder := ({| sc_frame_size := 0; sc_replies := replies |}
                 : @AVCodecContext scripted_codec);
     in_pid := 0; out_pid := 0; timescale := 48000; process := Audio;
     flush_done := false; frame := av_frame_alloc; enc_buffer_size := 48000;
     width := 0; height := 0; stride := 0; stride_uv := 0; nb_planes := 0;
     pixel_fmt := 0; channels := 2; sample_rate := 48000; bytes_per_sample := 4;
     sample_fmt := 1; audio_buffer := []; bytes_in_audio_buffer := 0;
     first_byte_cts := 0; init_cts_setup := true; ts_shift := 0 |}.

(** A raw packet of [n] bytes with the given timestamp. *)
Definition raw_pck (n : nat) (cts : Z) : InPck :=
  {| in_data := Some (replicate n 0); in_cts := cts; in_interlaced := 0;
     in_hw_frame := None; in_start := true; in_end := true |}.

Definition world_with (pcks : list InPck) : World :=
  {| w_inq := pcks; w_in_eos := false; w_would_block := fun _ => false;
     w_npids := 1; w_trace := [] |}.

Definition coded (pts : Z) : EncReply :=
  {| enc_res := 0; enc_gotpck := 1;
     enc_pkt := {| pkt_data := [1; 2; 3]; pkt_pts := pts; pkt_dts := pts;
                   pkt_flags := AV_PKT_FLAG_KEY; pkt_duration := 1024 |} |}.

Definition failed : EncReply :=
  {| enc_res := -1; enc_gotpck := 0; enc_pkt := enc_pkt no_packet |}.

End Scenario.

(** ** The configuration callbacks of the encoder ([ff_enc.c])

    [ffenc_initialize], [ffenc_update_arg], [ffenc_config_input],
    [ffenc_finalize] and [ffenc_register], over the session and the codec
    library as these callbacks use them. *)

Module FFEncCfg.

(** *** The session and the library *)

(** The keys the encoder reads on its input pid and sets on its output
    pid: those of [PropKey] and its own. *)
Inductive PidKey :=
| Key (k : PropKey)
| GF_PROP_PID_PIXFMT
| GF_PROP_PID_STRIDE
| GF_PROP_PID_STRIDE_UV
| GF_PROP_PID_AUDIO_FORMAT
| GF_PROP_PID_CHANNEL_LAYOUT
| GF_PROP_PID_DECODER_CONFIG
| GF_PROP_PID_UNFRAMED.

#[global] Instance PidKey_eq_dec : EqDecision PidKey.
Proof. solve_decision. Defined.

(** A [GF_PropertyValue] as the callback reads it: the members of the
    union it looks at ([value.uint], [value.frac.num], [value.frac.den]). *)
Record GF_PropertyValue := {
  uint : Z;
  frac_num : Z;
  frac_den : Z
}.

(** What the callback sets: [PROP_UINT], [PROP_BOOL], or
    [PROP_DATA(data, size)]; [None] is the NULL value. *)
Inductive SetVal :=
| Val (v : PropVal)
| PROP_DATA (data : list Z) (size : Z).

#[global] Instance SetVal_eq_dec : EqDecision SetVal.
Proof. solve_decision. Defined.

(** The input pid: its identity, [gf_filter_pid_get_property] and
    [gf_filter_pid_caps_query] on it. *)
Record GF_FilterPid := {
  pid_id : nat;
  gf_filter_pid_get_property : PidKey -> option GF_PropertyValue;
  gf_filter_pid_caps_query : PidKey -> option GF_PropertyValue
}.

(** The calls the callbacks make on the session and on the library. *)
Inductive CfgEv :=
| CfgPidRemove (pid : nat)
| CfgPidNew (pid : nat)
| CfgSetName (name : string)
| CfgSetFramingMode (pid : nat) (full : bool)
| CfgNegociateProperty (pid : nat) (k : PidKey) (v : Z)
| CfgCopyProperties (dst src : nat)
| CfgSetProperty (pid : nat) (k : PidKey) (v : option SetVal)
| CfgLog (lvl : LogLevel) (msg : string)
| CfgMalloc (size : Z)
| CfgFree
| CfgDictFree
| CfgFrameFree
| CfgAvcodecOpen (res : Z)
| CfgAvcodecClose.

#[global] Instance CfgEv_eq_dec : EqDecision CfgEv.
Proof. solve_decision. Defined.

Record Session := {
  s_npids : nat;          (* output pids created so far *)
  s_trace : list CfgEv    (* the calls made so far, oldest first *)
}.

(** Constants of libavutil and libavcodec. *)
Definition AV_PIX_FMT_NONE : Z := -1.
Definition AV_PIX_FMT_YUV420P : Z := 0.
Definition AV_SAMPLE_FMT_NONE : Z := -1.
Definition AV_SAMPLE_FMT_S16 : Z := 1.
Definition AV_CH_LAYOUT_MONO : Z := 4.
Definition AV_CH_LAYOUT_STEREO : Z := 3.
Definition AV_CODEC_FLAG_LOW_DELAY : Z := 2 ^ 19.
Definition AV_OPT_FLAG_ENCODING_PARAM : Z := 1.

(** The library: the codec descriptors ([AVCodec], with the lists
    [pix_fmts] and [sample_fmts] up to their [NONE] terminator, or none
    when the pointer is null), the dictionaries, and the conversions of
    [ff_common.h]; and the gpac constants whose values these sources do
    not give. *)
Class AVLib := {
  AVCodec : Type;
  AVDictionary : Type;
  AVInternal : Type;
  codec_id : AVCodec -> Z;
  codec_name : AVCodec -> option string;
  pix_fmts : AVCodec -> option (list Z);
  sample_fmts : AVCodec -> option (list Z);
  GF_CODECID_RAW : Z;
  GF_CODECID_AVC : Z;
  GF_CODECID_HEVC : Z;
  ffmpeg_codecid_from_gpac : Z -> Z;
  ffmpeg_pixfmt_from_gpac : Z -> Z;
  ffmpeg_pixfmt_to_gpac : Z -> Z;
  ffmpeg_audio_fmt_from_gpac : Z -> Z;
  ffmpeg_audio_fmt_to_gpac : Z -> Z;
  ffmpeg_channel_layout_from_gpac : Z -> Z;
  gf_audio_fmt_bit_depth : Z -> Z;
  (* pfmt, width, height and the present stride, stride_uv, nb_planes,
     uv_height, which it overwrites *)
  gf_pixel_get_size_info : Z -> Z -> Z -> Z * Z * Z * Z -> Z * Z * Z * Z;
  avcodec_find_encoder : Z -> option AVCodec;
  (* on a dictionary or none (a null pointer); the flags are 0 *)
  av_dict_set : option AVDictionary -> string -> string -> Z * option AVDictionary
}.

Section Config.
Context {lib : AVLib}.

(** [AVCodecContext]: the fields the callbacks write or read, and the
    rest of it. *)
Record AVCodecContext := {
  av_codec : option AVCodec;
  av_width : Z;
  av_height : Z;
  av_sample_aspect_ratio : Z * Z;
  av_time_base : Z * Z;
  av_gop_size : Z;
  av_flags : Z;
  av_pix_fmt : Z;
  av_sample_rate : Z;
  av_channels : Z;
  av_channel_layout : Z;
  av_sample_fmt : Z;
  av_extradata : option (list Z);
  av_extradata_size : Z;
  av_internal : AVInternal
}.

Definition set_av_width (v : Z) (e : AVCodecContext) : AVCodecContext :=
  {| av_codec := av_codec e; av_width := v; av_height := av_height e;
     av_sample_aspect_ratio := av_sample_aspect_ratio e; av_time_base := av_time_base e;
     av_gop_size := av_gop_size e; av_flags := av_flags e; av_pix_fmt := av_pix_fmt e;
     av_sample_rate := av_sample_rate e; av_channels := av_channels e;
     av_channel_layout := av_channel_layout e; av_sample_fmt := av_sample_fmt e;
     av_extradata := av_extradata e; av_extradata_size := av_extradata_size e;
     av_internal := av_internal e |}.
Definition set_av_height (v : Z) (e : AVCodecContext) : AVCodecContext :=
  {| av_codec := av_codec e; av_width := av_width e; av_height := v;
     av_sample_aspect_ratio := av_sample_aspect_ratio e; av_time_base := av_time_base e;
     av_gop_size := av_gop_size e; av_flags := av_flags e; av_pix_fmt := av_pix_fmt e;
     av_sample_rate := av_sample_rate e; av_channels := av_channels e;
     av_channel_layout := av_channel_layout e; av_sample_fmt := av_sample_fmt e;
     av_extradata := av_extradata e; av_extradata_size := av_extradata_size e;
     av_internal := av_internal e |}.
Definition set_av_sample_aspect_ratio (v : Z * Z) (e : AVCodecContext) : AVCodecContext :=
  {| av_codec := av_codec e; av_width := av_width e; av_height := av_height e;
     av_sample_aspect_ratio := v; av_time_base := av_time_base e;
     av_gop_size := av_gop_size e; av_flags := av_flags e; av_pix_fmt := av_pix_fmt e;
     av_sample_rate := av_sample_rate e; av_channels := av_channels e;
     av_channel_layout := av_channel_layout e; av_sample_fmt := av_sample_fmt e;
     av_extradata := av_extradata e; av_extradata_size := av_extradata_size e;
     av_internal := av_internal e |}.
Definition set_av_time_base (v : Z * Z) (e : AVCodecContext) : AVCodecContext :=
  {| av_codec := av_codec e; av_width := av_width e; av_height := av_height e;
     av_sample_aspect_ratio := av_sample_aspect_ratio e; av_time_base := v;
     av_gop_size := av_gop_size e; av_flags := av_flags e; av_pix_fmt := av_pix_fmt e;
     av_sample_rate := av_sample_rate e; av_channels := av_channels e;
     av_channel_layout := av_channel_layout e; av_sample_fmt := av_sample_fmt e;
     av_extradata := av_extradata e; av_extradata_size := av_extradata_size e;
     av_internal := av_internal e |}.
Definition set_av_gop_size (v : Z) (e : AVCodecContext) : AVCodecContext :=
  {| av_codec := av_codec e; av_width := av_width e; av_height := av_height e;
     av_sample_aspect_ratio := av_sample_aspect_ratio e; av_time_base := av_time_base e;
     av_gop_size := v; av_flags := av_flags e; av_pix_fmt := av_pix_fmt e;
     av_sample_rate := av_sample_rate e; av_channels := av_channels e;
     av_channel_layout := av_channel_layout e; av_sample_fmt := av_sample_fmt e;
     av_extradata := av_extradata e; av_extradata_size := av_extradata_size e;
     av_internal := av_internal e |}.
Definition set_av_flags (v : Z) (e : AVCodecContext) : AVCodecContext :=
  {| av_codec := av_codec e; av_width := av_width e; av_height := av_height e;
     av_sample_aspect_ratio := av_sample_aspect_ratio e; av_time_base := av_time_base e;
     av_gop_size := av_gop_size e; av_flags := v; av_pix_fmt := av_pix_fmt e;
     av_sample_rate := av_sample_rate e; av_channels := av_channels e;
     av_channel_layout := av_channel_layout e; av_sample_fmt := av_sample_fmt e;
     av_extradata := av_extradata e; av_extradata_size := av_extradata_size e;
     av_internal := av_internal e |}.
Definition set_av_pix_fmt (v : Z) (e : AVCodecContext) : AVCodecContext :=
  {| av_codec := av_codec e; av_width := av_width e; av_height := av_height e;
     av_sample_aspect_ratio := av_sample_aspect_ratio e; av_time_base := av_time_base e;
     av_gop_size := av_gop_size e; av_flags := av_flags e; av_pix_fmt := v;
     av_sample_rate := av_sample_rate e; av_channels := av_channels e;
     av_channel_layout := av_channel_layout e; av_sample_fmt := av_sample_fmt e;
     av_extradata := av_extradata e; av_extradata_size := av_extradata_size e;
     av_internal := av_internal e |}.
Definition set_av_sample_rate (v : Z) (e : AVCodecContext) : AVCodecContext :=
  {| av_codec := av_codec e; av_width := av_width e; av_height := av_height e;
     av_sample_aspect_ratio := av_sample_aspect_ratio e; av_time_base := av_time_base e;
     av_gop_size := av_gop_size e; av_flags := av_flags e; av_pix_fmt := av_pix_fmt e;
     av_sample_rate := v; av_channels := av_channels e;
     av_channel_layout := av_channel_layout e; av_sample_fmt := av_sample_fmt e;
     av_extradata := av_extradata e; av_extradata_size := av_extradata_size e;
     av_internal := av_internal e |}.
Definition set_av_channels (v : Z) (e : AVCodecContext) : AVCodecContext :=
  {| av_codec := av_codec e; av_width := av_width e; av_height := av_height e;
     av_sample_aspect_ratio := av_sample_aspect_ratio e; av_time_base := av_time_base e;
     av_gop_size := av_gop_size e; av_flags := av_flags e; av_pix_fmt := av_pix_fmt e;
     av_sample_rate := av_sample_rate e; av_channels := v;
     av_channel_layout := av_channel_layout e; av_sample_fmt := av_sample_fmt e;
     av_extradata := av_extradata e; av_extradata_size := av_extradata_size e;
     av_internal := av_internal e |}.
Definition set_av_channel_layout (v : Z) (e : AVCodecContext) : AVCodecContext :=
  {| av_codec := av_codec e; av_width := av_width e; av_height := av_height e;
     av_sample_aspect_ratio := av_sample_aspect_ratio e; av_time_base := av_time_base e;
     av_gop_size := av_gop_size e; av_flags := av_flags e; av_pix_fmt := av_pix_fmt e;
     av_sample_rate := av_sample_rate e; av_channels := av_channels e;
     av_channel_layout := v; av_sample_fmt := av_sample_fmt e;
     av_extradata := av_extradata e; av_extradata_size := av_extradata_size e;
     av_internal := av_internal e |}.
Definition set_av_sample_fmt (v : Z) (e : AVCodecContext) : AVCodecContext :=
  {| av_codec := av_codec e; av_width := av_width e; av_height := av_height e;
     av_sample_aspect_ratio := av_sample_aspect_ratio e; av_time_base := av_time_base e;
     av_gop_size := av_gop_size e; av_flags := av_flags e; av_pix_fmt := av_pix_fmt e;
     av_sample_rate := av_sample_rate e; av_channels := av_channels e;
     av_channel_layout := av_channel_layout e; av_sample_fmt := v;
     av_extradata := av_extradata e; av_extradata_size := av_extradata_size e;
     av_internal := av_internal e |}.

(** The calls that take the codec context. *)
Class AVEngine := {
  avcodec_alloc_context3 : AVCodec -> option AVCodecContext;
  ffmpeg_set_enc_dec_flags : option AVDictionary -> AVCodecContext -> AVCodecContext;
  avcodec_open2 :
    AVCodecContext -> AVCodec -> option AVDictionary
    -> Z * AVCodecContext * option AVDictionary
}.

Context {engine : AVEngine}.

(** [GF_FFEncodeCtx], without the fields only the [process] callbacks
    touch ([all_intra], [flush_done], [first_byte_cts], [ts_shift]) and
    the unused [channel_layout].  A buffer is the size it was allocated
    with. *)
Record GF_FFEncodeCtx := {
  initialized : bool;
  encoder : option AVCodecContext;
  options : option AVDictionary;
  in_pid : option nat;
  out_pid : option nat;
  type : Z;
  timescale : Z;
  low_delay : bool;
  process : option StreamKind;
  codecid : Z;
  frame : option FFEnc.AVFrame;
  enc_buffer : option Z;
  enc_buffer_size : Z;
  width : Z;
  height : Z;
  stride : Z;
  stride_uv : Z;
  nb_planes : Z;
  uv_height : Z;
  pixel_fmt : Z;
  channels : Z;
  sample_rate : Z;
  bytes_per_sample : Z;
  sample_fmt : Z;
  audio_buffer : option Z;
  audio_buffer_size : Z;
  bytes_in_audio_buffer : Z;
  init_cts_setup : bool
}.

Definition set_initialized (v : bool) (c : GF_FFEncodeCtx) : GF_FFEncodeCtx :=
  {| initialized := v; encoder := encoder c; options := options c; in_pid := in_pid c;
     out_pid := out_pid c; type := type c; timescale := timescale c;
     low_delay := low_delay c; process := process c; codecid := codecid c;
     frame := frame c; enc_buffer := enc_buffer c; enc_buffer_size := enc_buffer_size c;
     width := width c; height := height c; stride := stride c; stride_uv := stride_uv c;
     nb_planes := nb_planes c; uv_height := uv_height c; pixel_fmt := pixel_fmt c;
     channels := channels c; sample_rate := sample_rate c;
     bytes_per_sample := bytes_per_sample c; sample_fmt := sample_fmt c;
     audio_buffer := audio_buffer c; audio_buffer_size := audio_buffer_size c;
     bytes_in_audio_buffer := bytes_in_audio_buffer c; init_cts_setup := init_cts_setup c |}.
Definition set_encoder (v : option AVCodecContext) (c : GF_FFEncodeCtx) : GF_FFEncodeCtx :=
  {| initialized := initialized c; encoder := v; options := options c; in_pid := in_pid c;
     out_pid := out_pid c; type := type c; timescale := timescale c;
     low_delay := low_delay c; process := process c; codecid := codecid c;
     frame := frame c; enc_buffer := enc_buffer c; enc_buffer_size := enc_buffer_size c;
     width := width c; height := height c; stride := stride c; stride_uv := stride_uv c;
     nb_planes := nb_planes c; uv_height := uv_height c; pixel_fmt := pixel_fmt c;
     channels := channels c; sample_rate := sample_rate c;
     bytes_per_sample := bytes_per_sample c; sample_fmt := sample_fmt c;
     audio_buffer := audio_buffer c; audio_buffer_size := audio_buffer_size c;
     bytes_in_audio_buffer := bytes_in_audio_buffer c; init_cts_setup := init_cts_setup c |}.
Definition set_options (v : option AVDictionary) (c : GF_FFEncodeCtx) : GF_FFEncodeCtx :=
  {| initialized := initialized c; encoder := encoder c; options := v; in_pid := in_pid c;
     out_pid := out_pid c; type := type c; timescale := timescale c;
     low_delay := low_delay c; process := process c; codecid := codecid c;
     frame := frame c; enc_buffer := enc_buffer c; enc_buffer_size := enc_buffer_size c;
     width := width c; height := height c; stride := stride c; stride_uv := stride_uv c;
     nb_planes := nb_planes c; uv_height := uv_height c; pixel_fmt := pixel_fmt c;
     channels := channels c; sample_rate := sample_rate c;
     bytes_per_sample := bytes_per_sample c; sample_fmt := sample_fmt c;
     audio_buffer := audio_buffer c; audio_buffer_size := audio_buffer_size c;
     bytes_in_audio_buffer := bytes_in_audio_buffer c; init_cts_setup := init_cts_setup c |}.
Definition set_in_pid (v : option nat) (c : GF_FFEncodeCtx) : GF_FFEncodeCtx :=
  {| initialized := initialized c; encoder := encoder c; options := options c; in_pid := v;
     out_pid := out_pid c; type := type c; timescale := timescale c;
     low_delay := low_delay c; process := process c; codecid := codecid c;
     frame := frame c; enc_buffer := enc_buffer c; enc_buffer_size := enc_buffer_size c;
     width := width c; height := height c; stride := stride c; stride_uv := stride_uv c;
     nb_planes := nb_planes c; uv_height := uv_height c; pixel_fmt := pixel_fmt c;
     channels := channels c; sample_rate := sample_rate c;
     bytes_per_sample := bytes_per_sample c; sample_fmt := sample_fmt c;
     audio_buffer := audio_buffer c; audio_buffer_size := audio_buffer_size c;
     bytes_in_audio_buffer := bytes_in_audio_buffer c; init_cts_setup := init_cts_setup c |}.
Definition set_out_pid (v : option nat) (c : GF_FFEncodeCtx) : GF_FFEncodeCtx :=
  {| initialized := initialized c; encoder := encoder c; options := options c;
     in_pid := in_pid c; out_pid := v; type := type c; timescale := timescale c;
     low_delay := low_delay c; process := process c; codecid := codecid c;
     frame := frame c; enc_buffer := enc_buffer c; enc_buffer_size := enc_buffer_size c;
     width := width c; height := height c; stride := stride c; stride_uv := stride_uv c;
     nb_planes := nb_planes c; uv_height := uv_height c; pixel_fmt := pixel_fmt c;
     channels := channels c; sample_rate := sample_rate c;
     bytes_per_sample := bytes_per_sample c; sample_fmt := sample_fmt c;
     audio_buffer := audio_buffer c; audio_buffer_size := audio_buffer_size c;
     bytes_in_audio_buffer := bytes_in_audio_buffer c; init_cts_setup := init_cts_setup c |}.
Definition set_type (v : Z) (c : GF_FFEncodeCtx) : GF_FFEncodeCtx :=
  {| initialized := initialized c; encoder := encoder c; options := options c;
     in_pid := in_pid c; out_pid := out_pid c; type := v; timescale := timescale c;
     low_delay := low_delay c; process := process c; codecid := codecid c;
     frame := frame c; enc_buffer := enc_buffer c; enc_buffer_size := enc_buffer_size c;
     width := width c; height := height c; stride := stride c; stride_uv := stride_uv c;
     nb_planes := nb_planes c; uv_height := uv_height c; pixel_fmt := pixel_fmt c;
     channels := channels c; sample_rate := sample_rate c;
     bytes_per_sample := bytes_per_sample c; sample_fmt := sample_fmt c;
     audio_buffer := audio_buffer c; audio_buffer_size := audio_buffer_size c;
     bytes_in_audio_buffer := bytes_in_audio_buffer c; init_cts_setup := init_cts_setup c |}.
Definition set_timescale (v : Z) (c : GF_FFEncodeCtx) : GF_FFEncodeCtx :=
  {| initialized := initialized c; encoder := encoder c; options := options c;
     in_pid := in_pid c; out_pid := out_pid c; type := type c; timescale := v;
     low_delay := low_delay c; process := process c; codecid := codecid c;
     frame := frame c; enc_buffer := enc_buffer c; enc_buffer_size := enc_buffer_size c;
     width := width c; height := height c; stride := stride c; stride_uv := stride_uv c;
     nb_planes := nb_planes c; uv_height := uv_height c; pixel_fmt := pixel_fmt c;
     channels := channels c; sample_rate := sample_rate c;
     bytes_per_sample := bytes_per_sample c; sample_fmt := sample_fmt c;
     audio_buffer := audio_buffer c; audio_buffer_size := audio_buffer_size c;
     bytes_in_audio_buffer := bytes_in_audio_buffer c; init_cts_setup := init_cts_setup c |}.
Definition set_low_delay (v : bool) (c : GF_FFEncodeCtx) : GF_FFEncodeCtx :=
  {| initialized := initialized c; encoder := encoder c; options := options c;
     in_pid := in_pid c; out_pid := out_pid c; type := type c; timescale := timescale c;
     low_delay := v; process := process c; codecid := codecid c; frame := frame c;
     enc_buffer := enc_buffer c; enc_buffer_size := enc_buffer_size c; width := width c;
     height := height c; stride := stride c; stride_uv := stride_uv c;
     nb_planes := nb_planes c; uv_height := uv_height c; pixel_fmt := pixel_fmt c;
     channels := channels c; sample_rate := sample_rate c;
     bytes_per_sample := bytes_per_sample c; sample_fmt := sample_fmt c;
     audio_buffer := audio_buffer c; audio_buffer_size := audio_buffer_size c;
     bytes_in_audio_buffer := bytes_in_audio_buffer c; init_cts_setup := init_cts_setup c |}.
Definition set_process (v : option StreamKind) (c : GF_FFEncodeCtx) : GF_FFEncodeCtx :=
  {| initialized := initialized c; encoder := encoder c; options := options c;
     in_pid := in_pid c; out_pid := out_pid c; type := type c; timescale := timescale c;
     low_delay := low_delay c; process := v; codecid := codecid c; frame := frame c;
     enc_buffer := enc_buffer c; enc_buffer_size := enc_buffer_size c; width := width c;
     height := height c; stride := stride c; stride_uv := stride_uv c;
     nb_planes := nb_planes c; uv_height := uv_height c; pixel_fmt := pixel_fmt c;
     channels := channels c; sample_rate := sample_rate c;
     bytes_per_sample := bytes_per_sample c; sample_fmt := sample_fmt c;
     audio_buffer := audio_buffer c; audio_buffer_size := audio_buffer_size c;
     bytes_in_audio_buffer := bytes_in_audio_buffer c; init_cts_setup := init_cts_setup c |}.
Definition set_codecid (v : Z) (c : GF_FFEncodeCtx) : GF_FFEncodeCtx :=
  {| initialized := initialized c; encoder := encoder c; options := options c;
     in_pid := in_pid c; out_pid := out_pid c; type := type c; timescale := timescale c;
     low_delay := low_delay c; process := process c; codecid := v; frame := frame c;
     enc_buffer := enc_buffer c; enc_buffer_size := enc_buffer_size c; width := width c;
     height := height c; stride := stride c; stride_uv := stride_uv c;
     nb_planes := nb_planes c; uv_height := uv_height c; pixel_fmt := pixel_fmt c;
     channels := channels c; sample_rate := sample_rate c;
     bytes_per_sample := bytes_per_sample c; sample_fmt := sample_fmt c;
     audio_buffer := audio_buffer c; audio_buffer_size := audio_buffer_size c;
     bytes_in_audio_buffer := bytes_in_audio_buffer c; init_cts_setup := init_cts_setup c |}.
Definition set_frame (v : option FFEnc.AVFrame) (c : GF_FFEncodeCtx) : GF_FFEncodeCtx :=
  {| initialized := initialized c; encoder := encoder c; options := options c;
     in_pid := in_pid c; out_pid := out_pid c; type := type c; timescale := timescale c;
     low_delay := low_delay c; process := process c; codecid := codecid c; frame := v;
     enc_buffer := enc_buffer c; enc_buffer_size := enc_buffer_size c; width := width c;
     height := height c; stride := stride c; stride_uv := stride_uv c;
     nb_planes := nb_planes c; uv_height := uv_height c; pixel_fmt := pixel_fmt c;
     channels := channels c; sample_rate := sample_rate c;
     bytes_per_sample := bytes_per_sample c; sample_fmt := sample_fmt c;
     audio_buffer := audio_buffer c; audio_buffer_size := audio_buffer_size c;
     bytes_in_audio_buffer := bytes_in_audio_buffer c; init_cts_setup := init_cts_setup c |}.
Definition set_enc_buffer (v : option Z) (c : GF_FFEncodeCtx) : GF_FFEncodeCtx :=
  {| initialized := initialized c; encoder := encoder c; options := options c;
     in_pid := in_pid c; out_pid := out_pid c; type := type c; timescale := timescale c;
     low_delay := low_delay c; process := process c; codecid := codecid c;
     frame := frame c; enc_buffer := v; enc_buffer_size := enc_buffer_size c;
     width := width c; height := height c; stride := stride c; stride_uv := stride_uv c;
     nb_planes := nb_planes c; uv_height := uv_height c; pixel_fmt := pixel_fmt c;
     channels := channels c; sample_rate := sample_rate c;
     bytes_per_sample := bytes_per_sample c; sample_fmt := sample_fmt c;
     audio_buffer := audio_buffer c; audio_buffer_size := audio_buffer_size c;
     bytes_in_audio_buffer := bytes_in_audio_buffer c; init_cts_setup := init_cts_setup c |}.
Definition set_enc_buffer_size (v : Z) (c : GF_FFEncodeCtx) : GF_FFEncodeCtx :=
  {| initialized := initialized c; encoder := encoder c; options := options c;
     in_pid := in_pid c; out_pid := out_pid c; type := type c; timescale := timescale c;
     low_delay := low_delay c; process := process c; codecid := codecid c;
     frame := frame c; enc_buffer := enc_buffer c; enc_buffer_size := v; width := width c;
     height := height c; stride := stride c; stride_uv := stride_uv c;
     nb_planes := nb_planes c; uv_height := uv_height c; pixel_fmt := pixel_fmt c;
     channels := channels c; sample_rate := sample_rate c;
     bytes_per_sample := bytes_per_sample c; sample_fmt := sample_fmt c;
     audio_buffer := audio_buffer c; audio_buffer_size := audio_buffer_size c;
     bytes_in_audio_buffer := bytes_in_audio_buffer c; init_cts_setup := init_cts_setup c |}.
Definition set_width (v : Z) (c : GF_FFEncodeCtx) : GF_FFEncodeCtx :=
  {| initialized := initialized c; encoder := encoder c; options := options c;
     in_pid := in_pid c; out_pid := out_pid c; type := type c; timescale := timescale c;
     low_delay := low_delay c; process := process c; codecid := codecid c;
     frame := frame c; enc_buffer := enc_buffer c; enc_buffer_size := enc_buffer_size c;
     width := v; height := height c; stride := stride c; stride_uv := stride_uv c;
     nb_planes := nb_planes c; uv_height := uv_height c; pixel_fmt := pixel_fmt c;
     channels := channels c; sample_rate := sample_rate c;
     bytes_per_sample := bytes_per_sample c; sample_fmt := sample_fmt c;
     audio_buffer := audio_buffer c; audio_buffer_size := audio_buffer_size c;
     bytes_in_audio_buffer := bytes_in_audio_buffer c; init_cts_setup := init_cts_setup c |}.
Definition set_height (v : Z) (c : GF_FFEncodeCtx) : GF_FFEncodeCtx :=
  {| initialized := initialized c; encoder := encoder c; options := options c;
     in_pid := in_pid c; out_pid := out_pid c; type := type c; timescale := timescale c;
     low_delay := low_delay c; process := process c; codecid := codecid c;
     frame := frame c; enc_buffer := enc_buffer c; enc_buffer_size := enc_buffer_size c;
     width := width c; height := v; stride := stride c; stride_uv := stride_uv c;
     nb_planes := nb_planes c; uv_height := uv_height c; pixel_fmt := pixel_fmt c;
     channels := channels c; sample_rate := sample_rate c;
     bytes_per_sample := bytes_per_sample c; sample_fmt := sample_fmt c;
     audio_buffer := audio_buffer c; audio_buffer_size := audio_buffer_size c;
     bytes_in_audio_buffer := bytes_in_audio_buffer c; init_cts_setup := init_cts_setup c |}.
Definition set_stride (v : Z) (c : GF_FFEncodeCtx) : GF_FFEncodeCtx :=
  {| initialized := initialized c; encoder := encoder c; options := options c;
     in_pid := in_pid c; out_pid := out_pid c; type := type c; timescale := timescale c;
     low_delay := low_delay c; process := process c; codecid := codecid c;
     frame := frame c; enc_buffer := enc_buffer c; enc_buffer_size := enc_buffer_size c;
     width := width c; height := height c; stride := v; stride_uv := stride_uv c;
     nb_planes := nb_planes c; uv_height := uv_height c; pixel_fmt := pixel_fmt c;
     channels := channels c; sample_rate := sample_rate c;
     bytes_per_sample := bytes_per_sample c; sample_fmt := sample_fmt c;
     audio_buffer := audio_buffer c; audio_buffer_size := audio_buffer_size c;
     bytes_in_audio_buffer := bytes_in_audio_buffer c; init_cts_setup := init_cts_setup c |}.
Definition set_stride_uv (v : Z) (c : GF_FFEncodeCtx) : GF_FFEncodeCtx :=
  {| initialized := initialized c; encoder := encoder c; options := options c;
     in_pid := in_pid c; out_pid := out_pid c; type := type c; timescale := timescale c;
     low_delay := low_delay c; process := process c; codecid := codecid c;
     frame := frame c; enc_buffer := enc_buffer c; enc_buffer_size := enc_buffer_size c;
     width := width c; height := height c; stride := stride c; stride_uv := v;
     nb_planes := nb_planes c; uv_height := uv_height c; pixel_fmt := pixel_fmt c;
     channels := channels c; sample_rate := sample_rate c;
     bytes_per_sample := bytes_per_sample c; sample_fmt := sample_fmt c;
     audio_buffer := audio_buffer c; audio_buffer_size := audio_buffer_size c;
     bytes_in_audio_buffer := bytes_in_audio_buffer c; init_cts_setup := init_cts_setup c |}.
Definition set_nb_planes (v : Z) (c : GF_FFEncodeCtx) : GF_FFEncodeCtx :=
  {| initialized := initialized c; encoder := encoder c; options := options c;
     in_pid := in_pid c; out_pid := out_pid c; type := type c; timescale := timescale c;
     low_delay := low_delay c; process := process c; codecid := codecid c;
     frame := frame c; enc_buffer := enc_buffer c; enc_buffer_size := enc_buffer_size c;
     width := width c; height := height c; stride := stride c; stride_uv := stride_uv c;
     nb_planes := v; uv_height := uv_height c; pixel_fmt := pixel_fmt c;
     channels := channels c; sample_rate := sample_rate c;
     bytes_per_sample := bytes_per_sample c; sample_fmt := sample_fmt c;
     audio_buffer := audio_buffer c; audio_buffer_size := audio_buffer_size c;
     bytes_in_audio_buffer := bytes_in_audio_buffer c; init_cts_setup := init_cts_setup c |}.
Definition set_uv_height (v : Z) (c : GF_FFEncodeCtx) : GF_FFEncodeCtx :=
  {| initialized := initialized c; encoder := encoder c; options := options c;
     in_pid := in_pid c; out_pid := out_pid c; type := type c; timescale := timescale c;
     low_delay := low_delay c; process := process c; codecid := codecid c;
     frame := frame c; enc_buffer := enc_buffer c; enc_buffer_size := enc_buffer_size c;
     width := width c; height := height c; stride := stride c; stride_uv := stride_uv c;
     nb_planes := nb_planes c; uv_height := v; pixel_fmt := pixel_fmt c;
     channels := channels c; sample_rate := sample_rate c;
     bytes_per_sample := bytes_per_sample c; sample_fmt := sample_fmt c;
     audio_buffer := audio_buffer c; audio_buffer_size := audio_buffer_size c;
     bytes_in_audio_buffer := bytes_in_audio_buffer c; init_cts_setup := init_cts_setup c |}.
Definition set_pixel_fmt (v : Z) (c : GF_FFEncodeCtx) : GF_FFEncodeCtx :=
  {| initialized := initialized c; encoder := encoder c; options := options c;
     in_pid := in_pid c; out_pid := out_pid c; type := type c; timescale := timescale c;
     low_delay := low_delay c; process := process c; codecid := codecid c;
     frame := frame c; enc_buffer := enc_buffer c; enc_buffer_size := enc_buffer_size c;
     width := width c; height := height c; stride := stride c; stride_uv := stride_uv c;
     nb_planes := nb_planes c; uv_height := uv_height c; pixel_fmt := v;
     channels := channels c; sample_rate := sample_rate c;
     bytes_per_sample := bytes_per_sample c; sample_fmt := sample_fmt c;
     audio_buffer := audio_buffer c; audio_buffer_size := audio_buffer_size c;
     bytes_in_audio_buffer := bytes_in_audio_buffer c; init_cts_setup := init_cts_setup c |}.
Definition set_channels (v : Z) (c : GF_FFEncodeCtx) : GF_FFEncodeCtx :=
  {| initialized := initialized c; encoder := encoder c; options := options c;
     in_pid := in_pid c; out_pid := out_pid c; type := type c; timescale := timescale c;
     low_delay := low_delay c; process := process c; codecid := codecid c;
     frame := frame c; enc_buffer := enc_buffer c; enc_buffer_size := enc_buffer_size c;
     width := width c; height := height c; stride := stride c; stride_uv := stride_uv c;
     nb_planes := nb_planes c; uv_height := uv_height c; pixel_fmt := pixel_fmt c;
     channels := v; sample_rate := sample_rate c; bytes_per_sample := bytes_per_sample c;
     sample_fmt := sample_fmt c; audio_buffer := audio_buffer c;
     audio_buffer_size := audio_buffer_size c;
     bytes_in_audio_buffer := bytes_in_audio_buffer c; init_cts_setup := init_cts_setup c |}.
Definition set_sample_rate (v : Z) (c : GF_FFEncodeCtx) : GF_FFEncodeCtx :=
  {| initialized := initialized c; encoder := encoder c; options := options c;
     in_pid := in_pid c; out_pid := out_pid c; type := type c; timescale := timescale c;
     low_delay := low_delay c; process := process c; codecid := codecid c;
     frame := frame c; enc_buffer := enc_buffer c; enc_buffer_size := enc_buffer_size c;
     width := width c; height := height c; stride := stride c; stride_uv := stride_uv c;
     nb_planes := nb_planes c; uv_height := uv_height c; pixel_fmt := pixel_fmt c;
     channels := channels c; sample_rate := v; bytes_per_sample := bytes_per_sample c;
     sample_fmt := sample_fmt c; audio_buffer := audio_buffer c;
     audio_buffer_size := audio_buffer_size c;
     bytes_in_audio_buffer := bytes_in_audio_buffer c; init_cts_setup := init_cts_setup c |}.
Definition set_bytes_per_sample (v : Z) (c : GF_FFEncodeCtx) : GF_FFEncodeCtx :=
  {| initialized := initialized c; encoder := encoder c; options := options c;
     in_pid := in_pid c; out_pid := out_pid c; type := type c; timescale := timescale c;
     low_delay := low_delay c; process := process c; codecid := codecid c;
     frame := frame c; enc_buffer := enc_buffer c; enc_buffer_size := enc_buffer_size c;
     width := width c; height := height c; stride := stride c; stride_uv := stride_uv c;
     nb_planes := nb_planes c; uv_height := uv_height c; pixel_fmt := pixel_fmt c;
     channels := channels c; sample_rate := sample_rate c; bytes_per_sample := v;
     sample_fmt := sample_fmt c; audio_buffer := audio_buffer c;
     audio_buffer_size := audio_buffer_size c;
     bytes_in_audio_buffer := bytes_in_audio_buffer c; init_cts_setup := init_cts_setup c |}.
Definition set_sample_fmt (v : Z) (c : GF_FFEncodeCtx) : GF_FFEncodeCtx :=
  {| initialized := initialized c; encoder := encoder c; options := options c;
     in_pid := in_pid c; out_pid := out_pid c; type := type c; timescale := timescale c;
     low_delay := low_delay c; process := process c; codecid := codecid c;
     frame := frame c; enc_buffer := enc_buffer c; enc_buffer_size := enc_buffer_size c;
     width := width c; height := height c; stride := stride c; stride_uv := stride_uv c;
     nb_planes := nb_planes c; uv_height := uv_height c; pixel_fmt := pixel_fmt c;
     channels := channels c; sample_rate := sample_rate c;
     bytes_per_sample := bytes_per_sample c; sample_fmt := v;
     audio_buffer := audio_buffer c; audio_buffer_size := audio_buffer_size c;
     bytes_in_audio_buffer := bytes_in_audio_buffer c; init_cts_setup := init_cts_setup c |}.
Definition set_audio_buffer (v : option Z) (c : GF_FFEncodeCtx) : GF_FFEncodeCtx :=
  {| initialized := initialized c; encoder := encoder c; options := options c;
     in_pid := in_pid c; out_pid := out_pid c; type := type c; timescale := timescale c;
     low_delay := low_delay c; process := process c; codecid := codecid c;
     frame := frame c; enc_buffer := enc_buffer c; enc_buffer_size := enc_buffer_size c;
     width := width c; height := height c; stride := stride c; stride_uv := stride_uv c;
     nb_planes := nb_planes c; uv_height := uv_height c; pixel_fmt := pixel_fmt c;
     channels := channels c; sample_rate := sample_rate c;
     bytes_per_sample := bytes_per_sample c; sample_fmt := sample_fmt c; audio_buffer := v;
     audio_buffer_size := audio_buffer_size c;
     bytes_in_audio_buffer := bytes_in_audio_buffer c; init_cts_setup := init_cts_setup c |}.
Definition set_audio_buffer_size (v : Z) (c : GF_FFEncodeCtx) : GF_FFEncodeCtx :=
  {| initialized := initialized c; encoder := encoder c; options := options c;
     in_pid := in_pid c; out_pid := out_pid c; type := type c; timescale := timescale c;
     low_delay := low_delay c; process := process c; codecid := codecid c;
     frame := frame c; enc_buffer := enc_buffer c; enc_buffer_size := enc_buffer_size c;
     width := width c; height := height c; stride := stride c; stride_uv := stride_uv c;
     nb_planes := nb_planes c; uv_height := uv_height c; pixel_fmt := pixel_fmt c;
     channels := channels c; sample_rate := sample_rate c;
     bytes_per_sample := bytes_per_sample c; sample_fmt := sample_fmt c;
     audio_buffer := audio_buffer c; audio_buffer_size := v;
     bytes_in_audio_buffer := bytes_in_audio_buffer c; init_cts_setup := init_cts_setup c |}.
Definition set_bytes_in_audio_buffer (v : Z) (c : GF_FFEncodeCtx) : GF_FFEncodeCtx :=
  {| initialized := initialized c; encoder := encoder c; options := options c;
     in_pid := in_pid c; out_pid := out_pid c; type := type c; timescale := timescale c;
     low_delay := low_delay c; process := process c; codecid := codecid c;
     frame := frame c; enc_buffer := enc_buffer c; enc_buffer_size := enc_buffer_size c;
     width := width c; height := height c; stride := stride c; stride_uv := stride_uv c;
     nb_planes := nb_planes c; uv_height := uv_height c; pixel_fmt := pixel_fmt c;
     channels := channels c; sample_rate := sample_rate c;
     bytes_per_sample := bytes_per_sample c; sample_fmt := sample_fmt c;
     audio_buffer := audio_buffer c; audio_buffer_size := audio_buffer_size c;
     bytes_in_audio_buffer := v; init_cts_setup := init_cts_setup c |}.
Definition set_init_cts_setup (v : bool) (c : GF_FFEncodeCtx) : GF_FFEncodeCtx :=
  {| initialized := initialized c; encoder := encoder c; options := options c;
     in_pid := in_pid c; out_pid := out_pid c; type := type c; timescale := timescale c;
     low_delay := low_delay c; process := process c; codecid := codecid c;
     frame := frame c; enc_buffer := enc_buffer c; enc_buffer_size := enc_buffer_size c;
     width := width c; height := height c; stride := stride c; stride_uv := stride_uv c;
     nb_planes := nb_planes c; uv_height := uv_height c; pixel_fmt := pixel_fmt c;
     channels := channels c; sample_rate := sample_rate c;
     bytes_per_sample := bytes_per_sample c; sample_fmt := sample_fmt c;
     audio_buffer := audio_buffer c; audio_buffer_size := audio_buffer_size c;
     bytes_in_audio_buffer := bytes_in_audio_buffer c; init_cts_setup := v |}.

(** *** The callbacks

    A callback runs on the context and the session, and returns early
    with an error code from anywhere in its body. *)

Definition M (A : Type) : Type :=
  GF_FFEncodeCtx -> Session
  -> (Outcome * GF_FFEncodeCtx * Session) + (A * GF_FFEncodeCtx * Session).

Definition ret {A : Type} (a : A) : M A := fun c s => inr (a, c, s).

Definition bind {A B : Type} (m : M A) (k : A -> M B) : M B :=
  fun c s => match m c s with
             | inl r => inl r
             | inr (a, c, s) => k a c s
             end.

(** [return e;] *)
Definition leave {A : Type} (e : GF_Err) : M A := fun c s => inl (Ret e, c, s).
(** A null pointer dereferenced, a division by zero. *)
Definition crash {A : Type} : M A := fun c s => inl (Abort, c, s).
Definition get : M GF_FFEncodeCtx := fun c s => inr (c, c, s).
Definition modify (f : GF_FFEncodeCtx -> GF_FFEncodeCtx) : M unit :=
  fun c s => inr (tt, f c, s).
Definition call (ev : CfgEv) : M unit :=
  fun c s => inr (tt, c, {| s_npids := s_npids s; s_trace := s_trace s ++ [ev] |}).
Definition gf_filter_pid_new : M nat :=
  fun c s => inr (s_npids s, c,
                  {| s_npids := S (s_npids s);
                     s_trace := s_trace s ++ [CfgPidNew (s_npids s)] |}).

Definition run (m : M GF_Err) (c : GF_FFEncodeCtx) (s : Session)
  : Outcome * GF_FFEncodeCtx * Session :=
  match m c s with
  | inl r => r
  | inr (e, c, s) => (Ret e, c, s)
  end.

#[local] Instance M_ret : MRet M := @ret.
#[local] Instance M_bind : MBind M := fun A B k m => bind m k.

(** [if (b) m] *)
Definition when (b : bool) (m : M unit) : M unit := if b then m else ret tt.

(** An assignment to a field of [ctx->encoder], which is not null. *)
Definition on_encoder (f : AVCodecContext -> AVCodecContext) : M unit :=
  modify (fun c => set_encoder (f <$> encoder c) c).

(** [av_dict_set(&ctx->options, key, value, 0)], the result dropped. *)
Definition dict_set (key value : string) : M unit :=
  modify (fun c => set_options (snd (av_dict_set (options c) key value)) c).

Definition ffenc_initialize : M GF_Err :=
  modify (set_initialized true);;
  ret GF_OK.

Definition ffenc_finalize : M unit :=
  ctx ← get;
  when (bool_decide (is_Some (options ctx)))
    (call CfgDictFree;; modify (set_options None));;
  when (bool_decide (is_Some (frame ctx)))
    (call CfgFrameFree;; modify (set_frame None));;
  when (bool_decide (is_Some (enc_buffer ctx))) (call CfgFree);;
  when (bool_decide (is_Some (audio_buffer ctx))) (call CfgFree);;
  when (bool_decide (is_Some (encoder ctx))) (call CfgAvcodecClose).

(** [ffenc_update_arg]: the argument has a name and a value, whose
    type is [GF_PROP_STRING] or another one. *)
Definition ffenc_update_arg (arg_name : string) (arg_val : PropVal) : M GF_Err :=
  if bool_decide (arg_name = "global_header"%string) then ret GF_OK
  else if bool_decide (arg_name = "local_header"%string) then ret GF_OK
  else
    when (bool_decide (arg_name = "low_delay"%string)) (modify (set_low_delay true));;
    ctx ← get;
    (* initial parsing of arguments *)
    if negb (initialized ctx) then
      match arg_val with
      | PROP_STRING s =>
          let '(res, d) := av_dict_set (options ctx) arg_name s in
          modify (set_options d);;
          when (res <? 0) (call (CfgLog GF_LOG_ERROR "[FFEnc] Failed to set option"));;
          ret GF_OK
      | _ =>
          call (CfgLog GF_LOG_ERROR "[FFEnc] Failed to set option, unrecognized type");;
          ret GF_NOT_SUPPORTED
      end
    else
      (* updates of arguments, not supported for ffmpeg decoders *)
      ret GF_NOT_SUPPORTED.

(** The macro [GET_PROP]. *)
Definition GET_PROP (pid : GF_FilterPid) (code : PidKey) (name : string) : M Z :=
  match gf_filter_pid_get_property pid code with
  | None =>
      call (CfgLog GF_LOG_ERROR ("[FFEnc] Input " ++ name ++ " unknown"));;
      leave GF_NON_COMPLIANT_BITSTREAM
  | Some prop => ret (uint prop)
  end.

(** The loops over [codec->pix_fmts] and [codec->sample_fmts]:
    [change_input_fmt], which is 0 unless the format is in the list. *)
Fixpoint find_fmt (fmts : list Z) (fmt : Z) : Z :=
  match fmts with
  | [] => 0
  | f :: rest => if u32 f =? fmt then fmt else find_fmt rest fmt
  end.

(** [fmts[0]], which is the terminator when the list is empty; the
    field it goes to is a [u32]. *)
Definition first_fmt (none : Z) (fmts : list Z) : Z :=
  match fmts with
  | f :: _ => u32 f
  | [] => u32 none
  end.

(** The statements under [if (type==GF_STREAM_VISUAL)] that read the
    input format, and those of the [else]; the result is [pfmt] and
    [afmt]. *)
Definition read_format (pid : GF_FilterPid) (ty : Z) : M (Z * Z) :=
  if ty =? GF_STREAM_VISUAL then
    v ← GET_PROP pid (Key GF_PROP_PID_WIDTH) "width";
    modify (set_width v);;
    v ← GET_PROP pid (Key GF_PROP_PID_HEIGHT) "height";
    modify (set_height v);;
    pfmt ← GET_PROP pid GF_PROP_PID_PIXFMT "pixel format";
    modify (fun c =>
              set_stride
                (match gf_filter_pid_caps_query pid GF_PROP_PID_STRIDE with
                 | Some prop => if negb (uint prop =? 0) then uint prop else width c
                 | None => width c
                 end) c);;
    modify (set_stride_uv
              (match gf_filter_pid_caps_query pid GF_PROP_PID_STRIDE_UV with
               | Some prop => if negb (uint prop =? 0) then uint prop else 0
               | None => 0
               end));;
    ret (pfmt, 0)
  else
    v ← GET_PROP pid (Key GF_PROP_PID_SAMPLE_RATE) "sample rate";
    modify (set_sample_rate v);;
    v ← GET_PROP pid (Key GF_PROP_PID_NUM_CHANNELS) "nb channels";
    modify (set_channels v);;
    afmt ← GET_PROP pid GF_PROP_PID_AUDIO_FORMAT "audio format";
    ret (0, afmt).

(** [gf_filter_pid_negociate_property(ctx->in_pid, ...)]. *)
Definition negociate (k : PidKey) (v : Z) : M unit :=
  ctx ← get;
  match in_pid ctx with
  | Some ipid => call (CfgNegociateProperty ipid k v)
  | None => crash
  end.

(** The check of the input format against the codec; the result is
    [infmt_negociate]. *)
Definition check_format (codec : AVCodec) (ty pfmt afmt : Z) : M bool :=
  if ty =? GF_STREAM_VISUAL then
    modify (set_pixel_fmt (u32 (ffmpeg_pixfmt_from_gpac pfmt)));;
    ctx ← get;
    let change_input_fmt :=
      match pix_fmts codec with
      | Some fmts => find_fmt fmts (pixel_fmt ctx)
      | None => 0
      end in
    if negb (pixel_fmt ctx =? change_input_fmt) then
      modify (set_pixel_fmt
                (match pix_fmts codec with
                 | Some fmts => first_fmt AV_PIX_FMT_NONE fmts
                 | None => u32 AV_PIX_FMT_YUV420P
                 end));;
      ctx ← get;
      negociate GF_PROP_PID_PIXFMT (u32 (ffmpeg_pixfmt_to_gpac (pixel_fmt ctx)));;
      ret true
    else ret false
  else
    modify (set_sample_fmt (u32 (ffmpeg_audio_fmt_from_gpac afmt)));;
    ctx ← get;
    let change_input_fmt :=
      match sample_fmts codec with
      | Some fmts => find_fmt fmts (sample_fmt ctx)
      | None => 0
      end in
    if negb (sample_fmt ctx =? change_input_fmt) then
      modify (set_sample_fmt
                (match sample_fmts codec with
                 | Some fmts => first_fmt AV_SAMPLE_FMT_NONE fmts
                 | None => u32 AV_SAMPLE_FMT_S16
                 end));;
      ctx ← get;
      negociate GF_PROP_PID_AUDIO_FORMAT (u32 (ffmpeg_audio_fmt_to_gpac (sample_fmt ctx)));;
      ret true
    else ret false.

(** The settings of a video encoder, from [ctx->process =
    ffenc_process_video] on. *)
Definition setup_video (pid : GF_FilterPid) (pfmt : Z) : M unit :=
  modify (set_process (Some Video));;
  ctx ← get;
  on_encoder (set_av_width (s32 (width ctx)));;
  on_encoder (set_av_height (s32 (height ctx)));;
  on_encoder (set_av_sample_aspect_ratio
                (match gf_filter_pid_get_property pid (Key GF_PROP_PID_SAR) with
                 | Some prop => (frac_num prop, s32 (frac_den prop))
                 | None => (1, 1)
                 end));;
  (* CHECKME: do we need to use 1/FPS ? *)
  match gf_filter_pid_get_property pid (Key GF_PROP_PID_TIMESCALE) with
  | Some prop => on_encoder (set_av_time_base (1, s32 (uint prop)))
  | None => ret tt
  end;;
  match gf_filter_pid_get_property pid (Key GF_PROP_PID_FPS) with
  | Some prop =>
      if frac_den prop =? 0 then crash
      else on_encoder (set_av_gop_size (s32 (u32 (frac_num prop) / frac_den prop)))
  | None => ret tt
  end;;
  when (low_delay ctx)
    (dict_set "vprofile" "baseline";;
     dict_set "preset" "ultrafast";;
     dict_set "tune" "zerolatency";;
     when (codecid ctx =? GF_CODECID_AVC)
       (dict_set "x264opts" "no-mbtree:sliced-threads:sync-lookahead=0");;
     on_encoder (fun e => set_av_flags (s32 (Z.lor (av_flags e) AV_CODEC_FLAG_LOW_DELAY)) e));;
  when (bool_decide (frame ctx = None)) (modify (set_frame (Some FFEnc.av_frame_alloc)));;
  modify (set_enc_buffer_size (u32 (width ctx * height ctx)));;
  call (CfgMalloc (u64 (width ctx * height ctx)));;
  modify (set_enc_buffer (Some (u64 (width ctx * height ctx))));;
  modify (fun c =>
            let '(s, suv, np, uvh) :=
              gf_pixel_get_size_info pfmt (width c) (height c)
                (stride c, stride_uv c, nb_planes c, uv_height c) in
            set_uv_height uvh (set_nb_planes np (set_stride_uv suv (set_stride s c))));;
  on_encoder (set_av_pix_fmt (s32 (pixel_fmt ctx))).

(** The settings of an audio encoder, from [ctx->process =
    ffenc_process_audio] on. *)
Definition setup_audio (pid : GF_FilterPid) (afmt : Z) : M unit :=
  modify (set_process (Some Audio));;
  ctx ← get;
  on_encoder (set_av_sample_rate (s32 (sample_rate ctx)));;
  on_encoder (set_av_channels (s32 (channels ctx)));;
  match gf_filter_pid_get_property pid GF_PROP_PID_CHANNEL_LAYOUT with
  | Some prop =>
      on_encoder (set_av_channel_layout (ffmpeg_channel_layout_from_gpac (uint prop)))
  | None =>
      if channels ctx =? 1 then on_encoder (set_av_channel_layout AV_CH_LAYOUT_MONO)
      else if channels ctx =? 2 then on_encoder (set_av_channel_layout AV_CH_LAYOUT_STEREO)
      else ret tt
  end;;
  match gf_filter_pid_get_property pid (Key GF_PROP_PID_TIMESCALE) with
  | Some prop =>
      on_encoder (set_av_time_base (1, s32 (uint prop)));;
      modify (set_timescale (uint prop))
  | None =>
      on_encoder (set_av_time_base (1, s32 (sample_rate ctx)));;
      modify (set_timescale (sample_rate ctx))
  end;;
  (* for aac *)
  dict_set "strict" "experimental";;
  when (bool_decide (frame ctx = None)) (modify (set_frame (Some FFEnc.av_frame_alloc)));;
  modify (set_enc_buffer_size (sample_rate ctx));;
  call (CfgMalloc (sample_rate ctx));;
  modify (set_enc_buffer (Some (sample_rate ctx)));;
  on_encoder (set_av_sample_fmt (s32 (sample_fmt ctx)));;
  modify (set_audio_buffer_size (sample_rate ctx));;
  call (CfgMalloc (sample_rate ctx));;
  modify (set_audio_buffer (Some (sample_rate ctx)));;
  modify (set_bytes_in_audio_buffer 0);;
  modify (set_bytes_per_sample (u32 (channels ctx * gf_audio_fmt_bit_depth afmt) / 8));;
  modify (set_init_cts_setup true).

(** The statements under [if (!ctx->out_pid)]. *)
Definition new_out_pid (pid : GF_FilterPid) (enc : AVCodecContext) : M nat :=
  o ← gf_filter_pid_new;
  modify (set_out_pid (Some o));;
  (* to change once we implement on-the-fly codec change *)
  match av_codec enc with
  | None => crash
  | Some cd =>
      call (CfgSetName ("ffenc:" ++ match codec_name cd with
                                    | Some n => n
                                    | None => "unknown"
                                    end))
  end;;
  call (CfgSetFramingMode (pid_id pid) true);;
  ret o.

(** The declaration of the output pid [opid], from
    [gf_filter_pid_copy_properties] to the end. *)
Definition declare_output (pid : GF_FilterPid) (ty : Z) (enc : AVCodecContext) (opid : nat)
  : M GF_Err :=
  call (CfgCopyProperties opid (pid_id pid));;
  ctx ← get;
  when (ty =? GF_STREAM_AUDIO)
    (call (CfgSetProperty opid (Key GF_PROP_PID_TIMESCALE)
             (Some (Val (PROP_UINT (timescale ctx))))));;
  call (CfgSetProperty opid GF_PROP_PID_DECODER_CONFIG None);;
  call (CfgSetProperty opid (Key GF_PROP_PID_CODECID)
          (Some (Val (PROP_UINT (codecid ctx)))));;
  (if (codecid ctx =? GF_CODECID_AVC) || (codecid ctx =? GF_CODECID_HEVC) then
     call (CfgSetProperty opid GF_PROP_PID_UNFRAMED (Some (Val (PROP_BOOL true))))
   else
     match av_extradata enc with
     | Some data =>
         when (negb (av_extradata_size enc =? 0))
           (call (CfgSetProperty opid GF_PROP_PID_DECODER_CONFIG
                    (Some (PROP_DATA data (av_extradata_size enc)))))
     | None => ret tt
     end);;
  ret GF_OK.

(** The end of [ffenc_config_input], from [ffmpeg_set_enc_dec_flags]
    on. *)
Definition open_and_declare (pid : GF_FilterPid) (codec : AVCodec) (ty : Z) : M GF_Err :=
  ctx ← get;
  match encoder ctx with
  | None => crash
  | Some enc =>
      let enc := ffmpeg_set_enc_dec_flags (options ctx) enc in
      let '(res, enc, opts) := avcodec_open2 enc codec (options ctx) in
      modify (set_encoder (Some enc));;
      modify (set_options opts);;
      call (CfgAvcodecOpen res);;
      if res <? 0 then
        call (CfgLog GF_LOG_ERROR "[FFEnc] PID failed to open codec context");;
        ret GF_NON_COMPLIANT_BITSTREAM
      else
        (* we're good to go, declare our output pid *)
        modify (set_in_pid (Some (pid_id pid)));;
        opid ← match out_pid ctx with
               | Some o => ret o
               | None => new_out_pid pid enc
               end;
        declare_output pid ty enc opid
  end.

(** The statements under [if (ctx->encoder)]: a codec of another id
    is refused, the encoder of the same one is closed. *)
Definition close_encoder : M unit :=
  ctx ← get;
  match encoder ctx with
  | Some enc =>
      match av_codec enc with
      | None => crash
      | Some cd =>
          if negb (codec_id cd =? ffmpeg_codecid_from_gpac (codecid ctx)) then
            call (CfgLog GF_LOG_ERROR
                    "[FFEnc] Cannot switch codec type on the fly, not yet supported !");;
            leave GF_NOT_SUPPORTED
          else
            call CfgAvcodecClose;;
            modify (set_encoder None)
      end
  | None => ret tt
  end.

(** The checks of the pid at the head of [ffenc_config_input]; the
    result is [type]. *)
Definition check_pid (pid : GF_FilterPid) : M Z :=
  (* check our PID: streamtype and codecid *)
  ty ← match gf_filter_pid_get_property pid (Key GF_PROP_PID_STREAM_TYPE) with
         | None => leave GF_NOT_SUPPORTED
         | Some prop => ret (uint prop)
         end;
  when (negb ((ty =? GF_STREAM_AUDIO) || (ty =? GF_STREAM_VISUAL)))
    (leave GF_NOT_SUPPORTED);;
  match gf_filter_pid_get_property pid (Key GF_PROP_PID_CODECID) with
  | None => leave GF_NOT_SUPPORTED
  | Some prop => when (negb (uint prop =? GF_CODECID_RAW)) (leave GF_NOT_SUPPORTED)
  end;;
  ret ty.

(** The statements under [initial config or update]. *)
Definition accept_pid (pid : GF_FilterPid) (ty : Z) : M unit :=
  ctx ← get;
  if bool_decide (in_pid ctx = None \/ in_pid ctx = Some (pid_id pid)) then
    modify (set_in_pid (Some (pid_id pid)));;
    if type ctx =? 0 then modify (set_type ty)
    (* no support for dynamic changes of stream types *)
    else when (negb (type ctx =? ty)) (leave GF_NOT_SUPPORTED)
  else
    (* only one input pid in ctx *)
    leave GF_REQUIRES_NEW_INSTANCE.

Definition find_codec : M AVCodec :=
  ctx ← get;
  let id := ffmpeg_codecid_from_gpac (codecid ctx) in
  match (if negb (id =? 0) then avcodec_find_encoder id else None) with
  | Some codec => ret codec
  | None => leave GF_NOT_SUPPORTED
  end.

(** From [avcodec_alloc_context3] on. *)
Definition configure_encoder (pid : GF_FilterPid) (codec : AVCodec) (ty pfmt afmt : Z)
  : M GF_Err :=
  match avcodec_alloc_context3 codec with
  | None => leave GF_OUT_OF_MEM
  | Some enc => modify (set_encoder (Some enc))
  end;;
  (if ty =? GF_STREAM_VISUAL then setup_video pid pfmt
   else if ty =? GF_STREAM_AUDIO then setup_audio pid afmt
   else ret tt);;
  open_and_declare pid codec ty.

Definition ffenc_config_input (pid : GF_FilterPid) (is_remove : bool) : M GF_Err :=
  (* disconnect of src pid (not yet supported) *)
  if is_remove then
    ctx ← get;
    match out_pid ctx with
    | Some o => call (CfgPidRemove o)
    | None => ret tt
    end;;
    ret GF_OK
  else
    ty ← check_pid pid;
    (* figure out if output was preconfigured during filter chain setup *)
    match gf_filter_pid_caps_query pid (Key GF_PROP_PID_CODECID) with
    | Some prop => modify (set_codecid (uint prop))
    | None => ret tt
    end;;
    accept_pid pid ty;;
    '(pfmt, afmt) ← read_format pid ty;
    close_encoder;;
    codec ← find_codec;
    infmt_negociate ← check_format codec ty pfmt afmt;
    if infmt_negociate : bool then ret GF_OK
    else configure_encoder pid codec ty pfmt afmt.

(** *** The life of a filter

    The callbacks [FFEncodeRegister] gives the session, on a context
    that is zeroed memory at first ([private_size]); the session calls
    back until a callback stops the process. *)
Inductive Callback :=
| Initialize
| UpdateArg (arg_name : string) (arg_val : PropVal)
| ConfigurePid (pid : GF_FilterPid) (is_remove : bool).

Definition callback (cb : Callback) : M GF_Err :=
  match cb with
  | Initialize => ffenc_initialize
  | UpdateArg arg_name arg_val => ffenc_update_arg arg_name arg_val
  | ConfigurePid pid is_remove => ffenc_config_input pid is_remove
  end.

Definition zero_ctx : GF_FFEncodeCtx :=
  {| initialized := false; encoder := None; options := None; in_pid := None;
     out_pid := None; type := 0; timescale := 0; low_delay := false; process := None;
     codecid := 0; frame := None; enc_buffer := None; enc_buffer_size := 0; width := 0;
     height := 0; stride := 0; stride_uv := 0; nb_planes := 0; uv_height := 0;
     pixel_fmt := 0; channels := 0; sample_rate := 0; bytes_per_sample := 0;
     sample_fmt := 0; audio_buffer := None; audio_buffer_size := 0;
     bytes_in_audio_buffer := 0; init_cts_setup := false |}.

Definition new_session : Session := {| s_npids := 0; s_trace := [] |}.

Fixpoint callbacks (cbs : list Callback) (c : GF_FFEncodeCtx) (s : Session)
  : Outcome * GF_FFEncodeCtx * Session :=
  match cbs with
  | [] => (Ret GF_OK, c, s)
  | cb :: rest =>
      match run (callback cb) c s with
      | (Abort, c, s) => (Abort, c, s)
      | (Ret _, c, s) => callbacks rest c s
      end
  end.

(** The session once [ffenc_finalize] has run. *)
Definition finalized (c : GF_FFEncodeCtx) (s : Session) : Session :=
  match ffenc_finalize c s with
  | inl (_, _, s) | inr (_, _, s) => s
  end.

End Config.

Arguments AVCodecContext : clear implicits.
Arguments AVEngine : clear implicits.
Arguments GF_FFEncodeCtx : clear implicits.

(** *** [ffenc_register] *)

(** An [AVOption] of the codec context class, and an argument of the
    filter without its type and its range; the name is null in the entry
    that ends a table. *)
Record AVOption := {
  opt_name : string;
  opt_flags : Z
}.

Record GF_FilterArgs := {
  arg_name : option string;
  arg_offset : Z;
  arg_desc : option string;
  arg_default : option string;
  arg_updatable : bool;
  arg_meta : bool
}.

(** An entry as [memset] leaves it, and as [{}] declares it. *)
Definition zero_arg : GF_FilterArgs :=
  {| arg_name := None; arg_offset := 0; arg_desc := None; arg_default := None;
     arg_updatable := false; arg_meta := false |}.

(** [all_intra] is the first field of the context. *)
Definition FFEncodeArgs : list GF_FilterArgs :=
  [ {| arg_name := Some "all_intra"%string; arg_offset := 0;
       arg_desc := Some "only produces intra frames"%string;
       arg_default := Some "false"%string; arg_updatable := false; arg_meta := false |};
    {| arg_name := Some "*"%string; arg_offset := -1;
       arg_desc := Some "Any possible args defined for AVCodecContext and sub-classes"%string;
       arg_default := None; arg_updatable := false; arg_meta := true |};
    zero_arg ].

Definition FFENC_STATIC_ARGS : nat := length FFEncodeArgs - 1.

Section Register.
Variable ffmpeg_arg_translate : AVOption -> GF_FilterArgs.

Definition is_encoding (opt : AVOption) : bool :=
  negb (Z.land (opt_flags opt) AV_OPT_FLAG_ENCODING_PARAM =? 0).

(** The first loop over the options (those before the entry without a
    name): it counts in [i]. *)
Definition count_option (i : nat) (opt : AVOption) : nat :=
  if is_encoding opt then S i else i.

(** The second one: it writes the table at [i]. *)
Definition write_option (acc : nat * list GF_FilterArgs) (opt : AVOption)
  : nat * list GF_FilterArgs :=
  let '(i, args) := acc in
  if is_encoding opt then (S i, <[i := ffmpeg_arg_translate opt]> args)
  else (i, args).

(** [FFEncodeRegister.args] as [ffenc_register] leaves it, for a
    session or none, [options] being [ctx->av_class->option] (none
    when the pointer is null). *)
Definition ffenc_register (session : bool) (options : option (list AVOption))
  : list GF_FilterArgs :=
  (* by default no need to load option descriptions *)
  if negb session then FFEncodeArgs
  else
    let opts := default [] options in
    let i := foldl count_option 0%nat opts in
    let i := (i + (FFENC_STATIC_ARGS + 1))%nat in
    let args := replicate i zero_arg in
    let args :=
      foldl (fun args i => <[i := default zero_arg (FFEncodeArgs !! i)]> args)
        args (seq 0 FFENC_STATIC_ARGS) in
    snd (foldl write_option (FFENC_STATIC_ARGS, args) opts).

End Register.

End FFEncCfg.

(** * Properties *)

(** ** The trace only grows *)

Lemma emitted_app (w w' : World) (evs : list Ev) :
  w_trace w' = w_trace w ++ evs -> emitted w w' = evs.
Proof.
  intros H. unfold emitted. rewrite H. apply drop_app_length.
Qed.

Lemma emitted_refl (w : World) : emitted w w = [].
Proof. apply emitted_app. now rewrite app_nil_r. Qed.

(** [grows P w w']: from [w] to [w'] the filter made calls that all satisfy
    [P], and the oracles of the session did not change. *)
Definition grows (P : Ev -> Prop) (w w' : World) : Prop :=
  exists evs, w_trace w' = w_trace w ++ evs /\ Forall P evs
              /\ w_would_block w' = w_would_block w /\ w_in_eos w' = w_in_eos w.

Lemma grows_refl (P : Ev -> Prop) (w : World) : grows P w w.
Proof. exists []. rewrite app_nil_r. repeat split; auto. Qed.

Lemma grows_trans (P : Ev -> Prop) (w1 w2 w3 : World) :
  grows P w1 w2 -> grows P w2 w3 -> grows P w1 w3.
Proof.
  intros (e1 & H1 & F1 & B1 & E1) (e2 & H2 & F2 & B2 & E2).
  exists (e1 ++ e2). rewrite H2, H1, app_assoc. repeat split.
  - apply Forall_app; auto.
  - congruence.
  - congruence.
Qed.

Lemma grows_emit (P : Ev -> Prop) (e : Ev) (w : World) : P e -> grows P w (emit e w).
Proof. intros H. exists [e]. repeat split; auto. Qed.

Lemma grows_drop_packet (P : Ev -> Prop) (w : World) :
  P EvDropPacket -> grows P w (gf_filter_pid_drop_packet w).
Proof. intros H. exists [EvDropPacket]. repeat split; auto. Qed.

Lemma grows_pid_new (P : Ev -> Prop) (w : World) :
  P (EvPidNew (w_npids w)) -> grows P w (snd (gf_filter_pid_new w)).
Proof. intros H. exists [EvPidNew (w_npids w)]. repeat split; auto. Qed.

Lemma grows_weaken (P Q : Ev -> Prop) (w w' : World) :
  (forall e, P e -> Q e) -> grows P w w' -> grows Q w w'.
Proof.
  intros HPQ (evs & H & F & B & E). exists evs. repeat split; auto.
  eapply Forall_impl; eauto.
Qed.

Lemma grows_emitted (P : Ev -> Prop) (w w' : World) :
  grows P w w' -> Forall P (emitted w w').
Proof. intros (evs & H & F & _). now rewrite (emitted_app _ _ _ H). Qed.

Lemma grows_would_block (P : Ev -> Prop) (w w' : World) :
  grows P w w' -> w_would_block w' = w_would_block w.
Proof. now intros (evs & _ & _ & B & _). Qed.

Create HintDb trace.
#[local] Hint Resolve grows_refl grows_emit grows_drop_packet grows_pid_new : trace.

(** A loop that only makes calls satisfying [P] in each round does so as a
    whole. *)
Lemma grows_foldl {A S : Type} (P : Ev -> Prop) (world : S -> World)
    (f : S -> A -> S) (l : list A) :
  (forall s a, a ∈ l -> grows P (world s) (world (f s a))) ->
  forall s, grows P (world s) (world (foldl f s l)).
Proof.
  induction l as [|a l IH]; intros Hf s; simpl.
  - apply grows_refl.
  - eapply grows_trans.
    + apply Hf. left.
    + apply IH. intros s' a' Ha'. apply Hf. now right.
Qed.

(** ** The demuxer *)

Section DemuxProperties.
Import M2PSDmx.
Context {lib : Mpeg2Ps}.

(** The input pid works in full-block framing mode (the filter asks for it
    in [configure_pid]): every packet pending on it is a complete file,
    which [m2psdmx_process] asserts. *)
Definition complete_files (w : World) : Prop :=
  forall pck, head (w_inq w) = Some pck -> in_end pck = true.

(** Calls that are neither an allocation nor a dispatch of a packet on a
    pid that would block. *)
Definition spares_blocked (w : World) (e : Ev) : Prop :=
  match e with
  | EvPckNewAlloc pid _ | EvPckSend pid _ => w_would_block w pid = false
  | _ => True
  end.

Definition is_seek (e : Ev) : bool :=
  match e with EvPsSeek _ _ _ => true | _ => false end.
Definition is_get_frame (e : Ev) : bool :=
  match e with EvPsGetFrame _ _ => true | _ => false end.
Definition is_pck (e : Ev) : bool :=
  match e with EvPckNewAlloc _ _ | EvPckSend _ _ => true | _ => false end.
Definition is_eos (e : Ev) : bool :=
  match e with EvSetEos _ => true | _ => false end.
Definition is_pid_new (e : Ev) : bool :=
  match e with EvPidNew _ => true | _ => false end.
Definition is_pid_remove (e : Ev) : bool :=
  match e with EvPidRemove _ => true | _ => false end.
Definition is_ps_init (e : Ev) : bool :=
  match e with EvPsInit _ => true | _ => false end.

(** What [m2psdmx_setup] does on the session: it creates pids and sets
    properties, nothing else; and [GF_PROP_PID_HEIGHT] is not among the
    properties it sets. *)
Definition setup_call (e : Ev) : Prop :=
  match e with
  | EvPidNew _ => True
  | EvSetProperty _ k _ => k <> GF_PROP_PID_HEIGHT
  | _ => False
  end.

Lemma get_stream_grows (ty : Z) (sts : list M2PSStream) (w : World) :
  grows setup_call w (snd (get_stream ty sts w)).
Proof.
  unfold get_stream. destruct (find_unused ty sts) as [[j st]|]; simpl.
  - apply grows_refl.
  - apply (grows_pid_new setup_call w). exact I.
Qed.

Lemma set_property_grows (o : nat) (k : PropKey) (v : option PropVal) (w : World) :
  k <> GF_PROP_PID_HEIGHT ->
  grows setup_call w (gf_filter_pid_set_property o k v w).
Proof. intros H. apply grows_emit. exact H. Qed.

Ltac grows_steps :=
  repeat first
    [ apply grows_refl
    | eapply grows_trans; [| apply set_property_grows; discriminate ]
    | match goal with
      | |- context [match ?x with _ => _ end] => destruct x
      | |- context [if ?b then _ else _] => destruct b
      end ].

Lemma setup_video_grows (p : mpeg2ps_t) (dur : PropVal) (acc : SetupSt) (i : nat) :
  grows setup_call (snd acc) (snd (setup_video p dur acc i)).
Proof.
  destruct acc as [[sts sync] w]. unfold setup_video.
  pose proof (get_stream_grows GF_STREAM_VISUAL sts w) as Hg.
  destruct (get_stream GF_STREAM_VISUAL sts w) as [[[j st] sts'] w1]. simpl in Hg.
  cbn [snd]. eapply grows_trans; [exact Hg|]. clear Hg.
  destruct (get_video_timing _) as [ts inc].
  grows_steps.
Qed.

Lemma setup_audio_grows (p : mpeg2ps_t) (dur : PropVal) (acc : SetupSt) (i : nat) :
  grows setup_call (snd acc) (snd (setup_audio p dur acc i)).
Proof.
  destruct acc as [[sts sync] w]. unfold setup_audio.
  pose proof (get_stream_grows GF_STREAM_AUDIO sts w) as Hg.
  destruct (get_stream GF_STREAM_AUDIO sts w) as [[[j st] sts'] w1]. simpl in Hg.
  destruct (mpeg2ps_get_audio_stream_type p (Z.of_nat i)) eqn:Hty;
    cbn [snd]; try apply grows_refl;
    (eapply grows_trans; [exact Hg|]); clear Hg; grows_steps.
Qed.

Lemma m2psdmx_setup_grows (p : mpeg2ps_t) (ctx : GF_M2PSDmxCtx lib) (w : World) :
  grows setup_call w (snd (m2psdmx_setup p ctx w)).
Proof.
  unfold m2psdmx_setup.
  remember (foldl (setup_audio p _) _ _) as X eqn:HX.
  assert (grows setup_call w (snd X)) as H.
  { subst X. eapply grows_trans.
    2: { apply (grows_foldl setup_call snd). intros s x _. apply setup_audio_grows. }
    apply (grows_foldl setup_call snd (setup_video p _) _
             (fun s x _ => setup_video_grows p _ s x) (_, 0, w)). }
  destruct X as [[sts sy] w']. exact H.
Qed.

(** *** The loops of [m2psdmx_process] *)

Definition seek_call (e : Ev) : Prop := is_seek e = true.

Lemma seek_stream_grows (seek_to : Z) (acc : mpeg2ps_t * World) (st : M2PSStream) :
  grows seek_call (snd acc) (snd (seek_stream seek_to acc st)).
Proof.
  destruct acc as [p w]. unfold seek_stream.
  destruct (in_use st); simpl; [|apply grows_refl].
  destruct (stream_type st =? GF_STREAM_VISUAL); simpl; now apply grows_emit.
Qed.

Lemma seek_loop_grows (seek_to : Z) (sts : list M2PSStream) (acc : mpeg2ps_t * World) :
  grows seek_call (snd acc) (snd (foldl (seek_stream seek_to) acc sts)).
Proof.
  apply (grows_foldl seek_call snd). intros s a _. apply seek_stream_grows.
Qed.

(** The calls of the dispatch loop over the entries [sts]: a frame read
    for an entry in use whose pid does not block, and packets on pids
    that do not block ([B] is the would-block oracle). *)
Definition dispatch_call (B : nat -> bool) (sts : list M2PSStream) (e : Ev) : Prop :=
  match e with
  | EvPsGetFrame k n =>
      exists st, st ∈ sts /\ in_use st = true /\ B (opid st) = false
                 /\ stream_kind st = k /\ stream_num st = n
  | EvPckNewAlloc pid _ | EvPckSend pid _ => B pid = false
  | _ => False
  end.

Lemma dispatch_call_mono (B : nat -> bool) (sts sts' : list M2PSStream) (e : Ev) :
  (forall st, st ∈ sts -> st ∈ sts') -> dispatch_call B sts e -> dispatch_call B sts' e.
Proof.
  intros Hsub. destruct e; simpl; auto.
  intros (st & Hin & H). exists st. split; auto.
Qed.

Lemma process_stream_grows (fd : Z) (acc : DispatchSt) (st : M2PSStream) :
  grows (dispatch_call (w_would_block (snd acc)) [st]) (snd acc)
    (snd (process_stream fd acc st)).
Proof.
  destruct acc as [[p nb] w]. unfold process_stream, gf_filter_pid_would_block.
  destruct (in_use st) eqn:Hu; simpl; [|apply grows_refl].
  destruct (w_would_block w (opid st)) eqn:Hb; simpl; [apply grows_refl|].
  assert (forall k, stream_kind st = k ->
            dispatch_call (w_would_block w) [st] (EvPsGetFrame k (stream_num st))) as Hread.
  { intros k Hk. exists st. repeat split; auto. apply list_elem_of_singleton. reflexivity. }
  destruct (stream_type st =? GF_STREAM_VISUAL) eqn:Hty.
  - specialize (Hread Video). unfold stream_kind in Hread. rewrite Hty in Hread.
    specialize (Hread eq_refl).
    destruct (mpeg2ps_get_video_frame p (stream_num st)) as [[fr|] p']; simpl.
    + eapply grows_trans; [eapply grows_trans|]; apply grows_emit;
        first [exact Hread | exact Hb].
    + apply grows_emit. exact Hread.
  - specialize (Hread Audio). unfold stream_kind in Hread. rewrite Hty in Hread.
    specialize (Hread eq_refl).
    destruct (mpeg2ps_get_audio_frame p (stream_num st)) as [[fr|] p']; simpl.
    + eapply grows_trans; [eapply grows_trans|]; apply grows_emit;
        first [exact Hread | exact Hb].
    + apply grows_emit. exact Hread.
Qed.

Lemma dispatch_loop_grows (fd : Z) (sts : list M2PSStream) (acc : DispatchSt) :
  grows (dispatch_call (w_would_block (snd acc)) sts) (snd acc)
    (snd (foldl (process_stream fd) acc sts)).
Proof.
  revert acc. induction sts as [|st sts IH]; intros acc; simpl.
  - apply grows_refl.
  - pose proof (process_stream_grows fd acc st) as H1.
    pose proof (IH (process_stream fd acc st)) as H2.
    rewrite (grows_would_block _ _ _ H1) in H2.
    eapply grows_trans; (eapply grows_weaken; [|eassumption]);
      intros e; apply dispatch_call_mono; intros x Hx.
    + apply list_elem_of_singleton in Hx. subst x. left.
    + now right.
Qed.

(** The pending packets are not touched by the dispatch loop. *)
Lemma process_stream_inq (fd : Z) (acc : DispatchSt) (st : M2PSStream) :
  w_inq (snd (process_stream fd acc st)) = w_inq (snd acc).
Proof.
  destruct acc as [[p nb] w]. unfold process_stream.
  repeat match goal with
         | |- context [if ?b then _ else _] => destruct b
         | |- context [match ?x with _ => _ end] => destruct x
         end; reflexivity.
Qed.

Lemma dispatch_loop_inq (fd : Z) (sts : list M2PSStream) (acc : DispatchSt) :
  w_inq (snd (foldl (process_stream fd) acc sts)) = w_inq (snd acc).
Proof.
  revert acc. induction sts as [|st sts IH]; intros acc; simpl; [reflexivity|].
  now rewrite IH, process_stream_inq.
Qed.

(** [nb_done] counts at most the entries gone through, and leaves out
    every entry in use whose pid would block. *)
Definition held_back (B : nat -> bool) (st : M2PSStream) : bool :=
  in_use st && B (opid st).

Lemma process_stream_nb_done (fd : Z) (acc : DispatchSt) (st : M2PSStream) :
  (snd (fst (process_stream fd acc st))
   <= snd (fst acc) + (if held_back (w_would_block (snd acc)) st then 0 else 1))%nat.
Proof.
  destruct acc as [[p nb] w]. unfold process_stream, held_back, gf_filter_pid_would_block.
  destruct (in_use st); simpl; [|lia].
  destruct (w_would_block w (opid st)); simpl; [lia|].
  destruct (stream_type st =? GF_STREAM_VISUAL).
  - destruct (mpeg2ps_get_video_frame p (stream_num st)) as [[fr|] p']; simpl; lia.
  - destruct (mpeg2ps_get_audio_frame p (stream_num st)) as [[fr|] p']; simpl; lia.
Qed.

Lemma dispatch_loop_nb_done (fd : Z) (sts : list M2PSStream) (acc : DispatchSt) :
  (snd (fst (foldl (process_stream fd) acc sts)) + 
     length (filter (fun st => held_back (w_would_block (snd acc)) st = true) sts)
   <= snd (fst acc) + length sts)%nat.
Proof.
  revert acc. induction sts as [|st sts IH]; intros acc; simpl; [lia|].
  pose proof (process_stream_nb_done fd acc st) as H1.
  pose proof (IH (process_stream fd acc st)) as H2.
  rewrite (grows_would_block _ _ _ (process_stream_grows fd acc st)) in H2.
  destruct (held_back (w_would_block (snd acc)) st) eqn:Hh.
  - rewrite filter_cons_True by exact Hh. simpl. lia.
  - rewrite filter_cons_False by (rewrite Hh; discriminate). lia.
Qed.

Lemma held_back_counted (B : nat -> bool) (sts : list M2PSStream) (st : M2PSStream) :
  st ∈ sts -> in_use st = true -> B (opid st) = true ->
  (0 < length (filter (fun st => held_back B st = true) sts))%nat.
Proof.
  intros Hin Hu Hb.
  assert (st ∈ filter (fun st => held_back B st = true) sts) as H.
  { apply list_elem_of_filter. split; [|exact Hin]. unfold held_back. now rewrite Hu, Hb. }
  destruct (filter _ sts); [inversion H|simpl; lia].
Qed.

(** The seek loop makes one seek call per entry in use, and no other
    call. *)
Definition seek_of (seek_to : Z) (st : M2PSStream) : Ev :=
  EvPsSeek (stream_kind st) (stream_num st) seek_to.

Lemma seek_loop_trace (seek_to : Z) (sts : list M2PSStream) (acc : mpeg2ps_t * World) :
  w_trace (snd (foldl (seek_stream seek_to) acc sts))
  = w_trace (snd acc)
    ++ (seek_of seek_to <$> filter (fun st => in_use st = true) sts).
Proof.
  revert acc. induction sts as [|st sts IH]; intros [p w]; simpl.
  - now rewrite app_nil_r.
  - rewrite IH. unfold seek_stream, seek_of, stream_kind.
    destruct (in_use st) eqn:Hu; simpl.
    + rewrite filter_cons_True by exact Hu.
      rewrite fmap_cons.
      destruct (stream_type st =? GF_STREAM_VISUAL); simpl;
        now rewrite <- app_assoc.
    + rewrite filter_cons_False; [reflexivity|]. rewrite Hu. discriminate.
Qed.

Definition nb_seeks (evs : list Ev) : nat :=
  length (filter (fun e => is_seek e = true) evs).

Lemma nb_seeks_app (l1 l2 : list Ev) : nb_seeks (l1 ++ l2) = (nb_seeks l1 + nb_seeks l2)%nat.
Proof. unfold nb_seeks. now rewrite filter_app, length_app. Qed.

Lemma nb_seeks_none (l : list Ev) : Forall (fun e => is_seek e = false) l -> nb_seeks l = 0%nat.
Proof.
  unfold nb_seeks. induction 1 as [|e l He _ IH]; [reflexivity|].
  rewrite filter_cons_False; [exact IH|]. rewrite He. discriminate.
Qed.

Lemma nb_seeks_seek_of (seek_to : Z) (sts : list M2PSStream) :
  nb_seeks (seek_of seek_to <$> sts) = length sts.
Proof.
  unfold nb_seeks. induction sts as [|st sts IH]; [reflexivity|].
  rewrite fmap_cons, filter_cons_True by reflexivity. simpl. now rewrite IH.
Qed.

Lemma dispatch_call_not_seek (B : nat -> bool) (sts : list M2PSStream) (e : Ev) :
  dispatch_call B sts e -> is_seek e = false.
Proof. destruct e; simpl; auto; contradiction. Qed.

Lemma setup_call_not_seek (e : Ev) : setup_call e -> is_seek e = false.
Proof. destruct e; simpl; auto; contradiction. Qed.

Lemma set_eos_loop_grows (P : Ev -> Prop) (sts : list M2PSStream) (w : World) :
  (forall pid, P (EvSetEos pid)) ->
  grows P w (foldl (fun w st => gf_filter_pid_set_eos (opid st) w) w sts).
Proof.
  intros HP. apply (grows_foldl P (fun w => w)). intros s a _. now apply grows_emit.
Qed.

Lemma set_eos_loop_inq (sts : list M2PSStream) (w : World) :
  w_inq (foldl (fun w st => gf_filter_pid_set_eos (opid st) w) w sts) = w_inq w.
Proof. revert w. induction sts as [|st sts IH]; intros w; simpl; [|rewrite IH]; reflexivity. Qed.

Lemma seek_loop_inq (seek_to : Z) (sts : list M2PSStream) (acc : mpeg2ps_t * World) :
  w_inq (snd (foldl (seek_stream seek_to) acc sts)) = w_inq (snd acc).
Proof.
  revert acc. induction sts as [|st sts IH]; intros [p w]; simpl; [reflexivity|].
  rewrite IH. unfold seek_stream. destruct (in_use st); [|reflexivity].
  now destruct (stream_type st =? GF_STREAM_VISUAL).
Qed.

Lemma set_eos_loop_trace (sts : list M2PSStream) (w : World) :
  w_trace (foldl (fun w st => gf_filter_pid_set_eos (opid st) w) w sts)
  = w_trace w ++ ((fun st => EvSetEos (opid st)) <$> sts).
Proof.
  revert w. induction sts as [|st sts IH]; intros w; simpl.
  - now rewrite app_nil_r.
  - rewrite IH. simpl. now rewrite <- app_assoc.
Qed.

Lemma set_eos_loop_would_block (sts : list M2PSStream) (w : World) :
  w_would_block (foldl (fun w st => gf_filter_pid_set_eos (opid st) w) w sts)
  = w_would_block w.
Proof. revert w. induction sts as [|st sts IH]; intros w; simpl; [|rewrite IH]; reflexivity. Qed.

(** *** What a dispatch round does

    The calls come in three runs: the seeks (when one is pending), the
    frame reads and packets of the dispatch loop, and the end of stream
    (when every entry is done). *)
Inductive dispatch_spec (p : mpeg2ps_t) (ctx : GF_M2PSDmxCtx lib) (w : World)
    (r : Outcome) (ctx' : GF_M2PSDmxCtx lib) (w' : World) : Prop :=
| DispatchSpec (ds_seeks ds_frames ds_end : list Ev)
    (ds_trace : w_trace w' = w_trace w ++ ds_seeks ++ ds_frames ++ ds_end)
    (ds_seeks_eq :
       ds_seeks = if in_seek ctx
                  then seek_of (u64 (double_to_Z (1000 * start_range ctx)%float))
                         <$> filter (fun st => in_use st = true) (streams ctx)
                  else [])
    (ds_frames_ok : Forall (dispatch_call (w_would_block w) (streams ctx)) ds_frames)
    (ds_would_block : w_would_block w' = w_would_block w)
    (ds_streams : streams ctx' = streams ctx)
    (ds_in_seek : in_seek ctx' = false)
    (ds_is_playing : is_playing ctx' = is_playing ctx)
    (ds_start_range : start_range ctx' = start_range ctx)
    (ds_src_url : src_url ctx' = src_url ctx)
    (ds_ipid : ipid ctx' = ipid ctx)
    (ds_ps : is_Some (ps ctx'))
    (ds_result :
       (r = Ret GF_OK /\ ds_end = [] /\ w_inq w' = w_inq w)
       \/ (r = Ret GF_EOS
           /\ ds_end = ((fun st => EvSetEos (opid st)) <$> streams ctx) ++ [EvDropPacket]
           /\ w_inq w' = tail (w_inq w)
           /\ filter (fun st => held_back (w_would_block w) st = true) (streams ctx) = [])).

Lemma m2psdmx_dispatch_spec (p : mpeg2ps_t) (ctx : GF_M2PSDmxCtx lib) (w : World) :
  match m2psdmx_dispatch p ctx w with
  | (r, ctx', w') => dispatch_spec p ctx w r ctx' w'
  end.
Proof.
  unfold m2psdmx_dispatch.
  set (seek_to := u64 _).
  (* the seek run *)
  assert (exists p1 ctx1 w1,
    (if in_seek ctx
     then let '(p, w) := foldl (seek_stream seek_to) (p, w) (streams ctx) in
          (p, set_in_seek false ctx, w)
     else (p, ctx, w)) = (p1, ctx1, w1)
    /\ w_trace w1 = w_trace w
                    ++ (if in_seek ctx
                        then seek_of seek_to
                               <$> filter (fun st => in_use st = true) (streams ctx)
                        else [])
    /\ w_would_block w1 = w_would_block w /\ w_inq w1 = w_inq w
    /\ ctx1 = set_in_seek false ctx) as (p1 & ctx1 & w1 & -> & Ht1 & Hb1 & Hq1 & ->).
  { destruct (in_seek ctx) eqn:Hs.
    - pose proof (seek_loop_trace seek_to (streams ctx) (p, w)) as Ht.
      pose proof (seek_loop_grows seek_to (streams ctx) (p, w)) as Hg.
      pose proof (seek_loop_inq seek_to (streams ctx) (p, w)) as Hq.
      destruct (foldl (seek_stream seek_to) (p, w) (streams ctx)) as [p1 w1].
      exists p1, (set_in_seek false ctx), w1. simpl in *.
      repeat split; auto. exact (grows_would_block _ _ _ Hg).
    - exists p, ctx, w. rewrite app_nil_r. repeat split; auto.
      destruct ctx; simpl in *; now subst. }
  (* the dispatch loop *)
  cbn [streams first_dts set_in_seek].
  pose proof (dispatch_loop_grows (first_dts ctx) (streams ctx) (p1, 0%nat, w1)) as Hg.
  pose proof (dispatch_loop_inq (first_dts ctx) (streams ctx) (p1, 0%nat, w1)) as Hq.
  pose proof (dispatch_loop_nb_done (first_dts ctx) (streams ctx) (p1, 0%nat, w1)) as Hn.
  destruct (foldl (process_stream (first_dts ctx)) (p1, 0%nat, w1) (streams ctx))
    as [[p2 nb] w2].
  cbn [fst snd] in *.
  destruct Hg as (evs & Ht2 & Hf & Hb2 & _). rewrite Hb1 in *.
  destruct (nb =? length (streams ctx))%nat eqn:Hnb.
  - apply Nat.eqb_eq in Hnb.
    econstructor; cbn [streams in_seek is_playing start_range src_url ipid ps set_ps set_in_seek];
      try reflexivity; eauto.
    + cbn [gf_filter_pid_drop_packet w_trace].
      rewrite set_eos_loop_trace, Ht2, Ht1, <- !app_assoc. reflexivity.
    + cbn [gf_filter_pid_drop_packet w_would_block].
      now rewrite set_eos_loop_would_block.
    + right. repeat split.
      * cbn [gf_filter_pid_drop_packet w_inq].
        now rewrite set_eos_loop_inq, Hq, Hq1.
      * destruct (filter (fun st => held_back (w_would_block w) st = true) (streams ctx));
          [reflexivity|]. simpl in Hn. lia.
  - econstructor; cbn [streams in_seek is_playing start_range src_url ipid ps set_ps set_in_seek];
      try reflexivity; eauto.
    + rewrite Ht2, Ht1, <- !app_assoc. instantiate (1 := []).
      now rewrite app_nil_r.
    + left. repeat split. now rewrite Hq, Hq1.
Qed.

(** *** What [m2psdmx_setup] keeps *)

Lemma get_stream_inq (ty : Z) (sts : list M2PSStream) (w : World) :
  w_inq (snd (get_stream ty sts w)) = w_inq w.
Proof. unfold get_stream. now destruct (find_unused ty sts) as [[j st]|]. Qed.

Lemma setup_video_inq (p : mpeg2ps_t) (dur : PropVal) (acc : SetupSt) (i : nat) :
  w_inq (snd (setup_video p dur acc i)) = w_inq (snd acc).
Proof.
  destruct acc as [[sts sync] w]. unfold setup_video.
  pose proof (get_stream_inq GF_STREAM_VISUAL sts w) as Hg.
  destruct (get_stream GF_STREAM_VISUAL sts w) as [[[j st] sts'] w1]. simpl in Hg.
  destruct (get_video_timing _) as [ts inc].
  repeat match goal with
         | |- context [match ?x with _ => _ end] => destruct x
         end; exact Hg.
Qed.

Lemma setup_audio_inq (p : mpeg2ps_t) (dur : PropVal) (acc : SetupSt) (i : nat) :
  w_inq (snd (setup_audio p dur acc i)) = w_inq (snd acc).
Proof.
  destruct acc as [[sts sync] w]. unfold setup_audio.
  pose proof (get_stream_inq GF_STREAM_AUDIO sts w) as Hg.
  destruct (get_stream GF_STREAM_AUDIO sts w) as [[[j st] sts'] w1]. simpl in Hg.
  repeat match goal with
         | |- context [match ?x with _ => _ end] => destruct x
         end; solve [exact Hg | reflexivity].
Qed.

Lemma foldl_inq {A S : Type} (world : S -> World) (f : S -> A -> S) (l : list A) :
  (forall s a, w_inq (world (f s a)) = w_inq (world s)) ->
  forall s, w_inq (world (foldl f s l)) = w_inq (world s).
Proof.
  intros Hf. induction l as [|a l IH]; intros s; simpl; [reflexivity|].
  now rewrite IH, Hf.
Qed.

(** [m2psdmx_setup] writes [first_dts] and the stream list, and makes
    setup calls only; the pending packets stay. *)
Lemma m2psdmx_setup_keeps (p : mpeg2ps_t) (ctx : GF_M2PSDmxCtx lib) (w : World) :
  match m2psdmx_setup p ctx w with
  | (ctx1, w1) =>
      ipid ctx1 = ipid ctx /\ src_url ctx1 = src_url ctx /\ ps ctx1 = ps ctx
      /\ start_range ctx1 = start_range ctx /\ is_playing ctx1 = is_playing ctx
      /\ in_seek ctx1 = in_seek ctx
      /\ first_dts ctx1 = mpeg2ps_get_first_cts p
      /\ w_inq w1 = w_inq w /\ grows setup_call w w1
  end.
Proof.
  pose proof (m2psdmx_setup_grows p ctx w) as Hg. revert Hg.
  unfold m2psdmx_setup.
  remember (foldl (setup_audio p _) _ _) as X eqn:HX.
  assert (w_inq (snd X) = w_inq w) as Hq.
  { subst X. etransitivity.
    - apply (foldl_inq (S := SetupSt) snd). apply setup_audio_inq.
    - apply (foldl_inq (S := SetupSt) snd (setup_video p _) _ (setup_video_inq p _)). }
  destruct X as [[sts sy] w1]. simpl in *. intros Hg. repeat split; auto.
Qed.

(** *** The cases of [m2psdmx_process] *)

(** The handle the call works on: the one already open, or the one it
    opens and sets up. *)
Definition opened (w : World) (ctx : GF_M2PSDmxCtx lib)
    (p : mpeg2ps_t) (ctx1 : GF_M2PSDmxCtx lib) (w1 : World) : Prop :=
  (ps ctx = Some p /\ ctx1 = ctx /\ w1 = w)
  \/ (ps ctx = None /\ mpeg2ps_init (src_url ctx) = Some p
      /\ (ctx1, w1) = m2psdmx_setup p (set_ps (Some p) ctx) (emit (EvPsInit (src_url ctx)) w)).

Definition open_error (ctx : GF_M2PSDmxCtx lib) : GF_Err :=
  if gf_file_exists (src_url ctx) then GF_NON_COMPLIANT_BITSTREAM else GF_URL_ERROR.

Inductive process_spec (w : World) (ctx : GF_M2PSDmxCtx lib)
    (r : Outcome) (ctx' : GF_M2PSDmxCtx lib) (w' : World) : Prop :=
| ProcIdle :
    head (w_inq w) = None -> r = Ret GF_OK -> ctx' = ctx -> w' = w ->
    process_spec w ctx r ctx' w'
| ProcAssert (pck : InPck) :
    head (w_inq w) = Some pck -> in_end pck = false ->
    r = Abort -> ctx' = ctx -> w' = w ->
    process_spec w ctx r ctx' w'
| ProcOpenFailed (pck : InPck) :
    head (w_inq w) = Some pck -> in_end pck = true ->
    ps ctx = None -> mpeg2ps_init (src_url ctx) = None ->
    r = Ret GF_NOT_SUPPORTED -> ctx' = ctx ->
    w' = gf_filter_setup_failure (open_error ctx) (emit (EvPsInit (src_url ctx)) w) ->
    process_spec w ctx r ctx' w'
| ProcStopped (pck : InPck) (p : mpeg2ps_t) :
    head (w_inq w) = Some pck -> in_end pck = true ->
    opened w ctx p ctx' w' -> is_playing ctx' = false -> r = Ret GF_OK ->
    process_spec w ctx r ctx' w'
| ProcDispatch (pck : InPck) (p : mpeg2ps_t) (ctx1 : GF_M2PSDmxCtx lib) (w1 : World) :
    head (w_inq w) = Some pck -> in_end pck = true ->
    opened w ctx p ctx1 w1 -> is_playing ctx1 = true ->
    (r, ctx', w') = m2psdmx_dispatch p ctx1 w1 ->
    process_spec w ctx r ctx' w'.

Lemma m2psdmx_process_spec (w : World) (ctx : GF_M2PSDmxCtx lib) :
  match m2psdmx_process w ctx with
  | (r, ctx', w') => process_spec w ctx r ctx' w'
  end.
Proof.
  unfold m2psdmx_process, gf_filter_pid_get_packet.
  destruct (head (w_inq w)) as [pck|] eqn:Hp; [|now apply ProcIdle].
  destruct (in_end pck) eqn:He; simpl; [|now apply (ProcAssert _ _ _ _ _ pck)].
  destruct (ps ctx) as [p|] eqn:Hps.
  - destruct (is_playing ctx) eqn:Hpl; simpl.
    + destruct (m2psdmx_dispatch p ctx w) as [[r ctx'] w'] eqn:Hd.
      eapply (ProcDispatch _ _ _ _ _ pck p ctx w); eauto. now left.
    + eapply (ProcStopped _ _ _ _ _ pck p); eauto. now left.
  - destruct (mpeg2ps_init (src_url ctx)) as [p|] eqn:Hi.
    + destruct (m2psdmx_setup p (set_ps (Some p) ctx) _) as [ctx1 w1] eqn:Hs.
      destruct (is_playing ctx1) eqn:Hpl; simpl.
      * destruct (m2psdmx_dispatch p ctx1 w1) as [[r ctx'] w'] eqn:Hd.
        eapply (ProcDispatch _ _ _ _ _ pck p ctx1 w1); eauto. right. now rewrite Hs.
      * eapply (ProcStopped _ _ _ _ _ pck p); eauto. right. now rewrite Hs.
    + eapply (ProcOpenFailed _ _ _ _ _ pck); eauto.
      unfold open_error. now destruct (gf_file_exists (src_url ctx)).
Qed.

Definition open_call (e : Ev) : Prop :=
  match e with
  | EvPsInit _ | EvPidNew _ | EvSetProperty _ _ _ => True
  | _ => False
  end.

Lemma opened_keeps (w : World) (ctx : GF_M2PSDmxCtx lib)
    (p : mpeg2ps_t) (ctx1 : GF_M2PSDmxCtx lib) (w1 : World) :
  opened w ctx p ctx1 w1 ->
  grows open_call w w1 /\ w_inq w1 = w_inq w
  /\ ipid ctx1 = ipid ctx /\ src_url ctx1 = src_url ctx /\ ps ctx1 = Some p
  /\ start_range ctx1 = start_range ctx /\ is_playing ctx1 = is_playing ctx
  /\ in_seek ctx1 = in_seek ctx.
Proof.
  intros [(Hps & -> & ->)|(Hps & Hi & Hs)].
  - repeat split; auto. apply grows_refl.
  - pose proof (m2psdmx_setup_keeps p (set_ps (Some p) ctx)
                  (emit (EvPsInit (src_url ctx)) w)) as H.
    rewrite <- Hs in H. simpl in H.
    destruct H as (H1 & H2 & H3 & H4 & H5 & H6 & _ & H8 & H9).
    repeat split; auto.
    eapply grows_trans;
      [apply (grows_emit open_call (EvPsInit (src_url ctx)) w); exact I|].
    eapply grows_weaken; [|exact H9]. intros e. destruct e; simpl; auto.
Qed.

(** The first call of a round that has to open the source is the open. *)
Lemma opened_trace (w : World) (ctx : GF_M2PSDmxCtx lib)
    (p : mpeg2ps_t) (ctx1 : GF_M2PSDmxCtx lib) (w1 : World) :
  opened w ctx p ctx1 w1 -> ps ctx = None ->
  exists evs, w_trace w1 = w_trace w ++ EvPsInit (src_url ctx) :: evs.
Proof.
  intros [(Hps & _)|(_ & _ & Hs)] Hn; [congruence|].
  pose proof (m2psdmx_setup_grows p (set_ps (Some p) ctx)
                (emit (EvPsInit (src_url ctx)) w)) as (evs & Ht & _).
  rewrite <- Hs in Ht. simpl in Ht. exists evs. now rewrite Ht, <- app_assoc.
Qed.

(** *** Seeks per call *)

Lemma open_call_not_seek (e : Ev) : open_call e -> is_seek e = false.
Proof. destruct e; simpl; auto; contradiction. Qed.

Lemma m2psdmx_process_seeks (w : World) (ctx : GF_M2PSDmxCtx lib) :
  match m2psdmx_process w ctx with
  | (r, ctx', w') =>
      (nb_seeks (emitted w w')
       <= length (filter (fun st => in_use st = true) (streams ctx')))%nat
      /\ (in_seek ctx = false -> nb_seeks (emitted w w') = 0%nat /\ in_seek ctx' = false)
      /\ ((0 < nb_seeks (emitted w w'))%nat -> in_seek ctx' = false)
  end.
Proof.
  pose proof (m2psdmx_process_spec w ctx) as H.
  destruct (m2psdmx_process w ctx) as [[r ctx'] w'].
  destruct H as [Hp -> -> -> | pck Hp He -> -> -> | pck Hp He Hps Hi -> -> ->
                | pck p Hp He Ho Hpl -> | pck p ctx1 w1 Hp He Ho Hpl Hd].
  - rewrite emitted_refl. cbn. repeat split; auto; lia.
  - rewrite emitted_refl. cbn. repeat split; auto; lia.
  - rewrite (emitted_app _ _ [EvPsInit (src_url ctx); EvSetupFailure (open_error ctx)])
      by (cbn; now rewrite <- app_assoc).
    rewrite nb_seeks_none by (repeat constructor).
    repeat split; auto; lia.
  - apply opened_keeps in Ho. destruct Ho as ((evs & Ht & Hf & _) & _ & _ & _ & _ & _ & _ & Hs).
    rewrite (emitted_app _ _ _ Ht), nb_seeks_none.
    + rewrite Hs. repeat split; auto; lia.
    + eapply Forall_impl; [exact Hf|]. apply open_call_not_seek.
  - apply opened_keeps in Ho. destruct Ho as ((evs & Ht & Hf & _) & _ & _ & _ & _ & _ & _ & Hs).
    pose proof (m2psdmx_dispatch_spec p ctx1 w1) as Hspec. rewrite <- Hd in Hspec.
    destruct Hspec as [sk fr en Ht' Hsk Hfr _ Hst Hs' _ _ _ _ _ Hres].
    rewrite (emitted_app w w' (evs ++ sk ++ fr ++ en))
      by (rewrite Ht', Ht, <- !app_assoc; reflexivity).
    rewrite !nb_seeks_app.
    rewrite (nb_seeks_none evs)
      by (eapply Forall_impl; [exact Hf|]; apply open_call_not_seek).
    rewrite (nb_seeks_none fr)
      by (eapply Forall_impl; [exact Hfr|]; apply dispatch_call_not_seek).
    assert (nb_seeks en = 0%nat) as ->.
    { apply nb_seeks_none. destruct Hres as [(_ & -> & _)|(_ & -> & _)]; [constructor|].
      apply Forall_app. split; [|repeat constructor].
      apply Forall_fmap, Forall_forall. now intros. }
    rewrite Hs in Hsk. rewrite Hst.
    destruct (in_seek ctx); subst sk.
    + rewrite nb_seeks_seek_of. repeat split; auto; try lia; discriminate.
    + cbn. repeat split; auto; lia.
Qed.

(** *** Backpressure per call *)

Lemma m2psdmx_process_backpressure (w : World) (ctx : GF_M2PSDmxCtx lib) :
  match m2psdmx_process w ctx with
  | (r, ctx', w') =>
      Forall (spares_blocked w) (emitted w w')
      /\ forall st, st ∈ streams ctx' -> in_use st = true ->
                    w_would_block w (opid st) = true ->
           r <> Ret GF_EOS /\ w_inq w' = w_inq w
           /\ Forall (fun e => is_eos e = false /\ e <> EvDropPacket) (emitted w w')
  end.
Proof.
  pose proof (m2psdmx_process_spec w ctx) as H.
  destruct (m2psdmx_process w ctx) as [[r ctx'] w'].
  destruct H as [Hp -> -> -> | pck Hp He -> -> -> | pck Hp He Hps Hi -> -> ->
                | pck p Hp He Ho Hpl -> | pck p ctx1 w1 Hp He Ho Hpl Hd].
  - rewrite emitted_refl. split; [constructor|]. intros. repeat split; auto; discriminate.
  - rewrite emitted_refl. split; [constructor|]. intros. repeat split; auto; discriminate.
  - rewrite (emitted_app _ _ [EvPsInit (src_url ctx); EvSetupFailure (open_error ctx)])
      by (cbn; now rewrite <- app_assoc).
    split; [repeat constructor|]. intros.
    repeat split; auto; try discriminate; repeat constructor; discriminate.
  - apply opened_keeps in Ho. destruct Ho as ((evs & Ht & Hf & _) & Hq & _).
    rewrite (emitted_app _ _ _ Ht).
    split; [eapply Forall_impl; [exact Hf|]; intros e; destruct e; simpl; auto; contradiction|].
    intros. repeat split; auto; try discriminate.
    eapply Forall_impl; [exact Hf|]. intros e; destruct e; simpl; intros;
      try contradiction; split; auto; discriminate.
  - apply opened_keeps in Ho. destruct Ho as ((evs & Ht & Hf & Hb & _) & Hq & _).
    pose proof (m2psdmx_dispatch_spec p ctx1 w1) as Hspec. rewrite <- Hd in Hspec.
    destruct Hspec as [sk fr en Ht' Hsk Hfr _ Hst _ _ _ _ _ _ Hres].
    rewrite Hb in *.
    rewrite (emitted_app w w' (evs ++ sk ++ fr ++ en))
      by (rewrite Ht', Ht, <- !app_assoc; reflexivity).
    assert (Forall (fun e => is_pck e = false) sk) as Hsk'.
    { subst sk. destruct (in_seek ctx1); [|constructor].
      apply Forall_fmap, Forall_forall. now intros. }
    split.
    + rewrite !Forall_app. repeat split.
      * eapply Forall_impl; [exact Hf|]. intros e; destruct e; simpl; auto; contradiction.
      * eapply Forall_impl; [exact Hsk'|]. intros e; destruct e; simpl; auto; discriminate.
      * eapply Forall_impl; [exact Hfr|]. intros e; destruct e; simpl; auto; contradiction.
      * destruct Hres as [(_ & -> & _)|(_ & -> & _)]; [constructor|].
        apply Forall_app. split; [|repeat constructor].
        apply Forall_fmap, Forall_forall. now intros.
    + intros st Hin Hu Hbl. rewrite Hst in Hin.
      pose proof (held_back_counted (w_would_block w) _ st Hin Hu Hbl) as Hc.
      destruct Hres as [(-> & -> & Hq')|(_ & _ & _ & Hnone)]; [|rewrite Hnone in Hc; simpl in Hc; lia].
      repeat split; [discriminate|congruence|].
      rewrite !Forall_app. repeat split; [| | |constructor].
      * eapply Forall_impl; [exact Hf|]. intros e; destruct e; simpl; intros;
          try contradiction; split; auto; discriminate.
      * subst sk. destruct (in_seek ctx1); [|constructor].
        apply Forall_fmap, Forall_forall. intros x _. split; [reflexivity|discriminate].
      * eapply Forall_impl; [exact Hfr|]. intros e; destruct e; simpl; intros;
          try contradiction; split; auto; discriminate.
Qed.

(** *** Opening and reconfiguring *)

(** A round that finds no handle opens the source first. *)
Lemma m2psdmx_process_opens (w : World) (ctx : GF_M2PSDmxCtx lib) (pck : InPck) :
  ps ctx = None -> head (w_inq w) = Some pck -> in_end pck = true ->
  exists evs, emitted w (snd (m2psdmx_process w ctx)) = EvPsInit (src_url ctx) :: evs.
Proof.
  intros Hn Hh Hend.
  pose proof (m2psdmx_process_spec w ctx) as H.
  destruct (m2psdmx_process w ctx) as [[r ctx'] w']. cbn [snd].
  destruct H as [Hp -> -> -> | pck' Hp He -> -> -> | pck' Hp He Hps Hi -> -> ->
                | pck' p Hp He Ho Hpl -> | pck' p ctx1 w1 Hp He Ho Hpl Hd].
  - congruence.
  - congruence.
  - exists [EvSetupFailure (open_error ctx)]. apply emitted_app. cbn.
    now rewrite <- app_assoc.
  - destruct (opened_trace _ _ _ _ _ Ho Hn) as (evs & Ht). exists evs.
    now apply emitted_app.
  - destruct (opened_trace _ _ _ _ _ Ho Hn) as (evs & Ht).
    pose proof (m2psdmx_dispatch_spec p ctx1 w1) as Hspec. rewrite <- Hd in Hspec.
    destruct Hspec as [sk fr en Ht' _ _ _ _ _ _ _ _ _ _ _].
    exists (evs ++ sk ++ fr ++ en). apply emitted_app.
    rewrite Ht', Ht, <- app_assoc. reflexivity.
Qed.

(** The state and the session after [configure_pid] on a new path while
    a handle is open. *)
Definition reconfigured (pid : GF_FilterPid) (path : string)
    (ctx : GF_M2PSDmxCtx lib) : GF_M2PSDmxCtx lib :=
  {| ipid := Some (pid_id pid); src_url := Some path; ps := None;
     start_range := start_range ctx; first_dts := first_dts ctx;
     is_playing := is_playing ctx; in_seek := in_seek ctx;
     streams := mark_unused <$> streams ctx |}.

Lemma m2psdmx_configure_pid_new_source (w : World) (ctx : GF_M2PSDmxCtx lib)
    (pid : GF_FilterPid) (path : string) :
  pid_check_caps pid = true -> pid_filepath pid = Some path ->
  src_url ctx <> Some path -> is_Some (ps ctx) ->
  m2psdmx_configure_pid w ctx pid false
  = (GF_OK, reconfigured pid path ctx,
     mpeg2ps_close (gf_filter_pid_set_framing_mode (pid_id pid) true w)).
Proof.
  intros Hc Hf Hu [p Hp]. unfold m2psdmx_configure_pid. rewrite Hc, Hf. simpl.
  rewrite bool_decide_false by exact Hu. rewrite Hp. reflexivity.
Qed.

Lemma m2psdmx_configure_pid_same_source (w : World) (ctx : GF_M2PSDmxCtx lib)
    (pid : GF_FilterPid) (path : string) :
  pid_check_caps pid = true -> pid_filepath pid = Some path ->
  src_url ctx = Some path ->
  m2psdmx_configure_pid w ctx pid false
  = (GF_OK, set_ipid (Some (pid_id pid)) ctx,
     gf_filter_pid_set_framing_mode (pid_id pid) true w).
Proof.
  intros Hc Hf Hu. unfold m2psdmx_configure_pid. rewrite Hc, Hf. simpl.
  now rewrite bool_decide_true by exact Hu.
Qed.

(** *** The pool of stream entries *)

Definition unused (ty : Z) (st : M2PSStream) : Prop :=
  stream_type st = ty /\ in_use st = false.

#[local] Instance unused_dec (ty : Z) (st : M2PSStream) : Decision (unused ty st).
Proof. unfold unused. apply _. Defined.

Definition nb_unused (ty : Z) (sts : list M2PSStream) : nat :=
  length (filter (unused ty) sts).

Definition nb_pid_new (evs : list Ev) : nat :=
  length (filter (fun e => is_pid_new e = true) evs).

Lemma nb_pid_new_app (l1 l2 : list Ev) :
  nb_pid_new (l1 ++ l2) = (nb_pid_new l1 + nb_pid_new l2)%nat.
Proof. unfold nb_pid_new. now rewrite filter_app, length_app. Qed.

Lemma nb_pid_new_none (l : list Ev) :
  Forall (fun e => is_pid_new e = false) l -> nb_pid_new l = 0%nat.
Proof.
  unfold nb_pid_new. induction 1 as [|e l He _ IH]; [reflexivity|].
  rewrite filter_cons_False; [exact IH|]. rewrite He. discriminate.
Qed.

(** An entry keeps its pid and its type through [m2psdmx_setup]. *)
Definition same_pin (st st' : M2PSStream) : Prop :=
  opid st' = opid st /\ stream_type st' = stream_type st.

Definition pins_kept (sts sts' : list M2PSStream) : Prop :=
  forall k st, sts !! k = Some st -> exists st', sts' !! k = Some st' /\ same_pin st st'.

Lemma pins_kept_refl (sts : list M2PSStream) : pins_kept sts sts.
Proof. intros k st H. exists st. now split. Qed.

Lemma pins_kept_trans (s1 s2 s3 : list M2PSStream) :
  pins_kept s1 s2 -> pins_kept s2 s3 -> pins_kept s1 s3.
Proof.
  intros H1 H2 k st Hk. destruct (H1 k st Hk) as (st' & Hk' & Ho & Ht).
  destruct (H2 k st' Hk') as (st'' & Hk'' & Ho' & Ht').
  exists st''. split; [exact Hk''|]. split; congruence.
Qed.

(** Taking the entry at [j] into use: one unused entry of its type less,
    the other types untouched. *)
Lemma nb_unused_mark (ty ty' : Z) (sts : list M2PSStream) (j i : nat) (st : M2PSStream) :
  sts !! j = Some st -> unused ty st ->
  nb_unused ty' (<[j := mark_stream i st]> sts)
  = (nb_unused ty' sts - (if decide (ty' = ty) then 1 else 0))%nat.
Proof.
  intros Hj [Hty Hu]. unfold nb_unused.
  rewrite insert_take_drop by (eapply lookup_lt_Some; eauto).
  rewrite <- (take_drop_middle sts j st Hj) at 3.
  rewrite !filter_app, !length_app.
  rewrite (filter_cons_False _ (mark_stream i st)) by (unfold unused; simpl; intros [_ ?]; discriminate).
  destruct (decide (ty' = ty)) as [->|Hne].
  - rewrite (filter_cons_True _ st) by (split; auto). simpl. lia.
  - rewrite (filter_cons_False _ st) by (unfold unused; intros [? _]; congruence). lia.
Qed.

Lemma nb_unused_snoc_used (ty' : Z) (sts : list M2PSStream) (st : M2PSStream) :
  in_use st = true -> nb_unused ty' (sts ++ [st]) = nb_unused ty' sts.
Proof.
  intros Hu. unfold nb_unused. rewrite filter_app, length_app.
  rewrite filter_cons_False by (unfold unused; rewrite Hu; intros [_ ?]; discriminate).
  simpl. lia.
Qed.

Lemma find_unused_None (ty : Z) (sts : list M2PSStream) :
  find_unused ty sts = None <-> nb_unused ty sts = 0%nat.
Proof.
  unfold find_unused, nb_unused. rewrite list_find_None. split.
  - intros H. induction H as [|st l Hst _ IH]; [reflexivity|].
    rewrite filter_cons_False by exact Hst. exact IH.
  - intros H. apply Forall_forall. intros st Hin Hst.
    assert (st ∈ filter (unused ty) sts) as Hf by (apply list_elem_of_filter; auto).
    destruct (filter (unused ty) sts); [inversion Hf|discriminate].
Qed.

(** The entry a stream of the source is given: what [get_stream] and the
    two assignments after it make of the list. *)
Lemma get_stream_pool (ty : Z) (sts : list M2PSStream) (w : World) (i : nat) :
  match get_stream ty sts w with
  | (j, st, sts1, w1) =>
      let sts2 := <[j := mark_stream i st]> sts1 in
      let fresh := if decide (nb_unused ty sts = 0%nat) then 1%nat else 0%nat in
      (exists evs, w_trace w1 = w_trace w ++ evs /\ nb_pid_new evs = fresh
                   /\ Forall setup_call evs)
      /\ length sts2 = (length sts + fresh)%nat
      /\ (forall ty', nb_unused ty' sts2
                      = (nb_unused ty' sts - (if decide (ty' = ty) then 1 else 0))%nat)
      /\ pins_kept sts sts2
  end.
Proof.
  unfold get_stream.
  destruct (find_unused ty sts) as [[j st]|] eqn:Hf.
  - pose proof Hf as Hf'. unfold find_unused in Hf'.
    apply list_find_Some in Hf' as (Hj & Hu & _).
    assert (nb_unused ty sts <> 0%nat) as Hn.
    { intros H0. apply find_unused_None in H0. congruence. }
    cbn zeta. rewrite decide_False by exact Hn. repeat split.
    + exists []. rewrite app_nil_r. repeat split; auto.
    + rewrite length_insert. lia.
    + intros ty'. now apply nb_unused_mark.
    + intros k st0 Hk. destruct (decide (k = j)) as [->|Hne].
      * exists (mark_stream i st). split.
        -- apply list_lookup_insert_eq. eapply lookup_lt_Some; eauto.
        -- assert (st0 = st) as -> by congruence. now split.
      * exists st0. split; [|now split]. rewrite list_lookup_insert_ne; auto.
  - apply find_unused_None in Hf. cbn zeta. cbn [gf_filter_pid_new w_trace].
    rewrite decide_True by exact Hf.
    set (st := {| opid := w_npids w; stream_type := ty; stream_num := 0; in_use := false |}).
    assert (<[length sts := mark_stream i st]> (sts ++ [st]) = sts ++ [mark_stream i st]) as ->.
    { rewrite insert_app_r_alt by lia. now rewrite Nat.sub_diag. }
    repeat split.
    + exists [EvPidNew (w_npids w)]. repeat split; auto. repeat constructor.
    + rewrite length_app. simpl. lia.
    + intros ty'. rewrite nb_unused_snoc_used by reflexivity.
      destruct (decide (ty' = ty)) as [->|]; lia.
    + intros k st0 Hk. exists st0. split; [|now split].
      now apply lookup_app_l_Some.
Qed.

Definition prop_call (e : Ev) : Prop :=
  match e with EvSetProperty _ k _ => k <> GF_PROP_PID_HEIGHT | _ => False end.

Ltac props_steps :=
  repeat first
    [ apply grows_refl
    | eapply grows_trans; [| apply (grows_emit prop_call); discriminate ]
    | match goal with
      | |- context [match ?x with _ => _ end] => destruct x
      | |- context [if ?b then _ else _] => destruct b
      end ].

Lemma setup_video_unfold (p : mpeg2ps_t) (dur : PropVal)
    (sts : list M2PSStream) (sync : Z) (w : World) (i : nat) :
  match get_stream GF_STREAM_VISUAL sts w with
  | (j, st, sts1, w1) =>
      exists sync' w2,
        setup_video p dur (sts, sync, w) i = (<[j := mark_stream i st]> sts1, sync', w2)
        /\ grows prop_call w1 w2
  end.
Proof.
  unfold setup_video.
  destruct (get_stream GF_STREAM_VISUAL sts w) as [[[j st] sts1] w1].
  destruct (get_video_timing _) as [ts inc].
  eexists _, _. split; [reflexivity|]. props_steps.
Qed.

Lemma setup_audio_unfold (p : mpeg2ps_t) (dur : PropVal)
    (sts : list M2PSStream) (sync : Z) (w : World) (i : nat) :
  mpeg2ps_get_audio_stream_type p (Z.of_nat i) <> MPEG_AUDIO_UNKNOWN ->
  match get_stream GF_STREAM_AUDIO sts w with
  | (j, st, sts1, w1) =>
      exists sync' w2,
        setup_audio p dur (sts, sync, w) i = (<[j := mark_stream i st]> sts1, sync', w2)
        /\ grows prop_call w1 w2
  end.
Proof.
  intros Hty. unfold setup_audio.
  destruct (get_stream GF_STREAM_AUDIO sts w) as [[[j st] sts1] w1].
  destruct (mpeg2ps_get_audio_stream_type p (Z.of_nat i)); try congruence;
    (eexists _, _; split; [reflexivity|]; props_steps).
Qed.

(** [pool_run ty n acc acc']: from [acc] to [acc'], [n] streams of type
    [ty] were given an entry.  A pid was created for each stream beyond
    the entries of that type that were not in use, and for no other; no
    entry lost its pid. *)
Definition pool_run (ty : Z) (n : nat) (acc acc' : SetupSt) : Prop :=
  let sts := fst (fst acc) in
  let sts' := fst (fst acc') in
  let fresh := (n - nb_unused ty sts)%nat in
  (exists evs, w_trace (snd acc') = w_trace (snd acc) ++ evs
               /\ nb_pid_new evs = fresh /\ Forall setup_call evs)
  /\ length sts' = (length sts + fresh)%nat
  /\ (forall ty', nb_unused ty' sts'
                  = (nb_unused ty' sts - (if decide (ty' = ty) then n else 0))%nat)
  /\ pins_kept sts sts'.

Lemma pool_run_refl (ty : Z) (acc : SetupSt) : pool_run ty 0 acc acc.
Proof.
  unfold pool_run. repeat split.
  - exists []. rewrite app_nil_r. repeat split; auto.
  - simpl. lia.
  - intros ty'. destruct (decide (ty' = ty)); lia.
  - apply pins_kept_refl.
Qed.

Lemma prop_call_no_pid_new (evs : list Ev) :
  Forall prop_call evs -> nb_pid_new evs = 0%nat /\ Forall setup_call evs.
Proof.
  intros H. split.
  - apply nb_pid_new_none. eapply Forall_impl; [exact H|].
    intros e; destruct e; simpl; auto; contradiction.
  - eapply Forall_impl; [exact H|]. intros e; destruct e; simpl; auto.
Qed.

Lemma pool_run_step (ty : Z) (n : nat) (acc acc1 acc' : SetupSt) :
  pool_run ty 1 acc acc1 -> pool_run ty n acc1 acc' -> pool_run ty (S n) acc acc'.
Proof.
  unfold pool_run.
  intros ((e1 & Ht1 & Hn1 & Hf1) & Hl1 & Hu1 & Hk1) ((e2 & Ht2 & Hn2 & Hf2) & Hl2 & Hu2 & Hk2).
  pose proof (Hu1 ty) as Hty. rewrite decide_True in Hty by reflexivity.
  repeat split.
  - exists (e1 ++ e2). rewrite Ht2, Ht1, app_assoc, nb_pid_new_app, Hn1, Hn2.
    repeat split; [lia|]. apply Forall_app; auto.
  - lia.
  - intros ty'. rewrite Hu2, Hu1. destruct (decide (ty' = ty)); lia.
  - eapply pins_kept_trans; eauto.
Qed.

Lemma setup_video_pool (p : mpeg2ps_t) (dur : PropVal) (acc : SetupSt) (i : nat) :
  pool_run GF_STREAM_VISUAL 1 acc (setup_video p dur acc i).
Proof.
  destruct acc as [[sts sync] w].
  pose proof (setup_video_unfold p dur sts sync w i) as H.
  pose proof (get_stream_pool GF_STREAM_VISUAL sts w i) as G.
  destruct (get_stream GF_STREAM_VISUAL sts w) as [[[j st] sts1] w1].
  destruct H as (sync' & w2 & -> & (evs & Ht & Hf & _)).
  destruct G as ((e1 & Ht1 & Hn1 & Hf1) & Hl & Hu & Hk).
  apply prop_call_no_pid_new in Hf as (Hn & Hf).
  unfold pool_run. cbn [fst snd]. repeat split.
  - exists (e1 ++ evs). rewrite Ht, Ht1, app_assoc, nb_pid_new_app, Hn1, Hn.
    repeat split; [|apply Forall_app; auto].
    destruct (decide (nb_unused GF_STREAM_VISUAL sts = 0%nat)); lia.
  - rewrite Hl. destruct (decide (nb_unused GF_STREAM_VISUAL sts = 0%nat)); lia.
  - exact Hu.
  - exact Hk.
Qed.

Lemma setup_audio_pool (p : mpeg2ps_t) (dur : PropVal) (acc : SetupSt) (i : nat) :
  mpeg2ps_get_audio_stream_type p (Z.of_nat i) <> MPEG_AUDIO_UNKNOWN ->
  pool_run GF_STREAM_AUDIO 1 acc (setup_audio p dur acc i).
Proof.
  intros Hty. destruct acc as [[sts sync] w].
  pose proof (setup_audio_unfold p dur sts sync w i Hty) as H.
  pose proof (get_stream_pool GF_STREAM_AUDIO sts w i) as G.
  destruct (get_stream GF_STREAM_AUDIO sts w) as [[[j st] sts1] w1].
  destruct H as (sync' & w2 & -> & (evs & Ht & Hf & _)).
  destruct G as ((e1 & Ht1 & Hn1 & Hf1) & Hl & Hu & Hk).
  apply prop_call_no_pid_new in Hf as (Hn & Hf).
  unfold pool_run. cbn [fst snd]. repeat split.
  - exists (e1 ++ evs). rewrite Ht, Ht1, app_assoc, nb_pid_new_app, Hn1, Hn.
    repeat split; [|apply Forall_app; auto].
    destruct (decide (nb_unused GF_STREAM_AUDIO sts = 0%nat)); lia.
  - rewrite Hl. destruct (decide (nb_unused GF_STREAM_AUDIO sts = 0%nat)); lia.
  - exact Hu.
  - exact Hk.
Qed.

Lemma setup_audio_skip (p : mpeg2ps_t) (dur : PropVal) (acc : SetupSt) (i : nat) :
  mpeg2ps_get_audio_stream_type p (Z.of_nat i) = MPEG_AUDIO_UNKNOWN ->
  setup_audio p dur acc i = acc.
Proof. intros Hty. destruct acc as [[sts sync] w]. unfold setup_audio. now rewrite Hty. Qed.

(** A loop whose rounds each give one stream an entry, or skip it. *)
Lemma pool_foldl (ty : Z) (f : SetupSt -> nat -> SetupSt) (skipped : nat -> Prop)
    `{!forall i, Decision (skipped i)} (l : list nat) :
  (forall acc i, ~ skipped i -> pool_run ty 1 acc (f acc i)) ->
  (forall acc i, skipped i -> f acc i = acc) ->
  forall acc, pool_run ty (length (filter (fun i => ~ skipped i) l)) acc (foldl f acc l).
Proof.
  intros Hrun Hskip. induction l as [|i l IH]; intros acc; simpl.
  - apply pool_run_refl.
  - destruct (decide (skipped i)) as [Hs|Hs].
    + rewrite filter_cons_False by auto. rewrite (Hskip acc i Hs). apply IH.
    + rewrite filter_cons_True by auto. simpl.
      eapply pool_run_step; [apply Hrun; exact Hs|apply IH].
Qed.

(** The audio streams of the source the filter gives an entry. *)
Definition known_audio (p : mpeg2ps_t) (i : nat) : Prop :=
  mpeg2ps_get_audio_stream_type p (Z.of_nat i) <> MPEG_AUDIO_UNKNOWN.

#[local] Instance known_audio_dec (p : mpeg2ps_t) (i : nat) : Decision (known_audio p i).
Proof. unfold known_audio. apply _. Defined.

Definition nb_known_audio (p : mpeg2ps_t) : nat :=
  length (filter (known_audio p) (seq 0 (mpeg2ps_get_audio_stream_count p))).

(** The pids [m2psdmx_setup] has to create for the source [p]. *)
Definition shortage (p : mpeg2ps_t) (sts : list M2PSStream) : nat :=
  (mpeg2ps_get_video_stream_count p - nb_unused GF_STREAM_VISUAL sts)
  + (nb_known_audio p - nb_unused GF_STREAM_AUDIO sts).

Lemma filter_all {A : Type} (P : A -> Prop) `{!forall x, Decision (P x)} (l : list A) :
  (forall x, P x) -> filter P l = l.
Proof.
  intros HP. induction l as [|x l IH]; [reflexivity|].
  now rewrite filter_cons_True, IH by auto.
Qed.

Lemma m2psdmx_setup_pool (p : mpeg2ps_t) (ctx : GF_M2PSDmxCtx lib) (w : World) :
  match m2psdmx_setup p ctx w with
  | (ctx', w') =>
      nb_pid_new (emitted w w') = shortage p (streams ctx)
      /\ Forall setup_call (emitted w w')
      /\ length (streams ctx') = (length (streams ctx) + shortage p (streams ctx))%nat
      /\ pins_kept (streams ctx) (streams ctx')
  end.
Proof.
  unfold m2psdmx_setup. cbn [streams set_first_dts].
  set (d := PROP_FRAC _ _).
  set (a0 := (streams ctx, 0, w) : SetupSt).
  set (a1 := foldl (setup_video p d) a0 (seq 0 (mpeg2ps_get_video_stream_count p))).
  assert (pool_run GF_STREAM_VISUAL (mpeg2ps_get_video_stream_count p) a0 a1) as Hv.
  { pose proof (pool_foldl GF_STREAM_VISUAL (setup_video p d) (fun _ => False)
                  (seq 0 (mpeg2ps_get_video_stream_count p))
                  (fun acc i _ => setup_video_pool p d acc i)
                  (fun acc i (F : False) => match F with end) a0) as H.
    rewrite filter_all, length_seq in H by (intros ? F; exact F). exact H. }
  assert (pool_run GF_STREAM_AUDIO (nb_known_audio p) a1
            (foldl (setup_audio p d) a1 (seq 0 (mpeg2ps_get_audio_stream_count p)))) as Ha.
  { pose proof (pool_foldl GF_STREAM_AUDIO (setup_audio p d)
                  (fun i => mpeg2ps_get_audio_stream_type p (Z.of_nat i) = MPEG_AUDIO_UNKNOWN)
                  (seq 0 (mpeg2ps_get_audio_stream_count p))
                  (fun acc i H => setup_audio_pool p d acc i H)
                  (fun acc i H => setup_audio_skip p d acc i H) a1) as H.
    unfold nb_known_audio, known_audio. exact H. }
  destruct (foldl (setup_audio p d) a1 _) as [[sts2 sy2] w2].
  destruct a1 as [[sts1 sy1] w1].
  destruct Hv as ((e1 & Ht1 & Hn1 & Hf1) & Hl1 & Hu1 & Hk1).
  destruct Ha as ((e2 & Ht2 & Hn2 & Hf2) & Hl2 & Hu2 & Hk2).
  cbn [fst snd a0 streams set_streams] in *.
  pose proof (Hu1 GF_STREAM_AUDIO) as Hua.
  rewrite decide_False in Hua by discriminate.
  assert (w_trace w2 = w_trace w ++ e1 ++ e2) as Ht by (rewrite Ht2, Ht1, app_assoc; reflexivity).
  rewrite (emitted_app _ _ _ Ht). unfold shortage. repeat split.
  - rewrite nb_pid_new_app, Hn1, Hn2. lia.
  - apply Forall_app; auto.
  - lia.
  - eapply pins_kept_trans; eauto.
Qed.

(** [get_stream] takes an entry of the type that is not in use when
    there is one, and creates a pid only when there is none. *)
Lemma get_stream_prefers_unused (ty : Z) (sts : list M2PSStream) (w : World) :
  match get_stream ty sts w with
  | (j, st, sts1, w1) =>
      (nb_unused ty sts <> 0%nat ->
       w1 = w /\ sts1 = sts /\ sts !! j = Some st /\ unused ty st)
      /\ (nb_unused ty sts = 0%nat ->
          emitted w w1 = [EvPidNew (opid st)] /\ sts1 = sts ++ [st]
          /\ stream_type st = ty /\ opid st = w_npids w)
  end.
Proof.
  unfold get_stream. destruct (find_unused ty sts) as [[j st]|] eqn:Hf.
  - pose proof Hf as Hf'. unfold find_unused in Hf'.
    apply list_find_Some in Hf' as (Hj & Hu & _). split; [auto|].
    intros H0. apply find_unused_None in H0. congruence.
  - apply find_unused_None in Hf. split; [intros Hn; contradiction|].
    intros _. cbn. repeat split. apply emitted_app. reflexivity.
Qed.

Lemma setup_call_not_remove (e : Ev) : setup_call e -> is_pid_remove e = false.
Proof. destruct e; simpl; auto; contradiction. Qed.

Lemma setup_call_not_height (e : Ev) :
  setup_call e -> forall pid v, e <> EvSetProperty pid GF_PROP_PID_HEIGHT v.
Proof. destruct e; simpl; intros H pid' v' Heq; try discriminate. inversion Heq. congruence. Qed.

(** ** Claims on the demuxer *)

(** *** Entries in use stand for distinct streams

    [m2psdmx_setup] numbers the entries it marks in use after the streams
    of the source, 0, 1, ... per type, and it runs when no entry is in
    use: no two entries in use stand for the same stream of the source. *)

Definition distinct_streams (sts : list M2PSStream) : Prop :=
  forall j k st st',
    sts !! j = Some st -> sts !! k = Some st' ->
    in_use st = true -> in_use st' = true ->
    stream_kind st = stream_kind st' -> stream_num st = stream_num st' -> j = k.

(** The state of the stream list the callbacks keep: with no handle open
    no entry is in use, and the entries in use are distinct streams. *)
Definition streams_wf (ctx : GF_M2PSDmxCtx lib) : Prop :=
  (ps ctx = None -> Forall (fun st => in_use st = false) (streams ctx))
  /\ distinct_streams (streams ctx).

(** While [m2psdmx_setup] runs, [nv] video and [na] audio streams done:
    an entry in use is a video stream below [nv] or an audio stream below
    [na]. *)
Definition numbered (nv na : nat) (sts : list M2PSStream) : Prop :=
  (forall k st, sts !! k = Some st -> in_use st = true ->
     (stream_type st = GF_STREAM_VISUAL /\ 0 <= stream_num st < Z.of_nat nv)
     \/ (stream_type st = GF_STREAM_AUDIO /\ 0 <= stream_num st < Z.of_nat na))
  /\ distinct_streams sts.

Lemma get_stream_marked (ty : Z) (i : nat) (sts : list M2PSStream) (w : World) :
  match get_stream ty sts w with
  | (j, st, sts1, w1) =>
      stream_type st = ty
      /\ forall k x, <[j := mark_stream i st]> sts1 !! k = Some x ->
           (k = j /\ x = mark_stream i st) \/ (k <> j /\ sts !! k = Some x)
  end.
Proof.
  unfold get_stream, find_unused.
  destruct (list_find _ sts) as [[j st]|] eqn:Hf.
  - apply list_find_Some in Hf as (Hj & (Hty & Hu) & _). split; [exact Hty|].
    intros k x Hk. apply list_lookup_insert_Some in Hk as [(-> & <- & _)|(Hne & Hk)]; auto.
  - cbn. split; [reflexivity|]. intros k x Hk.
    apply list_lookup_insert_Some in Hk as [(<- & <- & _)|(Hne & Hk)]; [now left|].
    right. split; [auto|].
    apply lookup_app_Some in Hk as [Hk|(Hlen & Hk)]; [exact Hk|].
    destruct (k - length sts)%nat as [|n] eqn:Hn; [lia|]. discriminate.
Qed.

Lemma stream_kind_type (st st' : M2PSStream) :
  stream_type st = GF_STREAM_VISUAL \/ stream_type st = GF_STREAM_AUDIO ->
  stream_type st' = GF_STREAM_VISUAL \/ stream_type st' = GF_STREAM_AUDIO ->
  stream_kind st = stream_kind st' -> stream_type st = stream_type st'.
Proof.
  unfold stream_kind. intros [->| ->] [->| ->]; cbn; congruence.
Qed.

Lemma numbered_mark (nv na nv' na' : nat) (i j : nat) (st : M2PSStream)
    (sts sts2 : list M2PSStream) :
  numbered nv na sts ->
  (forall k x, sts2 !! k = Some x ->
     (k = j /\ x = mark_stream i st) \/ (k <> j /\ sts !! k = Some x)) ->
  (stream_type st = GF_STREAM_VISUAL /\ i = nv /\ nv' = S nv /\ na' = na)
  \/ (stream_type st = GF_STREAM_AUDIO /\ i = na /\ na' = S na /\ nv' = nv) ->
  numbered nv' na' sts2.
Proof.
  intros [Hb Hd] Hl Hty.
  assert (forall k x, sts2 !! k = Some x -> in_use x = true ->
            (stream_type x = GF_STREAM_VISUAL /\ 0 <= stream_num x < Z.of_nat nv')
            \/ (stream_type x = GF_STREAM_AUDIO /\ 0 <= stream_num x < Z.of_nat na')) as Hb'.
  { intros k x Hk Hu. destruct (Hl k x Hk) as [(-> & ->)|(Hne & Hk')].
    - cbn. destruct Hty as [(-> & -> & -> & ->)|(-> & -> & -> & ->)]; [left|right]; split; auto; lia.
    - destruct (Hb k x Hk' Hu) as [(? & ?)|(? & ?)];
        destruct Hty as [(_ & _ & -> & ->)|(_ & _ & -> & ->)]; [left|left|right|right];
        split; auto; lia. }
  split; [exact Hb'|].
  intros j1 k1 x x' Hj Hk Hu Hu' Hkind Hnum.
  pose proof (Hb' _ _ Hj Hu) as Bx. pose proof (Hb' _ _ Hk Hu') as Bx'.
  assert (stream_type x = stream_type x') as Htyp.
  { apply stream_kind_type; auto; tauto. }
  destruct (Hl _ _ Hj) as [(-> & ->)|(Hne & Hj')];
    destruct (Hl _ _ Hk) as [(-> & ->)|(Hne' & Hk')]; auto.
  - exfalso. destruct (Hb _ _ Hk' Hu') as [(? & ?)|(? & ?)];
      destruct Hty as [(? & -> & _)|(? & -> & _)]; cbn in *;
      unfold GF_STREAM_VISUAL, GF_STREAM_AUDIO in *; try lia.
  - exfalso. destruct (Hb _ _ Hj' Hu) as [(? & ?)|(? & ?)];
      destruct Hty as [(? & -> & _)|(? & -> & _)]; cbn in *;
      unfold GF_STREAM_VISUAL, GF_STREAM_AUDIO in *; try lia.
  - eapply Hd; eauto.
Qed.

Lemma numbered_more (nv na nv' na' : nat) (sts : list M2PSStream) :
  (nv <= nv')%nat -> (na <= na')%nat -> numbered nv na sts -> numbered nv' na' sts.
Proof.
  intros Hv Ha [Hb Hd]. split; [|exact Hd].
  intros k st Hk Hu. destruct (Hb k st Hk Hu) as [(? & ?)|(? & ?)]; [left|right]; split; auto; lia.
Qed.

Lemma numbered_unused (sts : list M2PSStream) :
  Forall (fun st => in_use st = false) sts -> numbered 0 0 sts.
Proof.
  intros Hall.
  assert (forall k st, sts !! k = Some st -> in_use st = true -> False) as Hno.
  { intros k st Hk Hu. rewrite Forall_forall in Hall.
    apply list_elem_of_lookup_2 in Hk. rewrite (Hall _ Hk) in Hu. discriminate. }
  split.
  - intros k st Hk Hu. destruct (Hno _ _ Hk Hu).
  - intros j k st st' Hj _ Hu. destruct (Hno _ _ Hj Hu).
Qed.

Lemma foldl_seq_inv {St : Type} (I : nat -> St -> Prop) (f : St -> nat -> St) :
  (forall i s, I i s -> I (S i) (f s i)) ->
  forall n a s, I a s -> I (a + n)%nat (foldl f s (seq a n)).
Proof.
  intros Hf. induction n as [|n IH]; intros a s H; simpl.
  - now rewrite Nat.add_0_r.
  - replace (a + S n)%nat with (S a + n)%nat by lia. apply IH, Hf, H.
Qed.

Lemma setup_video_numbered (p : mpeg2ps_t) (dur : PropVal) (i : nat) (acc : SetupSt) :
  numbered i 0 (fst (fst acc)) ->
  numbered (S i) 0 (fst (fst (setup_video p dur acc i))).
Proof.
  destruct acc as [[sts sync] w]. cbn [fst]. intros Hn.
  pose proof (setup_video_unfold p dur sts sync w i) as Hu.
  pose proof (get_stream_marked GF_STREAM_VISUAL i sts w) as Hm.
  destruct (get_stream GF_STREAM_VISUAL sts w) as [[[j st] sts1] w1].
  destruct Hu as (sync' & w2 & -> & _). destruct Hm as [Hty Hl]. cbn [fst].
  eapply numbered_mark; [exact Hn|exact Hl|]. left. auto.
Qed.

Lemma setup_audio_numbered (p : mpeg2ps_t) (dur : PropVal) (nv i : nat) (acc : SetupSt) :
  numbered nv i (fst (fst acc)) ->
  numbered nv (S i) (fst (fst (setup_audio p dur acc i))).
Proof.
  intros Hn.
  destruct (decide (mpeg2ps_get_audio_stream_type p (Z.of_nat i) = MPEG_AUDIO_UNKNOWN))
    as [Hty|Hty].
  - rewrite setup_audio_skip by exact Hty. eapply numbered_more; [| |exact Hn]; lia.
  - destruct acc as [[sts sync] w]. cbn [fst] in *.
    pose proof (setup_audio_unfold p dur sts sync w i Hty) as Hu.
    pose proof (get_stream_marked GF_STREAM_AUDIO i sts w) as Hm.
    destruct (get_stream GF_STREAM_AUDIO sts w) as [[[j st] sts1] w1].
    destruct Hu as (sync' & w2 & -> & _). destruct Hm as [Hty' Hl]. cbn [fst].
    eapply numbered_mark; [exact Hn|exact Hl|]. right. auto.
Qed.

Lemma m2psdmx_setup_distinct (p : mpeg2ps_t) (ctx : GF_M2PSDmxCtx lib) (w : World) :
  Forall (fun st => in_use st = false) (streams ctx) ->
  distinct_streams (streams (fst (m2psdmx_setup p ctx w))).
Proof.
  intros Hall. unfold m2psdmx_setup.
  set (dur := PROP_FRAC _ _).
  pose proof (foldl_seq_inv (fun i (acc : SetupSt) => numbered i 0 (fst (fst acc)))
                (setup_video p dur) (setup_video_numbered p dur)
                (mpeg2ps_get_video_stream_count p) 0
                (streams ctx, 0, w) (numbered_unused _ Hall)) as Hv.
  cbn [streams set_first_dts].
  set (acc1 := foldl (setup_video p dur) _ _) in *.
  pose proof (foldl_seq_inv
                (fun i (acc : SetupSt) =>
                   numbered (mpeg2ps_get_video_stream_count p) i (fst (fst acc)))
                (setup_audio p dur)
                (setup_audio_numbered p dur (mpeg2ps_get_video_stream_count p))
                (mpeg2ps_get_audio_stream_count p) 0 acc1 Hv) as Ha.
  destruct (foldl (setup_audio p dur) acc1 _) as [[sts sy] w1].
  cbn in *. exact (proj2 Ha).
Qed.

Lemma distinct_streams_unused (sts : list M2PSStream) :
  Forall (fun st => in_use st = false) sts -> distinct_streams sts.
Proof. intros H. exact (proj2 (numbered_unused sts H)). Qed.

Lemma streams_wf_initialize : streams_wf m2psdmx_initialize.
Proof.
  split; cbn; [constructor|]. apply distinct_streams_unused. constructor.
Qed.

Lemma m2psdmx_configure_pid_wf (w : World) (ctx : GF_M2PSDmxCtx lib)
    (pid : GF_FilterPid) (is_remove : bool) :
  streams_wf ctx -> streams_wf (snd (fst (m2psdmx_configure_pid w ctx pid is_remove))).
Proof.
  intros [Hn Hd]. unfold m2psdmx_configure_pid.
  destruct is_remove; cbn [fst snd].
  { split; cbn; [constructor|]. apply distinct_streams_unused. constructor. }
  destruct (pid_check_caps pid); cbn [negb fst snd]; [|now split].
  destruct (pid_filepath pid) as [path|]; [|now split].
  cbn [src_url set_ipid].
  destruct (bool_decide (src_url ctx = Some path)); [now split|].
  cbn [ps set_ipid streams].
  assert (Forall (fun st => in_use st = false) (mark_unused <$> streams ctx)) as Hall.
  { apply Forall_fmap, Forall_forall. now intros. }
  destruct (ps ctx) as [p|] eqn:Hps; cbn; split; intros; auto.
  now apply distinct_streams_unused.
Qed.

Lemma m2psdmx_process_event_wf (ctx : GF_M2PSDmxCtx lib) (evt : GF_FilterEvent) :
  streams_wf ctx -> streams_wf (snd (m2psdmx_process_event ctx evt)).
Proof.
  intros H. destruct evt as [range| | |]; cbn; auto.
  destruct (is_playing ctx && (start_range ctx =? range)%float); auto.
Qed.

Lemma opened_wf (w : World) (ctx : GF_M2PSDmxCtx lib)
    (p : mpeg2ps_t) (ctx1 : GF_M2PSDmxCtx lib) (w1 : World) :
  opened w ctx p ctx1 w1 -> streams_wf ctx -> streams_wf ctx1.
Proof.
  intros Ho Hwf. pose proof (opened_keeps _ _ _ _ _ Ho) as (_ & _ & _ & _ & Hps & _).
  destruct Ho as [(_ & -> & _)|(Hn & _ & Hs)]; [exact Hwf|].
  split; [congruence|].
  replace ctx1 with (fst (m2psdmx_setup p (set_ps (Some p) ctx)
                            (emit (EvPsInit (src_url ctx)) w))) by now rewrite <- Hs.
  apply m2psdmx_setup_distinct. exact (proj1 Hwf Hn).
Qed.

Lemma m2psdmx_process_wf (w : World) (ctx : GF_M2PSDmxCtx lib) :
  streams_wf ctx -> streams_wf (snd (fst (m2psdmx_process w ctx))).
Proof.
  intros Hwf. pose proof (m2psdmx_process_spec w ctx) as H.
  destruct (m2psdmx_process w ctx) as [[r ctx'] w']. cbn [fst snd].
  destruct H as [Hp -> -> -> | pck Hp He -> -> -> | pck Hp He Hps Hi -> -> ->
                | pck p Hp He Ho Hpl -> | pck p ctx1 w1 Hp He Ho Hpl Hd]; auto.
  - eapply opened_wf; eauto.
  - pose proof (opened_wf _ _ _ _ _ Ho Hwf) as [_ Hd1].
    pose proof (m2psdmx_dispatch_spec p ctx1 w1) as Hspec. rewrite <- Hd in Hspec.
    destruct Hspec as [sk fr en _ _ _ _ Hst _ _ _ _ _ Hps _].
    split; [|now rewrite Hst]. intros Hnone. rewrite Hnone in Hps. now destruct Hps.
Qed.

(** A round reads no frame of the stream of an entry in use whose pid
    would block. *)
Lemma m2psdmx_process_no_read (w : World) (ctx : GF_M2PSDmxCtx lib) :
  streams_wf ctx ->
  match m2psdmx_process w ctx with
  | (r, ctx', w') =>
      forall st, st ∈ streams ctx' -> in_use st = true ->
                 w_would_block w (opid st) = true ->
        EvPsGetFrame (stream_kind st) (stream_num st) ∉ emitted w w'
  end.
Proof.
  intros Hwf. pose proof (m2psdmx_process_spec w ctx) as H.
  destruct (m2psdmx_process w ctx) as [[r ctx'] w'].
  intros st Hin Hu Hbl Hel.
  destruct H as [Hp -> -> -> | pck Hp He -> -> -> | pck Hp He Hps Hi -> -> ->
                | pck p Hp He Ho Hpl -> | pck p ctx1 w1 Hp He Ho Hpl Hd].
  - rewrite emitted_refl in Hel. now apply elem_of_nil in Hel.
  - rewrite emitted_refl in Hel. now apply elem_of_nil in Hel.
  - rewrite (emitted_app _ _ [EvPsInit (src_url ctx); EvSetupFailure (open_error ctx)]) in Hel
      by (cbn; now rewrite <- app_assoc).
    repeat (apply elem_of_cons in Hel as [Hel|Hel]; [discriminate|]).
    now apply elem_of_nil in Hel.
  - pose proof (opened_keeps _ _ _ _ _ Ho) as ((evs & Ht & Hf & _) & _).
    rewrite (emitted_app _ _ _ Ht) in Hel.
    rewrite Forall_forall in Hf. exact (Hf _ Hel).
  - pose proof (opened_wf _ _ _ _ _ Ho Hwf) as [_ Hd1].
    pose proof (opened_keeps _ _ _ _ _ Ho) as ((evs & Ht & Hf & Hb & _) & _).
    pose proof (m2psdmx_dispatch_spec p ctx1 w1) as Hspec. rewrite <- Hd in Hspec.
    destruct Hspec as [sk fr en Ht' Hsk Hfr _ Hst _ _ _ _ _ _ Hres].
    rewrite Hb in Hfr. rewrite Hst in Hin.
    rewrite (emitted_app w w' (evs ++ sk ++ fr ++ en)) in Hel
      by (rewrite Ht', Ht, <- !app_assoc; reflexivity).
    rewrite !elem_of_app in Hel. destruct Hel as [Hel|[Hel|[Hel|Hel]]].
    + rewrite Forall_forall in Hf. exact (Hf _ Hel).
    + subst sk. destruct (in_seek ctx1); [|now apply elem_of_nil in Hel].
      apply list_elem_of_fmap in Hel as (x & Hx & _). discriminate.
    + rewrite Forall_forall in Hfr.
      destruct (Hfr _ Hel) as (st' & Hin' & Hu' & Hnb & Hk & Hn).
      apply list_elem_of_lookup in Hin as (j & Hj).
      apply list_elem_of_lookup in Hin' as (k & Hk').
      assert (k = j) as -> by (eapply Hd1; eauto).
      assert (st' = st) as -> by congruence. congruence.
    + destruct Hres as [(_ & -> & _)|(_ & -> & _)]; [now apply elem_of_nil in Hel|].
      apply elem_of_app in Hel as [Hel|Hel].
      * apply list_elem_of_fmap in Hel as (x & Hx & _). discriminate.
      * apply list_elem_of_singleton in Hel. discriminate.
Qed.

(** C10: once the source handle is open, a [process] call made while the
    filter is not playing returns [GF_OK] and leaves the filter state and
    the session as they were: no frame is read, no seek is made, no packet
    is emitted, no pid is marked at end of stream, and the packet pending
    on the input pid (a complete file, as the code asserts) is not
    dropped. *)
Theorem m2psdmx_process_not_playing (w : World) (ctx : GF_M2PSDmxCtx lib) :
  is_Some (ps ctx) -> is_playing ctx = false -> complete_files w ->
  m2psdmx_process w ctx = (Ret GF_OK, ctx, w)
  /\ emitted w (snd (m2psdmx_process w ctx)) = [].
Proof.
  intros [p Hp] Hpl Hc.
  assert (m2psdmx_process w ctx = (Ret GF_OK, ctx, w)) as H.
  { unfold m2psdmx_process, gf_filter_pid_get_packet.
    destruct (head (w_inq w)) as [pck|] eqn:Hh; [|reflexivity].
    rewrite (Hc pck Hh), Hp, Hpl. reflexivity. }
  rewrite H. split; [reflexivity|apply emitted_refl].
Qed.

(** C6: a PLAY event with the start offset the filter is already playing
    from is cancelled and leaves the state (pending-seek flag and start
    range included) as it was; a PLAY event repeated right after itself is
    cancelled and changes nothing; and a [process] call makes at most one
    seek call per stream in use, none at all unless a seek is pending,
    and leaves no seek pending once it has made one.  So the same PLAY
    issued twice in a row costs the one seek of the next [process] call. *)
Theorem m2psdmx_play_twice_seeks_once (ctx : GF_M2PSDmxCtx lib) (range : Double) :
  (is_playing ctx = true -> (start_range ctx =? range)%float = true ->
   m2psdmx_process_event ctx (GF_FEVT_PLAY range) = (true, ctx))
  /\ (let once := snd (m2psdmx_process_event ctx (GF_FEVT_PLAY range)) in
      m2psdmx_process_event once (GF_FEVT_PLAY range) = (true, once))
  /\ (forall w : World,
        match m2psdmx_process w ctx with
        | (r, ctx', w') =>
            (nb_seeks (emitted w w')
             <= length (filter (fun st => in_use st = true) (streams ctx')))%nat
            /\ (in_seek ctx = false ->
                nb_seeks (emitted w w') = 0%nat /\ in_seek ctx' = false)
            /\ ((0 < nb_seeks (emitted w w'))%nat -> in_seek ctx' = false)
        end).
Proof.
  split; [|split].
  - intros Hpl Heq. unfold m2psdmx_process_event. now rewrite Hpl, Heq.
  - unfold m2psdmx_process_event.
    destruct (is_playing ctx && (start_range ctx =? range)%float) eqn:Hc; cbn.
    + now rewrite Hc.
    + now destruct (range =? range)%float.
  - intros w. apply m2psdmx_process_seeks.
Qed.

(** C8 (amended): when the lazy open fails, [process] signals a setup
    failure (URL error when the file does not exist, non-compliant
    bitstream otherwise) and returns [GF_NOT_SUPPORTED]; the state is as it
    was and the input packet is still pending, and the filter keeps no
    mark of the failure: the next [process] call attempts the open again. *)
Theorem m2psdmx_open_failure_retried (w : World) (ctx : GF_M2PSDmxCtx lib) (pck : InPck) :
  head (w_inq w) = Some pck -> in_end pck = true ->
  ps ctx = None -> mpeg2ps_init (src_url ctx) = None ->
  let e := if gf_file_exists (src_url ctx)
           then GF_NON_COMPLIANT_BITSTREAM else GF_URL_ERROR in
  let failed w := gf_filter_setup_failure e (emit (EvPsInit (src_url ctx)) w) in
  m2psdmx_process w ctx = (Ret GF_NOT_SUPPORTED, ctx, failed w)
  /\ emitted w (failed w) = [EvPsInit (src_url ctx); EvSetupFailure e]
  /\ w_inq (failed w) = w_inq w
  /\ m2psdmx_process (failed w) ctx = (Ret GF_NOT_SUPPORTED, ctx, failed (failed w)).
Proof.
  intros Hh He Hps Hi e failed.
  assert (forall w0, head (w_inq w0) = Some pck ->
                     m2psdmx_process w0 ctx = (Ret GF_NOT_SUPPORTED, ctx, failed w0)) as H.
  { intros w0 Hh0. unfold m2psdmx_process, gf_filter_pid_get_packet.
    rewrite Hh0, He, Hps, Hi. subst failed e. cbn.
    now destruct (gf_file_exists (src_url ctx)). }
  repeat split.
  - now apply H.
  - apply emitted_app. cbn. now rewrite <- app_assoc.
  - now apply H.
Qed.

(** C7 (amended): [configure_pid] with the file path already recorded
    returns [GF_OK] and changes nothing in the filter state but the input
    pid, which it records; with another path while a handle is open it
    closes the handle, marks every stream entry not in use without
    removing its pid, records the path and returns [GF_OK] without opening
    the new source: the open is the first call of the next [process]
    round.  (Calls that connect a pid which passes the capability check.) *)
Theorem m2psdmx_configure_pid_source_change (w : World) (ctx : GF_M2PSDmxCtx lib)
    (pid : GF_FilterPid) (path : string) :
  pid_check_caps pid = true -> pid_filepath pid = Some path ->
  (src_url ctx = Some path ->
   m2psdmx_configure_pid w ctx pid false
   = (GF_OK, set_ipid (Some (pid_id pid)) ctx,
      gf_filter_pid_set_framing_mode (pid_id pid) true w))
  /\ (src_url ctx <> Some path -> is_Some (ps ctx) ->
      match m2psdmx_configure_pid w ctx pid false with
      | (e, ctx', w') =>
          e = GF_OK
          /\ ctx' = reconfigured pid path ctx
          /\ emitted w w' = [EvSetFramingMode (pid_id pid) true; EvPsClose]
          /\ forall (w2 : World) (pck : InPck),
               head (w_inq w2) = Some pck -> in_end pck = true ->
               exists evs, emitted w2 (snd (m2psdmx_process w2 ctx'))
                           = EvPsInit (Some path) :: evs
      end).
Proof.
  intros Hc Hf. split.
  - now apply m2psdmx_configure_pid_same_source.
  - intros Hu Hp. rewrite (m2psdmx_configure_pid_new_source w ctx pid path Hc Hf Hu Hp).
    repeat split.
    + apply emitted_app. cbn. now rewrite <- app_assoc.
    + intros w2 pck Hh He.
      apply (m2psdmx_process_opens w2 (reconfigured pid path ctx) pck); auto.
Qed.

End DemuxProperties.

(** ** The encoder *)

Section EncoderProperties.
Import FFEnc.
Context {codec : AVCodec}.

Definition is_encode (e : Ev) : bool :=
  match e with EvEncode _ _ _ => true | _ => false end.
Definition is_log_error (e : Ev) : bool :=
  match e with EvLog GF_LOG_ERROR _ => true | _ => false end.

(** The calls of a round are read off the session: every call appends
    one event. *)
Ltac trace_of_call :=
  cbn [w_trace w_inq emit GF_LOG gf_filter_pid_drop_packet gf_filter_pid_set_eos
       gf_filter_pid_set_property gf_filter_pck_new_alloc gf_filter_pck_send
       send_coded send_packet fst snd];
  rewrite <- ?app_assoc; cbn [app].

Ltac emitted_is :=
  first [ rewrite emitted_refl
        | erewrite emitted_app by (trace_of_call; reflexivity) ].

Ltac break_match :=
  match goal with
  | |- context [match ?x with _ => _ end] =>
      lazymatch x with
      | context [match _ with _ => _ end] => fail
      | _ => destruct x eqn:?
      end
  end.

Lemma ffenc_process_blocked (w : World) (ctx : GF_FFEncodeCtx codec) :
  gf_filter_pid_would_block w (out_pid ctx) = true ->
  ffenc_process w ctx = (GF_OK, ctx, w).
Proof. intros H. unfold ffenc_process. now rewrite H. Qed.

(** The calls of the end of a round: no encode call, no end of stream,
    no pid removed, no packet dropped. *)
Definition finish_call (e : Ev) : Prop :=
  is_encode e = false /\ is_eos e = false /\ is_pid_remove e = false
  /\ e <> EvDropPacket.

Definition encode_error_log : Ev := EvLog GF_LOG_ERROR "[FFEnc] Error encoding frame".

(** What the end of a round does, by the reply of the encode call. *)
Definition finish_spec
    (finish : EncReply -> GF_FFEncodeCtx codec -> World
              -> GF_Err * GF_FFEncodeCtx codec * World) : Prop :=
  forall r ctx w,
    match finish r ctx w with
    | (e, ctx', w') =>
        exists evs, w_trace w' = w_trace w ++ evs /\ Forall finish_call evs
                    /\ w_inq w' = w_inq w /\ flush_done ctx' = flush_done ctx
                    /\ frame ctx' = frame ctx
                    /\ (enc_res r < 0 -> e = GF_SERVICE_ERROR /\ evs = [encode_error_log])
                    /\ (init_cts_setup ctx = false ->
                        init_cts_setup ctx' = false /\ ts_shift ctx' = ts_shift ctx)
    end.

Ltac ltb_facts :=
  repeat match goal with
         | H : (_ <? _) = true |- _ => apply Z.ltb_lt in H
         | H : (_ <? _) = false |- _ => apply Z.ltb_ge in H
         | H : (_ =? _) = true |- _ => apply Z.eqb_eq in H
         | H : (_ =? _) = false |- _ => apply Z.eqb_neq in H
         end.

Lemma video_tail_spec : finish_spec video_tail.
Proof.
  intros r ctx w. unfold video_tail. repeat break_match; ltb_facts.
  - exists [encode_error_log]. repeat split; auto; repeat constructor; discriminate.
  - exists []. rewrite app_nil_r. repeat split; auto; lia.
  - eexists. split; [trace_of_call; reflexivity|].
    repeat split; auto; try lia; repeat constructor; discriminate.
Qed.

Lemma audio_tail_spec : finish_spec audio_tail.
Proof.
  intros r ctx w. unfold audio_tail, capture_ts_shift. repeat break_match; ltb_facts;
    repeat match goal with H : (_, _) = (_, _) |- _ => inversion H; subst; clear H end.
  all: try (exists [encode_error_log]; repeat split; auto; repeat constructor; discriminate).
  all: try (exists []; rewrite app_nil_r; repeat split; auto; lia).
  all: eexists; (split; [trace_of_call; reflexivity|]);
    repeat split; auto; try lia; repeat constructor; discriminate.
Qed.

(** What a round leaves alone before it comes to its end: the flags and
    the configuration. *)
Definition same_config (ctx ctx0 : GF_FFEncodeCtx codec) : Prop :=
  flush_done ctx0 = flush_done ctx /\ init_cts_setup ctx0 = init_cts_setup ctx
  /\ ts_shift ctx0 = ts_shift ctx /\ sample_rate ctx0 = sample_rate ctx
  /\ timescale ctx0 = timescale ctx /\ out_pid ctx0 = out_pid ctx
  /\ process ctx0 = process ctx.

Lemma same_config_refl (ctx : GF_FFEncodeCtx codec) : same_config ctx ctx.
Proof. repeat split. Qed.

(** Calls that are no encode call and touch no output pid. *)
Definition housekeeping (e : Ev) : Prop :=
  match e with
  | EvLog _ _ | EvDropPacket => True
  | _ => False
  end.

(** The three ways of a round of [ffenc_process_video] or
    [ffenc_process_audio] ([finish] is its end, from [if (res<0)] on):
    no encode call; an encode call on a frame of the pending packet,
    which is dropped; a flush. *)
Inductive round_spec (k : StreamKind)
    (finish : EncReply -> GF_FFEncodeCtx codec -> World
            -> GF_Err * GF_FFEncodeCtx codec * World)
    (w : World) (ctx : GF_FFEncodeCtx codec)
    (e : GF_Err) (ctx' : GF_FFEncodeCtx codec) (w' : World) : Prop :=
| RoundQuiet :
    Forall housekeeping (emitted w w') -> same_config ctx ctx' ->
    (head (w_inq w) = None ->
     flush_done ctx = true /\ w_in_eos w = false
     /\ e = GF_OK /\ ctx' = ctx /\ w' = w) ->
    round_spec k finish w ctx e ctx' w'
| RoundEncoded (pk : InPck) (r : EncReply) (ctx0 : GF_FFEncodeCtx codec) (w0 : World) :
    head (w_inq w) = Some pk ->
    w_trace w0 = w_trace w ++ [EvEncode k (Some (pts (frame ctx0))) r; EvDropPacket] ->
    w_inq w0 = tail (w_inq w) ->
    same_config ctx ctx0 ->
    (e, ctx', w') = finish r ctx0 w0 ->
    round_spec k finish w ctx e ctx' w'
| RoundFlush (r : EncReply) (ctx0 : GF_FFEncodeCtx codec) :
    head (w_inq w) = None ->
    ~ (flush_done ctx = true /\ w_in_eos w = false) ->
    same_config ctx ctx0 -> pts (frame ctx0) = pts (frame ctx) ->
    (enc_gotpck r = 0 /\ e = GF_EOS /\ ctx' = set_flush_done true ctx0
     /\ w' = gf_filter_pid_set_eos (out_pid ctx) (emit (EvEncode k None r) w)
     \/ enc_gotpck r <> 0
        /\ (e, ctx', w') = finish r ctx0 (emit (EvEncode k None r) w)) ->
    round_spec k finish w ctx e ctx' w'.

Lemma keep_remaining_config (pk : InPck) (data : list Z) (size nb_copy : Z)
    (ctx : GF_FFEncodeCtx codec) :
  same_config ctx (keep_remaining pk data size nb_copy ctx)
  /\ frame (keep_remaining pk data size nb_copy ctx) = frame ctx.
Proof. unfold keep_remaining. destruct (negb (size =? 0)); repeat split. Qed.

Lemma ffenc_process_video_spec (w : World) (ctx : GF_FFEncodeCtx codec) :
  match ffenc_process_video w ctx with
  | (e, ctx', w') => round_spec Video video_tail w ctx e ctx' w'
  end.
Proof.
  unfold ffenc_process_video, gf_filter_pid_get_packet.
  destruct (head (w_inq w)) as [pk|] eqn:Hh.
  - rewrite bool_decide_false by discriminate. cbn [andb].
    match goal with
    | |- context [match in_data pk with Some _ => ?a | None => ?b end] =>
        destruct (match in_data pk with Some _ => a | None => b end) as [e fr] eqn:Hfr
    end.
    destruct (bool_decide (e <> GF_OK)) eqn:He.
    + apply RoundQuiet.
      * emitted_is. repeat constructor.
      * repeat split.
      * congruence.
    + destruct (avcodec_encode_video2 _ _ _) as [r enc] eqn:Henc.
      match goal with
      | |- context [video_tail r ?c ?w0] =>
          destruct (video_tail r c w0) as [[e' ctx'] w'] eqn:Htail;
          eapply (RoundEncoded Video video_tail _ _ _ _ _ pk r c w0)
      end; eauto.
      * trace_of_call. reflexivity.
      * repeat split.
  - rewrite bool_decide_true by reflexivity. cbn [andb].
    destruct (flush_done ctx && negb (gf_filter_pid_is_eos w)) eqn:Hidle.
    + apply RoundQuiet; [emitted_is; constructor|apply same_config_refl|].
      intros _. apply andb_prop in Hidle as [H1 H2].
      apply negb_true_iff in H2. unfold gf_filter_pid_is_eos in H2. auto.
    + destruct (avcodec_encode_video2 _ _ _) as [r enc] eqn:Henc.
      assert (~ (flush_done ctx = true /\ w_in_eos w = false)) as Hnot.
      { intros [H1 H2]. unfold gf_filter_pid_is_eos in Hidle. now rewrite H1, H2 in Hidle. }
      match goal with
      | |- context [video_tail r ?c ?w0] =>
          assert (pts (frame c) = pts (frame ctx)) as Hpts
            by (cbn; destruct (all_intra ctx); reflexivity);
          destruct (enc_gotpck r =? 0) eqn:Hg;
          [ apply (RoundFlush Video video_tail _ _ _ _ _ r c)
          | destruct (video_tail r c w0) as [[e' ctx'] w'] eqn:Htail;
            apply (RoundFlush Video video_tail _ _ _ _ _ r c) ]
      end; auto; try (repeat split; fail).
      * left. apply Z.eqb_eq in Hg. repeat split; auto.
      * right. apply Z.eqb_neq in Hg. split; auto.
Qed.

Lemma fill_frame_config (data : list Z) (size : Z) (ctx : GF_FFEncodeCtx codec) :
  same_config ctx (snd (fill_frame data size ctx)).
Proof.
  unfold fill_frame. destruct (negb (frame_size (encoder ctx) =? 0)); cbv zeta;
    destruct (avcodec_fill_audio_frame _ _ _ _ _) as [res fr]; repeat split.
Qed.

Lemma ffenc_process_audio_spec (w : World) (ctx : GF_FFEncodeCtx codec) :
  match ffenc_process_audio w ctx with
  | (e, ctx', w') => round_spec Audio audio_tail w ctx e ctx' w'
  end.
Proof.
  unfold ffenc_process_audio, gf_filter_pid_get_packet.
  destruct (head (w_inq w)) as [pk|] eqn:Hh.
  - rewrite bool_decide_false by discriminate. cbn [andb].
    destruct (in_data pk) as [data|] eqn:Hdata.
    + set (ctx1 := if bytes_in_audio_buffer ctx =? 0
                   then set_first_byte_cts (in_cts pk) ctx else ctx).
      assert (same_config ctx ctx1) as Hc1
        by (subst ctx1; destruct (bytes_in_audio_buffer ctx =? 0); repeat split).
      destruct (negb (frame_size (encoder ctx1) =? 0) && _) eqn:Hsmall.
      * apply RoundQuiet; [emitted_is; repeat constructor| |congruence].
        destruct Hc1 as (? & ? & ? & ? & ? & ? & ?). repeat split; assumption.
      * pose proof (fill_frame_config data (u32 (Z.of_nat (length data))) ctx1) as Hc2.
        destruct (fill_frame data (u32 (Z.of_nat (length data))) ctx1)
          as [[[[res nb_copy] data'] size'] ctx2].
        cbn [snd] in Hc2.
        assert (same_config ctx ctx2) as Hc2'.
        { destruct Hc1 as (? & ? & ? & ? & ? & ? & ?).
          destruct Hc2 as (? & ? & ? & ? & ? & ? & ?). repeat split; congruence. }
        clear Hc2. rename Hc2' into Hc2.
        destruct (res <? 0).
        -- pose proof (keep_remaining_config pk data' size' nb_copy ctx2) as [Hk _].
           apply RoundQuiet; [emitted_is; repeat constructor| |congruence].
           destruct Hc2 as (? & ? & ? & ? & ? & ? & ?).
           destruct Hk as (? & ? & ? & ? & ? & ? & ?).
           repeat split; congruence.
        -- destruct (avcodec_encode_audio2 _ _ _) as [r enc] eqn:Henc.
           match goal with
           | |- context [audio_tail r ?c ?w0] =>
               destruct (audio_tail r c w0) as [[e' ctx'] w'] eqn:Htail;
               eapply (RoundEncoded Audio audio_tail _ _ _ _ _ pk r c w0)
           end; eauto.
           ++ trace_of_call.
              match goal with
              | |- context [keep_remaining ?a ?b ?c ?d ?x] =>
                  rewrite (proj2 (keep_remaining_config a b c d x))
              end.
              reflexivity.
           ++ match goal with
              | |- context [keep_remaining ?a ?b ?c ?d ?x] =>
                  pose proof (proj1 (keep_remaining_config a b c d x)) as Hk
              end.
              destruct Hc2 as (? & ? & ? & ? & ? & ? & ?).
              destruct Hk as (? & ? & ? & ? & ? & ? & ?).
              cbn in *. repeat split; congruence.
    + apply RoundQuiet; [emitted_is; repeat constructor|apply same_config_refl|congruence].
  - rewrite bool_decide_true by reflexivity. cbn [andb].
    destruct (flush_done ctx && negb (gf_filter_pid_is_eos w)) eqn:Hidle.
    + apply RoundQuiet; [emitted_is; constructor|apply same_config_refl|].
      intros _. apply andb_prop in Hidle as [H1 H2].
      apply negb_true_iff in H2. unfold gf_filter_pid_is_eos in H2. auto.
    + destruct (avcodec_encode_audio2 _ _ _) as [r enc] eqn:Henc.
      assert (~ (flush_done ctx = true /\ w_in_eos w = false)) as Hnot.
      { intros [H1 H2]. unfold gf_filter_pid_is_eos in Hidle. now rewrite H1, H2 in Hidle. }
      match goal with
      | |- context [audio_tail r ?c ?w0] =>
          destruct (enc_gotpck r =? 0) eqn:Hg;
          [ apply (RoundFlush Audio audio_tail _ _ _ _ _ r c)
          | destruct (audio_tail r c w0) as [[e' ctx'] w'] eqn:Htail;
            apply (RoundFlush Audio audio_tail _ _ _ _ _ r c) ]
      end; auto; try (repeat split; fail).
      * left. apply Z.eqb_eq in Hg. repeat split; auto.
      * right. apply Z.eqb_neq in Hg. split; auto.
Qed.

(** *** The timestamp shift *)

Lemma s32_s64_small (d : Z) : - 2 ^ 31 <= d < 2 ^ 31 -> s32 (s64 d) = d.
Proof.
  intros H. unfold s32, s64.
  rewrite (Z.mod_small (d + 2 ^ 63)) by lia.
  replace (d + 2 ^ 63 - 2 ^ 63 + 2 ^ 31) with (d + 2 ^ 31) by lia.
  rewrite Z.mod_small by lia. lia.
Qed.

(** The skip published with a shift [d]. *)
Definition audio_skip (d : Z) (ctx : GF_FFEncodeCtx codec) : PropVal :=
  PROP_UINT (u32 (s32 (Z.quot (s64 (d * sample_rate ctx)) (timescale ctx)))).

Lemma audio_skip_exact (d : Z) (ctx : GF_FFEncodeCtx codec) :
  0 <= d < 2 ^ 31 -> 0 <= sample_rate ctx < 2 ^ 32 -> 0 < timescale ctx ->
  d * sample_rate ctx / timescale ctx < 2 ^ 31 ->
  audio_skip d ctx = PROP_UINT (d * sample_rate ctx / timescale ctx).
Proof.
  intros Hd Hs Ht Hq. unfold audio_skip. f_equal.
  assert (0 <= d * sample_rate ctx < 2 ^ 63) as Hm by nia.
  assert (s64 (d * sample_rate ctx) = d * sample_rate ctx) as ->.
  { unfold s64. rewrite Z.mod_small by lia. lia. }
  rewrite Z.quot_div_nonneg by lia.
  assert (0 <= d * sample_rate ctx / timescale ctx) as Hq0 by (apply Z.div_pos; lia).
  unfold s32, u32. rewrite (Z.mod_small (_ + 2 ^ 31)) by lia.
  rewrite Z.mod_small by lia. lia.
Qed.

Lemma capture_ts_shift_first (pkt : AVPacket) (ctx : GF_FFEncodeCtx codec) (w : World) :
  init_cts_setup ctx = true ->
  pts (frame ctx) <> pkt_pts pkt ->
  - 2 ^ 31 <= pts (frame ctx) - pkt_pts pkt < 2 ^ 31 ->
  let d := pts (frame ctx) - pkt_pts pkt in
  capture_ts_shift pkt ctx w
  = (set_ts_shift d (set_init_cts_setup false ctx),
     gf_filter_pid_set_property (out_pid ctx) GF_PROP_PID_AUDIO_SKIP
       (Some (audio_skip d ctx)) w).
Proof.
  intros Hi Hne Hr d. unfold capture_ts_shift. rewrite Hi.
  assert ((pts (frame (set_init_cts_setup false ctx)) =? pkt_pts pkt) = false) as ->
    by (apply Z.eqb_neq; exact Hne).
  cbn [negb]. cbn [ts_shift set_ts_shift set_init_cts_setup frame].
  rewrite s32_s64_small by exact Hr. fold d.
  assert ((d =? 0) = false) as -> by (apply Z.eqb_neq; subst d; lia).
  reflexivity.
Qed.

Lemma capture_ts_shift_later (pkt : AVPacket) (ctx : GF_FFEncodeCtx codec) (w : World) :
  init_cts_setup ctx = false -> capture_ts_shift pkt ctx w = (ctx, w).
Proof. intros Hi. unfold capture_ts_shift. now rewrite Hi. Qed.

Lemma capture_ts_shift_clears (pkt : AVPacket) (ctx : GF_FFEncodeCtx codec) (w : World) :
  init_cts_setup (fst (capture_ts_shift pkt ctx w)) = false
  /\ out_pid (fst (capture_ts_shift pkt ctx w)) = out_pid ctx
  /\ frame (fst (capture_ts_shift pkt ctx w)) = frame ctx
  /\ exists evs, w_trace (snd (capture_ts_shift pkt ctx w)) = w_trace w ++ evs.
Proof.
  unfold capture_ts_shift. destruct (init_cts_setup ctx) eqn:Hi.
  - repeat break_match; repeat split;
      solve [ exists []; now rewrite app_nil_r
            | eexists; trace_of_call; reflexivity ].
  - repeat split; auto. exists []. now rewrite app_nil_r.
Qed.

Lemma audio_tail_emits (r : EncReply) (ctx : GF_FFEncodeCtx codec) (w : World) :
  0 <= enc_res r -> enc_gotpck r <> 0 ->
  let w1 := gf_filter_pck_new_alloc (out_pid ctx)
              (Z.of_nat (length (pkt_data (enc_pkt r)))) w in
  audio_tail r ctx w
  = (GF_OK, fst (capture_ts_shift (enc_pkt r) ctx w1),
     send_packet (enc_pkt r) (ts_shift (fst (capture_ts_shift (enc_pkt r) ctx w1)))
       (out_pid (fst (capture_ts_shift (enc_pkt r) ctx w1)))
       (snd (capture_ts_shift (enc_pkt r) ctx w1))).
Proof.
  intros Hres Hgot w1. unfold audio_tail.
  assert ((enc_res r <? 0) = false) as -> by (apply Z.ltb_ge; lia).
  assert ((enc_gotpck r =? 0) = false) as -> by (apply Z.eqb_neq; exact Hgot).
  fold w1. now destruct (capture_ts_shift (enc_pkt r) ctx w1).
Qed.

(** The packet [send_packet] dispatches. *)
Definition coded_packet (pkt : AVPacket) (shift : Z) : Packet :=
  gf_filter_pck_set_duration
    (gf_filter_pck_set_sap
       (gf_filter_pck_set_dts
          (gf_filter_pck_set_cts (pck_new (pkt_data pkt)) (pkt_pts pkt + shift))
          (pkt_dts pkt + shift))
       (if negb (Z.land (pkt_flags pkt) AV_PKT_FLAG_KEY =? 0) then GF_FILTER_SAP_1 else 0))
    (pkt_duration pkt).

Lemma send_packet_trace (pkt : AVPacket) (shift : Z) (pid : nat) (w : World) :
  w_trace (send_packet pkt shift pid w)
  = w_trace w ++ [EvPckSend pid (coded_packet pkt shift)].
Proof.
  unfold send_packet, coded_packet. trace_of_call.
  now destruct (negb (Z.land (pkt_flags pkt) AV_PKT_FLAG_KEY =? 0)).
Qed.

Lemma send_coded_trace (pkt : AVPacket) (shift : Z) (pid : nat) (w : World) :
  w_trace (send_coded pkt shift pid w)
  = w_trace w ++ [EvPckNewAlloc pid (Z.of_nat (length (pkt_data pkt)));
                  EvPckSend pid (coded_packet pkt shift)].
Proof.
  unfold send_coded. rewrite send_packet_trace. trace_of_call. reflexivity.
Qed.

(** A round of [ffenc_process_audio] in which a coded unit comes out of
    the encode call ends in [audio_tail], entered with the flags and the
    shift the round began with. *)
Lemma ffenc_process_audio_unit (w : World) (ctx : GF_FFEncodeCtx codec) :
  match ffenc_process_audio w ctx with
  | (e, ctx', w') =>
      forall fpts r,
        EvEncode Audio fpts r ∈ emitted w w' -> 0 <= enc_res r -> enc_gotpck r <> 0 ->
        exists ctx0 w0 pre,
          same_config ctx ctx0
          /\ w_trace w0 = w_trace w ++ pre
          /\ Forall (fun e => is_encode e = true \/ e = EvDropPacket) pre
          /\ (e, ctx', w') = audio_tail r ctx0 w0
  end.
Proof.
  pose proof (ffenc_process_audio_spec w ctx) as H.
  destruct (ffenc_process_audio w ctx) as [[e ctx'] w'].
  intros fpts r Hin Hres Hgot.
  destruct H as [Hq _ _ | pk r0 ctx0 w0 Hh Ht Hi Hc Hf | r0 ctx0 Hh Hn Hc Hp Hf].
  - exfalso. eapply Forall_forall in Hq; [|exact Hin]. exact Hq.
  - pose proof (audio_tail_spec r0 ctx0 w0) as Hs. rewrite <- Hf in Hs.
    destruct Hs as (evs & Ht' & Hfc & _).
    rewrite (emitted_app w w' ([EvEncode Audio (Some (pts (frame ctx0))) r0; EvDropPacket] ++ evs))
      in Hin by (rewrite Ht', Ht, <- app_assoc; reflexivity).
    cbn [app] in Hin. apply elem_of_cons in Hin as [Heq|Hin].
    + inversion Heq; subst. eexists ctx0, w0, _.
      split; [exact Hc|]. split; [exact Ht|]. split; [|exact Hf].
      constructor; [now left|]. constructor; [now right|constructor].
    + apply elem_of_cons in Hin as [Heq|Hin]; [discriminate|].
      eapply Forall_forall in Hfc; [|exact Hin]. destruct Hfc as [Hf1 _]. discriminate.
  - destruct Hf as [(Hg & -> & _ & ->)|(Hg & Hf)].
    + rewrite (emitted_app w _ [EvEncode Audio None r0; EvSetEos (out_pid ctx)])
        in Hin by (trace_of_call; reflexivity).
      apply elem_of_cons in Hin as [Heq|Hin]; [inversion Heq; subst; contradiction|].
      apply elem_of_cons in Hin as [Heq|Hin]; [discriminate|inversion Hin].
    + pose proof (audio_tail_spec r0 ctx0 (emit (EvEncode Audio None r0) w)) as Hs.
      rewrite <- Hf in Hs. destruct Hs as (evs & Ht' & Hfc & _).
      rewrite (emitted_app w w' ([EvEncode Audio None r0] ++ evs))
        in Hin by (rewrite Ht'; trace_of_call; reflexivity).
      cbn [app] in Hin. apply elem_of_cons in Hin as [Heq|Hin].
      * inversion Heq; subst.
        exists ctx0, (emit (EvEncode Audio None r0) w), [EvEncode Audio None r0].
        split; [exact Hc|]. split; [cbn [w_trace emit]; reflexivity|].
        split; [|exact Hf]. constructor; [now left|constructor].
      * eapply Forall_forall in Hfc; [|exact Hin]. destruct Hfc as [Hf1 _]. discriminate.
Qed.

Definition sets_audio_skip (pid : nat) (e : Ev) : Prop :=
  exists v, e = EvSetProperty pid GF_PROP_PID_AUDIO_SKIP v.

Lemma ffenc_audio_ts_shift_general (w : World) (ctx : GF_FFEncodeCtx codec) :
  match ffenc_process_audio w ctx with
  | (e, ctx', w') =>
      forall fpts r,
        EvEncode Audio fpts r ∈ emitted w w' -> 0 <= enc_res r -> enc_gotpck r <> 0 ->
        let pkt := enc_pkt r in
        let fp := pts (frame ctx') in
        init_cts_setup ctx' = false
        /\ (exists pck, last (emitted w w') = Some (EvPckSend (out_pid ctx) pck)
                        /\ pck_cts pck = Some (u64 (pkt_pts pkt + ts_shift ctx'))
                        /\ pck_dts pck = Some (u64 (pkt_dts pkt + ts_shift ctx')))
        /\ (init_cts_setup ctx = true -> fp <> pkt_pts pkt ->
            - 2 ^ 31 <= fp - pkt_pts pkt < 2 ^ 31 -> timescale ctx <> 0 ->
            ts_shift ctx' = fp - pkt_pts pkt
            /\ EvSetProperty (out_pid ctx) GF_PROP_PID_AUDIO_SKIP
                 (Some (PROP_UINT
                          (u32 (s32 (Z.quot (s64 (ts_shift ctx' * sample_rate ctx))
                                       (timescale ctx))))))
               ∈ emitted w w')
        /\ (init_cts_setup ctx = false ->
            ts_shift ctx' = ts_shift ctx
            /\ Forall (fun e => ~ sets_audio_skip (out_pid ctx) e) (emitted w w'))
  end.
Proof.
  pose proof (ffenc_process_audio_unit w ctx) as H.
  destruct (ffenc_process_audio w ctx) as [[e ctx'] w'].
  intros fpts r Hin Hres Hgot pkt fp.
  destruct (H fpts r Hin Hres Hgot) as (ctx0 & w0 & pre & Hc & Ht & Hpre & Hf). clear H.
  destruct Hc as (_ & Hinit & Hshift & Hsr & Hts & Hout & _).
  rewrite (audio_tail_emits r ctx0 w0 Hres Hgot) in Hf. fold pkt in Hf.
  set (w1 := gf_filter_pck_new_alloc (out_pid ctx0) (Z.of_nat (length (pkt_data pkt))) w0)
    in Hf.
  inversion Hf; subst e ctx' w'; clear Hf. fold pkt in fp |- *.
  destruct (capture_ts_shift_clears pkt ctx0 w1) as (Hclr & Hout' & Hfr & (props & Htp)).
  assert (w_trace w1
          = w_trace w ++ pre ++ [EvPckNewAlloc (out_pid ctx) (Z.of_nat (length (pkt_data pkt)))])
    as Ht1 by (subst w1; trace_of_call; rewrite Ht, Hout, <- app_assoc; reflexivity).
  assert (w_trace (send_packet pkt (ts_shift (capture_ts_shift pkt ctx0 w1).1)
                     (out_pid (capture_ts_shift pkt ctx0 w1).1)
                     (capture_ts_shift pkt ctx0 w1).2)
          = w_trace w
            ++ (pre ++ EvPckNewAlloc (out_pid ctx) (Z.of_nat (length (pkt_data pkt))) :: props)
            ++ [EvPckSend (out_pid ctx)
                  (coded_packet pkt (ts_shift (capture_ts_shift pkt ctx0 w1).1))]) as Htr.
  { rewrite send_packet_trace, Htp, Ht1, Hout', Hout, <- !app_assoc. reflexivity. }
  rewrite (emitted_app _ _ _ Htr).
  split; [exact Hclr|]. split; [|split].
  - eexists. split; [apply last_snoc|]. split; reflexivity.
  - intros Hi Hne Hr Htz. subst fp. rewrite Hfr in Hne, Hr.
    rewrite <- Hinit in Hi.
    rewrite (capture_ts_shift_first pkt ctx0 w1 Hi Hne Hr) in Htp |- *.
    cbn [fst snd ts_shift set_ts_shift set_init_cts_setup] in *.
    split; [reflexivity|].
    unfold gf_filter_pid_set_property in Htp. cbn [w_trace emit] in Htp.
    apply app_inv_head in Htp. subst props.
    unfold audio_skip. rewrite Hsr, Hts, Hout.
    apply elem_of_app. left. apply elem_of_app. right. right. left.
  - intros Hi. rewrite <- Hinit in Hi.
    rewrite (capture_ts_shift_later pkt ctx0 w1 Hi) in Htp |- *. cbn [fst snd] in *.
    split; [exact Hshift|].
    assert (props = []) as -> by (apply (app_inv_head (w_trace w1)); now rewrite app_nil_r).
    apply Forall_app. split; [apply Forall_app; split|].
    + eapply Forall_impl; [exact Hpre|]. intros x [Hx| ->] [v Hv]; subst; discriminate.
    + repeat constructor; intros [v Hv]; discriminate.
    + repeat constructor; intros [v Hv]; discriminate.
Qed.

(** *** Rounds by their encode call *)

Lemma round_encode_failure (k : StreamKind)
    (finish : EncReply -> GF_FFEncodeCtx codec -> World
              -> GF_Err * GF_FFEncodeCtx codec * World)
    (w : World) (ctx : GF_FFEncodeCtx codec)
    (e : GF_Err) (ctx' : GF_FFEncodeCtx codec) (w' : World) :
  finish_spec finish -> round_spec k finish w ctx e ctx' w' ->
  forall k' fpts r,
    EvEncode k' (Some fpts) r ∈ emitted w w' -> enc_res r < 0 ->
    e = GF_SERVICE_ERROR
    /\ emitted w w' = [EvEncode k' (Some fpts) r; EvDropPacket; encode_error_log]
    /\ w_inq w' = tail (w_inq w)
    /\ flush_done ctx' = flush_done ctx.
Proof.
  intros Hfin H k' fpts r Hin Hres.
  destruct H as [Hq _ _ | pk r0 ctx0 w0 Hh Ht Hi Hc Hf | r0 ctx0 Hh Hn Hc Hp Hf].
  - exfalso. eapply Forall_forall in Hq; [|exact Hin]. exact Hq.
  - pose proof (Hfin r0 ctx0 w0) as Hs. rewrite <- Hf in Hs.
    destruct Hs as (evs & Ht' & Hfc & Hq' & Hfd & _ & Herr & _).
    rewrite (emitted_app w w' ([EvEncode k (Some (pts (frame ctx0))) r0; EvDropPacket] ++ evs))
      in Hin |- * by (rewrite Ht', Ht, <- app_assoc; reflexivity).
    cbn [app] in Hin. apply elem_of_cons in Hin as [Heq|Hin].
    + inversion Heq; subst. destruct (Herr Hres) as [-> ->].
      destruct Hc as (Hc & _). repeat split; congruence.
    + apply elem_of_cons in Hin as [Heq|Hin]; [discriminate|].
      eapply Forall_forall in Hfc; [|exact Hin]. destruct Hfc as [Hf1 _]. discriminate.
  - exfalso. destruct Hf as [(Hg & -> & _ & ->)|(Hg & Hf)].
    + rewrite (emitted_app w _ [EvEncode k None r0; EvSetEos (out_pid ctx)])
        in Hin by (trace_of_call; reflexivity).
      apply elem_of_cons in Hin as [Heq|Hin]; [discriminate|].
      apply elem_of_cons in Hin as [Heq|Hin]; [discriminate|inversion Hin].
    + pose proof (Hfin r0 ctx0 (emit (EvEncode k None r0) w)) as Hs.
      rewrite <- Hf in Hs. destruct Hs as (evs & Ht' & Hfc & _).
      rewrite (emitted_app w w' ([EvEncode k None r0] ++ evs))
        in Hin by (rewrite Ht'; trace_of_call; reflexivity).
      cbn [app] in Hin. apply elem_of_cons in Hin as [Heq|Hin]; [discriminate|].
      eapply Forall_forall in Hfc; [|exact Hin]. destruct Hfc as [Hf1 _]. discriminate.
Qed.

Lemma round_starved_flush (k : StreamKind)
    (finish : EncReply -> GF_FFEncodeCtx codec -> World
              -> GF_Err * GF_FFEncodeCtx codec * World)
    (w : World) (ctx : GF_FFEncodeCtx codec)
    (e : GF_Err) (ctx' : GF_FFEncodeCtx codec) (w' : World) :
  finish_spec finish -> round_spec k finish w ctx e ctx' w' ->
  head (w_inq w) = None -> flush_done ctx = false ->
  exists r, head (emitted w w') = Some (EvEncode k None r)
            /\ (enc_gotpck r = 0 ->
                e = GF_EOS /\ flush_done ctx' = true
                /\ emitted w w' = [EvEncode k None r; EvSetEos (out_pid ctx)]).
Proof.
  intros Hfin H Hnone Hfd.
  destruct H as [_ _ Hq | pk r0 ctx0 w0 Hh Ht Hi Hc Hf | r0 ctx0 Hh Hn Hc Hp Hf].
  - destruct (Hq Hnone) as (Hd & _). congruence.
  - congruence.
  - exists r0. destruct Hf as [(Hg & -> & -> & ->)|(Hg & Hf)].
    + rewrite (emitted_app w _ [EvEncode k None r0; EvSetEos (out_pid ctx)])
        by (trace_of_call; reflexivity).
      split; [reflexivity|]. intros _. repeat split; auto.
    + pose proof (Hfin r0 ctx0 (emit (EvEncode k None r0) w)) as Hs.
      rewrite <- Hf in Hs. destruct Hs as (evs & Ht' & _).
      rewrite (emitted_app w w' ([EvEncode k None r0] ++ evs))
        by (rewrite Ht'; trace_of_call; reflexivity).
      split; [reflexivity|]. intros Hz. contradiction.
Qed.

(** A round with no packet pending flushes, unless the flush is done and
    the input pid is not at end of stream. *)
Lemma round_flush (k : StreamKind)
    (finish : EncReply -> GF_FFEncodeCtx codec -> World
              -> GF_Err * GF_FFEncodeCtx codec * World)
    (w : World) (ctx : GF_FFEncodeCtx codec)
    (e : GF_Err) (ctx' : GF_FFEncodeCtx codec) (w' : World) :
  finish_spec finish -> round_spec k finish w ctx e ctx' w' ->
  head (w_inq w) = None -> ~ (flush_done ctx = true /\ w_in_eos w = false) ->
  exists r, head (emitted w w') = Some (EvEncode k None r)
            /\ (enc_gotpck r = 0 ->
                e = GF_EOS /\ flush_done ctx' = true
                /\ emitted w w' = [EvEncode k None r; EvSetEos (out_pid ctx)]).
Proof.
  intros Hfin H Hnone Hfd.
  destruct H as [_ _ Hq | pk r0 ctx0 w0 Hh Ht Hi Hc Hf | r0 ctx0 Hh Hn Hc Hp Hf].
  - destruct (Hq Hnone) as (Hd & He & _). destruct Hfd. auto.
  - congruence.
  - exists r0. destruct Hf as [(Hg & -> & -> & ->)|(Hg & Hf)].
    + rewrite (emitted_app w _ [EvEncode k None r0; EvSetEos (out_pid ctx)])
        by (trace_of_call; reflexivity).
      split; [reflexivity|]. intros _. repeat split; auto.
    + pose proof (Hfin r0 ctx0 (emit (EvEncode k None r0) w)) as Hs.
      rewrite <- Hf in Hs. destruct Hs as (evs & Ht' & _).
      rewrite (emitted_app w w' ([EvEncode k None r0] ++ evs))
        by (rewrite Ht'; trace_of_call; reflexivity).
      split; [reflexivity|]. intros Hz. contradiction.
Qed.

Lemma round_keeps_shift (k : StreamKind)
    (finish : EncReply -> GF_FFEncodeCtx codec -> World
              -> GF_Err * GF_FFEncodeCtx codec * World)
    (w : World) (ctx : GF_FFEncodeCtx codec)
    (e : GF_Err) (ctx' : GF_FFEncodeCtx codec) (w' : World) :
  finish_spec finish -> round_spec k finish w ctx e ctx' w' ->
  init_cts_setup ctx = false ->
  init_cts_setup ctx' = false /\ ts_shift ctx' = ts_shift ctx.
Proof.
  intros Hfin H Hi.
  destruct H as [_ Hc _ | pk r0 ctx0 w0 Hh Ht Hq Hc Hf | r0 ctx0 Hh Hn Hc Hp Hf].
  - destruct Hc as (_ & Hc1 & Hc2 & _). split; congruence.
  - destruct Hc as (_ & Hc1 & Hc2 & _).
    pose proof (Hfin r0 ctx0 w0) as Hs. rewrite <- Hf in Hs.
    destruct Hs as (evs & _ & _ & _ & _ & _ & _ & Hk).
    destruct Hk as [Hk1 Hk2]; [congruence|]. split; congruence.
  - destruct Hc as (_ & Hc1 & Hc2 & _).
    destruct Hf as [(_ & _ & -> & _)|(_ & Hf)].
    + cbn. split; congruence.
    + pose proof (Hfin r0 ctx0 (emit (EvEncode k None r0) w)) as Hs. rewrite <- Hf in Hs.
      destruct Hs as (evs & _ & _ & _ & _ & _ & _ & Hk).
      destruct Hk as [Hk1 Hk2]; [congruence|]. split; congruence.
Qed.

Lemma ffenc_process_round (w : World) (ctx : GF_FFEncodeCtx codec) :
  gf_filter_pid_would_block w (out_pid ctx) = false ->
  match ffenc_process w ctx with
  | (e, ctx', w') =>
      exists finish, finish_spec finish
                     /\ round_spec (process ctx) finish w ctx e ctx' w'
  end.
Proof.
  intros Hb. unfold ffenc_process. rewrite Hb. destruct (process ctx).
  - pose proof (ffenc_process_video_spec w ctx) as H.
    destruct (ffenc_process_video w ctx) as [[e ctx'] w'].
    exists video_tail. split; [apply video_tail_spec|exact H].
  - pose proof (ffenc_process_audio_spec w ctx) as H.
    destruct (ffenc_process_audio w ctx) as [[e ctx'] w'].
    exists audio_tail. split; [apply audio_tail_spec|exact H].
Qed.

(** Once the capture flag is cleared no round sets it again, and the
    shift stays. *)
Lemma ffenc_process_keeps_shift (w : World) (ctx : GF_FFEncodeCtx codec) :
  init_cts_setup ctx = false ->
  init_cts_setup (snd (fst (ffenc_process w ctx))) = false
  /\ ts_shift (snd (fst (ffenc_process w ctx))) = ts_shift ctx.
Proof.
  intros Hi. destruct (gf_filter_pid_would_block w (out_pid ctx)) eqn:Hb.
  - rewrite (ffenc_process_blocked w ctx Hb). cbn. auto.
  - pose proof (ffenc_process_round w ctx Hb) as H.
    destruct (ffenc_process w ctx) as [[e ctx'] w'].
    destruct H as (finish & Hfin & Hr). cbn [fst snd].
    apply (round_keeps_shift _ _ _ _ _ _ _ Hfin Hr Hi).
Qed.

(** ** Claims on the encoder *)

(** C9, on a frame: when the encode call made on a frame of the pending
    input packet fails, the round logs the error, has dropped the packet
    (the next round gets the next one) and returns [GF_SERVICE_ERROR]: it
    makes no other call, so it marks no end of stream and removes no pid,
    and the flush-done flag stays as it was. *)
Theorem ffenc_encode_failure_drops_packet (w : World) (ctx : GF_FFEncodeCtx codec) :
  match ffenc_process w ctx with
  | (e, ctx', w') =>
      forall k fpts r,
        EvEncode k (Some fpts) r ∈ emitted w w' -> enc_res r < 0 ->
        e = GF_SERVICE_ERROR
        /\ emitted w w'
           = [EvEncode k (Some fpts) r; EvDropPacket;
              EvLog GF_LOG_ERROR "[FFEnc] Error encoding frame"]
        /\ w_inq w' = tail (w_inq w)
        /\ flush_done ctx' = flush_done ctx
  end.
Proof.
  destruct (gf_filter_pid_would_block w (out_pid ctx)) eqn:Hb.
  - rewrite (ffenc_process_blocked w ctx Hb), emitted_refl.
    intros k fpts r Hin. inversion Hin.
  - pose proof (ffenc_process_round w ctx Hb) as H.
    destruct (ffenc_process w ctx) as [[e ctx'] w'].
    destruct H as (finish & Hfin & Hr). intros k fpts r.
    apply (round_encode_failure _ _ _ _ _ _ _ Hfin Hr).
Qed.

(** C2 (what the encoder does): with no packet pending on an input pid
    that is not at end of stream, an encoder that has not flushed yet does
    not return at once: it submits a flush (an encode call with no frame),
    and when that yields no packet it sets its flush-done flag, marks the
    output pid at end of stream and returns [GF_EOS]. *)
Theorem ffenc_process_flushes_when_starved (w : World) (ctx : GF_FFEncodeCtx codec) :
  head (w_inq w) = None -> w_in_eos w = false ->
  gf_filter_pid_would_block w (out_pid ctx) = false ->
  flush_done ctx = false ->
  match ffenc_process w ctx with
  | (e, ctx', w') =>
      exists r, head (emitted w w') = Some (EvEncode (process ctx) None r)
                /\ (enc_gotpck r = 0 ->
                    e = GF_EOS /\ flush_done ctx' = true
                    /\ emitted w w' = [EvEncode (process ctx) None r;
                                       EvSetEos (out_pid ctx)])
  end.
Proof.
  intros Hnone _ Hb Hfd.
  pose proof (ffenc_process_round w ctx Hb) as H.
  destruct (ffenc_process w ctx) as [[e ctx'] w'].
  destruct H as (finish & Hfin & Hr).
  apply (round_starved_flush _ _ _ _ _ _ _ Hfin Hr Hnone Hfd).
Qed.

(** C9 (what the encoder does at a flush): on an input pid at end of
    stream with no packet pending, the round flushes the codec (an encode
    call with no frame).  When that call fails and yields no coded unit,
    the failure is not logged: [if (!gotpck)] comes before [if (res<0)],
    so the round sets its flush-done flag, marks the output pid at end of
    stream and returns [GF_EOS]. *)
Theorem ffenc_failed_flush_ends_stream (w : World) (ctx : GF_FFEncodeCtx codec) :
  head (w_inq w) = None -> w_in_eos w = true ->
  gf_filter_pid_would_block w (out_pid ctx) = false ->
  match ffenc_process w ctx with
  | (e, ctx', w') =>
      exists r, head (emitted w w') = Some (EvEncode (process ctx) None r)
                /\ (enc_res r < 0 -> enc_gotpck r = 0 ->
                    e = GF_EOS /\ flush_done ctx' = true
                    /\ emitted w w' = [EvEncode (process ctx) None r;
                                       EvSetEos (out_pid ctx)]
                    /\ Forall (fun ev => is_log_error ev = false) (emitted w w'))
  end.
Proof.
  intros Hnone Heos Hb.
  pose proof (ffenc_process_round w ctx Hb) as H.
  destruct (ffenc_process w ctx) as [[e ctx'] w'].
  destruct H as (finish & Hfin & Hr).
  destruct (round_flush _ _ _ _ _ _ _ Hfin Hr Hnone) as (r & Hh & Hg).
  { intros [_ Hne]. congruence. }
  exists r. split; [exact Hh|]. intros _ Hz.
  destruct (Hg Hz) as (He & Hf & Hem). rewrite Hem.
  split; [exact He|]. split; [exact Hf|]. split; [reflexivity|].
  repeat constructor.
Qed.

End EncoderProperties.

(** ** The two filters, and the scenarios *)

Section Claims.
Import M2PSDmx FFEnc Scenario.

(** The stream list is well formed in every state the filter reaches
    from its initial one, whatever the session calls. *)
Lemma call_wf {lib : Mpeg2Ps} (st : DmxState) (c : Call) :
  streams_wf (fst st) -> streams_wf (fst (call st c)).
Proof.
  destruct st as [ctx w]. cbn [fst]. intros Hwf. destruct c as [pck|b|pid rm|evt|]; cbn [call].
  - exact Hwf.
  - exact Hwf.
  - pose proof (m2psdmx_configure_pid_wf w ctx pid rm Hwf) as H.
    now destruct (m2psdmx_configure_pid w ctx pid rm) as [[e ctx'] w'].
  - now apply m2psdmx_process_event_wf.
  - pose proof (m2psdmx_process_wf w ctx Hwf) as H.
    now destruct (m2psdmx_process w ctx) as [[r ctx'] w'].
Qed.

Lemma after_wf {lib : Mpeg2Ps} (calls : list Call) : streams_wf (fst (after calls)).
Proof.
  unfold after.
  assert (forall st : DmxState, streams_wf (fst st) -> streams_wf (fst (foldl call st calls)))
    as H.
  { induction calls as [|c calls IH]; intros st Hwf; simpl; [exact Hwf|].
    apply IH, call_wf, Hwf. }
  apply H, streams_wf_initialize.
Qed.

(** The demuxer connected to [a.mpg] and told to play, while the pid its
    audio stream is about to get (pid 2) would block. *)
Definition audio_blocked : DmxState (lib := memory_ps) :=
  after [ Enqueue file_pck; Configure (in_pid_for "a.mpg") false;
          Event (GF_FEVT_PLAY 0%float);
          Blocking (fun pid => bool_decide (pid = 2%nat)) ].

(** C1: a [process] call on a filter whose output pid would block does no
    work for that pid.  The encoder returns [GF_OK] at once, with its state
    and the session (pending input packet, trace of calls) as they were.
    The demuxer's dispatch loop passes over an entry in use whose pid
    would block without any call and without touching the handle; a
    whole round allocates and sends no packet on a pid that would block;
    while an entry in use is held back the round does not end the
    stream: the input packet stays and no pid is marked at end of stream;
    and a round reads no frame of the stream of such an entry, the stream
    list being well formed, as it is in every state the filter reaches.
    With the audio pid of [a.mpg] blocking, the round reads the two video
    streams only and keeps the input packet; the next round, the pid no
    longer blocking, reads the audio frame and sends it. *)
Theorem backpressure_defers_work :
  (forall (codec : AVCodec) (w : World) (ctx : GF_FFEncodeCtx codec),
      gf_filter_pid_would_block w (out_pid ctx) = true ->
      ffenc_process w ctx = (GF_OK, ctx, w))
  /\ (forall (lib : Mpeg2Ps) (fd : Z) (acc : DispatchSt) (st : M2PSStream),
        in_use st = true ->
        gf_filter_pid_would_block (snd acc) (opid st) = true ->
        process_stream fd acc st = acc)
  /\ (forall (lib : Mpeg2Ps) (w : World) (ctx : GF_M2PSDmxCtx lib),
        match m2psdmx_process w ctx with
        | (r, ctx', w') =>
            Forall (spares_blocked w) (emitted w w')
            /\ forall st, st ∈ streams ctx' -> in_use st = true ->
                          w_would_block w (opid st) = true ->
                 r <> Ret GF_EOS /\ w_inq w' = w_inq w
                 /\ Forall (fun e => is_eos e = false /\ e <> EvDropPacket)
                      (emitted w w')
        end)
  /\ (forall (lib : Mpeg2Ps) (w : World) (ctx : GF_M2PSDmxCtx lib),
        streams_wf ctx ->
        let res := m2psdmx_process w ctx in
        forall st, st ∈ streams (snd (fst res)) -> in_use st = true ->
                   gf_filter_pid_would_block w (opid st) = true ->
          EvPsGetFrame (stream_kind st) (stream_num st) ∉ emitted w (snd res))
  /\ (forall (lib : Mpeg2Ps) (calls : list Call), streams_wf (fst (after calls)))
  /\ (let r1 := call audio_blocked Process in
      let r2 := call (call r1 (Blocking (fun _ => false))) Process in
      filter (fun e => is_get_frame e = true) (emitted (snd audio_blocked) (snd r1))
      = [EvPsGetFrame Video 0; EvPsGetFrame Video 1]
      /\ w_inq (snd r1) = [file_pck]
      /\ emitted (snd r1) (snd r2)
         = [EvPsGetFrame Video 0; EvPsGetFrame Video 1; EvPsGetFrame Audio 0;
            EvPckNewAlloc 2 2;
            EvPckSend 2 {| pck_data := [255; 253]; pck_dts := None;
                           pck_cts := Some 0; pck_sap := Some 1;
                           pck_duration := None |}]).
Proof.
  split; [|split; [|split; [|split; [|split]]]].
  - intros codec w ctx. apply ffenc_process_blocked.
  - intros lib fd [[p nb] w] st Hu Hb. unfold process_stream.
    cbn [snd] in Hb. now rewrite Hu, Hb.
  - intros lib w ctx. apply m2psdmx_process_backpressure.
  - intros lib w ctx Hwf res. subst res.
    pose proof (m2psdmx_process_no_read w ctx Hwf) as H.
    destruct (m2psdmx_process w ctx) as [[r ctx'] w']. exact H.
  - intros lib calls. apply after_wf.
  - vm_compute. repeat split.
Qed.

(** C5: when the source closes ([configure_pid] on another path), every
    stream entry is marked not in use and keeps its pid, and no pid is
    removed.  When a source opens, a stream of the source takes an entry
    of its type that is not in use if there is one, and a pid is created
    only when there is none: [m2psdmx_setup] creates as many pids as the
    source has streams beyond the unused entries of their type, removes
    none, and every entry keeps its pid.  Going from a source with two
    video streams and one audio stream to one with one video and one audio
    stream, the first video pid and the audio pid are taken again, the
    second video pid stays, not in use, and no pid is created or removed. *)
Theorem m2psdmx_pins_pooled :
  (forall (lib : Mpeg2Ps) (w : World) (ctx : GF_M2PSDmxCtx lib)
          (pid : GF_FilterPid) (path : string),
      pid_check_caps pid = true -> pid_filepath pid = Some path ->
      src_url ctx <> Some path -> is_Some (ps ctx) ->
      match m2psdmx_configure_pid w ctx pid false with
      | (e, ctx', w') =>
          streams ctx' = mark_unused <$> streams ctx
          /\ Forall (fun e => is_pid_remove e = false) (emitted w w')
      end)
  /\ (forall (lib : Mpeg2Ps) (ty : Z) (sts : list M2PSStream) (w : World),
        match get_stream ty sts w with
        | (j, st, sts1, w1) =>
            (nb_unused ty sts <> 0%nat ->
             w1 = w /\ sts1 = sts /\ sts !! j = Some st /\ unused ty st)
            /\ (nb_unused ty sts = 0%nat ->
                emitted w w1 = [EvPidNew (opid st)] /\ sts1 = sts ++ [st]
                /\ stream_type st = ty /\ opid st = w_npids w)
        end)
  /\ (forall (lib : Mpeg2Ps) (p : mpeg2ps_t) (ctx : GF_M2PSDmxCtx lib) (w : World),
        match m2psdmx_setup p ctx w with
        | (ctx', w') =>
            nb_pid_new (emitted w w') = shortage p (streams ctx)
            /\ Forall (fun e => is_pid_remove e = false) (emitted w w')
            /\ length (streams ctx') = (length (streams ctx) + shortage p (streams ctx))%nat
            /\ pins_kept (streams ctx) (streams ctx')
        end)
  /\ (let a := after (lib := memory_ps) playing_a in
      let closed := after (lib := memory_ps) switched_to_b in
      let b := call closed Process in
      streams (fst a)
      = [ {| opid := 0; stream_type := GF_STREAM_VISUAL; stream_num := 0; in_use := true |};
          {| opid := 1; stream_type := GF_STREAM_VISUAL; stream_num := 1; in_use := true |};
          {| opid := 2; stream_type := GF_STREAM_AUDIO; stream_num := 0; in_use := true |} ]
      /\ streams (fst closed) = mark_unused <$> streams (fst a)
      /\ streams (fst b)
         = [ {| opid := 0; stream_type := GF_STREAM_VISUAL; stream_num := 0; in_use := true |};
             {| opid := 1; stream_type := GF_STREAM_VISUAL; stream_num := 1; in_use := false |};
             {| opid := 2; stream_type := GF_STREAM_AUDIO; stream_num := 0; in_use := true |} ]
      /\ filter (fun e => is_pid_new e || is_pid_remove e = true)
           (emitted (snd a) (snd b)) = []).
Proof.
  split; [|split; [|split]].
  - intros lib w ctx pid path Hc Hf Hu Hp.
    rewrite (m2psdmx_configure_pid_new_source w ctx pid path Hc Hf Hu Hp).
    split; [reflexivity|].
    rewrite (emitted_app _ _ [EvSetFramingMode (pid_id pid) true; EvPsClose])
      by (cbn; now rewrite <- app_assoc).
    repeat constructor.
  - intros lib ty sts w. apply get_stream_prefers_unused.
  - intros lib p ctx w. pose proof (m2psdmx_setup_pool p ctx w) as H.
    destruct (m2psdmx_setup p ctx w) as [ctx' w'].
    destruct H as (H1 & H2 & H3 & H4). repeat split; auto.
    eapply Forall_impl; [exact H2|]. apply setup_call_not_remove.
  - vm_compute. repeat split.
Qed.

(** C4 (what the code does): [m2psdmx_setup] never sets the height
    property; it sets the width property twice, the second time to the
    height of the stream.  On the pid taken again for the 640x480 video
    stream of the second source, the width visible downstream is 480 and
    no height is set. *)
Theorem m2psdmx_setup_width_holds_height :
  (forall (lib : Mpeg2Ps) (p : mpeg2ps_t) (ctx : GF_M2PSDmxCtx lib) (w : World),
      Forall (fun e => forall pid v, e <> EvSetProperty pid GF_PROP_PID_HEIGHT v)
        (emitted w (snd (m2psdmx_setup p ctx w))))
  /\ (let b := call (after (lib := memory_ps) switched_to_b) Process in
      streams (fst b) !! 0%nat
      = Some {| opid := 0; stream_type := GF_STREAM_VISUAL; stream_num := 0; in_use := true |}
      /\ mpeg2ps_get_video_stream_width (Mpeg2Ps := memory_ps) source_b 0 = 640
      /\ mpeg2ps_get_video_stream_height (Mpeg2Ps := memory_ps) source_b 0 = 480
      /\ pid_property (w_trace (snd b)) 0 GF_PROP_PID_WIDTH = Some (PROP_UINT 480)
      /\ pid_property (w_trace (snd b)) 0 GF_PROP_PID_HEIGHT = None).
Proof.
  split.
  - intros lib p ctx w. pose proof (m2psdmx_setup_pool p ctx w) as H.
    destruct (m2psdmx_setup p ctx w) as [ctx' w'].
    destruct H as (_ & H2 & _). cbn [snd].
    eapply Forall_impl; [exact H2|]. apply setup_call_not_height.
  - vm_compute. repeat split.
Qed.

(** C3: when a round of the audio encoder emits a coded unit while the
    capture flag is set (the first unit) and the pts the codec reports
    differs from the pts of the frame, the filter sets
    [ts_shift = frame_pts - pkt_pts] (a value of 32 bits) and clears the
    flag, so that no later unit computes it again; the unit and every
    later one is sent with [ts_shift] added to its cts and to its dts; and
    the audio-skip property is published on the output pid with the value
    [ts_shift * sample_rate / timescale] (held in the C integer types).
    With [frame_pts = 1024], [pkt_pts = 960] and the timescale equal to the
    sample rate, the shift is 64 and the skip 64 samples, and the next unit
    keeps the shift. *)
Theorem ffenc_audio_ts_shift :
  (forall (codec : AVCodec) (w : World) (ctx : GF_FFEncodeCtx codec),
      match ffenc_process_audio w ctx with
      | (e, ctx', w') =>
          forall fpts r,
            EvEncode Audio fpts r ∈ emitted w w' -> 0 <= enc_res r -> enc_gotpck r <> 0 ->
            let pkt := enc_pkt r in
            let fp := pts (frame ctx') in
            init_cts_setup ctx' = false
            /\ (exists pck, last (emitted w w') = Some (EvPckSend (out_pid ctx) pck)
                            /\ pck_cts pck = Some (u64 (pkt_pts pkt + ts_shift ctx'))
                            /\ pck_dts pck = Some (u64 (pkt_dts pkt + ts_shift ctx')))
            /\ (init_cts_setup ctx = true -> fp <> pkt_pts pkt ->
                - 2 ^ 31 <= fp - pkt_pts pkt < 2 ^ 31 -> timescale ctx <> 0 ->
                ts_shift ctx' = fp - pkt_pts pkt
                /\ EvSetProperty (out_pid ctx) GF_PROP_PID_AUDIO_SKIP
                     (Some (PROP_UINT
                              (u32 (s32 (Z.quot (s64 (ts_shift ctx' * sample_rate ctx))
                                           (timescale ctx))))))
                   ∈ emitted w w')
            /\ (init_cts_setup ctx = false ->
                ts_shift ctx' = ts_shift ctx
                /\ Forall (fun e => ~ sets_audio_skip (out_pid ctx) e) (emitted w w'))
      end)
  /\ (forall (codec : AVCodec) (w : World) (ctx : GF_FFEncodeCtx codec),
        init_cts_setup ctx = false ->
        init_cts_setup (snd (fst (ffenc_process w ctx))) = false
        /\ ts_shift (snd (fst (ffenc_process w ctx))) = ts_shift ctx)
  /\ (forall (codec : AVCodec) (d : Z) (ctx : GF_FFEncodeCtx codec),
        0 <= d < 2 ^ 31 -> 0 <= sample_rate ctx < 2 ^ 32 -> 0 < timescale ctx ->
        d * sample_rate ctx / timescale ctx < 2 ^ 31 ->
        u32 (s32 (Z.quot (s64 (d * sample_rate ctx)) (timescale ctx)))
        = d * sample_rate ctx / timescale ctx)
  /\ (let w0 := world_with [raw_pck 4096 1024; raw_pck 4096 2048] in
      let '(e1, ctx1, w1) := ffenc_process w0 (audio_ctx [coded 960; coded 1984]) in
      let '(e2, ctx2, w2) := ffenc_process w1 ctx1 in
      pts (frame ctx1) = 1024 /\ ts_shift ctx1 = 64 /\ init_cts_setup ctx1 = false
      /\ pid_property (w_trace w1) 0 GF_PROP_PID_AUDIO_SKIP = Some (PROP_UINT 64)
      /\ filter (fun e => is_pck e = true) (emitted w0 w1)
         = [EvPckNewAlloc 0 3;
            EvPckSend 0 {| pck_data := [1; 2; 3]; pck_dts := Some 1024;
                           pck_cts := Some 1024; pck_sap := Some 1;
                           pck_duration := Some 1024 |}]
      /\ ts_shift ctx2 = 64
      /\ emitted w1 w2
         = [EvEncode Audio (Some 2048) (coded 1984); EvDropPacket;
            EvPckNewAlloc 0 3;
            EvPckSend 0 {| pck_data := [1; 2; 3]; pck_dts := Some 2048;
                           pck_cts := Some 2048; pck_sap := Some 1;
                           pck_duration := Some 1024 |}]).
Proof.
  split; [|split; [|split]].
  - intros codec w ctx. apply ffenc_audio_ts_shift_general.
  - intros codec w ctx. apply ffenc_process_keeps_shift.
  - intros codec d ctx Hd Hs Ht Hq.
    pose proof (audio_skip_exact d ctx Hd Hs Ht Hq) as H. unfold audio_skip in H.
    now inversion H.
  - vm_compute. repeat split.
Qed.

(** *** The theorems at concrete inputs *)

(** A session whose output pid 0 would block, with a packet pending. *)
Definition blocked_world : World :=
  {| w_inq := [raw_pck 4096 1024]; w_in_eos := false;
     w_would_block := fun pid => bool_decide (pid = 0%nat);
     w_npids := 1; w_trace := [] |}.

Lemma backpressure_defers_work_witness :
  ffenc_process blocked_world (audio_ctx [coded 960])
  = (GF_OK, audio_ctx [coded 960], blocked_world)
  /\ EvPsGetFrame Audio 0
     ∉ emitted (snd audio_blocked)
         (snd (m2psdmx_process (snd audio_blocked) (fst audio_blocked))).
Proof.
  split.
  - apply (proj1 backpressure_defers_work scripted_codec blocked_world (audio_ctx [coded 960])).
    reflexivity.
  - apply (proj1 (proj2 (proj2 (proj2 backpressure_defers_work))) memory_ps
             (snd audio_blocked) (fst audio_blocked) (after_wf _)
             {| opid := 2; stream_type := GF_STREAM_AUDIO; stream_num := 0;
                in_use := true |}).
    + vm_compute. repeat constructor.
    + reflexivity.
    + reflexivity.
Defined.

(** The demuxer connected to [a.mpg], opened, and stopped. *)
Definition stopped_a : DmxState (lib := memory_ps) :=
  after (playing_a ++ [Event GF_FEVT_STOP]).

Lemma m2psdmx_process_not_playing_witness :
  m2psdmx_process (snd stopped_a) (fst stopped_a)
  = (Ret GF_OK, fst stopped_a, snd stopped_a)
  /\ emitted (snd stopped_a) (snd (m2psdmx_process (snd stopped_a) (fst stopped_a))) = [].
Proof.
  apply (m2psdmx_process_not_playing (lib := memory_ps) (snd stopped_a) (fst stopped_a)).
  - eexists. vm_compute. reflexivity.
  - vm_compute. reflexivity.
  - intros pck H. vm_compute in H. inversion H. reflexivity.
Defined.

Lemma m2psdmx_play_twice_seeks_once_witness :
  let ctx := fst (after (lib := memory_ps) playing_a) in
  m2psdmx_process_event ctx (GF_FEVT_PLAY 0%float) = (true, ctx).
Proof.
  apply (proj1 (m2psdmx_play_twice_seeks_once (lib := memory_ps)
                  (fst (after playing_a)) 0%float)); vm_compute; reflexivity.
Defined.

(** The demuxer connected to a file that does not exist. *)
Definition missing_file : DmxState (lib := memory_ps) :=
  after [Enqueue file_pck; Configure (in_pid_for "missing.mpg") false].

Lemma m2psdmx_open_failure_retried_witness :
  m2psdmx_process (snd missing_file) (fst missing_file)
  = (Ret GF_NOT_SUPPORTED, fst missing_file,
     gf_filter_setup_failure GF_URL_ERROR
       (emit (EvPsInit (Some "missing.mpg"%string)) (snd missing_file))).
Proof.
  apply (m2psdmx_open_failure_retried (lib := memory_ps)
           (snd missing_file) (fst missing_file) file_pck); reflexivity.
Defined.

Lemma m2psdmx_configure_pid_source_change_witness :
  let st := after (lib := memory_ps) playing_a in
  m2psdmx_configure_pid (snd st) (fst st) (in_pid_for "a.mpg") false
  = (GF_OK, set_ipid (Some 0%nat) (fst st),
     gf_filter_pid_set_framing_mode 0 true (snd st)).
Proof.
  apply (proj1 (m2psdmx_configure_pid_source_change (lib := memory_ps)
                  (snd (after playing_a)) (fst (after playing_a))
                  (in_pid_for "a.mpg") "a.mpg" eq_refl eq_refl)).
  vm_compute. reflexivity.
Defined.

Lemma m2psdmx_pins_pooled_witness :
  let st := after (lib := memory_ps) playing_a in
  match m2psdmx_configure_pid (snd st) (fst st) (in_pid_for "b.mpg") false with
  | (e, ctx', w') =>
      streams ctx' = mark_unused <$> streams (fst st)
      /\ Forall (fun e => is_pid_remove e = false) (emitted (snd st) w')
  end.
Proof.
  apply (proj1 m2psdmx_pins_pooled memory_ps
           (snd (after playing_a)) (fst (after playing_a)) (in_pid_for "b.mpg") "b.mpg").
  - reflexivity.
  - reflexivity.
  - vm_compute. discriminate.
  - eexists. vm_compute. reflexivity.
Defined.

(** The first round of an audio encoder: a packet of 1024 samples dated
    1024, a codec that reports 960 for the first coded unit. *)
Definition first_round : World * GF_FFEncodeCtx scripted_codec :=
  (world_with [raw_pck 4096 1024], audio_ctx [coded 960]).

Lemma ffenc_audio_ts_shift_witness :
  ts_shift (snd (fst (ffenc_process_audio (fst first_round) (snd first_round)))) = 64
  /\ EvSetProperty 0 GF_PROP_PID_AUDIO_SKIP (Some (PROP_UINT 64))
     ∈ emitted (fst first_round)
         (snd (ffenc_process_audio (fst first_round) (snd first_round))).
Proof.
  pose proof (proj1 ffenc_audio_ts_shift scripted_codec
                (fst first_round) (snd first_round)) as H.
  destruct (ffenc_process_audio (fst first_round) (snd first_round))
    as [[e ctx'] w'] eqn:E.
  vm_compute in E. inversion E; subst e ctx' w'; clear E.
  destruct (H (Some 1024) (coded 960)) as (_ & _ & Hfirst & _).
  - vm_compute. left.
  - cbn. lia.
  - cbn. lia.
  - destruct Hfirst as [Hs Hp].
    + reflexivity.
    + cbn. lia.
    + cbn. lia.
    + cbn. lia.
    + split; [exact Hs|exact Hp].
Defined.

(** A round whose encode call fails on the frame of the pending packet. *)
Lemma ffenc_encode_failure_drops_packet_witness :
  let w := world_with [raw_pck 4096 1024; raw_pck 4096 2048] in
  let '(e, ctx', w') := ffenc_process w (audio_ctx [failed]) in
  e = GF_SERVICE_ERROR
  /\ emitted w w'
     = [EvEncode Audio (Some 1024) failed; EvDropPacket;
        EvLog GF_LOG_ERROR "[FFEnc] Error encoding frame"]
  /\ w_inq w' = [raw_pck 4096 2048]
  /\ flush_done ctx' = false.
Proof.
  pose proof (ffenc_encode_failure_drops_packet (codec := scripted_codec)
                (world_with [raw_pck 4096 1024; raw_pck 4096 2048])
                (audio_ctx [failed])) as H.
  cbv zeta.
  destruct (ffenc_process _ _) as [[e ctx'] w'] eqn:E.
  vm_compute in E. inversion E; subst e ctx' w'; clear E.
  apply (H Audio 1024 failed).
  - vm_compute. left.
  - vm_compute. reflexivity.
Defined.

(** An encoder that has not flushed, with nothing pending on an input pid
    that is not at end of stream. *)
Lemma ffenc_process_flushes_when_starved_witness :
  let w := world_with [] in
  let '(e, ctx', w') := ffenc_process w (audio_ctx []) in
  exists r, head (emitted w w') = Some (EvEncode Audio None r)
            /\ (enc_gotpck r = 0 ->
                e = GF_EOS /\ flush_done ctx' = true
                /\ emitted w w' = [EvEncode Audio None r; EvSetEos 0]).
Proof.
  apply (ffenc_process_flushes_when_starved (codec := scripted_codec)
           (world_with []) (audio_ctx [])); reflexivity.
Defined.

(** The input pid at end of stream with nothing pending, and a codec
    whose flush fails. *)
Definition at_end_of_stream : World :=
  {| w_inq := []; w_in_eos := true; w_would_block := fun _ => false;
     w_npids := 1; w_trace := [] |}.

Lemma ffenc_failed_flush_ends_stream_witness :
  let '(e, ctx', w') := ffenc_process at_end_of_stream (audio_ctx [failed]) in
  e = GF_EOS /\ flush_done ctx' = true
  /\ emitted at_end_of_stream w' = [EvEncode Audio None failed; EvSetEos 0]
  /\ Forall (fun ev => is_log_error ev = false) (emitted at_end_of_stream w').
Proof.
  pose proof (ffenc_failed_flush_ends_stream (codec := scripted_codec)
                at_end_of_stream (audio_ctx [failed]) eq_refl eq_refl eq_refl) as H.
  destruct (ffenc_process at_end_of_stream (audio_ctx [failed])) as [[e ctx'] w'] eqn:E.
  destruct H as (r & Hh & H).
  assert (r = failed) as ->.
  { vm_compute in E. inversion E; subst e ctx' w'; clear E.
    vm_compute in Hh. now inversion Hh. }
  apply H; [vm_compute|]; reflexivity.
Defined.

(** *** Where the claims fail *)

(** C2, at the failing input: the starved encoder above submits a
    flush, sets its flush-done flag, marks the output pid at end of
    stream and returns [GF_EOS]. *)
Lemma ffenc_starved_marks_eos :
  let w := world_with [] in
  let '(e, ctx', w') := ffenc_process w (audio_ctx []) in
  w_inq w = [] /\ w_in_eos w = false /\ flush_done (audio_ctx []) = false
  /\ e = GF_EOS /\ flush_done ctx' = true
  /\ emitted w w' = [EvEncode Audio None no_packet; EvSetEos 0].
Proof. vm_compute. repeat split. Qed.

(** C7, counterexample: after its input pid was removed the filter still
    records the path; the pid connected again with the same path is
    recorded by [configure_pid], which changes the state. *)
Lemma m2psdmx_configure_pid_same_path_changes_state :
  let st := after (lib := memory_ps)
              [ Configure (in_pid_for "a.mpg") false;
                Configure (in_pid_for "a.mpg") true ] in
  let '(e, ctx', w') :=
    m2psdmx_configure_pid (snd st) (fst st) (in_pid_for "a.mpg") false in
  src_url (fst st) = Some "a.mpg"%string /\ e = GF_OK
  /\ ipid (fst st) = None /\ ipid ctx' = Some 0%nat /\ ctx' <> fst st.
Proof.
  vm_compute. repeat split. intros H. discriminate H.
Qed.

(** C8, counterexample: the open of a file that does not exist fails, and
    the next [process] call attempts it again. *)
Lemma m2psdmx_open_is_retried :
  let st1 := call missing_file Process in
  let st2 := call st1 Process in
  emitted (snd missing_file) (snd st1)
  = [EvPsInit (Some "missing.mpg"%string); EvSetupFailure GF_URL_ERROR]
  /\ emitted (snd st1) (snd st2)
     = [EvPsInit (Some "missing.mpg"%string); EvSetupFailure GF_URL_ERROR]
  /\ ~ Forall (fun e => is_ps_init e = false) (emitted (snd st1) (snd st2)).
Proof.
  vm_compute. repeat split. intros H. inversion H as [|? ? H1 _]. discriminate H1.
Qed.

End Claims.

(** * The rounds, call by call

    Further properties of the callbacks: the exact calls of a round of
    the demuxer and of the encoder, the pids and the handle the demuxer
    owns, and what its setup declares. *)

Section DemuxRounds.
Import M2PSDmx.
Context {lib : Mpeg2Ps}.

(** ** The calls of a round of the demuxer, one by one *)

(** An entry the dispatch loop works for: in use, its pid not blocking. *)
Definition ready (B : nat -> bool) (st : M2PSStream) : bool :=
  in_use st && negb (B (opid st)).

Definition read_of (st : M2PSStream) : Ev :=
  EvPsGetFrame (stream_kind st) (stream_num st).

(** The packets the demuxer builds: the cts is set, the duration is not;
    a video packet has a dts, an audio packet has none and is a SAP. *)
Definition dmx_packet (st : M2PSStream) (pck : Packet) : Prop :=
  is_Some (pck_cts pck) /\ pck_duration pck = None
  /\ (stream_kind st = Video -> is_Some (pck_dts pck))
  /\ (stream_kind st = Audio -> pck_dts pck = None /\ pck_sap pck = Some GF_FILTER_SAP_1).

(** What one round of the dispatch loop does for the entry [st], [nb]
    being [nb_done] before and [nb'] after: nothing; a read that gives no
    frame; or a read, the allocation of a packet of the size of its
    payload and its dispatch. *)
Inductive step_events (B : nat -> bool) (st : M2PSStream) (nb nb' : nat)
  : list Ev -> Prop :=
| StepUnused : in_use st = false -> nb' = S nb -> step_events B st nb nb' []
| StepBlocked :
    in_use st = true -> B (opid st) = true -> nb' = nb -> step_events B st nb nb' []
| StepDone : ready B st = true -> nb' = S nb -> step_events B st nb nb' [read_of st]
| StepSent (pck : Packet) :
    ready B st = true -> nb' = nb -> dmx_packet st pck ->
    step_events B st nb nb'
      [read_of st; EvPckNewAlloc (opid st) (Z.of_nat (length (pck_data pck)));
       EvPckSend (opid st) pck].

Inductive loop_events (B : nat -> bool) : list M2PSStream -> nat -> nat -> list Ev -> Prop :=
| LoopNil (nb : nat) : loop_events B [] nb nb []
| LoopCons (st : M2PSStream) (sts : list M2PSStream) (nb nb1 nb2 : nat) (e1 e2 : list Ev) :
    step_events B st nb nb1 e1 -> loop_events B sts nb1 nb2 e2 ->
    loop_events B (st :: sts) nb nb2 (e1 ++ e2).

Lemma process_stream_events (fd : Z) (p : mpeg2ps_t) (nb : nat) (w : World) (st : M2PSStream) :
  match process_stream fd (p, nb, w) st with
  | (p', nb', w') =>
      exists evs, w_trace w' = w_trace w ++ evs
                  /\ step_events (w_would_block w) st nb nb' evs
                  /\ w_would_block w' = w_would_block w /\ w_inq w' = w_inq w
                  /\ w_npids w' = w_npids w
  end.
Proof.
  unfold process_stream, gf_filter_pid_would_block.
  destruct (in_use st) eqn:Hu; cbn [negb].
  2: { exists []. rewrite app_nil_r. repeat split. now apply StepUnused. }
  destruct (w_would_block w (opid st)) eqn:Hb.
  { exists []. rewrite app_nil_r. repeat split. now apply StepBlocked. }
  assert (ready (w_would_block w) st = true) as Hr by (unfold ready; now rewrite Hu, Hb).
  destruct (stream_type st =? GF_STREAM_VISUAL) eqn:Hty.
  - assert (stream_kind st = Video) as Hk by (unfold stream_kind; now rewrite Hty).
    assert (read_of st = EvPsGetFrame Video (stream_num st)) as Hro
      by (unfold read_of; now rewrite Hk).
    destruct (mpeg2ps_get_video_frame p (stream_num st)) as [[fr|] p'].
    + eexists. split; [cbn; rewrite <- !app_assoc; reflexivity|].
      split; [|repeat split].
      rewrite <- Hro.
      match goal with
      | |- context [EvPckSend _ ?pk] =>
          replace (length (if ends_with_start_code (vf_buf fr)
                           then take (length (vf_buf fr) - 4) (vf_buf fr)
                           else vf_buf fr))
            with (length (pck_data pk))
            by (destruct (vf_ftype fr =? 1); reflexivity);
          apply (StepSent _ _ _ _ pk); auto
      end.
      unfold dmx_packet. rewrite Hk.
      repeat split; intros; try discriminate; cbn;
        try (eexists; reflexivity); try (destruct (vf_ftype fr =? 1); reflexivity); auto.
    + exists [read_of st]. rewrite Hro. repeat split. rewrite <- Hro. now apply StepDone.
  - assert (stream_kind st = Audio) as Hk by (unfold stream_kind; now rewrite Hty).
    assert (read_of st = EvPsGetFrame Audio (stream_num st)) as Hro
      by (unfold read_of; now rewrite Hk).
    destruct (mpeg2ps_get_audio_frame p (stream_num st)) as [[fr|] p'].
    + eexists. split; [cbn; rewrite <- !app_assoc; reflexivity|].
      split; [|repeat split].
      rewrite <- Hro.
      match goal with
      | |- context [EvPckSend _ ?pk] => apply (StepSent _ _ _ _ pk); auto
      end.
      unfold dmx_packet. rewrite Hk.
      repeat split; intros; try discriminate; cbn;
        try (eexists; reflexivity); try (destruct (vf_ftype fr =? 1); reflexivity); auto.
    + exists [read_of st]. rewrite Hro. repeat split. rewrite <- Hro. now apply StepDone.
Qed.

Lemma dispatch_loop_events (fd : Z) (sts : list M2PSStream)
    (p : mpeg2ps_t) (nb : nat) (w : World) :
  match foldl (process_stream fd) (p, nb, w) sts with
  | (p', nb', w') =>
      exists evs, w_trace w' = w_trace w ++ evs
                  /\ loop_events (w_would_block w) sts nb nb' evs
                  /\ w_would_block w' = w_would_block w /\ w_inq w' = w_inq w
                  /\ w_npids w' = w_npids w
  end.
Proof.
  revert p nb w. induction sts as [|st sts IH]; intros p nb w; cbn [foldl].
  - exists []. rewrite app_nil_r. repeat split. constructor.
  - pose proof (process_stream_events fd p nb w st) as H1.
    destruct (process_stream fd (p, nb, w) st) as [[p1 nb1] w1].
    destruct H1 as (e1 & Ht1 & Hs1 & Hb1 & Hq1 & Hn1).
    specialize (IH p1 nb1 w1).
    destruct (foldl (process_stream fd) (p1, nb1, w1) sts) as [[p2 nb2] w2].
    destruct IH as (e2 & Ht2 & Hs2 & Hb2 & Hq2 & Hn2).
    exists (e1 ++ e2). rewrite Hb1 in Hs2.
    repeat split; try congruence.
    + now rewrite Ht2, Ht1, <- app_assoc.
    + econstructor; eauto.
Qed.

(** *** What the calls of the dispatch loop add up to *)

Definition is_send (e : Ev) : bool :=
  match e with EvPckSend _ _ => true | _ => false end.

(** Every packet dispatched was allocated by the call before, on the same
    pid and with the size of its payload. *)
Inductive paired : list Ev -> Prop :=
| PairedNil : paired []
| PairedSend (pid : nat) (pck : Packet) (l : list Ev) :
    paired l ->
    paired (EvPckNewAlloc pid (Z.of_nat (length (pck_data pck))) :: EvPckSend pid pck :: l)
| PairedOther (e : Ev) (l : list Ev) : is_pck e = false -> paired l -> paired (e :: l).

Lemma paired_app (l1 l2 : list Ev) : paired l1 -> paired l2 -> paired (l1 ++ l2).
Proof. induction 1; intros H2; simpl; auto; constructor; auto. Qed.

Lemma paired_quiet (l : list Ev) : Forall (fun e => is_pck e = false) l -> paired l.
Proof. induction 1; constructor; auto. Qed.

Lemma loop_events_reads (B : nat -> bool) (sts : list M2PSStream) (nb nb' : nat)
    (evs : list Ev) :
  loop_events B sts nb nb' evs ->
  filter (fun e => is_get_frame e = true) evs
  = read_of <$> filter (fun st => ready B st = true) sts.
Proof.
  induction 1 as [|st sts nb nb1 nb2 e1 e2 Hs _ IH]; [reflexivity|].
  rewrite filter_app, IH.
  assert (ready B st = false -> filter (fun st => ready B st = true) (st :: sts)
                                = filter (fun st => ready B st = true) sts) as Hoff.
  { intros Hr. apply filter_cons_False. rewrite Hr. discriminate. }
  destruct Hs as [Hu _|Hu Hb _|Hr _|pck Hr _ _].
  - rewrite Hoff; [reflexivity|]. unfold ready. now rewrite Hu.
  - rewrite Hoff; [reflexivity|]. unfold ready. now rewrite Hu, Hb.
  - rewrite (filter_cons_True (fun st => ready B st = true)) by exact Hr. reflexivity.
  - rewrite (filter_cons_True (fun st => ready B st = true)) by exact Hr. reflexivity.
Qed.

Lemma loop_events_count (B : nat -> bool) (sts : list M2PSStream) (nb nb' : nat)
    (evs : list Ev) :
  loop_events B sts nb nb' evs ->
  (nb' + length (filter (fun e => is_send e = true) evs)
   + length (filter (fun st => held_back B st = true) sts)
   = nb + length sts)%nat.
Proof.
  induction 1 as [|st sts nb nb1 nb2 e1 e2 Hs _ IH]; [simpl; lia|].
  rewrite filter_app, length_app. cbn [length].
  assert (forall b, held_back B st = b ->
            length (filter (fun st => held_back B st = true) (st :: sts))
            = ((if b then 1 else 0)
               + length (filter (fun st => held_back B st = true) sts))%nat) as Hh.
  { intros [|] Hb.
    - rewrite (filter_cons_True (fun st => held_back B st = true)) by exact Hb. reflexivity.
    - rewrite (filter_cons_False (fun st => held_back B st = true))
        by (rewrite Hb; discriminate). reflexivity. }
  destruct Hs as [Hu ->|Hu Hb ->|Hr ->|pck Hr -> _].
  - rewrite (Hh false) by (unfold held_back; now rewrite Hu). simpl. lia.
  - rewrite (Hh true) by (unfold held_back; now rewrite Hu, Hb). simpl. lia.
  - apply andb_prop in Hr as [Hu Hb]. apply negb_true_iff in Hb.
    rewrite (Hh false) by (unfold held_back; now rewrite Hu, Hb). simpl. lia.
  - apply andb_prop in Hr as [Hu Hb]. apply negb_true_iff in Hb.
    rewrite (Hh false) by (unfold held_back; now rewrite Hu, Hb). simpl. lia.
Qed.

Lemma loop_events_paired (B : nat -> bool) (sts : list M2PSStream) (nb nb' : nat)
    (evs : list Ev) :
  loop_events B sts nb nb' evs -> paired evs.
Proof.
  induction 1 as [|st sts nb nb1 nb2 e1 e2 Hs _ IH]; [constructor|].
  apply paired_app; [|exact IH].
  destruct Hs; repeat first [apply PairedNil | apply PairedSend | apply PairedOther; [reflexivity|]].
Qed.

(** The packets of the loop are those of entries it works for. *)
Definition packet_of_ready (B : nat -> bool) (sts : list M2PSStream) (e : Ev) : Prop :=
  match e with
  | EvPckSend pid pck =>
      exists st, st ∈ sts /\ ready B st = true /\ opid st = pid /\ dmx_packet st pck
  | _ => True
  end.

Lemma loop_events_packets (B : nat -> bool) (sts : list M2PSStream) (nb nb' : nat)
    (evs : list Ev) :
  loop_events B sts nb nb' evs -> Forall (packet_of_ready B sts) evs.
Proof.
  induction 1 as [|st sts nb nb1 nb2 e1 e2 Hs _ IH]; [constructor|].
  apply Forall_app. split.
  - destruct Hs; repeat constructor.
    exists st. split; [left|]. split; [assumption|]. split; [reflexivity|assumption].
  - eapply Forall_impl; [exact IH|]. intros e. destruct e; simpl; auto.
    intros (st' & Hin & H'). exists st'. split; [now right|exact H'].
Qed.

Lemma loop_events_calls (B : nat -> bool) (sts : list M2PSStream) (nb nb' : nat)
    (evs : list Ev) :
  loop_events B sts nb nb' evs ->
  Forall (fun e => is_get_frame e = true \/ is_pck e = true) evs.
Proof.
  induction 1 as [|st sts nb nb1 nb2 e1 e2 Hs _ IH]; [constructor|].
  apply Forall_app. split; [|exact IH].
  destruct Hs;
    repeat (apply Forall_cons; split; [first [left; reflexivity | right; reflexivity]|]);
    apply Forall_nil; exact I.
Qed.

(** *** A whole round *)

(** The calls of the end of a round: every pid is marked at end of
    stream, in list order, and the input packet is dropped. *)
Definition end_of_stream (sts : list M2PSStream) : list Ev :=
  ((fun st => EvSetEos (opid st)) <$> sts) ++ [EvDropPacket].

Definition seek_target (ctx : GF_M2PSDmxCtx lib) : Z :=
  u64 (double_to_Z (1000 * start_range ctx)%float).

(** The calls of [m2psdmx_dispatch]: the seeks if one is pending, the
    dispatch loop, and the end of stream if every entry is done. *)
Inductive dispatch_events (ctx : GF_M2PSDmxCtx lib) (w : World)
    (r : Outcome) (w' : World) : list Ev -> Prop :=
| DispatchEvents (fr : list Ev) (nb : nat) :
    loop_events (w_would_block w) (streams ctx) 0 nb fr ->
    (nb = length (streams ctx) /\ r = Ret GF_EOS /\ w_inq w' = tail (w_inq w)
     \/ nb <> length (streams ctx) /\ r = Ret GF_OK /\ w_inq w' = w_inq w) ->
    dispatch_events ctx w r w'
      ((if in_seek ctx
        then seek_of (seek_target ctx) <$> filter (fun st => in_use st = true) (streams ctx)
        else [])
       ++ fr
       ++ (if r is Ret GF_EOS then end_of_stream (streams ctx) else [])).

Lemma m2psdmx_dispatch_events (p : mpeg2ps_t) (ctx : GF_M2PSDmxCtx lib) (w : World) :
  match m2psdmx_dispatch p ctx w with
  | (r, ctx', w') =>
      exists evs, w_trace w' = w_trace w ++ evs /\ dispatch_events ctx w r w' evs
                  /\ w_npids w' = w_npids w
  end.
Proof.
  unfold m2psdmx_dispatch. fold (seek_target ctx).
  assert (exists p1 w1,
    (if in_seek ctx
     then let '(p, w) := foldl (seek_stream (seek_target ctx)) (p, w) (streams ctx) in
          (p, set_in_seek false ctx, w)
     else (p, ctx, w)) = (p1, (if in_seek ctx then set_in_seek false ctx else ctx), w1)
    /\ w_trace w1 = w_trace w
                    ++ (if in_seek ctx
                        then seek_of (seek_target ctx)
                               <$> filter (fun st => in_use st = true) (streams ctx)
                        else [])
    /\ w_would_block w1 = w_would_block w /\ w_inq w1 = w_inq w
    /\ w_npids w1 = w_npids w) as (p1 & w1 & -> & Ht1 & Hb1 & Hq1 & Hn1).
  { destruct (in_seek ctx) eqn:Hs.
    - pose proof (seek_loop_trace (seek_target ctx) (streams ctx) (p, w)) as Ht.
      pose proof (seek_loop_grows (seek_target ctx) (streams ctx) (p, w)) as Hg.
      pose proof (seek_loop_inq (seek_target ctx) (streams ctx) (p, w)) as Hq.
      assert (w_npids (snd (foldl (seek_stream (seek_target ctx)) (p, w) (streams ctx)))
              = w_npids w) as Hn.
      { generalize (streams ctx) p w. clear. intros sts.
        induction sts as [|st sts IH]; intros p w; [reflexivity|]. cbn [foldl].
        unfold seek_stream at 2. destruct (in_use st); cbn [negb]; [|apply IH].
        destruct (stream_type st =? GF_STREAM_VISUAL); rewrite IH; reflexivity. }
      destruct (foldl (seek_stream (seek_target ctx)) (p, w) (streams ctx)) as [p1 w1].
      exists p1, w1. simpl in *.
      repeat split; auto. exact (grows_would_block _ _ _ Hg).
    - exists p, w. rewrite app_nil_r. repeat split; auto. }
  assert (streams (if in_seek ctx then set_in_seek false ctx else ctx) = streams ctx) as Hst
    by (destruct (in_seek ctx); reflexivity).
  assert (first_dts (if in_seek ctx then set_in_seek false ctx else ctx) = first_dts ctx)
    as Hfd by (destruct (in_seek ctx); reflexivity).
  pose proof (dispatch_loop_events (first_dts ctx) (streams ctx) p1 0%nat w1) as Hl.
  rewrite Hfd.
  destruct (foldl (process_stream (first_dts ctx)) (p1, 0%nat, w1) (streams ctx))
    as [[p2 nb] w2].
  destruct Hl as (fr & Ht2 & Hloop & Hb2 & Hq2 & Hn2). rewrite Hb1 in Hloop.
  destruct (nb =? length (streams ctx))%nat eqn:Hnb.
  - apply Nat.eqb_eq in Hnb.
    eexists. split; [|split].
    2: { apply (DispatchEvents ctx w (Ret GF_EOS) _ fr nb Hloop). left.
         repeat split; auto.
         cbn [gf_filter_pid_drop_packet w_inq].
         now rewrite set_eos_loop_inq, Hq2, Hq1. }
    + cbn [gf_filter_pid_drop_packet w_trace].
      rewrite set_eos_loop_trace, Ht2, Ht1. unfold end_of_stream.
      rewrite <- !app_assoc. reflexivity.
    + cbn [gf_filter_pid_drop_packet w_npids].
      transitivity (w_npids w2); [|congruence].
      generalize (streams ctx) w2. clear. intros sts.
      induction sts as [|st sts IH]; intros w; [reflexivity|]. cbn [foldl]. now rewrite IH.
  - apply Nat.eqb_neq in Hnb.
    eexists. split; [|split].
    2: { apply (DispatchEvents ctx w (Ret GF_OK) _ fr nb Hloop). right.
         repeat split; auto. congruence. }
    + rewrite Ht2, Ht1. rewrite <- !app_assoc. now rewrite app_nil_r.
    + congruence.
Qed.

(** A round dispatches when a complete file is pending, the handle is
    there (it was, or the round opened it) and the filter is playing. *)
Definition dispatches (w : World) (ctx ctx' : GF_M2PSDmxCtx lib) : Prop :=
  (exists pck, head (w_inq w) = Some pck /\ in_end pck = true)
  /\ is_Some (ps ctx') /\ is_playing ctx = true.

(** The calls of a round that does not dispatch. *)
Definition quiet_call (e : Ev) : Prop :=
  match e with
  | EvPsInit _ | EvPidNew _ | EvSetProperty _ _ _ | EvSetupFailure _ => True
  | _ => False
  end.

Lemma m2psdmx_process_events (w : World) (ctx : GF_M2PSDmxCtx lib) :
  match m2psdmx_process w ctx with
  | (r, ctx', w') =>
      (~ dispatches w ctx ctx' /\ Forall quiet_call (emitted w w')
       /\ r <> Ret GF_EOS /\ w_inq w' = w_inq w)
      \/ (dispatches w ctx ctx'
          /\ exists pre evs ctx1 w1,
               emitted w w' = pre ++ evs /\ Forall open_call pre
               /\ (is_Some (ps ctx) -> pre = [])
               /\ dispatch_events ctx1 w1 r w' evs
               /\ streams ctx1 = streams ctx' /\ in_seek ctx1 = in_seek ctx
               /\ start_range ctx1 = start_range ctx
               /\ w_would_block w1 = w_would_block w /\ w_inq w1 = w_inq w
               /\ in_seek ctx' = false)
  end.
Proof.
  pose proof (m2psdmx_process_spec w ctx) as H.
  destruct (m2psdmx_process w ctx) as [[r ctx'] w'].
  destruct H as [Hp -> -> -> | pck Hp He -> -> -> | pck Hp He Hps Hi -> -> ->
                | pck p Hp He Ho Hpl -> | pck p ctx1 w1 Hp He Ho Hpl Hd].
  - left. rewrite emitted_refl. repeat split; auto; try discriminate.
    intros ((pck & Hh & _) & _). congruence.
  - left. rewrite emitted_refl. repeat split; auto; try discriminate.
    intros ((pck' & Hh & He') & _). congruence.
  - left. rewrite (emitted_app _ _ [EvPsInit (src_url ctx); EvSetupFailure (open_error ctx)])
      by (cbn; now rewrite <- app_assoc).
    repeat split; auto; try discriminate; [|repeat constructor].
    intros (_ & [x Hx] & _). congruence.
  - pose proof (opened_keeps _ _ _ _ _ Ho) as ((evs & Ht & Hf & _) & Hq & _ & _ & _ & _ & Hpl' & _).
    left. rewrite (emitted_app _ _ _ Ht). repeat split; auto; try discriminate.
    + intros (_ & _ & Hpl''). congruence.
    + eapply Forall_impl; [exact Hf|]. intros e; destruct e; simpl; auto.
  - pose proof (opened_keeps _ _ _ _ _ Ho)
      as ((pre & Ht & Hf & Hb & _) & Hq & _ & _ & Hps1 & Hsr & Hpl' & Hsk).
    pose proof (m2psdmx_dispatch_spec p ctx1 w1) as Hspec.
    pose proof (m2psdmx_dispatch_events p ctx1 w1) as Hev.
    rewrite <- Hd in Hspec, Hev.
    destruct Hspec as [_ _ _ _ _ _ _ Hst Hsk' _ _ _ _ Hps' _].
    destruct Hev as (evs & Ht' & Hde & _).
    right. split.
    { split; [eauto|]. split; [exact Hps'|congruence]. }
    exists pre, evs, ctx1, w1. repeat split; auto.
    + apply emitted_app. rewrite Ht', Ht, <- app_assoc. reflexivity.
    + intros [p0 Hp0]. destruct Ho as [(_ & _ & ->)|(Hn & _)]; [|congruence].
      apply (f_equal (drop (length (w_trace w)))) in Ht.
      rewrite drop_app_length, drop_all in Ht. now symmetry.
Qed.

(** *** Properties of a round *)

Lemma dispatch_events_inv (ctx1 : GF_M2PSDmxCtx lib) (w1 : World) (r : Outcome)
    (w' : World) (evs : list Ev) :
  dispatch_events ctx1 w1 r w' evs ->
  exists fr nb,
    evs = (if in_seek ctx1
           then seek_of (seek_target ctx1)
                  <$> filter (fun st => in_use st = true) (streams ctx1)
           else [])
          ++ fr ++ (if r is Ret GF_EOS then end_of_stream (streams ctx1) else [])
    /\ loop_events (w_would_block w1) (streams ctx1) 0 nb fr
    /\ (nb = length (streams ctx1) /\ r = Ret GF_EOS /\ w_inq w' = tail (w_inq w1)
        \/ nb <> length (streams ctx1) /\ r = Ret GF_OK /\ w_inq w' = w_inq w1).
Proof. intros [fr nb Hl Hr]. exists fr, nb. auto. Qed.

Lemma filter_none {A : Type} (P : A -> Prop) `{!forall x, Decision (P x)} (l : list A) :
  Forall (fun x => ~ P x) l -> filter P l = [].
Proof.
  induction 1 as [|x l Hx _ IH]; [reflexivity|]. now rewrite filter_cons_False.
Qed.

Lemma seeks_not (f : M2PSStream -> Ev) (sts : list M2PSStream) (P : Ev -> Prop) :
  (forall st, P (f st)) -> Forall P (f <$> sts).
Proof. intros H. apply Forall_fmap, Forall_forall. intros x _. apply H. Qed.

(** The calls a round that dispatches makes before [m2psdmx_dispatch]:
    none when the handle was open, and else [mpeg2ps_init] followed by the
    calls of [m2psdmx_setup]. *)
Lemma m2psdmx_process_opens_first (w : World) (ctx : GF_M2PSDmxCtx lib) :
  match m2psdmx_process w ctx with
  | (r, ctx', w') =>
      dispatches w ctx ctx' ->
      exists pre evs ctx1 w1,
        emitted w w' = pre ++ evs
        /\ (is_Some (ps ctx) -> pre = [])
        /\ (ps ctx = None ->
            exists decl, pre = EvPsInit (src_url ctx) :: decl /\ Forall setup_call decl)
        /\ dispatch_events ctx1 w1 r w' evs
        /\ streams ctx1 = streams ctx' /\ in_seek ctx1 = in_seek ctx
        /\ start_range ctx1 = start_range ctx /\ in_seek ctx' = false
  end.
Proof.
  pose proof (m2psdmx_process_spec w ctx) as H.
  destruct (m2psdmx_process w ctx) as [[r ctx'] w'].
  intros ((pck0 & Hh & He0) & Hps' & Hpl0).
  destruct H as [Hp -> -> -> | pck Hp He -> -> -> | pck Hp He Hps Hi -> -> ->
                | pck p Hp He Ho Hpl -> | pck p ctx1 w1 Hp He Ho Hpl Hd].
  - congruence.
  - congruence.
  - destruct Hps' as [x Hx]. congruence.
  - pose proof (opened_keeps _ _ _ _ _ Ho) as (_ & _ & _ & _ & _ & _ & Hpl' & _). congruence.
  - pose proof (opened_keeps _ _ _ _ _ Ho) as (_ & _ & _ & _ & _ & Hsr & _ & Hsk).
    pose proof (m2psdmx_dispatch_spec p ctx1 w1) as Hspec.
    pose proof (m2psdmx_dispatch_events p ctx1 w1) as Hev.
    rewrite <- Hd in Hspec, Hev.
    destruct Hspec as [_ _ _ _ _ _ _ Hst Hsk' _ _ _ _ _ _].
    destruct Hev as (evs & Ht' & Hde & _).
    destruct Ho as [(Hsome & -> & ->)|(Hnone & Hi & Hs)].
    + exists [], evs, ctx, w. repeat split; auto.
      * now apply emitted_app.
      * congruence.
    + pose proof (m2psdmx_setup_grows p (set_ps (Some p) ctx)
                    (emit (EvPsInit (src_url ctx)) w)) as (decl & Ht & Hf & _).
      rewrite <- Hs in Ht. cbn [snd emit w_trace] in Ht.
      exists (EvPsInit (src_url ctx) :: decl), evs, ctx1, w1. repeat split; auto.
      * apply emitted_app. rewrite Ht', Ht, <- !app_assoc. reflexivity.
      * intros [x Hx]. congruence.
      * eauto.
Qed.

(** The mantissa of a double has 53 bits at most. *)
Lemma digits2_pos_bound (m : positive) : Z.pos m < 2 ^ Z.pos (digits2_pos m).
Proof.
  induction m as [m IH|m IH|]; cbn [digits2_pos].
  - rewrite Pos2Z.inj_succ, Z.pow_succ_r by lia. lia.
  - rewrite Pos2Z.inj_succ, Z.pow_succ_r by lia. lia.
  - reflexivity.
Qed.

Lemma valid_mantissa (m : positive) (e : Z) :
  bounded prec emax m e = true -> Z.pos m < 2 ^ 53.
Proof.
  unfold bounded, canonical_mantissa, fexp. intros H.
  apply andb_prop in H as [H _]. apply Z.eqb_eq in H.
  pose proof (digits2_pos_bound m) as Hd.
  assert (Z.pos (digits2_pos m) <= 53) as Hle by (unfold prec in H; lia).
  eapply Z.lt_le_trans; [exact Hd|]. apply Z.pow_le_mono_r; lia.
Qed.

(** The conversion of a double above -1 and below 2^64, where C defines
    it, is within [u64]. *)
Lemma double_to_Z_u64 (x : float) :
  (-1 <? x)%float = true -> (x <? 0x1p64)%float = true ->
  0 <= double_to_Z x < 2 ^ 64.
Proof.
  rewrite !ltb_spec. unfold double_to_Z.
  pose proof (Prim2SF_valid x) as Hv.
  change (Prim2SF (-1)) with (S754_finite true 4503599627370496 (-52)).
  change (Prim2SF 0x1p64) with (S754_finite false 4503599627370496 12).
  destruct (Prim2SF x) as [s|s| |s m e]; try (intros; lia).
  cbn [valid_binary SpecFloat.valid_binary] in Hv. apply valid_mantissa in Hv.
  unfold SFltb, SFcompare. destruct s.
  - intros Hlo _.
    assert (e < -52 \/ e = -52 /\ Z.pos m < 2 ^ 52) as Hcase.
    { destruct (Z.compare_spec (-52) e) as [He|He|He]; try discriminate Hlo;
        [right|left; clear - He; lia].
      split; [clear - He; lia|].
      rewrite Pos.compare_cont_spec in Hlo. cbn [Pos.switch_Eq] in Hlo.
      destruct (Pos.compare_spec 4503599627370496 m) as [Hm|Hm|Hm]; try discriminate Hlo.
      change (2 ^ 52) with (Z.pos 4503599627370496). apply Pos2Z.pos_lt_pos. exact Hm. }
    assert ((0 <=? e) = false) as -> by (apply Z.leb_gt; lia).
    assert (Z.pos m / 2 ^ (- e) = 0) as ->; [|lia].
    apply Z.div_small. split; [lia|].
    destruct Hcase as [He|[-> Hm]]; [|exact Hm].
    eapply Z.lt_le_trans; [exact Hv|]. apply Z.pow_le_mono_r; lia.
  - intros _ Hhi.
    assert (e < 12 \/ e = 12 /\ Z.pos m < 2 ^ 52) as Hcase.
    { destruct (Z.compare_spec e 12) as [He|He|He]; try discriminate Hhi;
        [right|left; clear - He; lia].
      split; [clear - He; lia|].
      rewrite Pos.compare_cont_spec in Hhi. cbn [Pos.switch_Eq] in Hhi.
      destruct (Pos.compare_spec m 4503599627370496) as [Hm|Hm|Hm]; try discriminate Hhi.
      change (2 ^ 52) with (Z.pos 4503599627370496). apply Pos2Z.pos_lt_pos. exact Hm. }
    destruct (0 <=? e) eqn:He0.
    + apply Z.leb_le in He0. split; [lia|].
      destruct Hcase as [He|[-> Hm]].
      * apply Z.lt_le_trans with (2 ^ 53 * 2 ^ e).
        -- apply Z.mul_lt_mono_pos_r; [apply Z.pow_pos_nonneg; lia|exact Hv].
        -- rewrite <- Z.pow_add_r by lia. apply Z.pow_le_mono_r; lia.
      * change (2 ^ 64) with (2 ^ 52 * 2 ^ 12). apply Z.mul_lt_mono_pos_r; [reflexivity|exact Hm].
    + apply Z.leb_gt in He0. split; [apply Z.div_pos; [lia|apply Z.pow_pos_nonneg; lia]|].
      apply Z.le_lt_trans with (Z.pos m); [|lia].
      apply Z.div_le_upper_bound; [apply Z.pow_pos_nonneg; lia|].
      assert (1 <= 2 ^ (- e)) by (apply (Z.pow_le_mono_r 2 0); lia). nia.
Qed.

(** [u64 seek_to = 1000*ctx->start_range] is defined as long as the
    product truncates to a [u64]: it is above -1 and below 2^64 (and so
    no NaN). *)
Definition seek_defined (ctx : GF_M2PSDmxCtx lib) : Prop :=
  (-1 <? 1000 * start_range ctx)%float = true
  /\ (1000 * start_range ctx <? 0x1p64)%float = true.

(** X1: when a seek is pending, a round that dispatches seeks every stream
    in use, in list order, to [1000 * start_range] ms truncated (for a
    start range whose product truncates to a [u64]: the conversion does
    not wrap).  The seeks come after the open:
    nothing precedes them when the handle was open, and else the round
    first calls [mpeg2ps_init] and declares the streams; what follows the
    seeks holds no call of the open and no further seek.  No seek stays
    pending. *)
Theorem m2psdmx_process_seeks_first (w : World) (ctx : GF_M2PSDmxCtx lib) :
  match m2psdmx_process w ctx with
  | (r, ctx', w') =>
      dispatches w ctx ctx' -> in_seek ctx = true -> seek_defined ctx ->
      exists pre post,
        emitted w w'
        = pre ++ (seek_of (seek_target ctx)
                    <$> filter (fun st => in_use st = true) (streams ctx'))
              ++ post
        /\ (is_Some (ps ctx) -> pre = [])
        /\ (ps ctx = None ->
            exists decl, pre = EvPsInit (src_url ctx) :: decl /\ Forall setup_call decl)
        /\ Forall (fun e => is_seek e = false /\ ~ open_call e) post
        /\ seek_target ctx = double_to_Z (1000 * start_range ctx)%float
        /\ in_seek ctx' = false
  end.
Proof.
  pose proof (m2psdmx_process_opens_first w ctx) as H.
  destruct (m2psdmx_process w ctx) as [[r ctx'] w'].
  intros Hd Hsk [Hlo Hhi].
  assert (seek_target ctx = double_to_Z (1000 * start_range ctx)%float) as Hexact
    by (unfold seek_target, u64; apply Z.mod_small, double_to_Z_u64; assumption).
  destruct (H Hd) as (pre & evs & ctx1 & w1 & He & Hp0 & Hp1 & Hde
                      & Hst & Hsk1 & Hsr & Hsk').
  apply dispatch_events_inv in Hde as (fr & nb & -> & Hl & Hres).
  assert (seek_target ctx1 = seek_target ctx) as Htg
    by (unfold seek_target; now rewrite Hsr).
  rewrite Hsk1, Hsk, Hst, Htg in *.
  exists pre, (fr ++ (if r is Ret GF_EOS then end_of_stream (streams ctx') else [])).
  split; [exact He|]. split; [exact Hp0|]. split; [exact Hp1|].
  split; [|split; [exact Hexact|exact Hsk']].
  apply Forall_app. split.
  - eapply Forall_impl; [exact (loop_events_calls _ _ _ _ _ Hl)|].
    intros e [H0|H0]; destruct e; simpl in *; auto; discriminate.
  - destruct Hres as [(_ & -> & _)|(_ & -> & _)]; [|constructor].
    apply Forall_app. split; [|repeat constructor; auto].
    apply seeks_not. intros st. split; [reflexivity|auto].
Qed.

Lemma quiet_call_facts (e : Ev) :
  quiet_call e ->
  is_get_frame e = false /\ is_pck e = false /\ is_send e = false
  /\ is_eos e = false /\ e <> EvDropPacket /\ is_seek e = false.
Proof. destruct e; simpl; intros H; try contradiction; repeat split; discriminate. Qed.

Lemma open_call_quiet (e : Ev) : open_call e -> quiet_call e.
Proof. destruct e; simpl; auto. Qed.

Lemma end_of_stream_facts (sts : list M2PSStream) :
  Forall (fun e => is_get_frame e = false /\ is_pck e = false /\ is_send e = false)
    (end_of_stream sts).
Proof.
  apply Forall_app. split; [|repeat constructor]. apply seeks_not. now intros.
Qed.

Lemma seeks_facts (t : Z) (sts : list M2PSStream) :
  Forall (fun e => is_get_frame e = false /\ is_pck e = false /\ is_send e = false
                   /\ is_eos e = false /\ e <> EvDropPacket)
    (seek_of t <$> sts).
Proof. apply seeks_not. intros st. repeat split; discriminate. Qed.

(** X2: a round that dispatches reads one frame for each entry in use
    whose pid does not block, in list order, and none for any other
    entry; it dispatches at most one packet per frame it reads.  A round
    that does not dispatch reads no frame and sends no packet. *)
Theorem m2psdmx_process_one_read_per_entry (w : World) (ctx : GF_M2PSDmxCtx lib) :
  match m2psdmx_process w ctx with
  | (r, ctx', w') =>
      let reads := filter (fun e => is_get_frame e = true) (emitted w w') in
      let sends := filter (fun e => is_send e = true) (emitted w w') in
      (dispatches w ctx ctx' ->
       reads = read_of <$> filter (fun st => ready (w_would_block w) st = true) (streams ctx'))
      /\ (~ dispatches w ctx ctx' -> reads = [] /\ sends = [])
      /\ (length sends <= length reads)%nat
  end.
Proof.
  pose proof (m2psdmx_process_events w ctx) as H.
  destruct (m2psdmx_process w ctx) as [[r ctx'] w']. cbv zeta.
  destruct H as [(Hn & Hq & _)|(Hd & pre & evs & ctx1 & w1 & He & Hpre & Hp0 & Hde
                                & Hst & Hsk1 & Hsr & Hb & Hq & Hsk')].
  - assert (filter (fun e => is_get_frame e = true) (emitted w w') = []) as Hr.
    { apply filter_none. eapply Forall_impl; [exact Hq|]. intros e He.
      apply quiet_call_facts in He as (-> & _). discriminate. }
    assert (filter (fun e => is_send e = true) (emitted w w') = []) as Hs.
    { apply filter_none. eapply Forall_impl; [exact Hq|]. intros e He.
      apply quiet_call_facts in He as (_ & _ & -> & _). discriminate. }
    rewrite Hr, Hs. repeat split; auto. contradiction.
  - apply dispatch_events_inv in Hde as (fr & nb & -> & Hl & Hres).
    rewrite Hst, Hb in *.
    assert (filter (fun e => is_get_frame e = true) (emitted w w')
            = filter (fun e => is_get_frame e = true) fr) as Hr.
    { rewrite He, !filter_app.
      rewrite (filter_none _ pre), (filter_none _ (if in_seek ctx1 then _ else _)).
      - rewrite (filter_none _ (if r is Ret GF_EOS then _ else _)); [now rewrite app_nil_r|].
        destruct r as [[]|]; try constructor.
        eapply Forall_impl; [apply end_of_stream_facts|]. intros e (-> & _). discriminate.
      - destruct (in_seek ctx1); [|constructor].
        eapply Forall_impl; [apply seeks_facts|]. intros e (-> & _). discriminate.
      - eapply Forall_impl; [exact Hpre|]. intros e Ho.
        apply open_call_quiet, quiet_call_facts in Ho as (-> & _). discriminate. }
    assert (filter (fun e => is_send e = true) (emitted w w')
            = filter (fun e => is_send e = true) fr) as Hs.
    { rewrite He, !filter_app.
      rewrite (filter_none _ pre), (filter_none _ (if in_seek ctx1 then _ else _)).
      - rewrite (filter_none _ (if r is Ret GF_EOS then _ else _)); [now rewrite app_nil_r|].
        destruct r as [[]|]; try constructor.
        eapply Forall_impl; [apply end_of_stream_facts|]. intros e (_ & _ & ->). discriminate.
      - destruct (in_seek ctx1); [|constructor].
        eapply Forall_impl; [apply seeks_facts|]. intros e (_ & _ & -> & _). discriminate.
      - eapply Forall_impl; [exact Hpre|]. intros e Ho.
        apply open_call_quiet, quiet_call_facts in Ho as (_ & _ & -> & _). discriminate. }
    rewrite Hr, Hs. split; [|split].
    + intros _. exact (loop_events_reads _ _ _ _ _ Hl).
    + intros Hn. contradiction.
    + clear -Hl. induction Hl as [|st sts nb nb1 nb2 e1 e2 Hs _ IH]; [simpl; lia|].
      rewrite !filter_app, !length_app. destruct Hs; simpl in *; lia.
Qed.

(** X3: a round returns [GF_EOS] exactly when it dispatches, no entry in
    use is held back by its pid and no read gives a frame: it sends no
    packet.  It then marks every pid of the list at end of stream, in
    list order and whether in use or not, and drops the input packet as
    its last call.  Any other round leaves the input packet pending and
    marks no pid. *)
Theorem m2psdmx_process_end_of_stream (w : World) (ctx : GF_M2PSDmxCtx lib) :
  match m2psdmx_process w ctx with
  | (r, ctx', w') =>
      let sends := filter (fun e => is_send e = true) (emitted w w') in
      let held := filter (fun st => held_back (w_would_block w) st = true) (streams ctx') in
      (r = Ret GF_EOS <-> dispatches w ctx ctx' /\ sends = [] /\ held = [])
      /\ (r = Ret GF_EOS ->
          w_inq w' = tail (w_inq w)
          /\ exists pre, emitted w w' = pre ++ end_of_stream (streams ctx')
                         /\ Forall (fun e => is_eos e = false /\ e <> EvDropPacket) pre)
      /\ (r <> Ret GF_EOS ->
          w_inq w' = w_inq w
          /\ Forall (fun e => is_eos e = false /\ e <> EvDropPacket) (emitted w w'))
  end.
Proof.
  pose proof (m2psdmx_process_events w ctx) as H.
  destruct (m2psdmx_process w ctx) as [[r ctx'] w']. cbv zeta.
  destruct H as [(Hn & Hq & Hr & Hi)|(Hd & pre & evs & ctx1 & w1 & He & Hpre & Hp0 & Hde
                                     & Hst & Hsk1 & Hsr & Hb & Hq & Hsk')].
  - split; [|split].
    + split; [contradiction|]. intros (Hd & _). contradiction.
    + contradiction.
    + intros _. split; [exact Hi|]. eapply Forall_impl; [exact Hq|].
      intros e Hc. apply quiet_call_facts in Hc as (_ & _ & _ & ? & ? & _). auto.
  - apply dispatch_events_inv in Hde as (fr & nb & -> & Hl & Hres).
    rewrite Hst, Hb, Hq in *.
    assert (filter (fun e => is_send e = true) (emitted w w')
            = filter (fun e => is_send e = true) fr) as Hs.
    { rewrite He, !filter_app.
      rewrite (filter_none _ pre), (filter_none _ (if in_seek ctx1 then _ else _)).
      - rewrite (filter_none _ (if r is Ret GF_EOS then _ else _)); [now rewrite app_nil_r|].
        destruct r as [[]|]; try constructor.
        eapply Forall_impl; [apply end_of_stream_facts|]. intros e (_ & _ & ->). discriminate.
      - destruct (in_seek ctx1); [|constructor].
        eapply Forall_impl; [apply seeks_facts|]. intros e (_ & _ & -> & _). discriminate.
      - eapply Forall_impl; [exact Hpre|]. intros e Ho.
        apply open_call_quiet, quiet_call_facts in Ho as (_ & _ & -> & _). discriminate. }
    rewrite Hs. pose proof (loop_events_count _ _ _ _ _ Hl) as Hc.
    assert (Forall (fun e => is_eos e = false /\ e <> EvDropPacket)
              (pre ++ (if in_seek ctx1
                       then seek_of (seek_target ctx1)
                              <$> filter (fun st => in_use st = true) (streams ctx')
                       else []) ++ fr)) as Hquiet.
    { rewrite !Forall_app. repeat split.
      - eapply Forall_impl; [exact Hpre|]. intros e Ho.
        apply open_call_quiet, quiet_call_facts in Ho as (_ & _ & _ & ? & ? & _). auto.
      - destruct (in_seek ctx1); [|constructor].
        eapply Forall_impl; [apply seeks_facts|]. intros e (_ & _ & _ & ? & ?). auto.
      - eapply Forall_impl; [exact (loop_events_calls _ _ _ _ _ Hl)|].
        intros e [H|H]; destruct e; simpl in *; try discriminate H;
          (split; [reflexivity|discriminate]). }
    destruct Hres as [(-> & -> & Hi)|(Hnb & -> & Hi)].
    + split; [|split].
      * split; [|reflexivity]. intros _. split; [exact Hd|].
        split; apply length_zero_iff_nil; lia.
      * intros _. split; [exact Hi|].
        exists (pre ++ (if in_seek ctx1
                        then seek_of (seek_target ctx1)
                               <$> filter (fun st => in_use st = true) (streams ctx')
                        else []) ++ fr).
        split; [|exact Hquiet]. rewrite He, <- !app_assoc. reflexivity.
      * intros Hne. now destruct Hne.
    + split; [|split].
      * split; [discriminate|]. intros (_ & Hs0 & Hh0). rewrite Hs0, Hh0 in Hc.
        simpl in Hc. lia.
      * discriminate.
      * intros _. split; [exact Hi|]. rewrite He.
        rewrite app_nil_r. exact Hquiet.
Qed.

(** X4: every packet the demuxer dispatches is on the pid of an entry in
    use whose pid does not block, has its cts set and no duration (a video
    packet has a dts, an audio packet has none and is a SAP), and was
    allocated by the call before, on that pid, with the size of its
    payload. *)
Theorem m2psdmx_process_packets (w : World) (ctx : GF_M2PSDmxCtx lib) :
  match m2psdmx_process w ctx with
  | (r, ctx', w') =>
      Forall (packet_of_ready (w_would_block w) (streams ctx')) (emitted w w')
      /\ paired (emitted w w')
  end.
Proof.
  pose proof (m2psdmx_process_events w ctx) as H.
  destruct (m2psdmx_process w ctx) as [[r ctx'] w'].
  destruct H as [(Hn & Hq & Hr & Hi)|(Hd & pre & evs & ctx1 & w1 & He & Hpre & Hp0 & Hde
                                     & Hst & Hsk1 & Hsr & Hb & Hq & Hsk')].
  - split.
    + eapply Forall_impl; [exact Hq|]. intros e; destruct e; simpl; auto; contradiction.
    + apply paired_quiet. eapply Forall_impl; [exact Hq|]. intros e Hc.
      now apply quiet_call_facts in Hc as (_ & ? & _).
  - apply dispatch_events_inv in Hde as (fr & nb & -> & Hl & Hres).
    rewrite Hst, Hb in *. rewrite He. split.
    + rewrite !Forall_app. repeat split.
      * eapply Forall_impl; [exact Hpre|]. intros e; destruct e; simpl; auto; contradiction.
      * destruct (in_seek ctx1); [|constructor]. apply seeks_not. now intros.
      * exact (loop_events_packets _ _ _ _ _ Hl).
      * destruct r as [[]|]; try constructor.
        apply Forall_app. split; [|repeat constructor]. apply seeks_not. now intros.
    + repeat apply paired_app.
      * apply paired_quiet. eapply Forall_impl; [exact Hpre|]. intros e Ho.
        now apply open_call_quiet, quiet_call_facts in Ho as (_ & ? & _).
      * apply paired_quiet. destruct (in_seek ctx1); [|constructor].
        eapply Forall_impl; [apply seeks_facts|]. now intros e (_ & ? & _).
      * exact (loop_events_paired _ _ _ _ _ Hl).
      * apply paired_quiet. destruct r as [[]|]; try constructor.
        eapply Forall_impl; [apply end_of_stream_facts|]. now intros e (_ & ? & _).
Qed.

End DemuxRounds.

Section DemuxConfigure.
Import M2PSDmx.
Context {lib : Mpeg2Ps}.

Lemma remove_streams_trace (sts : list M2PSStream) (w : World) :
  w_trace (remove_streams sts w)
  = w_trace w ++ ((fun st => EvPidRemove (opid st)) <$> reverse sts).
Proof.
  unfold remove_streams. generalize (reverse sts) w. clear. intros l.
  induction l as [|st l IH]; intros w; simpl.
  - now rewrite app_nil_r.
  - rewrite IH. simpl. now rewrite <- app_assoc.
Qed.

Lemma remove_streams_inq (sts : list M2PSStream) (w : World) :
  w_inq (remove_streams sts w) = w_inq w.
Proof.
  unfold remove_streams. generalize (reverse sts) w. clear. intros l.
  induction l as [|st l IH]; intros w; simpl; [reflexivity|]. now rewrite IH.
Qed.

(** X5: [configure_pid] on a disconnect removes every output pid once,
    from the last entry of the list to the first, empties the list and
    forgets the input pid; it keeps the source handle open and the path
    recorded, and returns [GF_OK]. *)
Theorem m2psdmx_configure_pid_remove (w : World) (ctx : GF_M2PSDmxCtx lib)
    (pid : GF_FilterPid) :
  match m2psdmx_configure_pid w ctx pid true with
  | (e, ctx', w') =>
      e = GF_OK
      /\ emitted w w' = (fun st => EvPidRemove (opid st)) <$> reverse (streams ctx)
      /\ ctx' = set_streams [] (set_ipid None ctx)
      /\ ps ctx' = ps ctx /\ src_url ctx' = src_url ctx
      /\ w_inq w' = w_inq w
  end.
Proof.
  cbn [m2psdmx_configure_pid]. repeat split.
  - apply emitted_app. apply remove_streams_trace.
  - apply remove_streams_inq.
Qed.

(** X6: once its pids were removed, the filter connected again to the path
    it has recorded does not open the source again (the handle is still
    there) and declares no pid: the next round of a playing filter makes
    one call, the drop of the input packet, and returns [GF_EOS]. *)
Theorem m2psdmx_reconnect_same_path (w : World) (ctx : GF_M2PSDmxCtx lib)
    (pid : GF_FilterPid) (path : string) (pck : InPck) :
  is_Some (ps ctx) -> src_url ctx = Some path -> is_playing ctx = true ->
  pid_check_caps pid = true -> pid_filepath pid = Some path ->
  head (w_inq w) = Some pck -> in_end pck = true ->
  let '(_, ctx1, w1) := m2psdmx_configure_pid w ctx pid true in
  let '(e2, ctx2, w2) := m2psdmx_configure_pid w1 ctx1 pid false in
  let '(r, ctx3, w3) := m2psdmx_process w2 ctx2 in
  e2 = GF_OK /\ streams ctx2 = [] /\ ps ctx2 = ps ctx
  /\ r = Ret GF_EOS /\ emitted w2 w3 = [EvDropPacket] /\ streams ctx3 = []
  /\ w_inq w3 = tail (w_inq w).
Proof.
  intros [p Hp] Hurl Hpl Hcaps Hpath Hh Hend.
  cbn [m2psdmx_configure_pid]. rewrite Hcaps, Hpath. cbn [negb src_url set_ipid set_streams].
  rewrite Hurl, bool_decide_true by reflexivity.
  unfold m2psdmx_process, gf_filter_pid_get_packet.
  cbn [gf_filter_pid_set_framing_mode emit w_inq].
  rewrite remove_streams_inq, Hh, Hend. cbn [negb ps set_ipid set_streams is_playing].
  rewrite Hp. cbn [is_playing set_ipid set_streams]. rewrite Hpl. cbn [negb].
  unfold m2psdmx_dispatch. cbn [streams set_ipid set_streams in_seek length].
  destruct (in_seek ctx); cbn [foldl streams set_in_seek Nat.eqb gf_filter_pid_drop_packet].
  all: repeat split; try reflexivity.
  all: try (apply emitted_app; reflexivity).
  all: cbn [w_inq gf_filter_pid_drop_packet gf_filter_pid_set_framing_mode emit];
    now rewrite remove_streams_inq.
Qed.

(** The calls [configure_pid] can make. *)
Definition configure_call (e : Ev) : Prop :=
  match e with
  | EvPidRemove _ | EvSetFramingMode _ _ | EvPsClose => True
  | _ => False
  end.

(** X7: [configure_pid] returns [GF_OK] or [GF_NOT_SUPPORTED]; it never
    opens the source, creates a pid or touches the play state.  When it
    fails it leaves the handle, the path and the stream list as they
    were, and closes and removes nothing.  When it records another path
    no handle stays open and no entry stays in use: the next round has to
    open the new source. *)
Theorem m2psdmx_configure_pid_frame (w : World) (ctx : GF_M2PSDmxCtx lib)
    (pid : GF_FilterPid) (is_remove : bool) :
  match m2psdmx_configure_pid w ctx pid is_remove with
  | (e, ctx', w') =>
      (e = GF_OK \/ e = GF_NOT_SUPPORTED)
      /\ Forall configure_call (emitted w w')
      /\ is_playing ctx' = is_playing ctx /\ in_seek ctx' = in_seek ctx
      /\ start_range ctx' = start_range ctx /\ first_dts ctx' = first_dts ctx
      /\ w_inq w' = w_inq w
      /\ (e <> GF_OK ->
          ps ctx' = ps ctx /\ src_url ctx' = src_url ctx /\ streams ctx' = streams ctx
          /\ Forall (fun e => e <> EvPsClose /\ is_pid_remove e = false) (emitted w w'))
      /\ (src_url ctx' <> src_url ctx ->
          ps ctx' = None
          /\ (is_Some (ps ctx) ->
              EvPsClose ∈ emitted w w'
              /\ Forall (fun st => in_use st = false) (streams ctx')))
  end.
Proof.
  unfold m2psdmx_configure_pid. destruct is_remove.
  { cbn [ps src_url streams set_ipid set_streams is_playing in_seek start_range first_dts].
    rewrite (emitted_app _ _ _ (remove_streams_trace _ _)), remove_streams_inq.
    repeat split; auto; try congruence.
    apply Forall_fmap, Forall_forall. now intros. }
  destruct (pid_check_caps pid); cbn [negb].
  2: { rewrite emitted_refl. repeat split; auto; try congruence. }
  destruct (pid_filepath pid) as [path|].
  2: { rewrite (emitted_app _ _ [EvSetFramingMode (pid_id pid) true]) by reflexivity.
       repeat split; auto; try congruence;
         try (exfalso; cbn in *; congruence); repeat constructor; discriminate. }
  cbn [src_url set_ipid].
  destruct (bool_decide (src_url ctx = Some path)) eqn:Hsame.
  { rewrite (emitted_app _ _ [EvSetFramingMode (pid_id pid) true]) by reflexivity.
    repeat split; auto; try congruence;
      try (exfalso; cbn in *; congruence); repeat constructor; discriminate. }
  cbn [ps set_ipid]. destruct (ps ctx) as [p|] eqn:Hps.
  - rewrite (emitted_app _ _ [EvSetFramingMode (pid_id pid) true; EvPsClose])
      by (cbn; now rewrite <- app_assoc).
    cbn. repeat split; auto; try congruence; repeat constructor.
    apply Forall_fmap, Forall_forall. now intros.
  - rewrite (emitted_app _ _ [EvSetFramingMode (pid_id pid) true]) by reflexivity.
    cbn. repeat split; auto; try congruence; repeat constructor;
      match goal with H : is_Some None |- _ => destruct H as [x Hx]; discriminate end.
Qed.

(** *** The source handle is closed once *)

(** The handles the trace leaves open: the opens that did not fail, less
    the closes. *)
Definition handle_delta (e : Ev) : Z :=
  match e with
  | EvPsInit _ => 1
  | EvSetupFailure _ | EvPsClose => -1
  | _ => 0
  end.

Definition open_handles (tr : list Ev) : Z := foldr (fun e n => handle_delta e + n) 0 tr.

Lemma open_handles_app (l1 l2 : list Ev) :
  open_handles (l1 ++ l2) = open_handles l1 + open_handles l2.
Proof. induction l1 as [|e l IH]; simpl; [reflexivity|]. rewrite IH. lia. Qed.

Lemma open_handles_none (l : list Ev) :
  Forall (fun e => handle_delta e = 0) l -> open_handles l = 0.
Proof. induction 1 as [|e l He _ IH]; simpl; [reflexivity|]. lia. Qed.

Definition held (ctx : GF_M2PSDmxCtx lib) : Z := if ps ctx is Some _ then 1 else 0.

Lemma trace_emitted (w w' : World) (evs : list Ev) :
  w_trace w' = w_trace w ++ evs ->
  open_handles (w_trace w') = open_handles (w_trace w) + open_handles evs.
Proof. intros ->. apply open_handles_app. Qed.

Lemma m2psdmx_configure_pid_handles (w : World) (ctx : GF_M2PSDmxCtx lib)
    (pid : GF_FilterPid) (is_remove : bool) :
  match m2psdmx_configure_pid w ctx pid is_remove with
  | (e, ctx', w') =>
      open_handles (w_trace w') - held ctx' = open_handles (w_trace w) - held ctx
  end.
Proof.
  unfold m2psdmx_configure_pid, held. destruct is_remove.
  { cbn [ps set_ipid set_streams]. rewrite (trace_emitted _ _ _ (remove_streams_trace _ _)).
    rewrite (open_handles_none (_ <$> _)); [lia|].
    apply Forall_fmap, Forall_forall. now intros. }
  destruct (pid_check_caps pid); cbn [negb]; [|reflexivity].
  destruct (pid_filepath pid) as [path|]; cbn [src_url ps set_ipid].
  2: { cbn. rewrite open_handles_app. simpl. lia. }
  destruct (bool_decide (src_url ctx = Some path)).
  { cbn. rewrite open_handles_app. simpl. lia. }
  destruct (ps ctx) as [p|]; cbn; rewrite !open_handles_app; simpl; lia.
Qed.

Lemma m2psdmx_process_handles (w : World) (ctx : GF_M2PSDmxCtx lib) :
  match m2psdmx_process w ctx with
  | (r, ctx', w') =>
      open_handles (w_trace w') - held ctx' = open_handles (w_trace w) - held ctx
  end.
Proof.
  pose proof (m2psdmx_process_spec w ctx) as H.
  destruct (m2psdmx_process w ctx) as [[r ctx'] w'].
  assert (forall p ctx1 w1, opened w ctx p ctx1 w1 ->
            open_handles (w_trace w1) - 1 = open_handles (w_trace w) - held ctx
            /\ ps ctx1 = Some p) as Hopen.
  { intros p ctx1 w1 Ho.
    pose proof (opened_keeps _ _ _ _ _ Ho) as (_ & _ & _ & _ & Hps & _).
    split; [|exact Hps]. unfold held.
    destruct Ho as [(-> & -> & ->)|(-> & _ & Hs)]; [lia|].
    pose proof (m2psdmx_setup_grows p (set_ps (Some p) ctx)
                  (emit (EvPsInit (src_url ctx)) w)) as (evs & Ht & Hf & _).
    rewrite <- Hs in Ht. cbn [snd] in Ht. rewrite Ht. cbn [emit w_trace].
    rewrite !open_handles_app, (open_handles_none evs); [simpl; lia|].
    eapply Forall_impl; [exact Hf|]. intros e; destruct e; simpl; auto; contradiction. }
  destruct H as [Hp -> -> -> | pck Hp He -> -> -> | pck Hp He Hps Hi -> -> ->
                | pck p Hp He Ho Hpl -> | pck p ctx1 w1 Hp He Ho Hpl Hd]; try reflexivity.
  - cbn. rewrite !open_handles_app. simpl. lia.
  - destruct (Hopen _ _ _ Ho) as [H1 H2]. unfold held at 1. rewrite H2. exact H1.
  - destruct (Hopen _ _ _ Ho) as [H1 H2].
    pose proof (m2psdmx_dispatch_spec p ctx1 w1) as Hspec. rewrite <- Hd in Hspec.
    destruct Hspec as [sk fr en Ht' Hsk Hfr _ _ _ _ _ _ _ [p' Hps'] Hres].
    unfold held at 1. rewrite Hps', Ht', !open_handles_app.
    rewrite (open_handles_none sk), (open_handles_none fr), (open_handles_none en); [lia| | |].
    + destruct Hres as [(_ & -> & _)|(_ & -> & _)]; [constructor|].
      apply Forall_app. split; [|repeat constructor].
      apply Forall_fmap, Forall_forall. now intros.
    + eapply Forall_impl; [exact Hfr|]. intros e; destruct e; simpl; auto; contradiction.
    + subst sk. destruct (in_seek ctx1); [|constructor].
      apply Forall_fmap, Forall_forall. now intros.
Qed.

(** X8: the source handle is a resource the filter neither leaks nor
    closes twice.  After any sequence of calls of the session, the opens
    that succeeded less the closes number one if the filter holds a
    handle and none if it does not; once the filter is finalized they
    number none. *)
Theorem m2psdmx_handle_closed_once (calls : list Scenario.Call) :
  let '(ctx, w) := Scenario.after calls in
  open_handles (w_trace w) = held ctx
  /\ open_handles (w_trace (snd (m2psdmx_finalize w ctx))) = 0.
Proof.
  assert (forall st : Scenario.DmxState,
            open_handles (w_trace (snd st)) = held (fst st) ->
            open_handles (w_trace (snd (foldl Scenario.call st calls)))
            = held (fst (foldl Scenario.call st calls))) as H.
  { induction calls as [|c calls IH]; intros st Hst; [exact Hst|]. cbn [foldl].
    apply IH. destruct st as [ctx w]. cbn [fst snd] in *.
    destruct c as [pck|b|pid rm|evt|]; cbn [Scenario.call fst snd].
    - exact Hst.
    - exact Hst.
    - pose proof (m2psdmx_configure_pid_handles w ctx pid rm) as Hc.
      destruct (m2psdmx_configure_pid w ctx pid rm) as [[e ctx'] w']. cbn [fst snd]. lia.
    - rewrite Hst. unfold held. destruct evt as [range| | |]; cbn; auto.
      destruct (is_playing ctx && (start_range ctx =? range)%float); reflexivity.
    - pose proof (m2psdmx_process_handles w ctx) as Hc.
      destruct (m2psdmx_process w ctx) as [[r ctx'] w']. cbn [fst snd]. lia. }
  specialize (H (m2psdmx_initialize, Scenario.idle_world) eq_refl).
  unfold Scenario.after.
  destruct (foldl Scenario.call (m2psdmx_initialize, Scenario.idle_world) calls) as [ctx w].
  cbn [fst snd] in H. split; [exact H|].
  unfold m2psdmx_finalize, held in *. destruct (ps ctx); cbn [snd]; [|exact H].
  cbn. rewrite open_handles_app, H. reflexivity.
Qed.

(** *** Events *)

(** X9: [process_event] touches the play state only: the input pid, the
    path, the handle, the stream list and [first_dts] stay.  It cancels
    PLAY and SET_SPEED and lets every other event through.  STOP clears
    [is_playing] and nothing else, so a seek that was pending stays
    pending; and a PLAY that follows a STOP always asks for a seek, also
    to the offset that was being played. *)
Theorem m2psdmx_process_event_play_state (ctx : GF_M2PSDmxCtx lib) (evt : GF_FilterEvent) :
  let '(cancel, ctx') := m2psdmx_process_event ctx evt in
  (ipid ctx' = ipid ctx /\ src_url ctx' = src_url ctx /\ ps ctx' = ps ctx
   /\ streams ctx' = streams ctx /\ first_dts ctx' = first_dts ctx)
  /\ (cancel = true <-> (exists range, evt = GF_FEVT_PLAY range) \/ evt = GF_FEVT_SET_SPEED)
  /\ (evt = GF_FEVT_STOP -> ctx' = set_is_playing false ctx)
  /\ (forall range, evt = GF_FEVT_PLAY range ->
        is_playing ctx' = true
        /\ (ctx' = ctx \/ in_seek ctx' = true /\ start_range ctx' = range))
  /\ (forall range,
        evt = GF_FEVT_STOP ->
        let ctx2 := snd (m2psdmx_process_event ctx' (GF_FEVT_PLAY range)) in
        is_playing ctx2 = true /\ in_seek ctx2 = true /\ start_range ctx2 = range).
Proof.
  assert (forall r, is_playing (snd (m2psdmx_process_event (set_is_playing false ctx)
                                        (GF_FEVT_PLAY r))) = true
                    /\ in_seek (snd (m2psdmx_process_event (set_is_playing false ctx)
                                       (GF_FEVT_PLAY r))) = true
                    /\ start_range (snd (m2psdmx_process_event (set_is_playing false ctx)
                                           (GF_FEVT_PLAY r))) = r) as Hstop.
  { intros r. cbn. repeat split. }
  destruct evt as [range| | |]; cbn [m2psdmx_process_event].
  - destruct (is_playing ctx && (start_range ctx =? range)%float) eqn:Hc.
    + apply andb_prop in Hc as [Hpl _].
      split; [repeat split|]. split; [split; eauto|].
      split; [discriminate|]. split; [|discriminate].
      intros r _. split; auto.
    + split; [repeat split|]. split; [split; eauto|].
      split; [discriminate|]. split; [|discriminate].
      intros r [= ->]. split; [reflexivity|]. right. split; reflexivity.
  - split; [repeat split|]. split; [split; [discriminate|]|].
    { intros [[r Hr]|Hr]; discriminate. }
    split; [reflexivity|]. split; [discriminate|]. intros r _. apply Hstop.
  - split; [repeat split|]. split; [split; auto|].
    split; [discriminate|]. split; discriminate.
  - split; [repeat split|]. split; [split; [discriminate|]|].
    { intros [[r Hr]|Hr]; discriminate. }
    split; [discriminate|]. split; discriminate.
Qed.

End DemuxConfigure.

(** ** The property store *)

Lemma pid_property_from_snoc (cur : option PropVal) (tr : list Ev) (e : Ev)
    (pid : nat) (k : PropKey) :
  pid_property_from cur (tr ++ [e]) pid k
  = match sets_property pid k e with
    | Some v => v
    | None => pid_property_from cur tr pid k
    end.
Proof.
  revert cur. induction tr as [|e' tr IH]; intros cur; simpl; [reflexivity|]. apply IH.
Qed.

Lemma pid_property_set (o o' : nat) (k k' : PropKey) (v : option PropVal) (w : World) :
  pid_property (w_trace (gf_filter_pid_set_property o k v w)) o' k'
  = if decide (o = o' /\ k = k') then v else pid_property (w_trace w) o' k'.
Proof.
  unfold pid_property. cbn [gf_filter_pid_set_property emit w_trace].
  rewrite pid_property_from_snoc. cbn [sets_property].
  destruct (decide (o = o' /\ k = k')); reflexivity.
Qed.

Lemma pid_property_set_same (o : nat) (k k' : PropKey) (v : option PropVal) (w : World) :
  pid_property (w_trace (gf_filter_pid_set_property o k v w)) o k'
  = if decide (k = k') then v else pid_property (w_trace w) o k'.
Proof.
  rewrite pid_property_set. destruct (decide (k = k')) as [->|Hk].
  - now rewrite decide_True.
  - rewrite decide_False; [reflexivity|]. now intros [_ ?].
Qed.

Lemma pid_property_set_other (o o' : nat) (k k' : PropKey) (v : option PropVal) (w : World) :
  o <> o' ->
  pid_property (w_trace (gf_filter_pid_set_property o k v w)) o' k'
  = pid_property (w_trace w) o' k'.
Proof.
  intros Hne. rewrite pid_property_set. rewrite decide_False; [reflexivity|]. now intros [? _].
Qed.

Lemma pid_property_pid_new (w : World) (o : nat) (k : PropKey) :
  pid_property (w_trace (snd (gf_filter_pid_new w))) o k = pid_property (w_trace w) o k.
Proof.
  unfold pid_property. cbn [gf_filter_pid_new snd w_trace].
  now rewrite pid_property_from_snoc.
Qed.

Section DemuxSetup.
Import M2PSDmx.
Context {lib : Mpeg2Ps}.

(** ** What [m2psdmx_setup] declares *)

(** The entry a stream of the source gets is an entry of its type that
    was not in use, or a new entry at the end of the list, on a pid
    created for it; the other entries stay. *)
Lemma get_stream_step (ty : Z) (i : nat) (sts : list M2PSStream) (w : World) :
  match get_stream ty sts w with
  | (j, st, sts1, w1) =>
      let sts2 := <[j := mark_stream i st]> sts1 in
      stream_type st = ty
      /\ sts2 !! j = Some (mark_stream i st)
      /\ (forall k, k <> j -> sts2 !! k = sts !! k)
      /\ (sts !! j = Some st /\ in_use st = false /\ w1 = w
          \/ sts !! j = None /\ opid st = w_npids w /\ w1 = snd (gf_filter_pid_new w))
  end.
Proof.
  unfold get_stream, find_unused.
  destruct (list_find _ sts) as [[j st]|] eqn:Hf.
  - apply list_find_Some in Hf as (Hj & (Hty & Hu) & _). cbv zeta.
    split; [exact Hty|]. split; [|split].
    + apply list_lookup_insert_eq. eapply lookup_lt_Some; eauto.
    + intros k Hk. apply list_lookup_insert_ne. auto.
    + left. auto.
  - cbn. split; [reflexivity|].
    rewrite insert_app_r_alt by lia. rewrite Nat.sub_diag. cbn [insert list_insert].
    split; [|split].
    + rewrite lookup_app_r by lia. now rewrite Nat.sub_diag.
    + intros k Hk. destruct (decide (k < length sts)%nat) as [Hlt|Hge].
      * now rewrite lookup_app_l.
      * rewrite lookup_app_r by lia. rewrite (lookup_ge_None_2 sts) by lia.
        destruct (k - length sts)%nat as [|n] eqn:Hn; [lia|reflexivity].
    + right. split; [|split; reflexivity]. apply lookup_ge_None_2. lia.
Qed.

(** The properties [m2psdmx_setup] gives the pid of the entry [st] for
    the source [p]: the stream type, the timescale of 90 kHz, the
    duration and the id; the size of a video stream (the height, under
    the key of the width) and the format of an audio stream. *)
Definition declared (p : mpeg2ps_t) (st : M2PSStream) (f : PropKey -> option PropVal) : Prop :=
  f GF_PROP_PID_STREAM_TYPE = Some (PROP_UINT (stream_type st))
  /\ f GF_PROP_PID_TIMESCALE = Some (PROP_UINT 90000)
  /\ f GF_PROP_PID_DURATION = Some (PROP_FRAC (s32 (mpeg2ps_get_max_time_msec p)) 1000)
  /\ if stream_type st =? GF_STREAM_VISUAL
     then f GF_PROP_PID_ID = Some (PROP_UINT (u32 (1 + stream_num st)))
          /\ f GF_PROP_PID_WIDTH
             = Some (PROP_UINT (mpeg2ps_get_video_stream_height p (stream_num st)))
     else f GF_PROP_PID_ID = Some (PROP_UINT (u32 (100 + stream_num st)))
          /\ f GF_PROP_PID_SAMPLE_RATE
             = Some (PROP_UINT (mpeg2ps_get_audio_stream_sample_freq p (stream_num st)))
          /\ f GF_PROP_PID_NUM_CHANNELS
             = Some (PROP_UINT (mpeg2ps_get_audio_stream_channels p (stream_num st)))
          /\ f GF_PROP_PID_BITRATE
             = Some (PROP_UINT (mpeg2ps_get_audio_stream_bitrate p (stream_num st))).

Lemma setup_video_declares (p : mpeg2ps_t) (sts : list M2PSStream) (sync : Z)
    (w : World) (i : nat) :
  let dur := PROP_FRAC (s32 (mpeg2ps_get_max_time_msec p)) 1000 in
  match get_stream GF_STREAM_VISUAL sts w with
  | (j, st, sts1, w1) =>
      exists sync' w2,
        setup_video p dur (sts, sync, w) i = (<[j := mark_stream i st]> sts1, sync', w2)
        /\ w_npids w2 = w_npids w1
        /\ (forall o k, o <> opid st ->
              pid_property (w_trace w2) o k = pid_property (w_trace w1) o k)
        /\ (stream_type st = GF_STREAM_VISUAL ->
            declared p (mark_stream i st) (pid_property (w_trace w2) (opid st)))
  end.
Proof.
  intros dur. unfold setup_video.
  destruct (get_stream GF_STREAM_VISUAL sts w) as [[[j st] sts1] w1].
  destruct (get_video_timing _) as [ts inc].
  eexists _, _. split; [reflexivity|]. split; [|split].
  - repeat match goal with
           | |- context [match ?x with _ => _ end] => destruct x
           end; reflexivity.
  - intros o k Hne. cbn [opid mark_stream].
    repeat match goal with
           | |- context [match ?x with _ => _ end] => destruct x
           end;
      rewrite ?pid_property_set_other by congruence; reflexivity.
  - intros Hty. unfold declared. cbn [opid mark_stream stream_type stream_num].
    rewrite Hty. cbn [Z.eqb GF_STREAM_VISUAL Pos.eqb].
    repeat split.
    all: repeat match goal with
           | |- context [match ?x with _ => _ end] =>
               lazymatch x with
               | context [decide] => fail
               | _ => destruct x
               end
           end.
    all: rewrite ?pid_property_set_same; cbn; reflexivity.
Qed.

Lemma setup_audio_declares (p : mpeg2ps_t) (sts : list M2PSStream) (sync : Z)
    (w : World) (i : nat) :
  let dur := PROP_FRAC (s32 (mpeg2ps_get_max_time_msec p)) 1000 in
  mpeg2ps_get_audio_stream_type p (Z.of_nat i) <> MPEG_AUDIO_UNKNOWN ->
  match get_stream GF_STREAM_AUDIO sts w with
  | (j, st, sts1, w1) =>
      exists sync' w2,
        setup_audio p dur (sts, sync, w) i = (<[j := mark_stream i st]> sts1, sync', w2)
        /\ w_npids w2 = w_npids w1
        /\ (forall o k, o <> opid st ->
              pid_property (w_trace w2) o k = pid_property (w_trace w1) o k)
        /\ (stream_type st = GF_STREAM_AUDIO ->
            declared p (mark_stream i st) (pid_property (w_trace w2) (opid st)))
  end.
Proof.
  intros dur Hknown. unfold setup_audio.
  destruct (get_stream GF_STREAM_AUDIO sts w) as [[[j st] sts1] w1].
  destruct (mpeg2ps_get_audio_stream_type p (Z.of_nat i)) eqn:Hty; try congruence.
  all: eexists _, _; (split; [reflexivity|]); (split; [|split]).
  all: try (repeat match goal with
                   | |- context [match ?x with _ => _ end] => destruct x
                   end; reflexivity).
  all: try (intros o k Hne; cbn [opid mark_stream];
            repeat match goal with
                   | |- context [match ?x with _ => _ end] => destruct x
                   end;
            rewrite ?pid_property_set_other by congruence; reflexivity).
  all: intros Hst; unfold declared; cbn [opid mark_stream stream_type stream_num];
    rewrite Hst; cbn [Z.eqb GF_STREAM_AUDIO GF_STREAM_VISUAL Pos.eqb];
    repeat split;
    repeat match goal with
           | |- context [match ?x with _ => _ end] =>
               lazymatch x with
               | context [decide] => fail
               | _ => destruct x
               end
           end;
    rewrite ?pid_property_set_same; cbn; reflexivity.
Qed.

(** *** Every entry owns its pid *)

(** The pids of the entries are pids the filter created, and no two
    entries have the same. *)
Definition pids_wf (sts : list M2PSStream) (w : World) : Prop :=
  Forall (fun st => (opid st < w_npids w)%nat) sts /\ NoDup (opid <$> sts).

(** What one marking step keeps. *)
Lemma mark_step_keeps (ty : Z) (i j : nat) (st : M2PSStream)
    (sts sts2 : list M2PSStream) (w w1 w2 : World) :
  pids_wf sts w ->
  sts2 !! j = Some (mark_stream i st) ->
  (forall k, k <> j -> sts2 !! k = sts !! k) ->
  (sts !! j = Some st /\ in_use st = false /\ w1 = w
   \/ sts !! j = None /\ opid st = w_npids w /\ w1 = snd (gf_filter_pid_new w)) ->
  w_npids w2 = w_npids w1 ->
  (forall o k, o <> opid st ->
     pid_property (w_trace w2) o k = pid_property (w_trace w1) o k) ->
  pids_wf sts2 w2
  /\ (forall k x, sts2 !! k = Some x ->
        k = j /\ x = mark_stream i st \/ k <> j /\ sts !! k = Some x)
  /\ (forall k x, sts !! k = Some x -> in_use x = true ->
        k <> j /\ sts2 !! k = Some x
        /\ forall K, pid_property (w_trace w2) (opid x) K
                     = pid_property (w_trace w) (opid x) K).
Proof.
  intros [Hlt Hnd] Hj Hother Hcase Hn Hp.
  rewrite Forall_lookup in Hlt. rewrite NoDup_alt in Hnd.
  assert (forall k x, sts2 !! k = Some x ->
            k = j /\ x = mark_stream i st \/ k <> j /\ sts !! k = Some x) as Hinv.
  { intros k x Hk. destruct (decide (k = j)) as [->|Hne].
    - left. split; [reflexivity|congruence].
    - right. split; [exact Hne|]. now rewrite <- Hother. }
  assert (w_npids w <= w_npids w2)%nat as Hmono.
  { rewrite Hn. destruct Hcase as [(_ & _ & ->)|(_ & _ & ->)]; cbn; lia. }
  assert (forall k x, sts !! k = Some x -> k <> j -> opid x <> opid st) as Hfresh.
  { intros k x Hk Hne Heq. destruct Hcase as [(Hst & _)|(_ & Ho & _)].
    - apply Hne. apply (Hnd k j (opid x)); rewrite list_lookup_fmap.
      + now rewrite Hk.
      + rewrite Hst. cbn. now rewrite Heq.
    - specialize (Hlt _ _ Hk). cbn in Hlt. lia. }
  assert (pids_wf sts2 w2) as Hwf.
  { split.
    - rewrite Forall_lookup. intros k x Hk.
      destruct (Hinv _ _ Hk) as [(-> & ->)|(Hne & Hk')].
      + cbn [opid mark_stream]. destruct Hcase as [(Hst & _)|(_ & Ho & Hw)].
        * specialize (Hlt _ _ Hst). cbn in Hlt. lia.
        * rewrite Ho, Hn, Hw. cbn. lia.
      + specialize (Hlt _ _ Hk'). cbn in Hlt. lia.
    - rewrite NoDup_alt. intros k1 k2 o. rewrite !list_lookup_fmap.
      destruct (sts2 !! k1) as [x1|] eqn:H1; [|discriminate].
      destruct (sts2 !! k2) as [x2|] eqn:H2; [|discriminate].
      cbn. intros [= Ho1] [= Ho2].
      destruct (Hinv _ _ H1) as [(-> & ->)|(Hne1 & Hk1)];
        destruct (Hinv _ _ H2) as [(-> & ->)|(Hne2 & Hk2)]; auto.
      + exfalso. apply (Hfresh _ _ Hk2 Hne2). cbn in Ho1. congruence.
      + exfalso. apply (Hfresh _ _ Hk1 Hne1). cbn in Ho2. congruence.
      + apply (Hnd k1 k2 o); rewrite list_lookup_fmap.
        * now rewrite Hk1, <- Ho1.
        * now rewrite Hk2, <- Ho2. }
  split; [exact Hwf|]. split; [exact Hinv|].
  intros k x Hk Hu.
  assert (k <> j) as Hne.
  { intros ->. destruct Hcase as [(Hst & Hun & _)|(Hnone & _)]; congruence. }
  split; [exact Hne|]. split; [now rewrite Hother|].
  intros K. rewrite Hp by (eapply Hfresh; eauto).
  destruct Hcase as [(_ & _ & ->)|(_ & _ & ->)]; [reflexivity|].
  apply pid_property_pid_new.
Qed.

(** *** The invariants of the two loops *)

Lemma declared_ext (p : mpeg2ps_t) (st : M2PSStream) (f g : PropKey -> option PropVal) :
  (forall K, f K = g K) -> declared p st g -> declared p st f.
Proof. unfold declared. intros H. rewrite !H. auto. Qed.

(** With [nv] video streams and [na] audio streams of the source done:
    each of them that is declared (an audio stream of unknown type is
    not) has an entry in use, and an audio entry in use stands for a
    declared stream. *)
Definition covered (p : mpeg2ps_t) (nv na : nat) (sts : list M2PSStream) : Prop :=
  (forall i, (i < nv)%nat ->
     exists k st, sts !! k = Some st /\ in_use st = true
                  /\ stream_type st = GF_STREAM_VISUAL /\ stream_num st = Z.of_nat i)
  /\ (forall i, (i < na)%nat -> known_audio p i ->
        exists k st, sts !! k = Some st /\ in_use st = true
                     /\ stream_type st = GF_STREAM_AUDIO /\ stream_num st = Z.of_nat i)
  /\ (forall k st, sts !! k = Some st -> in_use st = true ->
        stream_type st = GF_STREAM_AUDIO ->
        exists i, (i < na)%nat /\ stream_num st = Z.of_nat i /\ known_audio p i).

(** Every entry in use has the properties of its stream on its pid. *)
Definition declared_all (p : mpeg2ps_t) (sts : list M2PSStream) (w : World) : Prop :=
  forall k st, sts !! k = Some st -> in_use st = true ->
    declared p st (pid_property (w_trace w) (opid st)).

Lemma covered_unused (p : mpeg2ps_t) (sts : list M2PSStream) :
  Forall (fun st => in_use st = false) sts -> covered p 0 0 sts.
Proof.
  intros Hall. split; [|split].
  - intros i Hi. lia.
  - intros i Hi. lia.
  - intros k st Hk Hu. rewrite Forall_lookup in Hall. rewrite (Hall _ _ Hk) in Hu.
    discriminate.
Qed.

Lemma declared_unused (p : mpeg2ps_t) (sts : list M2PSStream) (w : World) :
  Forall (fun st => in_use st = false) sts -> declared_all p sts w.
Proof.
  intros Hall k st Hk Hu. rewrite Forall_lookup in Hall. rewrite (Hall _ _ Hk) in Hu.
  discriminate.
Qed.

Lemma mark_step_cover (p : mpeg2ps_t) (ty : Z) (i j nv na nv' na' : nat) (st : M2PSStream)
    (sts sts2 : list M2PSStream) :
  (ty = GF_STREAM_VISUAL /\ i = nv /\ nv' = S nv /\ na' = na
   \/ ty = GF_STREAM_AUDIO /\ i = na /\ na' = S na /\ nv' = nv /\ known_audio p i) ->
  stream_type st = ty ->
  sts2 !! j = Some (mark_stream i st) ->
  (forall k, k <> j -> sts2 !! k = sts !! k) ->
  (sts !! j = Some st /\ in_use st = false \/ sts !! j = None) ->
  covered p nv na sts -> covered p nv' na' sts2.
Proof.
  intros Hty Hst Hj Hother Hcase (Hv & Ha & Hd).
  assert (forall k x, sts !! k = Some x -> in_use x = true -> sts2 !! k = Some x) as Hkeep.
  { intros k x Hk Hu. rewrite Hother; [exact Hk|].
    intros ->. destruct Hcase as [(Hs & Hun)|Hnone]; congruence. }
  split; [|split].
  - intros i' Hi'.
    destruct Hty as [(-> & -> & -> & ->)|(-> & -> & -> & -> & Hk)].
    + destruct (decide (i' = nv)) as [->|Hne].
      * exists j, (mark_stream nv st). repeat split; auto.
      * destruct (Hv i') as (k & x & Hk & Hu & Hx); [lia|].
        exists k, x. split; [now apply Hkeep|auto].
    + destruct (Hv i' Hi') as (k & x & Hk' & Hu & Hx).
      exists k, x. split; [now apply Hkeep|auto].
  - intros i' Hi' Hkn.
    destruct Hty as [(-> & -> & -> & ->)|(-> & -> & -> & -> & Hk)].
    + destruct (Ha i' Hi' Hkn) as (k & x & Hk' & Hu & Hx).
      exists k, x. split; [now apply Hkeep|auto].
    + destruct (decide (i' = na)) as [->|Hne].
      * exists j, (mark_stream na st). repeat split; auto.
      * destruct (Ha i') as (k & x & Hk' & Hu & Hx); [lia|exact Hkn|].
        exists k, x. split; [now apply Hkeep|auto].
  - intros k x Hk Hu Hau. destruct (decide (k = j)) as [->|Hne].
    + rewrite Hj in Hk. injection Hk as <-. cbn [stream_type mark_stream] in Hau.
      cbn [stream_num mark_stream].
      destruct Hty as [(-> & _)|(-> & -> & -> & -> & Hkn)];
        [rewrite Hst in Hau; discriminate Hau|].
      exists na. split; [lia|]. split; [reflexivity|exact Hkn].
    + rewrite Hother in Hk by exact Hne.
      destruct (Hd _ _ Hk Hu Hau) as (i0 & Hi0 & Hnum & Hkn).
      exists i0. split; [|auto].
      destruct Hty as [(_ & _ & _ & ->)|(_ & _ & -> & _)]; lia.
Qed.

Lemma mark_step_declared (p : mpeg2ps_t) (ty : Z) (i j : nat) (st : M2PSStream)
    (sts sts2 : list M2PSStream) (w w1 w2 : World) :
  sts2 !! j = Some (mark_stream i st) ->
  (forall k, k <> j -> sts2 !! k = sts !! k) ->
  (sts !! j = Some st /\ in_use st = false /\ w1 = w
   \/ sts !! j = None /\ opid st = w_npids w /\ w1 = snd (gf_filter_pid_new w)) ->
  w_npids w2 = w_npids w1 ->
  (forall o k, o <> opid st ->
     pid_property (w_trace w2) o k = pid_property (w_trace w1) o k) ->
  declared p (mark_stream i st) (pid_property (w_trace w2) (opid st)) ->
  pids_wf sts w /\ declared_all p sts w ->
  pids_wf sts2 w2 /\ declared_all p sts2 w2.
Proof.
  intros Hj Hother Hcase Hn Hp Hdecl [Hwf Hd].
  destruct (mark_step_keeps ty i j st sts sts2 w w1 w2 Hwf Hj Hother Hcase Hn Hp)
    as (Hwf2 & Hinv & Hkeep).
  split; [exact Hwf2|].
  intros k x Hk Hu. destruct (Hinv _ _ Hk) as [(-> & ->)|(Hne & Hk')]; [exact Hdecl|].
  destruct (Hkeep _ _ Hk' Hu) as (_ & _ & Hsame).
  eapply declared_ext; [exact Hsame|]. exact (Hd _ _ Hk' Hu).
Qed.

Definition setup_inv (p : mpeg2ps_t) (acc : SetupSt) : Prop :=
  pids_wf (fst (fst acc)) (snd acc) /\ declared_all p (fst (fst acc)) (snd acc).

Lemma case_weaken (sts : list M2PSStream) (j : nat) (st : M2PSStream) (w w1 : World) :
  (sts !! j = Some st /\ in_use st = false /\ w1 = w
   \/ sts !! j = None /\ opid st = w_npids w /\ w1 = snd (gf_filter_pid_new w)) ->
  sts !! j = Some st /\ in_use st = false \/ sts !! j = None.
Proof. intros [(? & ? & _)|(? & _)]; auto. Qed.

Lemma setup_video_inv (p : mpeg2ps_t) (i : nat) (acc : SetupSt) :
  let acc' := setup_video p (PROP_FRAC (s32 (mpeg2ps_get_max_time_msec p)) 1000) acc i in
  (setup_inv p acc -> setup_inv p acc')
  /\ (covered p i 0 (fst (fst acc)) -> covered p (S i) 0 (fst (fst acc'))).
Proof.
  destruct acc as [[sts sync] w]. unfold setup_inv. cbn [fst snd].
  pose proof (get_stream_step GF_STREAM_VISUAL i sts w) as Hs.
  pose proof (setup_video_declares p sts sync w i) as Hd. cbv zeta in Hd.
  destruct (get_stream GF_STREAM_VISUAL sts w) as [[[j st] sts1] w1].
  destruct Hs as (Hty & Hj & Hother & Hcase).
  destruct Hd as (sync' & w2 & -> & Hn & Hp & Hdecl). cbn [fst snd]. split.
  - eapply (mark_step_declared p GF_STREAM_VISUAL i j st sts _ w w1 w2); eauto.
  - eapply (mark_step_cover p GF_STREAM_VISUAL i j i 0 (S i) 0 st sts); eauto.
    eapply case_weaken; eauto.
Qed.

Lemma setup_audio_inv (p : mpeg2ps_t) (nv i : nat) (acc : SetupSt) :
  let acc' := setup_audio p (PROP_FRAC (s32 (mpeg2ps_get_max_time_msec p)) 1000) acc i in
  (setup_inv p acc -> setup_inv p acc')
  /\ (covered p nv i (fst (fst acc)) -> covered p nv (S i) (fst (fst acc'))).
Proof.
  destruct (decide (mpeg2ps_get_audio_stream_type p (Z.of_nat i) = MPEG_AUDIO_UNKNOWN))
    as [Hty|Hty].
  - cbv zeta. rewrite setup_audio_skip by exact Hty. split; [auto|].
    intros (Hv & Ha & Hd). split; [exact Hv|split].
    + intros i' Hi' Hkn. destruct (decide (i' = i)) as [->|Hne]; [contradiction|].
      apply Ha; [lia|exact Hkn].
    + intros k st Hk Hu Hau. destruct (Hd _ _ Hk Hu Hau) as (i0 & Hi0 & H3).
      exists i0. split; [lia|exact H3].
  - destruct acc as [[sts sync] w]. unfold setup_inv in *. cbn [fst snd] in *.
    pose proof (get_stream_step GF_STREAM_AUDIO i sts w) as Hs.
    pose proof (setup_audio_declares p sts sync w i Hty) as Hd.
    destruct (get_stream GF_STREAM_AUDIO sts w) as [[[j st] sts1] w1].
    destruct Hs as (Hst & Hj & Hother & Hcase).
    destruct Hd as (sync' & w2 & -> & Hn & Hp & Hdecl). cbn [fst snd]. split.
    + eapply (mark_step_declared p GF_STREAM_AUDIO i j st sts _ w w1 w2); eauto.
    + eapply (mark_step_cover p GF_STREAM_AUDIO i j nv i nv (S i) st sts); eauto.
      * right. repeat split; auto.
      * eapply case_weaken; eauto.
Qed.

Lemma foldl_inv {A St : Type} (I : St -> Prop) (f : St -> A -> St) (l : list A) :
  (forall s a, I s -> I (f s a)) -> forall s, I s -> I (foldl f s l).
Proof.
  intros Hf. induction l as [|a l IH]; intros s Hs; [exact Hs|]. apply IH, Hf, Hs.
Qed.

Lemma m2psdmx_setup_owned (p : mpeg2ps_t) (ctx : GF_M2PSDmxCtx lib) (w : World) :
  pids_wf (streams ctx) w -> declared_all p (streams ctx) w ->
  let '(ctx', w') := m2psdmx_setup p ctx w in
  pids_wf (streams ctx') w' /\ declared_all p (streams ctx') w'.
Proof.
  intros Hwf Hall. unfold m2psdmx_setup.
  set (dur := PROP_FRAC _ _). cbn [streams set_first_dts].
  assert (setup_inv p (foldl (setup_audio p dur)
                         (foldl (setup_video p dur) (streams ctx, 0, w)
                            (seq 0 (mpeg2ps_get_video_stream_count p)))
                         (seq 0 (mpeg2ps_get_audio_stream_count p)))) as H.
  { apply foldl_inv; [intros s a; apply (setup_audio_inv p 0 a s)|].
    apply foldl_inv; [intros s a; apply (setup_video_inv p a s)|]. split; assumption. }
  destruct (foldl (setup_audio p dur) _ _) as [[sts sy] w1]. exact H.
Qed.

Lemma m2psdmx_setup_covered (p : mpeg2ps_t) (ctx : GF_M2PSDmxCtx lib) (w : World) :
  Forall (fun st => in_use st = false) (streams ctx) ->
  covered p (mpeg2ps_get_video_stream_count p) (mpeg2ps_get_audio_stream_count p)
    (streams (fst (m2psdmx_setup p ctx w))).
Proof.
  intros Hall. unfold m2psdmx_setup.
  set (dur := PROP_FRAC _ _).
  pose proof (foldl_seq_inv (fun i (acc : SetupSt) => covered p i 0 (fst (fst acc)))
                (setup_video p dur) (fun i s => proj2 (setup_video_inv p i s))
                (mpeg2ps_get_video_stream_count p) 0
                (streams ctx, 0, w) (covered_unused p _ Hall)) as Hv.
  cbn [streams set_first_dts].
  set (acc1 := foldl (setup_video p dur) _ _) in *.
  pose proof (foldl_seq_inv
                (fun i (acc : SetupSt) =>
                   covered p (mpeg2ps_get_video_stream_count p) i (fst (fst acc)))
                (setup_audio p dur)
                (fun i s => proj2 (setup_audio_inv p (mpeg2ps_get_video_stream_count p) i s))
                (mpeg2ps_get_audio_stream_count p) 0 acc1 Hv) as Ha.
  destruct (foldl (setup_audio p dur) acc1 _) as [[sts sy] w1].
  exact Ha.
Qed.

(** *** The pids in every state the filter reaches *)

Lemma pids_wf_same (sts : list M2PSStream) (w w' : World) :
  w_npids w' = w_npids w -> pids_wf sts w -> pids_wf sts w'.
Proof. intros Hn [H1 H2]. split; [now rewrite Hn|exact H2]. Qed.

Lemma pids_wf_mark_unused (sts : list M2PSStream) (w : World) :
  pids_wf sts w -> pids_wf (mark_unused <$> sts) w.
Proof.
  intros [H1 H2]. split.
  - apply Forall_fmap. eapply Forall_impl; [exact H1|]. now intros.
  - rewrite <- list_fmap_compose.
    replace (opid ∘ mark_unused) with opid; [exact H2|reflexivity].
Qed.

Lemma remove_streams_npids (sts : list M2PSStream) (w : World) :
  w_npids (remove_streams sts w) = w_npids w.
Proof.
  unfold remove_streams. generalize (reverse sts) w. clear. intros l.
  induction l as [|st l IH]; intros w; simpl; [reflexivity|]. now rewrite IH.
Qed.

Lemma m2psdmx_configure_pid_pids (w : World) (ctx : GF_M2PSDmxCtx lib)
    (pid : GF_FilterPid) (is_remove : bool) :
  pids_wf (streams ctx) w ->
  match m2psdmx_configure_pid w ctx pid is_remove with
  | (e, ctx', w') => pids_wf (streams ctx') w'
  end.
Proof.
  intros Hwf. unfold m2psdmx_configure_pid. destruct is_remove.
  { split; cbn; constructor. }
  destruct (pid_check_caps pid); cbn [negb]; [|exact Hwf].
  destruct (pid_filepath pid) as [path|]; [|exact Hwf].
  cbn [src_url set_ipid].
  destruct (bool_decide (src_url ctx = Some path)); [exact Hwf|].
  cbn [ps set_ipid]. destruct (ps ctx); cbn; [|exact Hwf].
  now apply pids_wf_mark_unused.
Qed.

Lemma m2psdmx_process_pids (w : World) (ctx : GF_M2PSDmxCtx lib) :
  streams_wf ctx -> pids_wf (streams ctx) w ->
  match m2psdmx_process w ctx with
  | (r, ctx', w') => pids_wf (streams ctx') w'
  end.
Proof.
  intros Hswf Hwf. pose proof (m2psdmx_process_spec w ctx) as H.
  destruct (m2psdmx_process w ctx) as [[r ctx'] w'].
  assert (forall p ctx1 w1, opened w ctx p ctx1 w1 -> pids_wf (streams ctx1) w1) as Hopen.
  { intros p ctx1 w1 [(_ & -> & ->)|(Hn & _ & Hs)]; [exact Hwf|].
    pose proof (m2psdmx_setup_owned p (set_ps (Some p) ctx)
                  (emit (EvPsInit (src_url ctx)) w)) as Hso.
    rewrite <- Hs in Hso. apply Hso; [exact Hwf|].
    apply declared_unused. exact (proj1 Hswf Hn). }
  destruct H as [Hp -> -> -> | pck Hp He -> -> -> | pck Hp He Hps Hi -> -> ->
                | pck p Hp He Ho Hpl -> | pck p ctx1 w1 Hp He Ho Hpl Hd]; auto.
  - eapply Hopen; eauto.
  - pose proof (m2psdmx_dispatch_spec p ctx1 w1) as Hspec.
    pose proof (m2psdmx_dispatch_events p ctx1 w1) as Hev.
    rewrite <- Hd in Hspec, Hev.
    destruct Hspec as [_ _ _ _ _ _ _ Hst _ _ _ _ _ _ _].
    destruct Hev as (evs & _ & _ & Hn).
    rewrite Hst. eapply pids_wf_same; [exact Hn|]. eapply Hopen; eauto.
Qed.

Lemma after_owned (calls : list Scenario.Call) :
  streams_wf (fst (Scenario.after calls))
  /\ pids_wf (streams (fst (Scenario.after calls))) (snd (Scenario.after calls)).
Proof.
  unfold Scenario.after.
  assert (forall st : Scenario.DmxState,
            streams_wf (fst st) /\ pids_wf (streams (fst st)) (snd st) ->
            streams_wf (fst (foldl Scenario.call st calls))
            /\ pids_wf (streams (fst (foldl Scenario.call st calls)))
                 (snd (foldl Scenario.call st calls))) as H.
  { induction calls as [|c calls IH]; intros st Hst; [exact Hst|]. cbn [foldl].
    apply IH. destruct Hst as [H1 H2]. split; [now apply call_wf|].
    destruct st as [ctx w]. cbn [fst snd] in *.
    destruct c as [pck|b|pid rm|evt|]; cbn [Scenario.call fst snd].
    - exact H2.
    - exact H2.
    - pose proof (m2psdmx_configure_pid_pids w ctx pid rm H2) as Hc.
      now destruct (m2psdmx_configure_pid w ctx pid rm) as [[e ctx'] w'].
    - destruct evt as [range| | |]; cbn; auto.
      destruct (is_playing ctx && (start_range ctx =? range)%float); exact H2.
    - pose proof (m2psdmx_process_pids w ctx H1 H2) as Hc.
      now destruct (m2psdmx_process w ctx) as [[r ctx'] w']. }
  apply H. split; [apply streams_wf_initialize|]. split; cbn; constructor.
Qed.

(** X10: every entry of the stream list owns its pid.  In every state the
    filter reaches from its initial one, the pids of the entries are pids
    the filter created, and no two entries share a pid. *)
Theorem m2psdmx_entries_own_their_pids (calls : list Scenario.Call) :
  let '(ctx, w) := Scenario.after calls in
  Forall (fun st => (opid st < w_npids w)%nat) (streams ctx)
  /\ NoDup (opid <$> streams ctx).
Proof.
  pose proof (after_owned calls) as [_ H].
  destruct (Scenario.after calls) as [ctx w]. exact H.
Qed.

(** X11: [m2psdmx_setup], run as [process] runs it (no entry in use, every
    entry on a pid of its own), leaves on the pid of every entry in use
    the properties of the stream the entry stands for: stream type,
    timescale 90000, duration and id, the height of a video stream (under
    the key of the width) and the sample rate, channels and bitrate of an
    audio stream.  Nothing of a stream the pid carried before shows
    through in these. *)
Theorem m2psdmx_setup_declares (p : mpeg2ps_t) (ctx : GF_M2PSDmxCtx lib) (w : World) :
  pids_wf (streams ctx) w -> Forall (fun st => in_use st = false) (streams ctx) ->
  let '(ctx', w') := m2psdmx_setup p ctx w in
  forall st, st ∈ streams ctx' -> in_use st = true ->
    declared p st (pid_property (w_trace w') (opid st)).
Proof.
  intros Hwf Hall.
  pose proof (m2psdmx_setup_owned p ctx w Hwf (declared_unused p _ w Hall)) as H.
  destruct (m2psdmx_setup p ctx w) as [ctx' w']. destruct H as [_ Hd].
  intros st Hin Hu. apply list_elem_of_lookup in Hin as [k Hk]. eapply Hd; eauto.
Qed.

(** X12: [m2psdmx_setup], run with no entry in use, gives every video
    stream of the source and every audio stream of a known type one
    entry in use, of the type and with the number of the stream; no
    other entry is in use, and no two entries in use stand for the same
    stream. *)
Theorem m2psdmx_setup_one_entry_per_stream (p : mpeg2ps_t) (ctx : GF_M2PSDmxCtx lib)
    (w : World) :
  Forall (fun st => in_use st = false) (streams ctx) ->
  let sts := streams (fst (m2psdmx_setup p ctx w)) in
  (forall i, (i < mpeg2ps_get_video_stream_count p)%nat ->
     exists st, st ∈ sts /\ in_use st = true
                /\ stream_type st = GF_STREAM_VISUAL /\ stream_num st = Z.of_nat i)
  /\ (forall i, (i < mpeg2ps_get_audio_stream_count p)%nat -> known_audio p i ->
        exists st, st ∈ sts /\ in_use st = true
                   /\ stream_type st = GF_STREAM_AUDIO /\ stream_num st = Z.of_nat i)
  /\ (forall st, st ∈ sts -> in_use st = true ->
        (stream_type st = GF_STREAM_VISUAL
         /\ exists i, (i < mpeg2ps_get_video_stream_count p)%nat
                      /\ stream_num st = Z.of_nat i)
        \/ (stream_type st = GF_STREAM_AUDIO
            /\ exists i, (i < mpeg2ps_get_audio_stream_count p)%nat
                         /\ stream_num st = Z.of_nat i /\ known_audio p i))
  /\ distinct_streams sts.
Proof.
  intros Hall sts.
  pose proof (m2psdmx_setup_covered p ctx w Hall) as (Hv & Ha & Hk).
  pose proof (m2psdmx_setup_distinct p ctx w Hall) as Hd.
  assert (numbered (mpeg2ps_get_video_stream_count p) (mpeg2ps_get_audio_stream_count p) sts)
    as [Hb _].
  { subst sts. unfold m2psdmx_setup.
    set (dur := PROP_FRAC _ _).
    pose proof (foldl_seq_inv (fun i (acc : SetupSt) => numbered i 0 (fst (fst acc)))
                  (setup_video p dur) (setup_video_numbered p dur)
                  (mpeg2ps_get_video_stream_count p) 0
                  (streams ctx, 0, w) (numbered_unused _ Hall)) as Hn.
    cbn [streams set_first_dts].
    set (acc1 := foldl (setup_video p dur) _ _) in *.
    pose proof (foldl_seq_inv
                  (fun i (acc : SetupSt) =>
                     numbered (mpeg2ps_get_video_stream_count p) i (fst (fst acc)))
                  (setup_audio p dur)
                  (setup_audio_numbered p dur (mpeg2ps_get_video_stream_count p))
                  (mpeg2ps_get_audio_stream_count p) 0 acc1 Hn) as Hn2.
    destruct (foldl (setup_audio p dur) acc1 _) as [[sts sy] w1]. exact Hn2. }
  fold sts in Hv, Ha, Hk, Hd.
  split; [|split; [|split; [|exact Hd]]].
  - intros i Hi. destruct (Hv i Hi) as (k & st & Hl & H).
    exists st. split; [eapply list_elem_of_lookup_2; eauto|exact H].
  - intros i Hi Hkn. destruct (Ha i Hi Hkn) as (k & st & Hl & H).
    exists st. split; [eapply list_elem_of_lookup_2; eauto|exact H].
  - intros st Hin Hu. apply list_elem_of_lookup in Hin as [k Hl].
    destruct (Hb _ _ Hl Hu) as [(Hty & Hr)|(Hty & Hr)].
    + left. split; [exact Hty|]. exists (Z.to_nat (stream_num st)). split; lia.
    + right. split; [exact Hty|]. destruct (Hk _ _ Hl Hu Hty) as (i & Hi & H). eauto.
Qed.

(** *** One clock for the streams of a source *)

Definition clock_is (c : Z) (e : Ev) : Prop :=
  match e with
  | EvSetProperty _ GF_PROP_PID_CLOCK_ID v => v = Some (PROP_UINT c)
  | _ => True
  end.

Definition no_clock (e : Ev) : Prop :=
  match e with
  | EvSetProperty _ GF_PROP_PID_CLOCK_ID _ => False
  | _ => True
  end.

Lemma no_clock_is (c : Z) (e : Ev) : no_clock e -> clock_is c e.
Proof. destruct e as [| | |pid k v| | | | | | | | | | |]; simpl; auto. destruct k; tauto. Qed.

Ltac clock_steps :=
  repeat first
    [ apply grows_refl
    | eapply grows_trans; [| apply grows_emit; cbn; reflexivity || exact I ]
    | match goal with
      | |- context [match ?x with _ => _ end] => destruct x
      | |- context [if ?b then _ else _] => destruct b
      end ].

Lemma get_stream_clock (c : Z) (ty : Z) (sts : list M2PSStream) (w : World) :
  grows (clock_is c) w (snd (get_stream ty sts w)).
Proof.
  unfold get_stream. destruct (find_unused ty sts) as [[j st]|]; simpl.
  - apply grows_refl.
  - apply (grows_pid_new (clock_is c) w). exact I.
Qed.

Lemma setup_video_clock (p : mpeg2ps_t) (dur : PropVal) (sts : list M2PSStream)
    (sync : Z) (w : World) (i : nat) :
  let '(sts2, sync', w2) := setup_video p dur (sts, sync, w) i in
  sync' = (if sync =? 0 then u32 (1 + Z.of_nat i) else sync)
  /\ grows (clock_is sync') w w2.
Proof.
  unfold setup_video.
  pose proof (get_stream_clock (if sync =? 0 then u32 (1 + Z.of_nat i) else sync)
                GF_STREAM_VISUAL sts w) as Hg.
  destruct (get_stream GF_STREAM_VISUAL sts w) as [[[j st] sts1] w1]. cbn [snd] in Hg.
  destruct (get_video_timing _) as [ts inc]. cbn [stream_num mark_stream].
  split; [reflexivity|].
  eapply grows_trans; [exact Hg|]. clear Hg.
  set (c := if sync =? 0 then _ else _). clearbody c.
  clock_steps.
Qed.

Lemma setup_audio_clock (p : mpeg2ps_t) (dur : PropVal) (sts : list M2PSStream)
    (sync : Z) (w : World) (i : nat) :
  let '(sts2, sync', w2) := setup_audio p dur (sts, sync, w) i in
  sync' = (if decide (known_audio p i)
           then (if sync =? 0 then u32 (100 + Z.of_nat i) else sync) else sync)
  /\ grows (clock_is sync') w w2.
Proof.
  unfold setup_audio, known_audio.
  pose proof (get_stream_clock (if sync =? 0 then u32 (100 + Z.of_nat i) else sync)
                GF_STREAM_AUDIO sts w) as Hg.
  destruct (get_stream GF_STREAM_AUDIO sts w) as [[[j st] sts1] w1]. cbn [snd] in Hg.
  cbn [stream_num mark_stream].
  destruct (mpeg2ps_get_audio_stream_type p (Z.of_nat i)) eqn:Hty.
  4: { rewrite decide_False by (intros H; now apply H). split; [reflexivity|apply grows_refl]. }
  all: rewrite decide_True by discriminate; split; [reflexivity|];
    (eapply grows_trans; [exact Hg|]); clear Hg;
    set (c := if sync =? 0 then _ else _); clearbody c; clock_steps.
Qed.

(** Every clock id [m2psdmx_setup] sets is the same one: 1 when the source
    has a video stream, and else 100 plus the number of the first audio
    stream of a known type. *)
Lemma m2psdmx_setup_clock_ids (p : mpeg2ps_t) (ctx : GF_M2PSDmxCtx lib) (w : World) :
  let evs := emitted w (snd (m2psdmx_setup p ctx w)) in
  ((0 < mpeg2ps_get_video_stream_count p)%nat -> Forall (clock_is 1) evs)
  /\ (forall i0 : nat,
        mpeg2ps_get_video_stream_count p = 0%nat ->
        known_audio p i0 -> (forall i, (i < i0)%nat -> ~ known_audio p i) ->
        100 + Z.of_nat i0 < 2 ^ 32 ->
        Forall (clock_is (100 + Z.of_nat i0)) evs).
Proof.
  cbv zeta. unfold m2psdmx_setup.
  set (dur := PROP_FRAC _ _). cbn [streams set_first_dts].
  set (nv := mpeg2ps_get_video_stream_count p).
  set (na := mpeg2ps_get_audio_stream_count p).
  (* the video loop *)
  assert (forall n (acc : SetupSt),
            snd (fst acc) = 0 ->
            let acc' := foldl (setup_video p dur) acc (seq 0 n) in
            (n = 0%nat /\ acc' = acc)
            \/ ((0 < n)%nat /\ snd (fst acc') = 1 /\ grows (clock_is 1) (snd acc) (snd acc')))
    as Hvideo.
  { intros n acc Hs.
    assert (forall m a (acc1 : SetupSt),
              (a = 0%nat /\ acc1 = acc
               \/ (0 < a)%nat /\ snd (fst acc1) = 1 /\ grows (clock_is 1) (snd acc) (snd acc1)) ->
              let acc' := foldl (setup_video p dur) acc1 (seq a m) in
              ((a + m = 0)%nat /\ acc' = acc)
              \/ ((0 < a + m)%nat /\ snd (fst acc') = 1
                  /\ grows (clock_is 1) (snd acc) (snd acc'))) as Hgen.
    { induction m as [|m IH]; intros a acc1 Hinv; cbv zeta; cbn [seq foldl].
      - rewrite Nat.add_0_r. exact Hinv.
      - replace (a + S m)%nat with (S a + m)%nat by lia. apply IH. right.
        split; [lia|]. destruct acc1 as [[sts sync] w1].
        pose proof (setup_video_clock p dur sts sync w1 a) as Hc.
        destruct (setup_video p dur (sts, sync, w1) a) as [[sts2 sync'] w2].
        destruct Hc as [Hsy Hg]. cbn [fst snd] in *.
        destruct Hinv as [(-> & <-)|(Ha & Hs1 & Hg1)].
        + cbn [fst snd] in Hs. rewrite Hs in Hsy. cbn in Hsy. subst sync'.
          split; [reflexivity|exact Hg].
        + rewrite Hs1 in Hsy. cbn in Hsy. subst sync'.
          split; [reflexivity|]. eapply grows_trans; eauto. }
    apply (Hgen n 0%nat acc). left. auto. }
  (* the audio loop, from a clock that is set *)
  assert (forall c n a (acc : SetupSt),
            c <> 0 -> snd (fst acc) = c ->
            let acc' := foldl (setup_audio p dur) acc (seq a n) in
            snd (fst acc') = c /\ grows (clock_is c) (snd acc) (snd acc')) as Hset.
  { intros c n. induction n as [|n IH]; intros a acc Hc Hs; cbv zeta; cbn [seq foldl].
    - split; [exact Hs|apply grows_refl].
    - destruct acc as [[sts sync] w1]. cbn [fst snd] in Hs. subst sync.
      pose proof (setup_audio_clock p dur sts c w1 a) as Hk.
      destruct (setup_audio p dur (sts, c, w1) a) as [[sts2 sync'] w2] eqn:Hstep.
      destruct Hk as [Hsy Hg].
      assert (sync' = c) as ->.
      { rewrite Hsy. destruct (decide (known_audio p a)); [|reflexivity].
        destruct (c =? 0) eqn:Hz; [|reflexivity]. apply Z.eqb_eq in Hz. contradiction. }
      destruct (IH (S a) (sts2, c, w2) Hc eq_refl) as [H1 H2]. cbn [fst snd] in *.
      split; [exact H1|]. eapply grows_trans; eauto. }
  specialize (Hvideo nv (streams ctx, 0, w) eq_refl). cbv zeta in Hvideo.
  set (acc1 := foldl (setup_video p dur) (streams ctx, 0, w) (seq 0 nv)) in *.
  split.
  - intros Hnv. destruct Hvideo as [(Hz & _)|(_ & Hs1 & Hg1)]; [lia|].
    destruct (Hset 1 na 0%nat acc1 ltac:(discriminate) Hs1) as [_ Hg2].
    destruct (foldl (setup_audio p dur) acc1 (seq 0 na)) as [[sts sy] w']. cbn [snd] in *.
    apply grows_emitted. eapply grows_trans; eauto.
  - intros i0 Hnv Hk0 Hfirst Hbound.
    destruct Hvideo as [(_ & Hacc)|(Hpos & _)]; [|lia]. rewrite Hacc. clear Hacc acc1.
    set (c := 100 + Z.of_nat i0).
    assert (forall n a (acc : SetupSt),
              (a <= i0)%nat -> snd (fst acc) = 0 ->
              let acc' := foldl (setup_audio p dur) acc (seq a n) in
              grows (clock_is c) (snd acc) (snd acc')) as Hunset.
    { induction n as [|n IH]; intros a acc Ha Hs; cbv zeta; cbn [seq foldl].
      - apply grows_refl.
      - destruct acc as [[sts sync] w1]. cbn [fst snd] in Hs. subst sync.
        pose proof (setup_audio_clock p dur sts 0 w1 a) as Hk.
        destruct (setup_audio p dur (sts, 0, w1) a) as [[sts2 sync'] w2] eqn:Hstep.
        destruct Hk as [Hsy Hg]. cbn [Z.eqb] in Hsy.
        destruct (decide (known_audio p a)) as [Hka|Hka].
        + assert (a = i0) as ->.
          { destruct (decide (a = i0)) as [|Hne]; [assumption|].
            exfalso. apply (Hfirst a); [lia|exact Hka]. }
          assert (sync' = c) as ->.
          { rewrite Hsy. unfold c, u32. apply Z.mod_small. lia. }
          destruct (Hset c n (S i0) (sts2, c, w2)) as [_ Hg2]; [unfold c; lia|reflexivity|].
          cbn [fst snd] in *. eapply grows_trans; eauto.
        + subst sync'.
          assert (a <> i0) as Hne by (intros ->; contradiction).
          specialize (IH (S a) (sts2, 0, w2) ltac:(lia) eq_refl). cbn [fst snd] in *.
          eapply grows_trans; [|exact IH].
          assert (mpeg2ps_get_audio_stream_type p (Z.of_nat a) = MPEG_AUDIO_UNKNOWN) as Hun.
          { destruct (decide (mpeg2ps_get_audio_stream_type p (Z.of_nat a)
                              = MPEG_AUDIO_UNKNOWN)) as [|Hn]; [assumption|].
            now destruct Hka. }
          rewrite setup_audio_skip in Hstep by exact Hun.
          injection Hstep as _ <-. apply grows_refl. }
    specialize (Hunset na 0%nat (streams ctx, 0, w) ltac:(lia) eq_refl). cbv zeta in Hunset.
    destruct (foldl (setup_audio p dur) (streams ctx, 0, w) (seq 0 na)) as [[sts sy] w'].
    cbn [snd] in *. now apply grows_emitted.
Qed.

(** The clock id a round of the video loop gives the pid of its entry. *)
Lemma setup_video_clocked (p : mpeg2ps_t) (dur : PropVal) (sts : list M2PSStream)
    (sync : Z) (w : World) (i : nat) :
  let sync' := if sync =? 0 then u32 (1 + Z.of_nat i) else sync in
  match get_stream GF_STREAM_VISUAL sts w with
  | (j, st, sts1, w1) =>
      exists w2,
        setup_video p dur (sts, sync, w) i = (<[j := mark_stream i st]> sts1, sync', w2)
        /\ w_npids w2 = w_npids w1
        /\ (forall o k, o <> opid st ->
              pid_property (w_trace w2) o k = pid_property (w_trace w1) o k)
        /\ pid_property (w_trace w2) (opid st) GF_PROP_PID_CLOCK_ID
           = Some (PROP_UINT sync')
  end.
Proof.
  intros sync'. unfold setup_video.
  destruct (get_stream GF_STREAM_VISUAL sts w) as [[[j st] sts1] w1].
  destruct (get_video_timing _) as [ts inc].
  eexists. split; [reflexivity|]. split; [|split].
  - repeat match goal with
           | |- context [match ?x with _ => _ end] => destruct x
           end; reflexivity.
  - intros o k Hne. cbn [opid mark_stream].
    repeat match goal with
           | |- context [match ?x with _ => _ end] => destruct x
           end;
      rewrite ?pid_property_set_other by congruence; reflexivity.
  - cbn [opid mark_stream stream_type stream_num].
    repeat match goal with
           | |- context [match ?x with _ => _ end] =>
               lazymatch x with
               | context [decide] => fail
               | _ => destruct x
               end
           end.
    all: rewrite ?pid_property_set_same; cbn; reflexivity.
Qed.

Lemma setup_audio_clocked (p : mpeg2ps_t) (dur : PropVal) (sts : list M2PSStream)
    (sync : Z) (w : World) (i : nat) :
  mpeg2ps_get_audio_stream_type p (Z.of_nat i) <> MPEG_AUDIO_UNKNOWN ->
  let sync' := if sync =? 0 then u32 (100 + Z.of_nat i) else sync in
  match get_stream GF_STREAM_AUDIO sts w with
  | (j, st, sts1, w1) =>
      exists w2,
        setup_audio p dur (sts, sync, w) i = (<[j := mark_stream i st]> sts1, sync', w2)
        /\ w_npids w2 = w_npids w1
        /\ (forall o k, o <> opid st ->
              pid_property (w_trace w2) o k = pid_property (w_trace w1) o k)
        /\ pid_property (w_trace w2) (opid st) GF_PROP_PID_CLOCK_ID
           = Some (PROP_UINT sync')
  end.
Proof.
  intros Hknown sync'. unfold setup_audio.
  destruct (get_stream GF_STREAM_AUDIO sts w) as [[[j st] sts1] w1].
  destruct (mpeg2ps_get_audio_stream_type p (Z.of_nat i)) eqn:Hty; try congruence.
  all: eexists; (split; [reflexivity|]); (split; [|split]).
  all: try (repeat match goal with
                   | |- context [match ?x with _ => _ end] => destruct x
                   end; reflexivity).
  all: try (intros o k Hne; cbn [opid mark_stream];
            repeat match goal with
                   | |- context [match ?x with _ => _ end] => destruct x
                   end;
            rewrite ?pid_property_set_other by congruence; reflexivity).
  all: cbn [opid mark_stream stream_type stream_num];
    repeat match goal with
           | |- context [match ?x with _ => _ end] =>
               lazymatch x with
               | context [decide] => fail
               | _ => destruct x
               end
           end;
    rewrite ?pid_property_set_same; cbn; reflexivity.
Qed.

(** With the clock id [c]: [sync_id] is [c] once an entry is in use, and
    every entry in use has [c] on its pid. *)
Definition clocked (c : Z) (acc : SetupSt) : Prop :=
  pids_wf (fst (fst acc)) (snd acc)
  /\ (snd (fst acc) = 0 \/ snd (fst acc) = c)
  /\ forall k st, fst (fst acc) !! k = Some st -> in_use st = true ->
       snd (fst acc) = c
       /\ pid_property (w_trace (snd acc)) (opid st) GF_PROP_PID_CLOCK_ID
          = Some (PROP_UINT c).

Lemma mark_step_clocked (c : Z) (ty : Z) (i j : nat) (st : M2PSStream)
    (sts sts2 : list M2PSStream) (sync : Z) (w w1 w2 : World) :
  sts2 !! j = Some (mark_stream i st) ->
  (forall k, k <> j -> sts2 !! k = sts !! k) ->
  (sts !! j = Some st /\ in_use st = false /\ w1 = w
   \/ sts !! j = None /\ opid st = w_npids w /\ w1 = snd (gf_filter_pid_new w)) ->
  w_npids w2 = w_npids w1 ->
  (forall o k, o <> opid st ->
     pid_property (w_trace w2) o k = pid_property (w_trace w1) o k) ->
  pid_property (w_trace w2) (opid st) GF_PROP_PID_CLOCK_ID = Some (PROP_UINT c) ->
  clocked c (sts, sync, w) -> clocked c (sts2, c, w2).
Proof.
  intros Hj Hother Hcase Hn Hp Hclock (Hwf & Hs & Hall). cbn [fst snd] in *.
  destruct (mark_step_keeps ty i j st sts sts2 w w1 w2 Hwf Hj Hother Hcase Hn Hp)
    as (Hwf2 & Hinv & Hkeep).
  split; [exact Hwf2|]. split; [now right|].
  intros k x Hk Hu. split; [reflexivity|].
  destruct (Hinv _ _ Hk) as [(-> & ->)|(Hne & Hk')]; [exact Hclock|].
  destruct (Hkeep _ _ Hk' Hu) as (_ & _ & Hsame). rewrite Hsame.
  exact (proj2 (Hall _ _ Hk' Hu)).
Qed.

Lemma setup_video_clocked_inv (c : Z) (p : mpeg2ps_t) (dur : PropVal) (i : nat)
    (acc : SetupSt) :
  (snd (fst acc) = 0 -> u32 (1 + Z.of_nat i) = c) -> c <> 0 ->
  clocked c acc -> clocked c (setup_video p dur acc i) /\ snd (fst (setup_video p dur acc i)) = c.
Proof.
  destruct acc as [[sts sync] w]. cbn [fst snd]. intros Hfirst Hc Hinv.
  pose proof (get_stream_step GF_STREAM_VISUAL i sts w) as Hs.
  pose proof (setup_video_clocked p dur sts sync w i) as Hd. cbv zeta in Hd.
  destruct (get_stream GF_STREAM_VISUAL sts w) as [[[j st] sts1] w1].
  destruct Hs as (Hty & Hj & Hother & Hcase).
  destruct Hd as (w2 & -> & Hn & Hp & Hclock). cbn [fst snd].
  assert ((if sync =? 0 then u32 (1 + Z.of_nat i) else sync) = c) as Hsy.
  { destruct Hinv as (_ & [Hz|Hz] & _); cbn [fst snd] in Hz.
    - rewrite Hz. cbn. now apply Hfirst.
    - rewrite Hz. apply Z.eqb_neq in Hc. now rewrite Hc. }
  rewrite Hsy in *. split; [|reflexivity].
  eapply (mark_step_clocked c GF_STREAM_VISUAL i j st sts _ sync w w1 w2); eauto.
Qed.

Lemma setup_audio_clocked_inv (c : Z) (p : mpeg2ps_t) (dur : PropVal) (i : nat)
    (acc : SetupSt) :
  known_audio p i ->
  (snd (fst acc) = 0 -> u32 (100 + Z.of_nat i) = c) -> c <> 0 ->
  clocked c acc -> clocked c (setup_audio p dur acc i) /\ snd (fst (setup_audio p dur acc i)) = c.
Proof.
  destruct acc as [[sts sync] w]. cbn [fst snd]. intros Hk Hfirst Hc Hinv.
  pose proof (get_stream_step GF_STREAM_AUDIO i sts w) as Hs.
  pose proof (setup_audio_clocked p dur sts sync w i Hk) as Hd. cbv zeta in Hd.
  destruct (get_stream GF_STREAM_AUDIO sts w) as [[[j st] sts1] w1].
  destruct Hs as (Hty & Hj & Hother & Hcase).
  destruct Hd as (w2 & -> & Hn & Hp & Hclock). cbn [fst snd].
  assert ((if sync =? 0 then u32 (100 + Z.of_nat i) else sync) = c) as Hsy.
  { destruct Hinv as (_ & [Hz|Hz] & _); cbn [fst snd] in Hz.
    - rewrite Hz. cbn. now apply Hfirst.
    - rewrite Hz. apply Z.eqb_neq in Hc. now rewrite Hc. }
  rewrite Hsy in *. split; [|reflexivity].
  eapply (mark_step_clocked c GF_STREAM_AUDIO i j st sts _ sync w w1 w2); eauto.
Qed.

Lemma clocked_unused (c : Z) (sts : list M2PSStream) (w : World) :
  pids_wf sts w -> Forall (fun st => in_use st = false) sts -> clocked c (sts, 0, w).
Proof.
  intros Hwf Hall. split; [exact Hwf|]. split; [now left|].
  intros k st Hk Hu. cbn [fst snd] in *. rewrite Forall_lookup in Hall.
  rewrite (Hall _ _ Hk) in Hu. discriminate.
Qed.

(** The audio loop, once [sync_id] is set. *)
Lemma setup_audio_loop_clocked (c : Z) (p : mpeg2ps_t) (dur : PropVal) (n a : nat)
    (acc : SetupSt) :
  c <> 0 -> clocked c acc -> snd (fst acc) = c ->
  clocked c (foldl (setup_audio p dur) acc (seq a n)).
Proof.
  intros Hc. revert a acc. induction n as [|n IH]; intros a acc Hinv Hs; cbn [seq foldl].
  - exact Hinv.
  - destruct (decide (mpeg2ps_get_audio_stream_type p (Z.of_nat a) = MPEG_AUDIO_UNKNOWN))
      as [Hty|Hty].
    + rewrite setup_audio_skip by exact Hty. now apply IH.
    + destruct (setup_audio_clocked_inv c p dur a acc Hty) as [H1 H2]; auto.
      intros Hz. congruence.
Qed.

(** The clock id [m2psdmx_setup] leaves on the pid of every entry in
    use. *)
Lemma m2psdmx_setup_clocked (p : mpeg2ps_t) (ctx : GF_M2PSDmxCtx lib) (w : World) :
  pids_wf (streams ctx) w -> Forall (fun st => in_use st = false) (streams ctx) ->
  let '(ctx', w') := m2psdmx_setup p ctx w in
  let clock c :=
    forall st, st ∈ streams ctx' -> in_use st = true ->
      pid_property (w_trace w') (opid st) GF_PROP_PID_CLOCK_ID = Some (PROP_UINT c) in
  ((0 < mpeg2ps_get_video_stream_count p)%nat -> clock 1)
  /\ (forall i0 : nat,
        mpeg2ps_get_video_stream_count p = 0%nat ->
        known_audio p i0 -> (forall i, (i < i0)%nat -> ~ known_audio p i) ->
        100 + Z.of_nat i0 < 2 ^ 32 ->
        clock (100 + Z.of_nat i0)).
Proof.
  intros Hwf Hall. unfold m2psdmx_setup.
  set (dur := PROP_FRAC _ _). cbn [streams set_first_dts].
  set (nv := mpeg2ps_get_video_stream_count p).
  set (na := mpeg2ps_get_audio_stream_count p).
  assert (forall c (acc : SetupSt),
            clocked c acc ->
            let '(sts, _, w') := acc in
            forall st, st ∈ sts -> in_use st = true ->
              pid_property (w_trace w') (opid st) GF_PROP_PID_CLOCK_ID
              = Some (PROP_UINT c)) as Hread.
  { intros c [[sts sy] w'] (_ & _ & Hc) st Hin Hu. cbn [fst snd] in Hc.
    apply list_elem_of_lookup in Hin as [k Hk]. exact (proj2 (Hc _ _ Hk Hu)). }
  assert (exists acc, foldl (setup_audio p dur)
                        (foldl (setup_video p dur) (streams ctx, 0, w) (seq 0 nv))
                        (seq 0 na) = acc
                      /\ ((0 < nv)%nat -> clocked 1 acc)
                      /\ (forall i0 : nat,
                            nv = 0%nat -> known_audio p i0 ->
                            (forall i, (i < i0)%nat -> ~ known_audio p i) ->
                            100 + Z.of_nat i0 < 2 ^ 32 ->
                            clocked (100 + Z.of_nat i0) acc)) as (acc & -> & Hv & Ha).
  { eexists. split; [reflexivity|]. split.
    - intros Hnv.
      pose proof (foldl_seq_inv
                    (fun i (acc : SetupSt) =>
                       clocked 1 acc /\ ((0 < i)%nat -> snd (fst acc) = 1))
                    (setup_video p dur)) as Hloop.
      destruct (Hloop ltac:(
                  intros i s [Hc Hs];
                  destruct (setup_video_clocked_inv 1 p dur i s) as [H1 H2];
                  [intros Hz; destruct (decide (i = 0%nat)) as [->|Hne]; [reflexivity|];
                   rewrite Hs in Hz by lia; discriminate
                  |discriminate|exact Hc|split; [exact H1|intros _; exact H2]])
                nv 0%nat (streams ctx, 0, w)) as [Hc Hs].
      { split; [now apply clocked_unused|lia]. }
      apply setup_audio_loop_clocked; [discriminate|exact Hc|apply Hs; lia].
    - intros i0 Hnv Hk0 Hfirst Hbound. rewrite Hnv. cbn [seq foldl].
      set (c := 100 + Z.of_nat i0).
      pose proof (foldl_seq_inv
                    (fun i (acc : SetupSt) =>
                       clocked c acc /\ ((i <= i0)%nat -> snd (fst acc) = 0)
                       /\ ((i0 < i)%nat -> snd (fst acc) = c))
                    (setup_audio p dur)) as Hloop.
      apply (Hloop ltac:(
               intros i s (Hc & Hlow & Hhigh);
               destruct (decide (mpeg2ps_get_audio_stream_type p (Z.of_nat i)
                                 = MPEG_AUDIO_UNKNOWN)) as [Hty|Hty];
               [rewrite setup_audio_skip by exact Hty;
                split; [exact Hc|split; [intros; apply Hlow; lia|]];
                intros Hi; apply Hhigh;
                destruct (decide (i = i0)) as [->|Hne]; [now destruct Hk0|lia]
               |destruct (setup_audio_clocked_inv c p dur i s Hty) as [H1 H2];
                [intros Hz; destruct (decide (i = i0)) as [->|Hne];
                 [unfold c, u32; apply Z.mod_small; lia|];
                 destruct (decide (i < i0)%nat) as [Hlt|Hge];
                 [now destruct (Hfirst i Hlt)|rewrite Hhigh in Hz by lia; unfold c in Hz; lia]
                |unfold c; lia|exact Hc|];
                split; [exact H1|split; [|intros _; exact H2]];
                intros Hi; destruct (Hfirst i ltac:(lia) Hty)])
             na 0%nat (streams ctx, 0, w)).
      split; [now apply clocked_unused|]. split; [reflexivity|lia]. }
  destruct acc as [[sts sy] w']. cbn [streams set_streams]. split.
  - intros Hnv. exact (Hread 1 (sts, sy, w') (Hv Hnv)).
  - intros i0 Hnv Hk0 Hfirst Hbound.
    exact (Hread _ (sts, sy, w') (Ha i0 Hnv Hk0 Hfirst Hbound)).
Qed.

(** X13: [m2psdmx_setup], run as [process] runs it (no entry in use, every
    entry on a pid of its own), gives the streams of a source one clock:
    the pid of every entry in use has the same clock id, and no other
    clock id is set.  The id is 1, that of the first video stream, when
    the source has a video stream; when it has none it is the id, 100
    plus its number, of the first audio stream of a known type. *)
Theorem m2psdmx_setup_one_clock (p : mpeg2ps_t) (ctx : GF_M2PSDmxCtx lib) (w : World) :
  pids_wf (streams ctx) w -> Forall (fun st => in_use st = false) (streams ctx) ->
  let '(ctx', w') := m2psdmx_setup p ctx w in
  let one_clock c :=
    (forall st, st ∈ streams ctx' -> in_use st = true ->
       pid_property (w_trace w') (opid st) GF_PROP_PID_CLOCK_ID = Some (PROP_UINT c))
    /\ Forall (clock_is c) (emitted w w') in
  ((0 < mpeg2ps_get_video_stream_count p)%nat -> one_clock 1)
  /\ (forall i0 : nat,
        mpeg2ps_get_video_stream_count p = 0%nat ->
        known_audio p i0 -> (forall i, (i < i0)%nat -> ~ known_audio p i) ->
        100 + Z.of_nat i0 < 2 ^ 32 ->
        one_clock (100 + Z.of_nat i0)).
Proof.
  intros Hwf Hall.
  pose proof (m2psdmx_setup_clocked p ctx w Hwf Hall) as Hpid.
  pose proof (m2psdmx_setup_clock_ids p ctx w) as Hids. cbv zeta in Hids.
  destruct (m2psdmx_setup p ctx w) as [ctx' w']. cbn [snd] in Hids.
  cbv zeta in Hpid |- *. destruct Hpid as [Hpv Hpa]. destruct Hids as [Hiv Hia].
  split.
  - intros Hnv. split; [exact (Hpv Hnv)|exact (Hiv Hnv)].
  - intros i0 Hnv Hk Hfirst Hb. split; [exact (Hpa i0 Hnv Hk Hfirst Hb)|exact (Hia i0 Hnv Hk Hfirst Hb)].
Qed.

End DemuxSetup.

Section DemuxFrames.
Import M2PSDmx.
Context {lib : Mpeg2Ps}.

(** ** Frame rates and payloads *)

(** X14: [get_video_timing] keeps the frame rate.  With [fps_1000] the
    rate in frames per 1000 s as the code rounds it, the timescale over
    [dts_inc] is [fps_1000 / 1000] exactly, save for the three drop-frame
    rates 29.97, 23.976 and 59.94, which become 30000, 24000 and 60000
    over 1001 (off by less than one part in 10^6).  The doubles nearest
    to those three rates are recognised as such. *)
Theorem get_video_timing_keeps_rate (fps : Double) :
  let fps_1000 := u32 (double_to_Z (fps * 1000 + 0.5)%float) in
  let '(timescale, dts_inc) := get_video_timing fps in
  (dts_inc = 1000 /\ timescale = fps_1000
   \/ dts_inc = 1001 /\ (fps_1000, timescale) ∈ [(29970, 30000); (23976, 24000); (59940, 60000)])
  /\ (dts_inc = 1001 <-> fps_1000 ∈ [29970; 23976; 59940])
  /\ 0 <= timescale * 1000 - fps_1000 * dts_inc <= 60
  /\ 0 <= timescale < 2 ^ 32
  /\ get_video_timing (2997 / 100)%float = (30000, 1001)
  /\ get_video_timing (23976 / 1000)%float = (24000, 1001)
  /\ get_video_timing (5994 / 100)%float = (60000, 1001).
Proof.
  unfold get_video_timing.
  set (n := u32 _). cbv zeta.
  assert (0 <= n < 2 ^ 32) as Hn by (apply Z.mod_pos_bound; lia).
  assert (forall x, x ∈ [29970; 23976; 59940] <-> x = 29970 \/ x = 23976 \/ x = 59940) as Hin.
  { intros x. rewrite !elem_of_cons, elem_of_nil. tauto. }
  destruct (n =? 29970) eqn:H1; [apply Z.eqb_eq in H1|apply Z.eqb_neq in H1].
  { rewrite H1, Hin. repeat split; try lia; try (vm_compute; reflexivity); auto.
    right. split; [reflexivity|]. left. }
  destruct (n =? 23976) eqn:H2; [apply Z.eqb_eq in H2|apply Z.eqb_neq in H2].
  { rewrite H2, Hin. repeat split; try lia; try (vm_compute; reflexivity); auto.
    right. split; [reflexivity|]. right. left. }
  destruct (n =? 59940) eqn:H3; [apply Z.eqb_eq in H3|apply Z.eqb_neq in H3].
  { rewrite H3, Hin. repeat split; try lia; try (vm_compute; reflexivity); auto.
    right. split; [reflexivity|]. right. right. left. }
  rewrite Hin. repeat split; try lia; try (vm_compute; reflexivity); auto.
Qed.

Lemma ends_with_start_code_spec (buf : list Z) :
  ends_with_start_code buf = true <-> exists pre x, buf = pre ++ [0; 0; 1; x].
Proof.
  unfold ends_with_start_code. rewrite bool_decide_eq_true. split.
  - intros (H0 & H1 & H2 & Hn).
    exists (take (length buf - 4) buf).
    pose proof (take_drop (length buf - 4) buf) as Htd.
    assert (length (drop (length buf - 4) buf) = 4%nat) as Hl by (rewrite length_drop; lia).
    destruct (drop (length buf - 4) buf) as [|a [|b [|c [|d [|]]]]] eqn:Hd; try discriminate.
    exists d. rewrite <- Htd at 1. f_equal.
    assert (forall k v, (k < 4)%nat -> [a; b; c; d] !! k = Some v ->
              buf !! (length buf - 4 + k)%nat = Some v) as Hlk.
    { intros k v Hk Hv. rewrite <- Hd in Hv. now rewrite lookup_drop in Hv. }
    pose proof (Hlk 0%nat a ltac:(lia) eq_refl) as Ha.
    pose proof (Hlk 1%nat b ltac:(lia) eq_refl) as Hb.
    pose proof (Hlk 2%nat c ltac:(lia) eq_refl) as Hc.
    replace (length buf - 4 + 0)%nat with (length buf - 4)%nat in Ha by lia.
    replace (length buf - 4 + 1)%nat with (length buf - 3)%nat in Hb by lia.
    replace (length buf - 4 + 2)%nat with (length buf - 2)%nat in Hc by lia.
    congruence.
  - intros (pre & x & ->). rewrite length_app. cbn [length].
    replace (length pre + 4 - 4)%nat with (length pre + 0)%nat by lia.
    replace (length pre + 4 - 3)%nat with (length pre + 1)%nat by lia.
    replace (length pre + 4 - 2)%nat with (length pre + 2)%nat by lia.
    rewrite !lookup_app_r by lia.
    replace (length pre + 0 - length pre)%nat with 0%nat by lia.
    replace (length pre + 1 - length pre)%nat with 1%nat by lia.
    replace (length pre + 2 - length pre)%nat with 2%nat by lia.
    repeat split; auto. lia.
Qed.

(** X15: for a video entry in use whose pid does not block and whose read
    gives a frame of four bytes or more (and fewer than 2^32, the length
    being a [u32]), the dispatch loop makes the read, an allocation and a
    dispatch on the pid of the entry, and leaves [nb_done] as it was.
    The packet carries the frame without its last four bytes when these
    are a start code ([00 00 01 xx]), and the whole frame otherwise; its
    dts and cts are those of the frame less [first_dts]; it is a SAP
    exactly when the frame type is 1.  (A shorter frame is outside the
    statement: the source reads [buf[buf_len - 4]] before the start of
    such a frame.) *)
Theorem process_stream_video_payload (fd : Z) (p p' : mpeg2ps_t) (nb : nat) (w : World)
    (st : M2PSStream) (fr : VideoFrame) :
  in_use st = true -> gf_filter_pid_would_block w (opid st) = false ->
  stream_type st = GF_STREAM_VISUAL ->
  mpeg2ps_get_video_frame p (stream_num st) = (Some fr, p') ->
  4 <= Z.of_nat (length (vf_buf fr)) < 2 ^ 32 ->
  exists pck w',
    process_stream fd (p, nb, w) st = (p', nb, w')
    /\ emitted w w'
       = [EvPsGetFrame Video (stream_num st);
          EvPckNewAlloc (opid st) (Z.of_nat (length (pck_data pck)));
          EvPckSend (opid st) pck]
    /\ (forall pre x, vf_buf fr = pre ++ [0; 0; 1; x] -> pck_data pck = pre)
    /\ ((forall pre x, vf_buf fr <> pre ++ [0; 0; 1; x]) -> pck_data pck = vf_buf fr)
    /\ pck_dts pck = Some (u64 (vf_dts fr - fd))
    /\ pck_cts pck = Some (u64 (vf_cts fr - fd))
    /\ pck_sap pck = (if vf_ftype fr =? 1 then Some GF_FILTER_SAP_1 else None)
    /\ pck_duration pck = None.
Proof.
  intros Hu Hb Hty Hfr Hlen. unfold process_stream. rewrite Hu, Hb, Hty, Hfr.
  cbn [negb Z.eqb GF_STREAM_VISUAL Pos.eqb].
  set (buf := if ends_with_start_code (vf_buf fr)
              then take (length (vf_buf fr) - 4) (vf_buf fr) else vf_buf fr).
  assert (forall x, u64 (u64 x) = u64 x) as Hidem
    by (intros x; unfold u64; apply Z.mod_mod; lia).
  exists (gf_filter_pck_set_cts
            (gf_filter_pck_set_dts
               (if vf_ftype fr =? 1
                then gf_filter_pck_set_sap (pck_new buf) GF_FILTER_SAP_1 else pck_new buf)
               (u64 (vf_dts fr - fd)))
            (u64 (vf_cts fr - fd))).
  eexists. split; [reflexivity|].
  assert (pck_data
            (gf_filter_pck_set_cts
               (gf_filter_pck_set_dts
                  (if vf_ftype fr =? 1
                   then gf_filter_pck_set_sap (pck_new buf) GF_FILTER_SAP_1 else pck_new buf)
                  (u64 (vf_dts fr - fd)))
               (u64 (vf_cts fr - fd))) = buf) as Hdata
    by (destruct (vf_ftype fr =? 1); reflexivity).
  rewrite Hdata. split; [|split; [|split]].
  - apply emitted_app. cbn. rewrite <- !app_assoc. reflexivity.
  - intros pre x Hbuf. subst buf.
    assert (ends_with_start_code (vf_buf fr) = true) as ->
      by (apply ends_with_start_code_spec; eauto).
    rewrite Hbuf, length_app. cbn [length].
    replace (length pre + 4 - 4)%nat with (length pre) by lia.
    now rewrite take_app_length.
  - intros Hno. subst buf.
    assert (ends_with_start_code (vf_buf fr) = false) as ->; [|reflexivity].
    destruct (ends_with_start_code (vf_buf fr)) eqn:He; [|reflexivity].
    apply ends_with_start_code_spec in He as (pre & x & He). now destruct (Hno pre x).
  - cbn. rewrite !Hidem. destruct (vf_ftype fr =? 1); repeat split.
Qed.

End DemuxFrames.

Section EncoderRounds.
Import FFEnc.
Context {codec : AVCodec}.

(** ** The calls of a round of the encoder, one by one *)

(** What [ffenc_config_input] sets and [process] only reads. *)
Definition configuration (ctx : GF_FFEncodeCtx codec) :=
  (all_intra ctx, in_pid ctx, out_pid ctx, timescale ctx, process ctx,
   enc_buffer_size ctx, (width ctx, height ctx, stride ctx, stride_uv ctx, nb_planes ctx),
   pixel_fmt ctx, (channels ctx, sample_rate ctx, bytes_per_sample ctx, sample_fmt ctx)).

(** The calls of the end of a round, from [if (res<0)] on, by the reply
    [r] of the encode call: an error log; nothing; or the coded unit
    allocated and sent on the output pid, with the audio-skip property in
    between when the audio encoder captures a shift. *)
Definition finish_events (k : StreamKind) (r : EncReply) (ctx ctx' : GF_FFEncodeCtx codec)
  : list Ev :=
  if enc_res r <? 0 then [encode_error_log]
  else if enc_gotpck r =? 0 then []
  else
    [EvPckNewAlloc (out_pid ctx) (Z.of_nat (length (pkt_data (enc_pkt r))))]
    ++ (match k with
        | Audio =>
            if init_cts_setup ctx && negb (ts_shift ctx' =? 0)
            then [EvSetProperty (out_pid ctx) GF_PROP_PID_AUDIO_SKIP
                    (Some (audio_skip (ts_shift ctx') ctx))]
            else []
        | Video => []
        end)
    ++ [EvPckSend (out_pid ctx)
          (coded_packet (enc_pkt r) (match k with Video => 0 | Audio => ts_shift ctx' end))].

Definition finish_code (r : EncReply) : GF_Err :=
  if enc_res r <? 0 then GF_SERVICE_ERROR else GF_OK.

Lemma send_coded_inq (pkt : AVPacket) (shift : Z) (pid : nat) (w : World) :
  w_inq (send_coded pkt shift pid w) = w_inq w.
Proof. reflexivity. Qed.

Lemma video_tail_events (r : EncReply) (ctx0 : GF_FFEncodeCtx codec) (w0 : World) :
  let '(e, ctx', w') := video_tail r ctx0 w0 in
  ctx' = ctx0 /\ e = finish_code r
  /\ w_trace w' = w_trace w0 ++ finish_events Video r ctx0 ctx'
  /\ w_inq w' = w_inq w0
  /\ w_would_block w' = w_would_block w0 /\ w_in_eos w' = w_in_eos w0.
Proof.
  unfold video_tail, finish_events, finish_code.
  destruct (enc_res r <? 0); [repeat split|].
  destruct (enc_gotpck r =? 0); [repeat split; now rewrite app_nil_r|].
  repeat split. now rewrite send_coded_trace.
Qed.

Lemma audio_tail_events (r : EncReply) (ctx0 : GF_FFEncodeCtx codec) (w0 : World) :
  let '(e, ctx', w') := audio_tail r ctx0 w0 in
  e = finish_code r
  /\ w_trace w' = w_trace w0 ++ finish_events Audio r ctx0 ctx'
  /\ w_inq w' = w_inq w0
  /\ configuration ctx' = configuration ctx0
  /\ flush_done ctx' = flush_done ctx0 /\ frame ctx' = frame ctx0
  /\ encoder ctx' = encoder ctx0
  /\ bytes_in_audio_buffer ctx' = bytes_in_audio_buffer ctx0
  /\ audio_buffer ctx' = audio_buffer ctx0
  /\ first_byte_cts ctx' = first_byte_cts ctx0
  /\ w_would_block w' = w_would_block w0 /\ w_in_eos w' = w_in_eos w0.
Proof.
  unfold audio_tail, finish_events, finish_code.
  destruct (enc_res r <? 0); [repeat split|].
  destruct (enc_gotpck r =? 0); [repeat split; now rewrite app_nil_r|].
  unfold capture_ts_shift, audio_skip.
  destruct (init_cts_setup ctx0) eqn:Hi; cbn [andb].
  2: { repeat split. rewrite send_packet_trace. cbn. now rewrite <- app_assoc. }
  cbn [frame set_init_cts_setup].
  destruct (negb (pts (frame ctx0) =? pkt_pts (enc_pkt r)));
    cbn [ts_shift set_ts_shift set_init_cts_setup];
    match goal with |- context [negb (?x =? 0)] => destruct (negb (x =? 0)) eqn:Hz end;
    cbn [ts_shift set_ts_shift set_init_cts_setup out_pid sample_rate timescale fst snd];
    rewrite ?Hz; repeat split; rewrite ?send_packet_trace; cbn; rewrite <- ?app_assoc;
    reflexivity.
Qed.

Definition fetch_error_log : Ev := EvLog GF_LOG_ERROR "[FFEnc] Failed to fetch frame data".
Definition fill_error_log : Ev := EvLog GF_LOG_ERROR "[FFEnc] Error filling raw audio frame".
Definition no_data_log : Ev := EvLog GF_LOG_WARNING "[FFEnc] Packet without associated data".

(** The pts of the frame the codec gets for the packet [pk]: the cts of
    the packet; for audio, the cts of the first byte of the frame, which
    is an older one when bytes of an earlier packet are in the buffer. *)
Definition frame_pts (ctx : GF_FFEncodeCtx codec) (pk : InPck) : Z :=
  match process ctx with
  | Video => s64 (in_cts pk)
  | Audio => s64 (if bytes_in_audio_buffer ctx =? 0 then in_cts pk else first_byte_cts ctx)
  end.

(** What the round keeps besides the configuration when it makes no
    encode call. *)
Definition same_codec_state (ctx ctx' : GF_FFEncodeCtx codec) : Prop :=
  encoder ctx' = encoder ctx /\ flush_done ctx' = flush_done ctx
  /\ init_cts_setup ctx' = init_cts_setup ctx /\ ts_shift ctx' = ts_shift ctx.

(** The ways of a round of [ffenc_process], each with the calls it makes. *)
Inductive enc_round (w : World) (ctx : GF_FFEncodeCtx codec)
    (e : GF_Err) (ctx' : GF_FFEncodeCtx codec) : list Ev -> Prop :=
| BlockedRound :
    gf_filter_pid_would_block w (out_pid ctx) = true -> e = GF_OK -> ctx' = ctx ->
    enc_round w ctx e ctx' []
| StarvedRound :
    gf_filter_pid_would_block w (out_pid ctx) = false -> head (w_inq w) = None ->
    flush_done ctx = true -> w_in_eos w = false -> e = GF_OK -> ctx' = ctx ->
    enc_round w ctx e ctx' []
| NoDataRound (pk : InPck) :
    gf_filter_pid_would_block w (out_pid ctx) = false -> head (w_inq w) = Some pk ->
    process ctx = Audio -> in_data pk = None -> e = GF_OK -> ctx' = ctx ->
    enc_round w ctx e ctx' [no_data_log; EvDropPacket]
| NoFrameRound (pk : InPck) :
    gf_filter_pid_would_block w (out_pid ctx) = false -> head (w_inq w) = Some pk ->
    process ctx = Video -> in_data pk = None -> e <> GF_OK ->
    same_codec_state ctx ctx' ->
    enc_round w ctx e ctx' [fetch_error_log; EvDropPacket]
| BufferedRound (pk : InPck) (data : list Z) :
    gf_filter_pid_would_block w (out_pid ctx) = false -> head (w_inq w) = Some pk ->
    process ctx = Audio -> in_data pk = Some data ->
    frame_size (encoder ctx) <> 0 ->
    u32 (u32 (Z.of_nat (length data)) + bytes_in_audio_buffer ctx)
    < u32 (bytes_per_sample ctx * frame_size (encoder ctx)) ->
    e = GF_OK -> same_codec_state ctx ctx' ->
    bytes_in_audio_buffer ctx'
    = u32 (bytes_in_audio_buffer ctx + u32 (Z.of_nat (length data))) ->
    audio_buffer ctx'
    = memcpy (audio_buffer ctx) (Z.to_nat (bytes_in_audio_buffer ctx))
        (take (Z.to_nat (u32 (Z.of_nat (length data)))) data) ->
    first_byte_cts ctx'
    = (if bytes_in_audio_buffer ctx =? 0 then in_cts pk else first_byte_cts ctx) ->
    enc_round w ctx e ctx' [EvDropPacket]
| FillFailedRound (pk : InPck) (data : list Z) :
    gf_filter_pid_would_block w (out_pid ctx) = false -> head (w_inq w) = Some pk ->
    process ctx = Audio -> in_data pk = Some data -> e = GF_SERVICE_ERROR ->
    same_codec_state ctx ctx' ->
    enc_round w ctx e ctx' [fill_error_log; EvDropPacket]
| EncodedRound (pk : InPck) (r : EncReply) :
    gf_filter_pid_would_block w (out_pid ctx) = false -> head (w_inq w) = Some pk ->
    e = finish_code r -> flush_done ctx' = flush_done ctx ->
    pts (frame ctx') = frame_pts ctx pk ->
    enc_round w ctx e ctx'
      ([EvEncode (process ctx) (Some (frame_pts ctx pk)) r; EvDropPacket]
       ++ finish_events (process ctx) r ctx ctx')
| FlushEndRound (r : EncReply) :
    gf_filter_pid_would_block w (out_pid ctx) = false -> head (w_inq w) = None ->
    ~ (flush_done ctx = true /\ w_in_eos w = false) ->
    enc_gotpck r = 0 -> e = GF_EOS -> flush_done ctx' = true ->
    enc_round w ctx e ctx' [EvEncode (process ctx) None r; EvSetEos (out_pid ctx)]
| FlushedRound (r : EncReply) :
    gf_filter_pid_would_block w (out_pid ctx) = false -> head (w_inq w) = None ->
    ~ (flush_done ctx = true /\ w_in_eos w = false) ->
    enc_gotpck r <> 0 -> e = finish_code r -> flush_done ctx' = flush_done ctx ->
    enc_round w ctx e ctx'
      ([EvEncode (process ctx) None r] ++ finish_events (process ctx) r ctx ctx').

Lemma keep_remaining_keeps (pk : InPck) (data : list Z) (size nb_copy : Z)
    (ctx : GF_FFEncodeCtx codec) :
  let ctx' := keep_remaining pk data size nb_copy ctx in
  configuration ctx' = configuration ctx /\ same_codec_state ctx ctx'
  /\ frame ctx' = frame ctx.
Proof. unfold keep_remaining. destruct (negb (size =? 0)); repeat split. Qed.

Lemma fill_frame_config' (data : list Z) (size : Z) (ctx : GF_FFEncodeCtx codec) :
  let ctx' := snd (fill_frame data size ctx) in
  configuration ctx' = configuration ctx /\ same_codec_state ctx ctx'
  /\ first_byte_cts ctx' = first_byte_cts ctx.
Proof.
  unfold fill_frame. destruct (negb (frame_size (encoder ctx) =? 0)); cbv zeta;
    destruct (avcodec_fill_audio_frame _ _ _ _ _) as [res fr]; repeat split.
Qed.

Definition round_result (w : World) (ctx : GF_FFEncodeCtx codec)
    (res : GF_Err * GF_FFEncodeCtx codec * World) : Prop :=
  let '(e, ctx', w') := res in
  exists evs, w_trace w' = w_trace w ++ evs /\ enc_round w ctx e ctx' evs
              /\ w_inq w' = (if gf_filter_pid_would_block w (out_pid ctx)
                             then w_inq w else tail (w_inq w))
              /\ configuration ctx' = configuration ctx
              /\ w_would_block w' = w_would_block w /\ w_in_eos w' = w_in_eos w.

Ltac trace_is :=
  cbn [w_trace w_inq emit GF_LOG gf_filter_pid_drop_packet gf_filter_pid_set_eos
       gf_filter_pid_set_property gf_filter_pck_new_alloc gf_filter_pck_send
       send_coded send_packet fst snd];
  rewrite <- ?app_assoc; cbn [app]; try reflexivity.

Lemma finish_events_ext (k : StreamKind) (r : EncReply) (c1 c2 ctx' : GF_FFEncodeCtx codec) :
  out_pid c1 = out_pid c2 -> init_cts_setup c1 = init_cts_setup c2 ->
  sample_rate c1 = sample_rate c2 -> timescale c1 = timescale c2 ->
  finish_events k r c1 ctx' = finish_events k r c2 ctx'.
Proof.
  intros H1 H2 H3 H4. unfold finish_events, audio_skip. now rewrite H1, H2, H3, H4.
Qed.

Lemma ffenc_process_video_events (w : World) (ctx : GF_FFEncodeCtx codec) :
  gf_filter_pid_would_block w (out_pid ctx) = false -> process ctx = Video ->
  round_result w ctx (ffenc_process_video w ctx).
Proof.
  intros Hb Hk. unfold round_result, ffenc_process_video, gf_filter_pid_get_packet.
  rewrite Hb.
  assert (forall pk, frame_pts ctx pk = s64 (in_cts pk)) as Hfp
    by (intros pk; unfold frame_pts; now rewrite Hk).
  destruct (head (w_inq w)) as [pk|] eqn:Hh.
  - rewrite bool_decide_false by discriminate. cbn [andb].
    match goal with
    | |- context [match in_data pk with Some _ => ?a | None => ?b end] =>
        destruct (match in_data pk with Some _ => a | None => b end) as [e fr] eqn:Hfr
    end.
    destruct (bool_decide (e <> GF_OK)) eqn:He.
    + apply bool_decide_eq_true in He.
      exists [fetch_error_log; EvDropPacket]. split; [trace_is|].
      split; [|repeat split].
      apply (NoFrameRound _ _ _ _ pk); auto; [|repeat split].
      destruct (in_data pk); [|reflexivity]. injection Hfr as <- _. now destruct He.
    + destruct (avcodec_encode_video2 _ _ _) as [r enc] eqn:Henc.
      match goal with
      | |- context [video_tail r ?c ?w0] =>
          pose proof (video_tail_events r c w0) as Ht;
          destruct (video_tail r c w0) as [[e' ctx'] w']
      end.
      destruct Ht as (Hc & -> & Ht & Hq & Hwb & Heos).
      match type of Ht with
      | _ = _ ++ finish_events _ _ ?c _ =>
          rewrite (finish_events_ext Video r c ctx ctx') in Ht by reflexivity
      end.
      exists ([EvEncode (process ctx) (Some (frame_pts ctx pk)) r; EvDropPacket]
              ++ finish_events (process ctx) r ctx ctx').
      split; [rewrite Ht, Hk, Hfp; trace_is|].
      split; [|rewrite Hc, ?Hq, Hwb, Heos; repeat split].
      apply (EncodedRound _ _ _ _ pk r); auto; rewrite Hc; [reflexivity|].
      now rewrite Hfp.
  - rewrite bool_decide_true by reflexivity. cbn [andb].
    assert (tail (w_inq w) = w_inq w) as Htl
      by (destruct (w_inq w); [reflexivity|discriminate]).
    rewrite Htl.
    destruct (flush_done ctx && negb (gf_filter_pid_is_eos w)) eqn:Hidle.
    + apply andb_prop in Hidle as [H1 H2]. apply negb_true_iff in H2.
      exists []. rewrite app_nil_r. split; [reflexivity|]. split; [|repeat split].
      now apply StarvedRound.
    + assert (~ (flush_done ctx = true /\ w_in_eos w = false)) as Hnot.
      { intros [H1 H2]. unfold gf_filter_pid_is_eos in Hidle. now rewrite H1, H2 in Hidle. }
      destruct (avcodec_encode_video2 _ _ _) as [r enc] eqn:Henc.
      destruct (enc_gotpck r =? 0) eqn:Hg.
      * apply Z.eqb_eq in Hg.
        exists [EvEncode Video None r; EvSetEos (out_pid ctx)]. split; [trace_is|].
        split; [|repeat split]. rewrite <- Hk. now apply FlushEndRound.
      * apply Z.eqb_neq in Hg.
        match goal with
        | |- context [video_tail r ?c ?w0] =>
            pose proof (video_tail_events r c w0) as Ht;
            destruct (video_tail r c w0) as [[e' ctx'] w']
        end.
        destruct Ht as (Hc & -> & Ht & Hq & Hwb & Heos).
        match type of Ht with
        | _ = _ ++ finish_events _ _ ?c _ =>
            rewrite (finish_events_ext Video r c ctx ctx') in Ht by reflexivity
        end.
        exists ([EvEncode (process ctx) None r] ++ finish_events (process ctx) r ctx ctx').
        split; [rewrite Ht, Hk; trace_is|].
        split; [|rewrite Hc, ?Hq, Hwb, Heos; repeat split].
        apply FlushedRound; auto. now rewrite Hc.
Qed.

Lemma configuration_fields (c1 c2 : GF_FFEncodeCtx codec) :
  configuration c1 = configuration c2 ->
  out_pid c1 = out_pid c2 /\ sample_rate c1 = sample_rate c2
  /\ timescale c1 = timescale c2 /\ process c1 = process c2.
Proof. unfold configuration. intros H. injection H. intros. auto. Qed.

Lemma ffenc_process_audio_events (w : World) (ctx : GF_FFEncodeCtx codec) :
  gf_filter_pid_would_block w (out_pid ctx) = false -> process ctx = Audio ->
  round_result w ctx (ffenc_process_audio w ctx).
Proof.
  intros Hb Hk. unfold round_result, ffenc_process_audio, gf_filter_pid_get_packet.
  rewrite Hb.
  destruct (head (w_inq w)) as [pk|] eqn:Hh.
  - rewrite bool_decide_false by discriminate. cbn [andb].
    destruct (in_data pk) as [data|] eqn:Hdata.
    2: { exists [no_data_log; EvDropPacket]. split; [trace_is|].
         split; [|repeat split]. now apply (NoDataRound _ _ _ _ pk). }
    set (ctx1 := if bytes_in_audio_buffer ctx =? 0
                 then set_first_byte_cts (in_cts pk) ctx else ctx).
    assert (configuration ctx1 = configuration ctx /\ same_codec_state ctx ctx1
            /\ bytes_in_audio_buffer ctx1 = bytes_in_audio_buffer ctx
            /\ audio_buffer ctx1 = audio_buffer ctx
            /\ bytes_per_sample ctx1 = bytes_per_sample ctx
            /\ first_byte_cts ctx1
               = (if bytes_in_audio_buffer ctx =? 0 then in_cts pk else first_byte_cts ctx))
      as (Hc1 & Hs1 & Hbytes & Hbuf & Hbps & Hfb)
      by (subst ctx1; destruct (bytes_in_audio_buffer ctx =? 0); repeat split).
    assert (encoder ctx1 = encoder ctx) as Henc1 by apply Hs1.
    rewrite Henc1, Hbytes, Hbps.
    destruct (negb (frame_size (encoder ctx) =? 0)
              && (u32 (u32 (Z.of_nat (length data)) + bytes_in_audio_buffer ctx)
                  <? u32 (bytes_per_sample ctx * frame_size (encoder ctx)))) eqn:Hsmall.
    { apply andb_prop in Hsmall as [Hfs Hlt]. apply negb_true_iff, Z.eqb_neq in Hfs.
      apply Z.ltb_lt in Hlt.
      exists [EvDropPacket]. split; [trace_is|]. split; [|repeat split; apply Hc1].
      apply (BufferedRound _ _ _ _ pk data); auto;
        cbn [bytes_in_audio_buffer audio_buffer first_byte_cts set_bytes_in_audio_buffer
             set_audio_buffer];
        rewrite ?Hbytes, ?Hbuf; try assumption; try reflexivity. }
    pose proof (fill_frame_config' data (u32 (Z.of_nat (length data))) ctx1)
      as (Hc2 & Hs2 & Hfb2).
    destruct (fill_frame data (u32 (Z.of_nat (length data))) ctx1)
      as [[[[res nb_copy] data'] size'] ctx2].
    cbn [snd] in Hc2, Hs2, Hfb2.
    destruct (res <? 0).
    { pose proof (keep_remaining_keeps pk data' size' nb_copy ctx2) as (Hc3 & Hs3 & _).
      exists [fill_error_log; EvDropPacket]. split; [trace_is|].
      split; [|repeat split; congruence].
      apply (FillFailedRound _ _ _ _ pk data); auto.
      destruct Hs1 as (? & ? & ? & ?), Hs2 as (? & ? & ? & ?), Hs3 as (? & ? & ? & ?).
      repeat split; congruence. }
    destruct (avcodec_encode_audio2 _ _ _) as [r enc] eqn:Hencode.
    match goal with
    | |- context [audio_tail r ?c ?w0] =>
        pose proof (audio_tail_events r c w0) as Ht;
        pose proof (keep_remaining_keeps pk data' size' nb_copy
                      (set_encoder enc
                         (set_frame
                            (set_f_pkt_dts (s64 (first_byte_cts ctx2))
                               (set_f_pkt_pts (s64 (first_byte_cts ctx2))
                                  (set_pts (s64 (first_byte_cts ctx2)) (frame ctx2))))
                            ctx2))) as (Hc3 & Hs3 & Hf3);
        set (ctx0 := c) in *;
        destruct (audio_tail r ctx0 w0) as [[e' ctx'] w']
    end.
    cbv zeta in Hc3, Hs3, Hf3. fold ctx0 in Hc3, Hs3, Hf3.
    destruct Ht as (-> & Ht & Hq & Hc4 & Hfd & Hfr & _ & _ & _ & _ & Hwb & Heos).
    assert (configuration ctx0 = configuration ctx) as Hc0.
    { rewrite Hc3. transitivity (configuration ctx2); [reflexivity|congruence]. }
    assert (init_cts_setup ctx0 = init_cts_setup ctx /\ flush_done ctx0 = flush_done ctx)
      as [Hi0 Hfd0].
    { destruct Hs1 as (? & ? & ? & ?), Hs2 as (? & ? & ? & ?), Hs3 as (? & ? & ? & ?).
      cbn in *. split; congruence. }
    destruct (configuration_fields _ _ Hc0) as (Ho & Hsr & Hts & _).
    rewrite (finish_events_ext Audio r ctx0 ctx ctx') in Ht by assumption.
    assert (pts (frame ctx0) = frame_pts ctx pk) as Hpts.
    { rewrite Hf3. cbn. unfold frame_pts. rewrite Hk. congruence. }
    exists ([EvEncode (process ctx) (Some (frame_pts ctx pk)) r; EvDropPacket]
            ++ finish_events (process ctx) r ctx ctx').
    split; [|split; [|rewrite ?Hq, Hwb, Heos, Hc4, Hc0; repeat split]].
    + rewrite Ht, Hk. trace_is.
      unfold frame_pts. rewrite Hk, Hfb2, Hfb. reflexivity.
    + apply (EncodedRound _ _ _ _ pk r); auto; congruence.
  - rewrite bool_decide_true by reflexivity. cbn [andb].
    assert (tail (w_inq w) = w_inq w) as Htl
      by (destruct (w_inq w); [reflexivity|discriminate]).
    rewrite Htl.
    destruct (flush_done ctx && negb (gf_filter_pid_is_eos w)) eqn:Hidle.
    + apply andb_prop in Hidle as [H1 H2]. apply negb_true_iff in H2.
      exists []. rewrite app_nil_r. split; [reflexivity|]. split; [|repeat split].
      now apply StarvedRound.
    + assert (~ (flush_done ctx = true /\ w_in_eos w = false)) as Hnot.
      { intros [H1 H2]. unfold gf_filter_pid_is_eos in Hidle. now rewrite H1, H2 in Hidle. }
      destruct (avcodec_encode_audio2 _ _ _) as [r enc] eqn:Henc.
      destruct (enc_gotpck r =? 0) eqn:Hg.
      * apply Z.eqb_eq in Hg.
        exists [EvEncode Audio None r; EvSetEos (out_pid ctx)]. split; [trace_is|].
        split; [|repeat split]. rewrite <- Hk. now apply FlushEndRound.
      * apply Z.eqb_neq in Hg.
        match goal with
        | |- context [audio_tail r ?c ?w0] =>
            pose proof (audio_tail_events r c w0) as Ht;
            destruct (audio_tail r c w0) as [[e' ctx'] w']
        end.
        destruct Ht as (-> & Ht & Hq & Hc4 & Hfd & Hfr & _ & _ & _ & _ & Hwb & Heos).
        match type of Ht with
        | _ = _ ++ finish_events _ _ ?c _ =>
            rewrite (finish_events_ext Audio r c ctx ctx') in Ht by reflexivity
        end.
        exists ([EvEncode (process ctx) None r] ++ finish_events (process ctx) r ctx ctx').
        split; [rewrite Ht, Hk; trace_is|].
        split; [|rewrite ?Hq, Hwb, Heos, Hc4; repeat split].
        apply FlushedRound; auto.
Qed.

Lemma ffenc_process_events (w : World) (ctx : GF_FFEncodeCtx codec) :
  round_result w ctx (ffenc_process w ctx).
Proof.
  unfold ffenc_process.
  destruct (gf_filter_pid_would_block w (out_pid ctx)) eqn:Hb.
  - unfold round_result. rewrite Hb. exists []. rewrite app_nil_r.
    repeat split. now apply BlockedRound.
  - destruct (process ctx) eqn:Hk.
    + now apply ffenc_process_video_events.
    + now apply ffenc_process_audio_events.
Qed.

(** The calls of the end of a round, case by case. *)
Lemma finish_events_cases (k : StreamKind) (r : EncReply) (ctx ctx' : GF_FFEncodeCtx codec) :
  (enc_res r < 0 /\ finish_events k r ctx ctx' = [encode_error_log])
  \/ (0 <= enc_res r /\ enc_gotpck r = 0 /\ finish_events k r ctx ctx' = [])
  \/ (0 <= enc_res r /\ enc_gotpck r <> 0
      /\ exists mid,
           finish_events k r ctx ctx'
           = [EvPckNewAlloc (out_pid ctx) (Z.of_nat (length (pkt_data (enc_pkt r))))]
             ++ mid
             ++ [EvPckSend (out_pid ctx)
                   (coded_packet (enc_pkt r)
                      (match k with Video => 0 | Audio => ts_shift ctx' end))]
           /\ (mid = []
               \/ k = Audio
                  /\ mid = [EvSetProperty (out_pid ctx) GF_PROP_PID_AUDIO_SKIP
                              (Some (audio_skip (ts_shift ctx') ctx))])).
Proof.
  unfold finish_events.
  destruct (enc_res r <? 0) eqn:Hres; [left; split; [now apply Z.ltb_lt|reflexivity]|].
  apply Z.ltb_ge in Hres. right.
  destruct (enc_gotpck r =? 0) eqn:Hg; [left; apply Z.eqb_eq in Hg; auto|].
  apply Z.eqb_neq in Hg. right. split; [exact Hres|]. split; [exact Hg|].
  destruct k.
  - exists []. split; [reflexivity|now left].
  - destruct (init_cts_setup ctx && negb (ts_shift ctx' =? 0)).
    + eexists. split; [reflexivity|]. right. split; reflexivity.
    + exists []. split; [reflexivity|now left].
Qed.

Lemma finish_events_calls (k : StreamKind) (r : EncReply) (ctx ctx' : GF_FFEncodeCtx codec) :
  Forall (fun ev => finish_call ev /\ forall msg, ev = EvLog GF_LOG_ERROR msg -> enc_res r < 0)
    (finish_events k r ctx ctx').
Proof.
  destruct (finish_events_cases k r ctx ctx')
    as [(Hres & ->)|[(Hres & Hg & ->)|(Hres & Hg & pre & -> & Hpre)]].
  all: rewrite ?Forall_app, ?Forall_cons, ?Forall_nil.
  - repeat split; try discriminate. intros; assumption.
  - constructor.
  - assert (forall ev, (exists pid key val, ev = EvSetProperty pid key val)
                       \/ (exists pid n, ev = EvPckNewAlloc pid n)
                       \/ (exists pid p, ev = EvPckSend pid p) ->
                       finish_call ev
                       /\ forall msg, ev = EvLog GF_LOG_ERROR msg -> enc_res r < 0) as Hok.
    { intros ev [(? & ? & ? & ->)|[(? & ? & ->)|(? & ? & ->)]];
        (split; [repeat split; discriminate|discriminate]). }
    split; [split; [apply Hok; right; left; eauto|constructor]|]. split.
    + destruct Hpre as [->|(_ & ->)]; rewrite ?Forall_cons, ?Forall_nil; [constructor|].
      split; [|constructor]. apply Hok. left. eauto.
    + split; [|constructor]. apply Hok. right. right. eauto.
Qed.

Lemma finish_code_cases (r : EncReply) :
  (enc_res r < 0 /\ finish_code r = GF_SERVICE_ERROR)
  \/ (0 <= enc_res r /\ finish_code r = GF_OK).
Proof.
  unfold finish_code. destruct (enc_res r <? 0) eqn:H;
    [left; split; [now apply Z.ltb_lt|reflexivity]
    |right; split; [now apply Z.ltb_ge|reflexivity]].
Qed.

Ltac round_of w ctx :=
  let H := fresh "H" in
  pose proof (ffenc_process_events w ctx) as H;
  destruct (ffenc_process w ctx) as [[?e ?ctx'] ?w'];
  destruct H as (evs & Ht & Hr & Hq & Hc & Hwb & Heos);
  rewrite ?(emitted_app _ _ evs Ht).

(** The sizes a round of the audio encoder is written for: it divides by
    [bytes_per_sample], [sample_rate] and [timescale]; the size of the
    pending packet and its sum with the bytes held are [u32]; the bytes
    held are one frame at most, so that [nb_copy] does not wrap; and no
    copy goes beyond the [enc_buffer_size] bytes allocated for
    [audio_buffer].  (After a packet of more than two frames the buffer
    holds more than one frame: the next round is outside.) *)
Definition audio_sizes_fit (w : World) (ctx : GF_FFEncodeCtx codec) : Prop :=
  0 < bytes_per_sample ctx /\ 0 < sample_rate ctx /\ 0 < timescale ctx
  /\ forall pk data, head (w_inq w) = Some pk -> in_data pk = Some data ->
       let size := Z.of_nat (length data) in
       let frame_bytes := bytes_per_sample ctx * frame_size (encoder ctx) in
       size < 2 ^ 32
       /\ (frame_size (encoder ctx) <> 0 ->
           0 < frame_size (encoder ctx)
           /\ 0 <= bytes_in_audio_buffer ctx <= frame_bytes
           /\ frame_bytes <= enc_buffer_size ctx < 2 ^ 32
           /\ size + bytes_in_audio_buffer ctx < 2 ^ 32
           /\ size + bytes_in_audio_buffer ctx - frame_bytes <= enc_buffer_size ctx).

(** X16: every round that is not held back (an audio round: on the sizes
    it is written for, [audio_sizes_fit]) takes the packet at the head of
    the input pid, whatever comes of it; it drops it with one call, and it
    leaves alone what [ffenc_config_input] set. *)
Theorem ffenc_process_takes_one_packet (w : World) (ctx : GF_FFEncodeCtx codec) :
  (process ctx = Audio -> audio_sizes_fit w ctx) ->
  let '(e, ctx', w') := ffenc_process w ctx in
  w_inq w' = (if gf_filter_pid_would_block w (out_pid ctx) then w_inq w else tail (w_inq w))
  /\ (EvDropPacket ∈ emitted w w'
      <-> gf_filter_pid_would_block w (out_pid ctx) = false /\ is_Some (head (w_inq w)))
  /\ (length (filter (fun ev => ev = EvDropPacket) (emitted w w')) <= 1)%nat
  /\ configuration ctx' = configuration ctx
  /\ w_would_block w' = w_would_block w /\ w_in_eos w' = w_in_eos w.
Proof.
  intros _. round_of w ctx.
  split; [exact Hq|]. split; [|split; [|auto]].
  - assert (forall k r c c', EvDropPacket ∉ finish_events k r c c') as Hnot.
    { intros k r c c' Hin. eapply Forall_forall in Hin; [|apply finish_events_calls].
      destruct Hin as [(_ & _ & _ & Hin) _]. now apply Hin. }
    split.
    + intros Hin. destruct Hr;
        rewrite ?elem_of_app, ?elem_of_cons, ?elem_of_nil in Hin;
        try (split; [assumption|eauto]);
        repeat match goal with
          | H : _ \/ _ |- _ => destruct H
          | H : False |- _ => destruct H
          | H : EvDropPacket = _ |- _ => discriminate H
          | H : EvDropPacket ∈ finish_events _ _ _ _ |- _ => destruct (Hnot _ _ _ _ H)
          end.
    + intros [Hb [pk Hpk]]. destruct Hr; try congruence;
        rewrite ?elem_of_app, ?elem_of_cons; auto.
  - assert (forall k r c c', filter (fun ev => ev = EvDropPacket) (finish_events k r c c') = [])
      as Hnone.
    { intros. apply filter_none, Forall_forall. intros ev Hev.
      eapply Forall_forall in Hev; [|apply finish_events_calls].
      destruct Hev as [(_ & _ & _ & H) _]. exact H. }
    destruct Hr; cbn [app]; rewrite ?filter_cons, ?filter_nil, ?Hnone;
      repeat (destruct (decide _); try discriminate; try congruence); cbn; lia.
Qed.

Ltac in_list H :=
  rewrite ?elem_of_app, ?elem_of_cons, ?elem_of_nil in H;
  repeat match type of H with
         | _ \/ _ => destruct H as [H|H]
         | False => destruct H
         end.

Lemma finish_events_no (P : Ev -> Prop) (k : StreamKind) (r : EncReply)
    (ctx ctx' : GF_FFEncodeCtx codec) (ev : Ev) :
  (forall ev, finish_call ev -> ~ P ev) -> ev ∈ finish_events k r ctx ctx' -> ~ P ev.
Proof.
  intros HP Hin. eapply Forall_forall in Hin; [|apply finish_events_calls].
  apply HP, Hin.
Qed.

(** X17: the end of stream is marked on the output pid by one kind of round
    only: no packet is pending, and the flush the round submits gives no
    packet.  That round, and no other, sets the flush-done flag, which no
    round clears. *)
Theorem ffenc_process_marks_end_of_stream (w : World) (ctx : GF_FFEncodeCtx codec) :
  let '(e, ctx', w') := ffenc_process w ctx in
  (forall pid, EvSetEos pid ∈ emitted w w' ->
     pid = out_pid ctx /\ head (w_inq w) = None
     /\ ~ (flush_done ctx = true /\ w_in_eos w = false)
     /\ e = GF_EOS /\ flush_done ctx' = true
     /\ exists r, enc_gotpck r = 0
                  /\ emitted w w' = [EvEncode (process ctx) None r; EvSetEos (out_pid ctx)])
  /\ (flush_done ctx' <> flush_done ctx ->
      flush_done ctx' = true /\ EvSetEos (out_pid ctx) ∈ emitted w w')
  /\ (forall pk, head (w_inq w) = Some pk -> is_Some (in_data pk) ->
      e = GF_OK \/ e = GF_SERVICE_ERROR).
Proof.
  round_of w ctx.
  assert (forall k r c c' pid, EvSetEos pid ∉ finish_events k r c c') as Hnot.
  { intros k r c c' pid Hin.
    apply (finish_events_no (fun ev => is_eos ev = true) k r c c' _) in Hin; [now apply Hin|].
    intros ev (_ & H & _). congruence. }
  split; [|split].
  - intros pid Hin. destruct Hr; in_list Hin; try discriminate Hin;
      try (destruct (Hnot _ _ _ _ _ Hin)).
    injection Hin as ->. repeat split; auto. exists r. auto.
  - intros Hne. destruct Hr; subst;
      repeat match goal with H : same_codec_state _ _ |- _ => destruct H as (? & ? & ? & ?) end;
      try congruence.
    split; [assumption|]. rewrite !elem_of_cons. auto.
  - intros pk Hpk [data Hdata].
    destruct Hr; subst; auto; try congruence;
      destruct (finish_code_cases r) as [[_ ->]|[_ ->]]; auto.
Qed.

(** X18: a round sends at most one packet, as its last call, on the output
    pid, where it allocated it with the size of the coded unit: the one
    the encode call of this same round, its first call, gave without an
    error, with its payload, timestamps (shifted for audio), duration and
    key flag.  And a coded unit the encode call gives is sent in the
    round. *)
Theorem ffenc_process_sends_the_coded_unit (w : World) (ctx : GF_FFEncodeCtx codec) :
  let '(e, ctx', w') := ffenc_process w ctx in
  (forall ev, ev ∈ emitted w w' -> is_pck ev = true ->
     e = GF_OK
     /\ exists fpts r,
          head (emitted w w') = Some (EvEncode (process ctx) fpts r)
          /\ 0 <= enc_res r /\ enc_gotpck r <> 0
          /\ filter (fun ev => is_pck ev = true) (emitted w w')
             = [EvPckNewAlloc (out_pid ctx) (Z.of_nat (length (pkt_data (enc_pkt r))));
                EvPckSend (out_pid ctx)
                  (coded_packet (enc_pkt r)
                     (match process ctx with Video => 0 | Audio => ts_shift ctx' end))]
          /\ last (emitted w w')
             = Some (EvPckSend (out_pid ctx)
                       (coded_packet (enc_pkt r)
                          (match process ctx with Video => 0 | Audio => ts_shift ctx' end))))
  /\ (forall fpts r, EvEncode (process ctx) fpts r ∈ emitted w w' ->
      0 <= enc_res r -> enc_gotpck r <> 0 ->
      exists p, last (emitted w w') = Some (EvPckSend (out_pid ctx) p)).
Proof.
  round_of w ctx.
  assert (forall r c', (exists ev, ev ∈ finish_events (process ctx) r ctx c' /\ is_pck ev = true)
                       \/ 0 <= enc_res r /\ enc_gotpck r <> 0 ->
            exists mid,
              finish_events (process ctx) r ctx c'
              = [EvPckNewAlloc (out_pid ctx) (Z.of_nat (length (pkt_data (enc_pkt r))))]
                ++ mid
                ++ [EvPckSend (out_pid ctx)
                      (coded_packet (enc_pkt r)
                         (match process ctx with Video => 0 | Audio => ts_shift c' end))]
              /\ 0 <= enc_res r /\ enc_gotpck r <> 0 /\ finish_code r = GF_OK
              /\ filter (fun ev => is_pck ev = true) mid = []) as Hfin.
  { intros r c' Hev.
    destruct (finish_events_cases (process ctx) r ctx c')
      as [(Hres & Heq)|[(Hres & Hg & Heq)|(Hres & Hg & pre & Heq & Hpre)]].
    - destruct Hev as [(ev & Hev & Hp)|[Hr0 _]]; [|lia].
      rewrite Heq in Hev. in_list Hev. subst. discriminate.
    - destruct Hev as [(ev & Hev & Hp)|[_ Hg0]]; [|contradiction].
      rewrite Heq in Hev. in_list Hev.
    - exists pre. split; [exact Heq|]. split; [exact Hres|]. split; [exact Hg|]. split.
      + destruct (finish_code_cases r) as [[? _]|[_ ?]]; [lia|assumption].
      + destruct Hpre as [->|(_ & ->)]; reflexivity. }
  split.
  - intros ev Hin Hp. destruct Hr; in_list Hin; subst; try discriminate Hp.
    + destruct (Hfin r ctx') as (pre & Heq & Hres & Hg & -> & Hpre); [left; eauto|].
      split; [reflexivity|].
      exists (Some (frame_pts ctx pk)), r.
      rewrite Heq. split; [reflexivity|]. split; [exact Hres|]. split; [exact Hg|]. split.
      * rewrite !filter_app, Hpre. reflexivity.
      * rewrite !app_assoc. apply last_snoc.
    + destruct (Hfin r ctx') as (pre & Heq & Hres & Hg & -> & Hpre); [left; eauto|].
      split; [reflexivity|].
      exists None, r.
      rewrite Heq. split; [reflexivity|]. split; [exact Hres|]. split; [exact Hg|]. split.
      * rewrite !filter_app, Hpre. reflexivity.
      * rewrite !app_assoc. apply last_snoc.
  - intros fpts r0 Hin Hres Hg.
    assert (forall r c', EvEncode (process ctx) fpts r0 ∉ finish_events (process ctx) r ctx c')
      as Hnot.
    { intros r c' Hev.
      apply (finish_events_no (fun ev => is_encode ev = true)) in Hev; [now apply Hev|].
      intros ev (H & _). congruence. }
    destruct Hr; in_list Hin; try discriminate Hin; try (destruct (Hnot _ _ Hin)).
    + injection Hin as -> ->.
      destruct (Hfin r ctx') as (pre & Heq & _); [right; auto|].
      eexists. rewrite Heq, !app_assoc. apply last_snoc.
    + injection Hin as -> ->. contradiction.
    + injection Hin as -> ->.
      destruct (Hfin r ctx') as (pre & Heq & _); [right; auto|].
      eexists. rewrite Heq, !app_assoc. apply last_snoc.
Qed.

(** X19: a round logs an error exactly when it returns an error (a code other
    than [GF_OK] and than the [GF_EOS] of the end of the flush); an
    error on a pending packet does not keep the packet: it is dropped. *)
Theorem ffenc_process_logs_its_errors (w : World) (ctx : GF_FFEncodeCtx codec) :
  let '(e, ctx', w') := ffenc_process w ctx in
  ((exists msg, EvLog GF_LOG_ERROR msg ∈ emitted w w')
   <-> e <> GF_OK /\ EvSetEos (out_pid ctx) ∉ emitted w w')
  /\ (e <> GF_OK -> w_inq w' = tail (w_inq w)).
Proof.
  round_of w ctx.
  assert (forall k r c c' pid, EvSetEos pid ∉ finish_events k r c c') as Hnot.
  { intros k r c c' pid Hin.
    apply (finish_events_no (fun ev => is_eos ev = true) k r c c' _) in Hin; [now apply Hin|].
    intros ev (_ & H & _). congruence. }
  assert (forall k r c c' msg, EvLog GF_LOG_ERROR msg ∈ finish_events k r c c' ->
                               finish_code r = GF_SERVICE_ERROR) as Hlog.
  { intros k r c c' msg Hin. eapply Forall_forall in Hin; [|apply finish_events_calls].
    destruct Hin as [_ Hin]. specialize (Hin msg eq_refl).
    destruct (finish_code_cases r) as [[_ ?]|[? _]]; [assumption|lia]. }
  assert (forall k r c c', finish_code r <> GF_OK ->
            EvLog GF_LOG_ERROR "[FFEnc] Error encoding frame" ∈ finish_events k r c c')
    as Hlogged.
  { intros k r c c' Hne.
    destruct (finish_code_cases r) as [[Hres _]|[_ ?]]; [|contradiction].
    destruct (finish_events_cases k r c c') as [(_ & ->)|[(? & _)|(? & _)]]; try lia.
    apply elem_of_cons. now left. }
  split; [split|].
  - intros [msg Hin]. destruct Hr; in_list Hin; try discriminate Hin; subst.
    + split; [assumption|]. intros Hin'. in_list Hin'; discriminate Hin'.
    + split; [discriminate|]. intros Hin'. in_list Hin'; discriminate Hin'.
    + rewrite (Hlog _ _ _ _ _ Hin). split; [discriminate|].
      intros Hin'. in_list Hin'; try discriminate Hin'. now apply Hnot in Hin'.
    + rewrite (Hlog _ _ _ _ _ Hin). split; [discriminate|].
      intros Hin'. in_list Hin'; try discriminate Hin'. now apply Hnot in Hin'.
  - intros [Hne Hno]. destruct Hr; subst; try congruence.
    + eexists. rewrite !elem_of_cons. left. reflexivity.
    + eexists. rewrite !elem_of_cons. left. reflexivity.
    + eexists. rewrite elem_of_app. right. now apply Hlogged.
    + exfalso. apply Hno. rewrite !elem_of_cons. auto.
    + eexists. rewrite elem_of_app. right. now apply Hlogged.
  - intros Hne. rewrite Hq. destruct Hr; subst; try congruence;
      try match goal with H : gf_filter_pid_would_block _ _ = false |- _ => now rewrite H end.
Qed.





(** The encode calls of a round: what the main facts give for any round. *)
Lemma ffenc_process_encode_calls (w : World) (ctx : GF_FFEncodeCtx codec) :
  let '(e, ctx', w') := ffenc_process w ctx in
  forall k fpts r, EvEncode k fpts r ∈ emitted w w' ->
    k = process ctx /\ head (emitted w w') = Some (EvEncode k fpts r)
    /\ filter (fun ev => is_encode ev = true) (emitted w w') = [EvEncode k fpts r]
    /\ match fpts with
       | Some t => exists pk, head (w_inq w) = Some pk /\ t = frame_pts ctx pk
                              /\ pts (frame ctx') = t
       | None => head (w_inq w) = None /\ ~ (flush_done ctx = true /\ w_in_eos w = false)
       end.
Proof.
  round_of w ctx. intros k fpts r0 Hin.
  assert (forall k r c c', filter (fun ev => is_encode ev = true) (finish_events k r c c') = [])
    as Hnone.
  { intros. apply filter_none, Forall_forall. intros ev Hev.
    eapply Forall_forall in Hev; [|apply finish_events_calls].
    destruct Hev as [(H & _) _]. congruence. }
  assert (forall k r c c', EvEncode k fpts r0 ∉ finish_events k r c c') as Hnot.
  { intros k0 r c c' Hev.
    apply (finish_events_no (fun ev => is_encode ev = true)) in Hev; [now apply Hev|].
    intros ev (H & _). congruence. }
  destruct Hr; in_list Hin; try discriminate Hin;
    try match goal with
      | H : EvEncode _ _ _ ∈ finish_events _ _ _ _ |- _ =>
          exfalso; apply (finish_events_no (fun ev => is_encode ev = true)) in H;
          [now apply H|intros ev (H' & _); congruence]
      end;
    injection Hin as -> -> ->;
    (split; [reflexivity|]); (split; [reflexivity|]);
    (split; [rewrite ?filter_app, ?Hnone; reflexivity|]); eauto.
Qed.

(** X21: what a round submits to the codec: one encode call at most, the
    first call of the round; a frame when a packet is pending, dated by
    the packet, or, for audio with bytes pending from earlier packets,
    by the first of these bytes; and a flush (no frame) only when the
    input pid has nothing pending. *)
Theorem ffenc_process_dates_the_frame (w : World) (ctx : GF_FFEncodeCtx codec) :
  let '(e, ctx', w') := ffenc_process w ctx in
  forall k fpts r, EvEncode k fpts r ∈ emitted w w' ->
    k = process ctx /\ head (emitted w w') = Some (EvEncode k fpts r)
    /\ filter (fun ev => is_encode ev = true) (emitted w w') = [EvEncode k fpts r]
    /\ match fpts with
       | Some t =>
           exists pk, head (w_inq w) = Some pk /\ pts (frame ctx') = t
                      /\ t = s64 (match process ctx with
                                  | Video => in_cts pk
                                  | Audio => if bytes_in_audio_buffer ctx =? 0
                                             then in_cts pk else first_byte_cts ctx
                                  end)
       | None => head (w_inq w) = None /\ ~ (flush_done ctx = true /\ w_in_eos w = false)
       end.
Proof.
  pose proof (ffenc_process_encode_calls w ctx) as H.
  destruct (ffenc_process w ctx) as [[e ctx'] w'].
  intros k fpts r Hin. destruct (H k fpts r Hin) as (Hk & Hh & Hf & Hp).
  repeat (split; [assumption|]).
  destruct fpts as [t|]; [|exact Hp].
  destruct Hp as (pk & Hpk & -> & Hpts). exists pk. split; [exact Hpk|]. split; [exact Hpts|].
  unfold frame_pts. now destruct (process ctx).
Qed.


(** The planes [hw_planes] leaves in the frame, and its result code. *)
Lemma hw_planes_spec (ctx : GF_FFEncodeCtx codec) (pk : InPck) (fr : AVFrame) :
  let '(e, fr') := hw_planes ctx pk fr in
  match in_hw_frame pk ≫= get_plane with
  | None => e = GF_NOT_SUPPORTED
  | Some gp =>
      if bool_decide ((gp 0).1.1 = GF_OK) && (1 <? nb_planes ctx) then
        e = (gp 1).1.1
        /\ data0 fr' = PExt (gp 0).1.2 /\ linesize0 fr' = (gp 0).2
        /\ data1 fr' = PExt (gp 1).1.2 /\ linesize1 fr' = (gp 1).2
        /\ (e = GF_OK -> 2 < nb_planes ctx ->
            data2 fr' = data1 fr' /\ linesize2 fr' = linesize1 fr')
      else
        e = (gp 0).1.1 /\ data0 fr' = PExt (gp 0).1.2 /\ linesize0 fr' = (gp 0).2
  end.
Proof.
  unfold hw_planes. destruct (in_hw_frame pk) as [hw|]; [|reflexivity]. cbn [mbind option_bind].
  destruct (get_plane hw) as [gp|]; [|reflexivity].
  destruct (gp 0) as [[e0 d0] l0]. cbn [fst snd].
  destruct (bool_decide (e0 = GF_OK) && (1 <? nb_planes ctx)); [|repeat split].
  destruct (gp 1) as [[e1 d1] l1]. cbn [fst snd].
  destruct (bool_decide (e1 = GF_OK) && (2 <? nb_planes ctx)) eqn:H3.
  - repeat split.
  - repeat split; apply andb_false_iff in H3 as [H3|H3];
      try (apply bool_decide_eq_false in H3; contradiction);
      apply Z.ltb_ge in H3; lia.
Qed.

(** X23: a video packet without data stands for a hardware frame.  Without
    one that gives its planes the round fails with [GF_NOT_SUPPORTED]; a
    plane that cannot be had fails the round with the error of that
    call; in both cases the error is logged, the packet dropped and the
    codec not called.  Otherwise the frame goes to the codec, dated by
    the packet, with the planes the hardware frame gave, the third
    plane being the one of index 1 again. *)
Theorem ffenc_process_video_hw_frame (w : World) (ctx : GF_FFEncodeCtx codec) (pk : InPck) :
  gf_filter_pid_would_block w (out_pid ctx) = false -> process ctx = Video ->
  head (w_inq w) = Some pk -> in_data pk = None ->
  let '(e, ctx', w') := ffenc_process w ctx in
  match in_hw_frame pk ≫= get_plane with
  | None => e = GF_NOT_SUPPORTED /\ emitted w w' = [fetch_error_log; EvDropPacket]
  | Some gp =>
      let e1 := if bool_decide ((gp 0).1.1 = GF_OK) && (1 <? nb_planes ctx)
                then (gp 1).1.1 else (gp 0).1.1 in
      if bool_decide (e1 = GF_OK) then
        (exists r, head (emitted w w') = Some (EvEncode Video (Some (s64 (in_cts pk))) r))
        /\ data0 (frame ctx') = PExt (gp 0).1.2 /\ linesize0 (frame ctx') = (gp 0).2
        /\ (1 < nb_planes ctx ->
            data1 (frame ctx') = PExt (gp 1).1.2 /\ linesize1 (frame ctx') = (gp 1).2)
        /\ (2 < nb_planes ctx ->
            data2 (frame ctx') = data1 (frame ctx')
            /\ linesize2 (frame ctx') = linesize1 (frame ctx'))
      else e = e1 /\ emitted w w' = [fetch_error_log; EvDropPacket]
  end
  /\ w_inq w' = tail (w_inq w).
Proof.
  intros Hb Hk Hh Hdata.
  unfold ffenc_process. rewrite Hb, Hk.
  unfold ffenc_process_video, gf_filter_pid_get_packet. rewrite Hh.
  rewrite bool_decide_false by discriminate. cbn [andb]. rewrite Hdata.
  match goal with |- context [hw_planes ctx pk ?fr] =>
    pose proof (hw_planes_spec ctx pk fr) as Hp; destruct (hw_planes ctx pk fr) as [e fr'] end.
  destruct (bool_decide (e <> GF_OK)) eqn:He.
  - apply bool_decide_eq_true in He. split; [|reflexivity].
    destruct (in_hw_frame pk ≫= get_plane) as [gp|].
    + destruct (bool_decide ((gp 0).1.1 = GF_OK) && (1 <? nb_planes ctx)).
      * destruct Hp as (-> & _). rewrite bool_decide_false by assumption.
        split; [reflexivity|]. apply emitted_app. trace_is.
      * destruct Hp as (-> & _). rewrite bool_decide_false by assumption.
        split; [reflexivity|]. apply emitted_app. trace_is.
    + split; [exact Hp|]. apply emitted_app. trace_is.
  - apply bool_decide_eq_false in He.
    assert (e = GF_OK) as -> by (destruct (decide (e = GF_OK)); [assumption|contradiction]).
    destruct (avcodec_encode_video2 _ _ _) as [r enc] eqn:Henc.
    match goal with
    | |- context [video_tail r ?c ?w0] =>
        pose proof (video_tail_events r c w0) as Ht;
        destruct (video_tail r c w0) as [[e' ctx'] w']
    end.
    destruct Ht as (-> & -> & Ht & Hq & _). split; [|exact Hq].
    destruct (in_hw_frame pk ≫= get_plane) as [gp|]; [|discriminate Hp].
    assert (forall fr0 : AVFrame,
              fr0 = (if in_interlaced pk =? 0 then set_interlaced_frame 0 fr'
                     else set_top_field_first (if in_interlaced pk =? 2 then 1 else 0)
                            (set_interlaced_frame 1 fr')) ->
              data0 fr0 = data0 fr' /\ data1 fr0 = data1 fr' /\ data2 fr0 = data2 fr'
              /\ linesize0 fr0 = linesize0 fr' /\ linesize1 fr0 = linesize1 fr'
              /\ linesize2 fr0 = linesize2 fr') as Hil
      by (intros fr0 ->; destruct (in_interlaced pk =? 0); repeat split).
    destruct (Hil _ eq_refl) as (H0 & H1 & H2 & L0 & L1 & L2).
    cbn [frame set_encoder set_frame data0 data1 data2 linesize0 linesize1 linesize2
         set_f_pkt_dts set_f_pkt_pts set_pts].
    rewrite H0, H1, H2, L0, L1, L2.
    assert (exists r0, head (emitted w w') = Some (EvEncode Video (Some (s64 (in_cts pk))) r0))
      as Hhead.
    { exists r. unfold emitted. rewrite Ht.
      cbn [w_trace emit gf_filter_pid_drop_packet pts set_f_pkt_dts set_f_pkt_pts set_pts].
      rewrite <- !app_assoc, drop_app_length. reflexivity. }
    destruct (bool_decide ((gp 0).1.1 = GF_OK) && (1 <? nb_planes ctx)) eqn:H1p.
    + destruct Hp as (<- & Hd0 & Hl0 & Hd1 & Hl1 & H3).
      rewrite bool_decide_true by reflexivity.
      split; [exact Hhead|]. repeat split; auto; now apply H3.
    + destruct Hp as (Heq & Hd0 & Hl0). rewrite <- Heq.
      rewrite bool_decide_true by reflexivity.
      split; [exact Hhead|]. split; [exact Hd0|]. split; [exact Hl0|].
      apply andb_false_iff in H1p as [H1p|H1p];
        [apply bool_decide_eq_false in H1p; congruence|].
      apply Z.ltb_ge in H1p. split; intros; lia.
Qed.

End EncoderRounds.


(** ** The properties at concrete inputs *)

Section Instances.
Import M2PSDmx FFEnc Scenario.

(** The demuxer connected to [a.mpg] and told to play from the start:
    the next round opens the source, seeks and dispatches. *)
Definition about_to_play : DmxState (lib := memory_ps) :=
  after [ Enqueue file_pck; Configure (in_pid_for "a.mpg") false;
          Event (GF_FEVT_PLAY 0%float) ].

(** The demuxer after the round that sent the frames of [a.mpg], and
    the same connected to [b.mpg]. *)
Definition played_a : DmxState (lib := memory_ps) := after playing_a.
Definition moved_to_b : DmxState (lib := memory_ps) := after switched_to_b.

Lemma about_to_play_dispatches :
  dispatches (snd about_to_play) (fst about_to_play)
    (snd (fst (m2psdmx_process (snd about_to_play) (fst about_to_play)))).
Proof.
  split; [exists file_pck; split; reflexivity|].
  split; [eexists; vm_compute; reflexivity|reflexivity].
Qed.

Lemma m2psdmx_process_seeks_first_witness :
  let '(r, ctx', w') := m2psdmx_process (snd about_to_play) (fst about_to_play) in
  exists decl post,
    emitted (snd about_to_play) w'
    = (EvPsInit (Some "a.mpg"%string) :: decl)
        ++ [EvPsSeek Video 0 0; EvPsSeek Video 1 0; EvPsSeek Audio 0 0] ++ post
    /\ Forall setup_call decl
    /\ Forall (fun e => is_seek e = false /\ ~ open_call e) post.
Proof.
  pose proof (m2psdmx_process_seeks_first (lib := memory_ps)
                (snd about_to_play) (fst about_to_play)) as H.
  pose proof about_to_play_dispatches as Hd.
  destruct (m2psdmx_process (snd about_to_play) (fst about_to_play))
    as [[r ctx'] w'] eqn:E.
  cbn [fst snd] in Hd.
  destruct (H Hd eq_refl ltac:(split; reflexivity))
    as (pre & post & He & _ & Hpre & Hpost & _).
  destruct (Hpre eq_refl) as (decl & -> & Hdecl).
  exists decl, post. split; [|auto]. rewrite He.
  vm_compute in E. inversion E; subst r ctx' w'; clear E. reflexivity.
Defined.

Lemma m2psdmx_process_one_read_per_entry_witness :
  let '(r, ctx', w') := m2psdmx_process (snd about_to_play) (fst about_to_play) in
  filter (fun e => is_get_frame e = true) (emitted (snd about_to_play) w')
  = [EvPsGetFrame Video 0; EvPsGetFrame Video 1; EvPsGetFrame Audio 0].
Proof.
  pose proof (m2psdmx_process_one_read_per_entry (lib := memory_ps)
                (snd about_to_play) (fst about_to_play)) as H.
  pose proof about_to_play_dispatches as Hd.
  destruct (m2psdmx_process (snd about_to_play) (fst about_to_play))
    as [[r ctx'] w'] eqn:E.
  cbn [fst snd] in Hd. destruct H as (H & _). rewrite (H Hd).
  vm_compute in E. inversion E; subst r ctx' w'; clear E. reflexivity.
Defined.

(** The round after the one that sent the frames of [a.mpg] finds none. *)
Lemma m2psdmx_process_end_of_stream_witness :
  let '(r, ctx', w') := m2psdmx_process (snd played_a) (fst played_a) in
  r = Ret GF_EOS /\ w_inq w' = [].
Proof.
  pose proof (m2psdmx_process_end_of_stream (lib := memory_ps)
                (snd played_a) (fst played_a)) as H.
  destruct (m2psdmx_process (snd played_a) (fst played_a))
    as [[r ctx'] w'] eqn:E.
  cbv zeta in H. destruct H as (Hiff & Heos & _).
  assert (r = Ret GF_EOS) as Hr.
  { apply Hiff. vm_compute in E. inversion E; subst r ctx' w'; clear E.
    split; [|split; reflexivity].
    split; [exists file_pck; split; reflexivity|].
    split; [eexists; reflexivity|reflexivity]. }
  split; [exact Hr|]. destruct (Heos Hr) as (Hq & _). rewrite Hq. reflexivity.
Defined.

Lemma m2psdmx_reconnect_same_path_witness :
  let st := played_a in
  let '(_, ctx1, w1) := m2psdmx_configure_pid (snd st) (fst st) (in_pid_for "a.mpg") true in
  let '(e2, ctx2, w2) := m2psdmx_configure_pid w1 ctx1 (in_pid_for "a.mpg") false in
  let '(r, ctx3, w3) := m2psdmx_process w2 ctx2 in
  e2 = GF_OK /\ streams ctx2 = [] /\ ps ctx2 = ps (fst st)
  /\ r = Ret GF_EOS /\ emitted w2 w3 = [EvDropPacket] /\ streams ctx3 = []
  /\ w_inq w3 = tail (w_inq (snd st)).
Proof.
  apply (m2psdmx_reconnect_same_path (lib := memory_ps)
           (snd played_a) (fst played_a)
           (in_pid_for "a.mpg") "a.mpg" file_pck); try reflexivity.
  eexists. vm_compute. reflexivity.
Defined.

(** The setup for [b.mpg] on the pids [a.mpg] left: the first pid, which
    carried the 720x576 video stream, is declared anew. *)
Lemma m2psdmx_setup_declares_witness :
  let '(ctx', w') := m2psdmx_setup (lib := memory_ps) source_b (fst moved_to_b) (snd moved_to_b) in
  declared (lib := memory_ps) source_b
    {| opid := 0; stream_type := GF_STREAM_VISUAL; stream_num := 0; in_use := true |}
    (pid_property (w_trace w') 0).
Proof.
  pose proof (m2psdmx_setup_declares (lib := memory_ps) source_b
                (fst moved_to_b) (snd moved_to_b)
                (proj2 (after_owned switched_to_b))) as H.
  destruct (m2psdmx_setup (lib := memory_ps) source_b (fst moved_to_b) (snd moved_to_b))
    as [ctx' w'] eqn:E.
  apply (H ltac:(vm_compute; repeat constructor)
           {| opid := 0; stream_type := GF_STREAM_VISUAL; stream_num := 0; in_use := true |}).
  - vm_compute in E. inversion E; subst ctx' w'; clear E. cbn [streams]. left.
  - reflexivity.
Defined.

Lemma m2psdmx_setup_one_entry_per_stream_witness :
  let sts := streams (fst (m2psdmx_setup (lib := memory_ps) source_b (fst moved_to_b) (snd moved_to_b))) in
  (exists s, s ∈ sts /\ in_use s = true
             /\ stream_type s = GF_STREAM_VISUAL /\ stream_num s = 0)
  /\ distinct_streams sts.
Proof.
  pose proof (m2psdmx_setup_one_entry_per_stream (lib := memory_ps) source_b
                (fst moved_to_b) (snd moved_to_b)
                ltac:(vm_compute; repeat constructor)) as H.
  cbv zeta in *. destruct H as (Hv & _ & _ & Hd). split; [|exact Hd].
  apply (Hv 0%nat). vm_compute. lia.
Defined.

(** The setup for [b.mpg] on the pids [a.mpg] left: both pids get the
    clock of the video stream. *)
Lemma m2psdmx_setup_one_clock_witness :
  let '(ctx', w') := m2psdmx_setup (lib := memory_ps) source_b (fst moved_to_b) (snd moved_to_b) in
  (forall st, st ∈ streams ctx' -> in_use st = true ->
     pid_property (w_trace w') (opid st) GF_PROP_PID_CLOCK_ID = Some (PROP_UINT 1))
  /\ Forall (clock_is 1) (emitted (snd moved_to_b) w').
Proof.
  pose proof (m2psdmx_setup_one_clock (lib := memory_ps) source_b
                (fst moved_to_b) (snd moved_to_b)
                (proj2 (after_owned switched_to_b))
                ltac:(vm_compute; repeat constructor)) as H.
  destruct (m2psdmx_setup (lib := memory_ps) source_b (fst moved_to_b) (snd moved_to_b))
    as [ctx' w'].
  cbv zeta in H. apply (proj1 H). vm_compute. lia.
Defined.

(** The second frame of [b.mpg] ends with a start code. *)
Lemma process_stream_video_payload_witness :
  let p := snd (read_video source_b 0) in
  let st := {| opid := 0; stream_type := GF_STREAM_VISUAL; stream_num := 0;
               in_use := true |} in
  exists pck w',
    fst (fst (process_stream (lib := memory_ps) 0 (p, 0%nat, idle_world) st))
    = snd (read_video p 0)
    /\ snd (process_stream (lib := memory_ps) 0 (p, 0%nat, idle_world) st) = w'
    /\ emitted idle_world w'
       = [EvPsGetFrame Video 0; EvPckNewAlloc 0 5; EvPckSend 0 pck]
    /\ pck_data pck = [0; 0; 1; 0; 5] /\ pck_dts pck = Some 3003.
Proof.
  destruct (process_stream_video_payload (lib := memory_ps) 0
              (snd (read_video source_b 0)) (snd (read_video (snd (read_video source_b 0)) 0))
              0%nat idle_world
              {| opid := 0; stream_type := GF_STREAM_VISUAL; stream_num := 0;
                 in_use := true |}
              {| vf_buf := [0; 0; 1; 0; 5; 0; 0; 1; 183]; vf_ftype := 2;
                 vf_dts := 3003; vf_cts := 3003 |}
              eq_refl eq_refl eq_refl eq_refl ltac:(cbn; lia))
    as (pck & w' & Hp & He & Hcut & _ & Hdts & _).
  pose proof (Hcut [0; 0; 1; 0; 5] 183 eq_refl) as Hdata.
  cbv zeta. exists pck, w'.
  split; [exact (f_equal (fun x => fst (fst x)) Hp)|].
  split; [exact (f_equal snd Hp)|].
  split; [rewrite He, Hdata; reflexivity|]. split; [exact Hdata|exact Hdts].
Defined.

(** An audio encoder whose codec takes frames of 1024 samples (4096
    bytes), and a video encoder for three planes. *)
Definition framed_audio_ctx (replies : list EncReply) : GF_FFEncodeCtx scripted_codec :=
  set_encoder ({| sc_frame_size := 1024; sc_replies := replies |}
               : @AVCodecContext scripted_codec) (audio_ctx []).

Definition planar_video_ctx (replies : list EncReply) : GF_FFEncodeCtx scripted_codec :=
  {| all_intra := false;
     encoder := ({| sc_frame_size := 0; sc_replies := replies |}
                 : @AVCodecContext scripted_codec);
     in_pid := 0; out_pid := 0; timescale := 25000; process := Video;
     flush_done := false; frame := av_frame_alloc; enc_buffer_size := 101376;
     width := 352; height := 288; stride := 352; stride_uv := 176; nb_planes := 3;
     pixel_fmt := 0; channels := 0; sample_rate := 0; bytes_per_sample := 0;
     sample_fmt := 0; audio_buffer := []; bytes_in_audio_buffer := 0;
     first_byte_cts := 0; init_cts_setup := false; ts_shift := 0 |}.

(** A packet that carries a hardware frame whose planes are at 4096
    times their index, 64 bytes a line. *)
Definition hw_pck (cts : Z) : InPck :=
  {| in_data := None; in_cts := cts; in_interlaced := 0;
     in_hw_frame := Some {| get_plane := Some (fun i => (GF_OK, 4096 * i, 64)) |};
     in_start := true; in_end := true |}.

(** A packet of one frame and 512 bytes for the framed codec: the round
    takes it whole and keeps the 512 bytes for the next frame. *)
Lemma ffenc_process_takes_one_packet_witness :
  let w := world_with [raw_pck 4608 1024; raw_pck 4096 2048] in
  let '(e, ctx', w') := ffenc_process w (framed_audio_ctx [coded 1024]) in
  w_inq w' = [raw_pck 4096 2048]
  /\ EvDropPacket ∈ emitted w w'
  /\ (length (filter (fun ev => ev = EvDropPacket) (emitted w w')) <= 1)%nat.
Proof.
  assert (audio_sizes_fit (world_with [raw_pck 4608 1024; raw_pck 4096 2048])
            (framed_audio_ctx [coded 1024])) as Hfit.
  { split; [reflexivity|]. split; [reflexivity|]. split; [reflexivity|].
    intros pk data Hh Hd.
    assert (pk = raw_pck 4608 1024) as ->
      by (cbv [world_with w_inq head] in Hh; congruence).
    assert (data = replicate 4608 0) as ->
      by (cbv [raw_pck in_data] in Hd; congruence).
    rewrite length_replicate. cbv zeta.
    change (bytes_per_sample (framed_audio_ctx [coded 1024])) with 4.
    change (frame_size (encoder (framed_audio_ctx [coded 1024]))) with 1024.
    change (bytes_in_audio_buffer (framed_audio_ctx [coded 1024])) with 0.
    change (enc_buffer_size (framed_audio_ctx [coded 1024])) with 48000.
    lia. }
  pose proof (ffenc_process_takes_one_packet (codec := scripted_codec)
                (world_with [raw_pck 4608 1024; raw_pck 4096 2048])
                (framed_audio_ctx [coded 1024]) (fun _ => Hfit)) as H.
  cbv zeta.
  destruct (ffenc_process (world_with [raw_pck 4608 1024; raw_pck 4096 2048])
              (framed_audio_ctx [coded 1024])) as [[e ctx'] w'].
  destruct H as (Hq & Hd & Hn & _).
  split; [exact Hq|]. split; [|exact Hn].
  apply Hd. split; [reflexivity|eexists; reflexivity].
Defined.

Lemma ffenc_process_marks_end_of_stream_witness :
  let w := world_with [] in
  let '(e, ctx', w') := ffenc_process w (audio_ctx []) in
  e = GF_EOS /\ flush_done ctx' = true.
Proof.
  pose proof (ffenc_process_marks_end_of_stream (codec := scripted_codec)
                (world_with []) (audio_ctx [])) as H.
  cbv zeta. destruct (ffenc_process (world_with []) (audio_ctx [])) as [[e ctx'] w'] eqn:E.
  destruct H as (H & _). destruct (H 0%nat) as (_ & _ & _ & He & Hf & _); [|auto].
  vm_compute in E. inversion E; subst e ctx' w'; clear E. vm_compute. repeat constructor.
Defined.

Lemma ffenc_process_sends_the_coded_unit_witness :
  let w := world_with [raw_pck 4096 1024] in
  let '(e, ctx', w') := ffenc_process w (audio_ctx [coded 960]) in
  e = GF_OK
  /\ last (emitted w w')
     = Some (EvPckSend 0 {| pck_data := [1; 2; 3]; pck_dts := Some 1024;
                            pck_cts := Some 1024; pck_sap := Some GF_FILTER_SAP_1;
                            pck_duration := Some 1024 |}).
Proof.
  pose proof (ffenc_process_sends_the_coded_unit (codec := scripted_codec)
                (world_with [raw_pck 4096 1024]) (audio_ctx [coded 960])) as H.
  cbv zeta.
  destruct (ffenc_process (world_with [raw_pck 4096 1024]) (audio_ctx [coded 960]))
    as [[e ctx'] w'] eqn:E.
  destruct H as (H & _).
  destruct (H (EvPckNewAlloc 0 3)) as (He & fpts & r & Hh & _ & _ & _ & Hl).
  - vm_compute in E. inversion E; subst e ctx' w'; clear E. vm_compute. repeat constructor.
  - reflexivity.
  - split; [exact He|]. rewrite Hl.
    vm_compute in E. inversion E; subst e ctx' w'; clear E.
    vm_compute in Hh. inversion Hh; subst fpts r; clear Hh. reflexivity.
Defined.



Lemma ffenc_process_dates_the_frame_witness :
  let w := world_with [raw_pck 4096 1024] in
  let '(e, ctx', w') := ffenc_process w (audio_ctx [coded 960]) in
  filter (fun ev => is_encode ev = true) (emitted w w')
  = [EvEncode Audio (Some 1024) (coded 960)]
  /\ pts (frame ctx') = 1024.
Proof.
  pose proof (ffenc_process_dates_the_frame (codec := scripted_codec)
                (world_with [raw_pck 4096 1024]) (audio_ctx [coded 960])) as H.
  cbv zeta.
  destruct (ffenc_process (world_with [raw_pck 4096 1024]) (audio_ctx [coded 960]))
    as [[e ctx'] w'] eqn:E.
  destruct (H Audio (Some 1024) (coded 960)) as (_ & _ & Hf & pk & _ & Hp & _).
  - vm_compute in E. inversion E; subst e ctx' w'; clear E. vm_compute. left.
  - split; assumption.
Defined.

Lemma ffenc_process_video_hw_frame_witness :
  let w := world_with [hw_pck 40] in
  let '(e, ctx', w') := ffenc_process w (planar_video_ctx [coded 40]) in
  data1 (frame ctx') = PExt 4096 /\ data2 (frame ctx') = PExt 4096
  /\ w_inq w' = [].
Proof.
  pose proof (ffenc_process_video_hw_frame (codec := scripted_codec)
                (world_with [hw_pck 40]) (planar_video_ctx [coded 40]) (hw_pck 40)
                eq_refl eq_refl eq_refl eq_refl) as H.
  cbv zeta.
  destruct (ffenc_process (world_with [hw_pck 40]) (planar_video_ctx [coded 40]))
    as [[e ctx'] w'].
  destruct H as (H & Hq). cbn in H.
  destruct H as (_ & _ & _ & H1 & H2).
  destruct H1 as [H1 _]; [lia|]. destruct H2 as [H2 _]; [lia|].
  split; [exact H1|]. split; [rewrite H2; exact H1|exact Hq].
Defined.

End Instances.


(** ** The configuration callbacks of the encoder *)

Section EncoderConfiguration.
Import FFEncCfg.
Context {lib : AVLib} {engine : AVEngine lib}.
#[local] Existing Instances M_ret M_bind.

(** The calls made between two states of the session. *)
Definition cfg_emitted (s s' : Session) : list CfgEv :=
  drop (length (s_trace s)) (s_trace s').

Lemma cfg_emitted_app (s s' : Session) (evs : list CfgEv) :
  s_trace s' = s_trace s ++ evs -> cfg_emitted s s' = evs.
Proof. intros H. unfold cfg_emitted. rewrite H. apply drop_app_length. Qed.

(** *** What a callback establishes: when it goes on, and when it leaves *)

Definition wp {A : Type} (m : M A)
    (Q : A -> GF_FFEncodeCtx lib -> Session -> Prop)
    (E : Outcome -> GF_FFEncodeCtx lib -> Session -> Prop)
    (c : GF_FFEncodeCtx lib) (s : Session) : Prop :=
  match m c s with
  | inl (r, c', s') => E r c' s'
  | inr (a, c', s') => Q a c' s'
  end.

Lemma wp_bind {A B : Type} (m : M A) (k : A -> M B) Q E c s :
  wp m (fun a => wp (k a) Q E) E c s -> wp (m ≫= k) Q E c s.
Proof.
  unfold wp, mbind, M_bind, bind. destruct (m c s) as [[[r c'] s']|[[a c'] s']]; auto.
Qed.

Lemma wp_mono {A : Type} (m : M A) (Q Q' : A -> _ -> _ -> Prop) (E E' : Outcome -> _ -> _ -> Prop)
    c s :
  wp m Q E c s ->
  (forall a c' s', Q a c' s' -> Q' a c' s') -> (forall r c' s', E r c' s' -> E' r c' s') ->
  wp m Q' E' c s.
Proof.
  unfold wp. destruct (m c s) as [[[r c'] s']|[[a c'] s']]; auto.
Qed.

Lemma wp_run (m : M GF_Err) (E : Outcome -> _ -> _ -> Prop) c s :
  wp m (fun e => E (Ret e)) E c s ->
  let '(r, c', s') := run m c s in E r c' s'.
Proof.
  unfold wp, run. destruct (m c s) as [[[r c'] s']|[[a c'] s']]; auto.
Qed.

Ltac exec_with tac :=
  unfold wp; tac;
  unfold when, mbind, mret, M_bind, M_ret, bind, ret, leave, crash, get, modify, call;
  cbn [negb andb orb fst snd].

(** *** The checks at the head of [ffenc_config_input] *)

(** A pid the encoder takes: raw audio or raw video. *)
Definition raw_media (pid : GF_FilterPid) : Prop :=
  (exists prop, gf_filter_pid_get_property pid (Key GF_PROP_PID_STREAM_TYPE) = Some prop
                /\ (uint prop = GF_STREAM_AUDIO \/ uint prop = GF_STREAM_VISUAL))
  /\ (exists prop, gf_filter_pid_get_property pid (Key GF_PROP_PID_CODECID) = Some prop
                   /\ uint prop = GF_CODECID_RAW).

Lemma check_pid_spec (pid : GF_FilterPid) (c : GF_FFEncodeCtx lib) (s : Session) :
  (raw_media pid /\ exists prop,
      gf_filter_pid_get_property pid (Key GF_PROP_PID_STREAM_TYPE) = Some prop
      /\ check_pid pid c s = inr (uint prop, c, s))
  \/ (~ raw_media pid /\ check_pid pid c s = inl (Ret GF_NOT_SUPPORTED, c, s)).
Proof.
  unfold check_pid, raw_media.
  destruct (gf_filter_pid_get_property pid (Key GF_PROP_PID_STREAM_TYPE)) as [pt|] eqn:Ht.
  2: { right. split; [|reflexivity]. intros [(p & Hp & _) _]. discriminate. }
  exec_with idtac.
  destruct ((uint pt =? GF_STREAM_AUDIO) || (uint pt =? GF_STREAM_VISUAL)) eqn:Hty; cbn [negb].
  2: { right. split; [|reflexivity]. intros [(p & [= <-] & Hp) _].
       apply orb_false_iff in Hty as [H1 H2]. apply Z.eqb_neq in H1, H2. tauto. }
  apply orb_true_iff in Hty. rewrite !Z.eqb_eq in Hty.
  destruct (gf_filter_pid_get_property pid (Key GF_PROP_PID_CODECID)) as [pc|] eqn:Hc.
  2: { right. split; [|reflexivity]. intros [_ (p & Hp & _)]. discriminate. }
  destruct (uint pc =? GF_CODECID_RAW) eqn:Hraw; cbn [negb].
  - apply Z.eqb_eq in Hraw. left. split; [split; eauto|]. eauto.
  - apply Z.eqb_neq in Hraw. right. split; [|reflexivity].
    intros [_ (p & [= <-] & Hp)]. contradiction.
Qed.

(** X24: [ffenc_config_input] takes raw audio and raw video only, and one
    input pid only.  A pid without a stream type, of another type than
    audio or video, or without the raw codec id is refused with
    [GF_NOT_SUPPORTED], nothing being changed or called.  A second input
    pid is refused with [GF_REQUIRES_NEW_INSTANCE] and no call either,
    but the codec id its caps ask for is recorded all the same. *)
Theorem ffenc_config_input_refuses (pid : GF_FilterPid) (ctx : GF_FFEncodeCtx lib)
    (s : Session) :
  (~ raw_media pid ->
   run (ffenc_config_input pid false) ctx s = (Ret GF_NOT_SUPPORTED, ctx, s))
  /\ (raw_media pid ->
      forall ipid, in_pid ctx = Some ipid -> ipid <> pid_id pid ->
        run (ffenc_config_input pid false) ctx s
        = (Ret GF_REQUIRES_NEW_INSTANCE,
           match gf_filter_pid_caps_query pid (Key GF_PROP_PID_CODECID) with
           | Some prop => set_codecid (uint prop) ctx
           | None => ctx
           end, s)).
Proof.
  unfold ffenc_config_input, run, mbind, M_bind, bind.
  destruct (check_pid_spec pid ctx s) as [(Hraw & pt & _ & ->)|(Hraw & ->)].
  - split; [contradiction|]. intros _ ipid Hi Hne.
    destruct (gf_filter_pid_caps_query pid (Key GF_PROP_PID_CODECID)) as [pc|];
      unfold accept_pid, mbind, M_bind, bind, get, modify, ret, leave;
      cbn [in_pid set_codecid]; rewrite Hi;
      (rewrite bool_decide_false by (intros [H|H]; congruence)); reflexivity.
  - split; [reflexivity|contradiction].
Qed.


(** *** Assertions kept along a callback *)

(** The session after one more call. *)
Definition told (s : Session) (ev : CfgEv) : Session :=
  {| s_npids := s_npids s; s_trace := s_trace s ++ [ev] |}.

(** From a state where [I] holds, [m] goes on in a state where [Q]
    holds, or leaves in one where [E] does. *)
Definition triple {A : Type} (I : GF_FFEncodeCtx lib -> Session -> Prop) (m : M A)
    (Q : A -> GF_FFEncodeCtx lib -> Session -> Prop)
    (E : Outcome -> GF_FFEncodeCtx lib -> Session -> Prop) : Prop :=
  forall c s, I c s -> wp m Q E c s.

Lemma triple_bind {A B : Type} I (I' : A -> _ -> _ -> Prop) (m : M A) (k : A -> M B) Q E :
  triple I m I' E -> (forall a, triple (I' a) (k a) Q E) -> triple I (m ≫= k) Q E.
Proof.
  intros Hm Hk c s HI. apply wp_bind. eapply wp_mono; [apply Hm, HI| |auto].
  intros a c' s' HI'. now apply Hk.
Qed.

Lemma triple_ret {A : Type} I (a : A) (Q : A -> _ -> _ -> Prop) E :
  (forall c s, I c s -> Q a c s) -> triple I (ret a) Q E.
Proof. intros H c s HI. now apply H. Qed.

Lemma triple_leave {A : Type} I e (Q : A -> _ -> _ -> Prop) (E : Outcome -> _ -> _ -> Prop) :
  (forall c s, I c s -> E (Ret e) c s) -> triple I (leave e) Q E.
Proof. intros H c s HI. now apply H. Qed.

Lemma triple_crash {A : Type} I (Q : A -> _ -> _ -> Prop) (E : Outcome -> _ -> _ -> Prop) :
  (forall c s, I c s -> E Abort c s) -> triple I crash Q E.
Proof. intros H c s HI. now apply H. Qed.

Lemma triple_get I (Q : GF_FFEncodeCtx lib -> _ -> _ -> Prop) E :
  (forall c s, I c s -> Q c c s) -> triple I get Q E.
Proof. intros H c s HI. now apply H. Qed.

Lemma triple_modify I f (Q : unit -> _ -> _ -> Prop) E :
  (forall c s, I c s -> Q tt (f c) s) -> triple I (modify f) Q E.
Proof. intros H c s HI. now apply H. Qed.

Lemma triple_call I ev (Q : unit -> _ -> _ -> Prop) E :
  (forall c s, I c s -> Q tt c (told s ev)) -> triple I (call ev) Q E.
Proof. intros H c s HI. now apply H. Qed.

Lemma triple_pid_new I (Q : nat -> _ -> _ -> Prop) E :
  (forall c s, I c s ->
     Q (s_npids s) c {| s_npids := S (s_npids s);
                        s_trace := s_trace s ++ [CfgPidNew (s_npids s)] |}) ->
  triple I gf_filter_pid_new Q E.
Proof. intros H c s HI. now apply H. Qed.

Lemma triple_weaken {A : Type} I (m : M A) (Q Q' : A -> _ -> _ -> Prop)
    (E E' : Outcome -> _ -> _ -> Prop) :
  triple I m Q E ->
  (forall a c s, Q a c s -> Q' a c s) -> (forall r c s, E r c s -> E' r c s) ->
  triple I m Q' E'.
Proof. intros Hm HQ HE c s HI. eapply wp_mono; [apply Hm, HI|auto|auto]. Qed.

End EncoderConfiguration.

(** One step of a proof that [I] is kept: [side] settles what the
    statement at hand asks of [I]. *)
Ltac triple_step side :=
  lazymatch goal with
  | |- triple ?I (mbind _ _) _ _ => apply (triple_bind I (fun _ => I)); [|intros ?]
  | |- triple _ (mret _) _ _ => apply triple_ret; side
  | |- triple _ (FFEncCfg.ret _) _ _ => apply triple_ret; side
  | |- triple _ (FFEncCfg.leave _) _ _ => apply triple_leave; side
  | |- triple _ FFEncCfg.crash _ _ => apply triple_crash; side
  | |- triple _ FFEncCfg.get _ _ => apply triple_get; side
  | |- triple _ (FFEncCfg.modify _) _ _ => apply triple_modify; side
  | |- triple _ (FFEncCfg.call _) _ _ => apply triple_call; side
  | |- triple _ FFEncCfg.gf_filter_pid_new _ _ => apply triple_pid_new; side
  | |- triple _ (match ?x with _ => _ end) _ _ => destruct x eqn:?
  end.

Ltac break_let :=
  repeat match goal with
         | |- context [let '(_, _) := ?x in _] => destruct x
         end.

Ltac unfold_blocks :=
  unfold FFEncCfg.check_pid, FFEncCfg.accept_pid, FFEncCfg.read_format,
    FFEncCfg.close_encoder, FFEncCfg.find_codec, FFEncCfg.check_format,
    FFEncCfg.configure_encoder, FFEncCfg.setup_video, FFEncCfg.setup_audio,
    FFEncCfg.open_and_declare, FFEncCfg.declare_output, FFEncCfg.new_out_pid,
    FFEncCfg.negociate, FFEncCfg.GET_PROP, FFEncCfg.on_encoder, FFEncCfg.dict_set,
    FFEncCfg.when.


Section EncoderOutput.
Import FFEncCfg.
Context {lib : AVLib} {engine : AVEngine lib}.
#[local] Existing Instances M_ret M_bind.

(** What is kept by every callback is kept by the filter's life. *)
Lemma callbacks_keep (I : GF_FFEncodeCtx lib -> Session -> Prop) :
  (forall cb, triple I (callback cb) (fun _ => I) (fun _ => I)) ->
  forall cbs c s, I c s -> let '(_, c', s') := callbacks cbs c s in I c' s'.
Proof.
  intros Hcb cbs. induction cbs as [|cb rest IH]; intros c s HI; cbn [callbacks].
  - exact HI.
  - pose proof (wp_run (callback cb) (fun _ => I) c s (Hcb cb c s HI)) as Hrun.
    destruct (run (callback cb) c s) as [[[e|] c'] s']; [now apply IH|exact Hrun].
Qed.

(** *** One output pid *)

(** The output pid a call is made on. *)
Definition pid_call (ev : CfgEv) : option nat :=
  match ev with
  | CfgPidRemove p | CfgPidNew p | CfgCopyProperties p _ | CfgSetProperty p _ _ => Some p
  | _ => None
  end.

Definition is_cfg_pid_new (ev : CfgEv) : bool :=
  match ev with
  | CfgPidNew _ => true
  | _ => false
  end.

(** The pids a session has created are those of its trace; without
    [out_pid] none was created and no call was made on one; with it,
    it is the one pid created and every such call was made on it. *)
Definition one_output (c : GF_FFEncodeCtx lib) (s : Session) : Prop :=
  s_npids s = length (filter (fun ev => is_cfg_pid_new ev = true) (s_trace s))
  /\ match out_pid c with
     | None => s_npids s = 0%nat /\ Forall (fun ev => pid_call ev = None) (s_trace s)
     | Some o =>
         s_npids s = 1%nat /\ o = 0%nat
         /\ Forall (fun ev => pid_call ev = None \/ pid_call ev = Some o) (s_trace s)
     end.

Lemma one_output_ctx c c' s : out_pid c' = out_pid c -> one_output c s -> one_output c' s.
Proof. unfold one_output. now intros ->. Qed.

Lemma quiet_not_new ev : pid_call ev = None -> is_cfg_pid_new ev = false.
Proof. now destruct ev. Qed.

Lemma one_output_told c s ev :
  (pid_call ev = None \/ pid_call ev = out_pid c /\ is_cfg_pid_new ev = false) ->
  one_output c s -> one_output c (told s ev).
Proof.
  unfold one_output, told. cbn [s_npids s_trace]. intros Hev [Hn H].
  assert (is_cfg_pid_new ev = false) as Hnew by (destruct Hev as [?|[_ ?]]; auto using quiet_not_new).
  rewrite filter_app, length_app, filter_cons, filter_nil, decide_False by congruence.
  cbn [length]. rewrite Nat.add_0_r. split; [assumption|].
  destruct (out_pid c) as [o|].
  - destruct H as (H1 & H2 & H3). repeat split; auto. apply Forall_app. split; [assumption|].
    constructor; [|constructor]. destruct Hev as [?|[? _]]; auto.
  - destruct H as (H1 & H2). split; auto. apply Forall_app. split; [assumption|].
    constructor; [|constructor]. destruct Hev as [?|[? _]]; auto.
Qed.

Lemma one_output_new c s :
  out_pid c = None -> one_output c s ->
  one_output (set_out_pid (Some (s_npids s)) c)
    {| s_npids := S (s_npids s); s_trace := s_trace s ++ [CfgPidNew (s_npids s)] |}.
Proof.
  unfold one_output. intros -> (Hn & H0 & Hq). cbn [out_pid set_out_pid s_npids s_trace].
  rewrite filter_app, length_app, filter_cons, filter_nil, decide_True by reflexivity.
  cbn [length]. rewrite <- Hn, H0. repeat split.
  apply Forall_app. split.
  - eapply Forall_impl; [exact Hq|]. cbn. auto.
  - constructor; [|constructor]. now right.
Qed.

Ltac out_side :=
  first [ exact (fun _ _ H => H)
        | intros ? ? ?; eapply one_output_ctx; [|eassumption]; break_let; reflexivity
        | intros ? ? ?; apply one_output_told; [left; reflexivity|assumption] ].

(** With [out_pid] known to be [o]. *)
Definition output_is (o : nat) (c : GF_FFEncodeCtx lib) (s : Session) : Prop :=
  one_output c s /\ out_pid c = Some o.

Ltac is_side :=
  first [ exact (fun _ _ H => H)
        | intros ? ? [? ?]; assumption
        | intros ? ? [? ?]; split;
          [eapply one_output_ctx; [|eassumption]; break_let; reflexivity|assumption]
        | intros ? ? [? ?]; split; [|assumption]; apply one_output_told;
          [first [left; reflexivity | right; split; [cbn; congruence|reflexivity]]|assumption] ].

Lemma declare_output_one pid ty enc o :
  triple (output_is o) (declare_output pid ty enc o) (fun _ => one_output) (fun _ => one_output).
Proof.
  apply triple_weaken with (Q := fun _ => output_is o) (E := fun _ => output_is o);
    [|now intros ? ? ? [? ?]..].
  unfold declare_output. unfold_blocks. repeat triple_step is_side.
Qed.

Lemma new_out_pid_one pid enc :
  triple (fun c s => one_output c s /\ out_pid c = None) (new_out_pid pid enc)
    output_is (fun _ => one_output).
Proof.
  unfold new_out_pid.
  apply (triple_bind _ (fun o c s => one_output (set_out_pid (Some o) c) s)).
  - apply triple_pid_new. intros c s [H Hn]. now apply one_output_new.
  - intros o. apply (triple_bind _ (fun _ => output_is o)).
    + apply triple_modify. intros c s H. split; [exact H|reflexivity].
    + intros _. unfold_blocks. repeat triple_step is_side.
Qed.

Lemma open_and_declare_one pid codec ty :
  triple one_output (open_and_declare pid codec ty) (fun _ => one_output) (fun _ => one_output).
Proof.
  unfold open_and_declare.
  apply (triple_bind _ (fun ctx c s => one_output c s /\ out_pid c = out_pid ctx)).
  { apply triple_get. auto. }
  intros ctx. destruct (encoder ctx) as [enc|]; [|apply triple_crash; now intros ? ? [? ?]].
  destruct (avcodec_open2 _ _ _) as [[res enc'] opts].
  set (I := fun c s => one_output c s /\ out_pid c = out_pid ctx).
  assert (forall f, (forall c, out_pid (f c) = out_pid c) ->
            triple I (modify f) (fun _ => I) (fun _ => one_output)) as Hmod.
  { intros f Hf. apply triple_modify. intros c s [H Ho]. split.
    - eapply one_output_ctx; [apply Hf|exact H].
    - now rewrite Hf. }
  assert (forall ev, pid_call ev = None ->
            triple I (call ev) (fun _ => I) (fun _ => one_output)) as Hcall.
  { intros ev Hev. apply triple_call. intros c s [H Ho]. split; [|exact Ho].
    apply one_output_told; auto. }
  apply (triple_bind _ (fun _ => I)); [now apply Hmod|intros _].
  apply (triple_bind _ (fun _ => I)); [now apply Hmod|intros _].
  apply (triple_bind _ (fun _ => I)); [now apply Hcall|intros _].
  destruct (res <? 0).
  { apply (triple_bind _ (fun _ => I)); [now apply Hcall|intros _].
    apply triple_ret. now intros ? ? [? ?]. }
  apply (triple_bind _ (fun _ => I)); [now apply Hmod|intros _].
  apply (triple_bind _ output_is).
  - destruct (out_pid ctx) as [o|] eqn:Ho.
    + apply triple_ret. intros c s [H Hc]. split; congruence.
    + apply new_out_pid_one.
  - intros o. apply declare_output_one.
Qed.

Lemma config_input_one pid is_remove :
  triple one_output (ffenc_config_input pid is_remove)
    (fun _ => one_output) (fun _ => one_output).
Proof.
  unfold ffenc_config_input. destruct is_remove.
  - apply (triple_bind _ (fun ctx c s => one_output c s /\ ctx = c)).
    { apply triple_get. auto. }
    intros ctx. apply (triple_bind _ (fun _ => one_output)).
    + destruct (out_pid ctx) as [o|] eqn:Ho.
      * apply triple_call. intros c s [H ->]. apply one_output_told; [|exact H].
        right. split; [now rewrite Ho|reflexivity].
      * apply triple_ret. now intros ? ? [? ?].
    + intros _. apply triple_ret. auto.
  - unfold check_pid, accept_pid, read_format, close_encoder, find_codec, check_format,
      configure_encoder, setup_video, setup_audio, negociate, GET_PROP, on_encoder,
      dict_set, when.
    repeat first [apply open_and_declare_one | triple_step out_side].
Qed.

Lemma callback_one cb :
  triple one_output (callback cb) (fun _ => one_output) (fun _ => one_output).
Proof.
  destruct cb as [|name val|pid is_remove]; cbn [callback].
  - unfold ffenc_initialize. repeat triple_step out_side.
  - unfold ffenc_update_arg, dict_set, when. repeat triple_step out_side.
  - apply config_input_one.
Qed.

(** X26: the encoder has one output pid.  Over any calls of
    [ffenc_initialize], [ffenc_update_arg] and [ffenc_config_input] on a
    fresh filter, for any input pids and whatever the library answers,
    [gf_filter_pid_new] is called once when [out_pid] is set and never
    when it is not, and every removal, copy of properties and property
    set on an output pid is on [out_pid]. *)
Theorem ffenc_one_output_pid (cbs : list Callback) :
  let '(_, ctx, s) := callbacks cbs zero_ctx new_session in
  length (filter (fun ev => is_cfg_pid_new ev = true) (s_trace s))
  = (if out_pid ctx is Some _ then 1 else 0)%nat
  /\ forall ev o, ev ∈ s_trace s -> pid_call ev = Some o -> out_pid ctx = Some o.
Proof.
  pose proof (callbacks_keep one_output callback_one cbs zero_ctx new_session) as H.
  destruct (callbacks cbs zero_ctx new_session) as [[r ctx] s].
  assert (one_output zero_ctx new_session) as H0.
  { split; [reflexivity|]. cbn. split; [reflexivity|constructor]. }
  destruct (H H0) as [Hn Ho]. clear H H0. rewrite <- Hn.
  destruct (out_pid ctx) as [o|].
  - destruct Ho as (H1 & -> & Hall). split; [exact H1|].
    intros ev o Hin Hev. rewrite Forall_forall in Hall.
    destruct (Hall ev Hin) as [Hq|Hq]; congruence.
  - destruct Ho as (H1 & Hall). split; [exact H1|].
    intros ev o Hin Hev. rewrite Forall_forall in Hall. specialize (Hall ev Hin). congruence.
Qed.

End EncoderOutput.

Section EncoderBuffers.
Import FFEncCfg.
Context {lib : AVLib} {engine : AVEngine lib}.
#[local] Existing Instances M_ret M_bind.

(** *** Buffers *)

Definition frees (ev : CfgEv) : bool :=
  match ev with
  | CfgFree | CfgFrameFree | CfgDictFree => true
  | _ => false
  end.

Definition is_malloc (ev : CfgEv) : bool :=
  match ev with
  | CfgMalloc _ => true
  | _ => false
  end.

Definition is_open (ev : CfgEv) : bool :=
  match ev with
  | CfgAvcodecOpen _ => true
  | _ => false
  end.

Definition is_negociate (ev : CfgEv) : bool :=
  match ev with
  | CfgNegociateProperty _ _ _ => true
  | _ => false
  end.

Definition count (f : CfgEv -> bool) (evs : list CfgEv) : nat :=
  length (filter (fun ev => f ev = true) evs).

Lemma count_app f evs evs' : count f (evs ++ evs') = (count f evs + count f evs')%nat.
Proof. unfold count. now rewrite filter_app, length_app. Qed.

Lemma count_one f ev : count f [ev] = if f ev then 1%nat else 0%nat.
Proof.
  unfold count. rewrite filter_cons, filter_nil. destruct (f ev).
  - now rewrite decide_True.
  - now rewrite decide_False.
Qed.

(** Nothing was freed, and the buffers allocated are [k] more at least
    than the codecs opened. *)
Definition allocated (k : nat) (c : GF_FFEncodeCtx lib) (s : Session) : Prop :=
  count frees (s_trace s) = 0%nat
  /\ (count is_open (s_trace s) + k <= count is_malloc (s_trace s))%nat.

Lemma allocated_told k c s ev :
  frees ev = false -> is_open ev = false -> allocated k c s -> allocated k c (told s ev).
Proof.
  unfold allocated, told. cbn [s_trace]. rewrite !count_app, !count_one.
  intros -> ->. destruct (is_malloc ev); lia.
Qed.

Lemma allocated_malloc k c s size :
  allocated k c s -> allocated (S k) c (told s (CfgMalloc size)).
Proof.
  unfold allocated, told. cbn [s_trace]. rewrite !count_app, !count_one. cbn. lia.
Qed.

Lemma allocated_open k c s res :
  allocated (S k) c s -> allocated k c (told s (CfgAvcodecOpen res)).
Proof.
  unfold allocated, told. cbn [s_trace]. rewrite !count_app, !count_one. cbn. lia.
Qed.

Lemma allocated_less k c s : allocated (S k) c s -> allocated k c s.
Proof. unfold allocated. lia. Qed.

Lemma allocated_new k c s :
  allocated k c s ->
  allocated k c {| s_npids := S (s_npids s); s_trace := s_trace s ++ [CfgPidNew (s_npids s)] |}.
Proof.
  unfold allocated. cbn [s_trace]. rewrite !count_app, !count_one. cbn. lia.
Qed.

Ltac alloc_side :=
  first [ exact (fun _ _ H => H)
        | intros ? ? ?; apply allocated_told; [reflexivity|reflexivity|assumption]
        | intros ? ? ?; apply allocated_new; assumption
        | intros ? ? ?; apply allocated_less; assumption ].

Ltac alloc_step :=
  lazymatch goal with
  | |- triple (allocated ?k) (mbind _ (call (CfgMalloc _))) _ _ =>
      apply (triple_bind _ (fun _ => allocated (S k)));
      [apply triple_call; intros ? ? ?; now apply allocated_malloc|intros ?]
  | |- triple (allocated (S ?k)) (mbind _ (call (CfgAvcodecOpen _))) _ _ =>
      apply (triple_bind _ (fun _ => allocated k));
      [apply triple_call; intros ? ? ?; now apply allocated_open|intros ?]
  | _ => triple_step alloc_side
  end.

Lemma setup_video_allocates pid pfmt :
  triple (allocated 0) (setup_video pid pfmt) (fun _ => allocated 1) (fun _ => allocated 0).
Proof. unfold setup_video, on_encoder, dict_set, when. repeat alloc_step. Qed.

Lemma setup_audio_allocates pid afmt :
  triple (allocated 0) (setup_audio pid afmt) (fun _ => allocated 1) (fun _ => allocated 0).
Proof.
  apply triple_weaken with (Q := fun _ => allocated 2) (E := fun _ => allocated 0);
    [|intros ? ? ?; apply allocated_less|auto].
  unfold setup_audio, on_encoder, dict_set, when. repeat alloc_step.
Qed.

Lemma open_and_declare_allocated pid codec ty :
  triple (allocated 1) (open_and_declare pid codec ty)
    (fun _ => allocated 0) (fun _ => allocated 0).
Proof.
  unfold open_and_declare, declare_output, new_out_pid, when. repeat alloc_step.
Qed.

Lemma check_pid_type pid I :
  triple I (check_pid pid)
    (fun ty c s => I c s /\ (ty = GF_STREAM_AUDIO \/ ty = GF_STREAM_VISUAL)) (fun _ => I).
Proof.
  intros c s HI. unfold wp.
  destruct (check_pid_spec pid c s) as [(Hraw & pt & Hpt & ->)|(Hraw & ->)]; [|exact HI].
  split; [exact HI|]. destruct Hraw as [(p & Hp & Hty) _]. congruence.
Qed.

Lemma triple_pure {A : Type} (P : Prop) I (m : M A) Q E :
  (P -> triple I m Q E) -> triple (fun c s => I c s /\ P) m Q E.
Proof. intros H c s [HI HP]. now apply H. Qed.

Lemma config_input_allocated pid is_remove :
  triple (allocated 0) (ffenc_config_input pid is_remove)
    (fun _ => allocated 0) (fun _ => allocated 0).
Proof.
  unfold ffenc_config_input. destruct is_remove.
  { repeat alloc_step. }
  apply (triple_bind _ _ _ _ _ _ (check_pid_type pid _)). intros ty.
  apply triple_pure. intros Hty.
  unfold accept_pid, read_format, close_encoder, find_codec, check_format,
    negociate, GET_PROP, when.
  repeat first
    [ lazymatch goal with
      | |- triple _ (configure_encoder _ _ _ _ _) _ _ =>
          unfold configure_encoder;
          apply (triple_bind _ (fun _ => allocated 0)); [|intros _];
          [|apply (triple_bind _ (fun _ => allocated 1));
            [|intros _; apply open_and_declare_allocated]]
      | |- triple _ (setup_video _ _) _ _ => apply setup_video_allocates
      | |- triple _ (setup_audio _ _) _ _ => apply setup_audio_allocates
      end
    | alloc_step ].
  all: match goal with
       | Hv : (?t =? GF_STREAM_VISUAL) = false, Ha : (?t =? GF_STREAM_AUDIO) = false |- _ =>
           apply Z.eqb_neq in Hv, Ha; now destruct Hty
       end.
Qed.

Lemma callback_allocated cb :
  triple (allocated 0) (callback cb) (fun _ => allocated 0) (fun _ => allocated 0).
Proof.
  destruct cb as [|name val|pid is_remove]; cbn [callback].
  - unfold ffenc_initialize. repeat alloc_step.
  - unfold ffenc_update_arg, dict_set, when. repeat alloc_step.
  - apply config_input_allocated.
Qed.

Lemma finalize_frees (c : GF_FFEncodeCtx lib) (s : Session) :
  count (fun ev => bool_decide (ev = CfgFree)) (cfg_emitted s (finalized c s))
  = ((if enc_buffer c is Some _ then 1 else 0)
     + (if audio_buffer c is Some _ then 1 else 0))%nat.
Proof.
  unfold finalized, ffenc_finalize, when, mbind, M_bind, bind, get, modify, call, ret.
  destruct (options c), (frame c), (enc_buffer c), (audio_buffer c), (encoder c);
    cbn; rewrite <- ?app_assoc; cbn [app];
    unfold cfg_emitted; cbn [s_trace]; rewrite ?drop_app_length, ?drop_all; reflexivity.
Qed.

(** X29: buffers are allocated anew at each configuration and freed
    at the end only.  Over any calls of [ffenc_initialize],
    [ffenc_update_arg] and [ffenc_config_input] on a fresh filter, no
    buffer, frame or dictionary is freed; every opening of a codec comes
    with a [gf_malloc] of its own, whether a buffer is there or not; and
    [ffenc_finalize] then calls [gf_free] once per buffer pointer of the
    context, twice at most. *)
Theorem ffenc_buffers_freed_at_end_only (cbs : list Callback) :
  let '(_, ctx, s) := callbacks cbs zero_ctx new_session in
  Forall (fun ev => frees ev = false) (s_trace s)
  /\ (count is_open (s_trace s) <= count is_malloc (s_trace s))%nat
  /\ count (fun ev => bool_decide (ev = CfgFree)) (cfg_emitted s (finalized ctx s))
     = ((if enc_buffer ctx is Some _ then 1 else 0)
        + (if audio_buffer ctx is Some _ then 1 else 0))%nat
  /\ (count (fun ev => bool_decide (ev = CfgFree)) (cfg_emitted s (finalized ctx s)) <= 2)%nat.
Proof.
  pose proof (callbacks_keep (allocated 0) callback_allocated cbs zero_ctx new_session) as H.
  destruct (callbacks cbs zero_ctx new_session) as [[r ctx] s].
  assert (allocated 0 zero_ctx new_session) as H0 by (split; cbn; lia).
  destruct (H H0) as [Hf Hn]. clear H H0. rewrite finalize_frees.
  split; [|split; [lia|split; [reflexivity|]]].
  - unfold count in Hf. apply length_zero_iff_nil in Hf.
    apply Forall_forall. intros ev Hin. destruct (frees ev) eqn:He; [|reflexivity].
    assert (ev ∈ filter (fun ev => frees ev = true) (s_trace s)) as Hin'
      by (apply list_elem_of_filter; auto).
    rewrite Hf in Hin'. now apply elem_of_nil in Hin'.
  - destruct (enc_buffer ctx), (audio_buffer ctx); lia.
Qed.

End EncoderBuffers.

(** Symbolic execution of a callback on a context and a session. *)
Ltac ctx_simpl :=
  cbn [
    FFEncCfg.initialized FFEncCfg.encoder FFEncCfg.options FFEncCfg.in_pid
    FFEncCfg.out_pid FFEncCfg.type FFEncCfg.timescale FFEncCfg.low_delay
    FFEncCfg.process FFEncCfg.codecid FFEncCfg.frame FFEncCfg.enc_buffer
    FFEncCfg.enc_buffer_size FFEncCfg.width FFEncCfg.height FFEncCfg.stride
    FFEncCfg.stride_uv FFEncCfg.nb_planes FFEncCfg.uv_height FFEncCfg.pixel_fmt
    FFEncCfg.channels FFEncCfg.sample_rate FFEncCfg.bytes_per_sample FFEncCfg.sample_fmt
    FFEncCfg.audio_buffer FFEncCfg.audio_buffer_size FFEncCfg.bytes_in_audio_buffer
    FFEncCfg.init_cts_setup FFEncCfg.av_codec FFEncCfg.av_width FFEncCfg.av_height
    FFEncCfg.av_sample_aspect_ratio FFEncCfg.av_time_base FFEncCfg.av_gop_size
    FFEncCfg.av_flags FFEncCfg.av_pix_fmt FFEncCfg.av_sample_rate FFEncCfg.av_channels
    FFEncCfg.av_channel_layout FFEncCfg.av_sample_fmt FFEncCfg.av_extradata
    FFEncCfg.av_extradata_size FFEncCfg.av_internal FFEncCfg.set_av_width
    FFEncCfg.set_av_height FFEncCfg.set_av_sample_aspect_ratio FFEncCfg.set_av_time_base
    FFEncCfg.set_av_gop_size FFEncCfg.set_av_flags FFEncCfg.set_av_pix_fmt
    FFEncCfg.set_av_sample_rate FFEncCfg.set_av_channels FFEncCfg.set_av_channel_layout
    FFEncCfg.set_av_sample_fmt FFEncCfg.set_initialized FFEncCfg.set_encoder
    FFEncCfg.set_options FFEncCfg.set_in_pid FFEncCfg.set_out_pid FFEncCfg.set_type
    FFEncCfg.set_timescale FFEncCfg.set_low_delay FFEncCfg.set_process
    FFEncCfg.set_codecid FFEncCfg.set_frame FFEncCfg.set_enc_buffer
    FFEncCfg.set_enc_buffer_size FFEncCfg.set_width FFEncCfg.set_height
    FFEncCfg.set_stride FFEncCfg.set_stride_uv FFEncCfg.set_nb_planes
    FFEncCfg.set_uv_height FFEncCfg.set_pixel_fmt FFEncCfg.set_channels
    FFEncCfg.set_sample_rate FFEncCfg.set_bytes_per_sample FFEncCfg.set_sample_fmt
    FFEncCfg.set_audio_buffer FFEncCfg.set_audio_buffer_size
    FFEncCfg.set_bytes_in_audio_buffer FFEncCfg.set_init_cts_setup FFEncCfg.s_npids
    FFEncCfg.s_trace fst snd negb andb orb fmap option_fmap option_map ].

Ltac ctx_simpl_in H :=
  cbn [
    FFEncCfg.initialized FFEncCfg.encoder FFEncCfg.options FFEncCfg.in_pid
    FFEncCfg.out_pid FFEncCfg.type FFEncCfg.timescale FFEncCfg.low_delay
    FFEncCfg.process FFEncCfg.codecid FFEncCfg.frame FFEncCfg.enc_buffer
    FFEncCfg.enc_buffer_size FFEncCfg.width FFEncCfg.height FFEncCfg.stride
    FFEncCfg.stride_uv FFEncCfg.nb_planes FFEncCfg.uv_height FFEncCfg.pixel_fmt
    FFEncCfg.channels FFEncCfg.sample_rate FFEncCfg.bytes_per_sample FFEncCfg.sample_fmt
    FFEncCfg.audio_buffer FFEncCfg.audio_buffer_size FFEncCfg.bytes_in_audio_buffer
    FFEncCfg.init_cts_setup FFEncCfg.av_codec FFEncCfg.av_width FFEncCfg.av_height
    FFEncCfg.av_sample_aspect_ratio FFEncCfg.av_time_base FFEncCfg.av_gop_size
    FFEncCfg.av_flags FFEncCfg.av_pix_fmt FFEncCfg.av_sample_rate FFEncCfg.av_channels
    FFEncCfg.av_channel_layout FFEncCfg.av_sample_fmt FFEncCfg.av_extradata
    FFEncCfg.av_extradata_size FFEncCfg.av_internal FFEncCfg.set_av_width
    FFEncCfg.set_av_height FFEncCfg.set_av_sample_aspect_ratio FFEncCfg.set_av_time_base
    FFEncCfg.set_av_gop_size FFEncCfg.set_av_flags FFEncCfg.set_av_pix_fmt
    FFEncCfg.set_av_sample_rate FFEncCfg.set_av_channels FFEncCfg.set_av_channel_layout
    FFEncCfg.set_av_sample_fmt FFEncCfg.set_initialized FFEncCfg.set_encoder
    FFEncCfg.set_options FFEncCfg.set_in_pid FFEncCfg.set_out_pid FFEncCfg.set_type
    FFEncCfg.set_timescale FFEncCfg.set_low_delay FFEncCfg.set_process
    FFEncCfg.set_codecid FFEncCfg.set_frame FFEncCfg.set_enc_buffer
    FFEncCfg.set_enc_buffer_size FFEncCfg.set_width FFEncCfg.set_height
    FFEncCfg.set_stride FFEncCfg.set_stride_uv FFEncCfg.set_nb_planes
    FFEncCfg.set_uv_height FFEncCfg.set_pixel_fmt FFEncCfg.set_channels
    FFEncCfg.set_sample_rate FFEncCfg.set_bytes_per_sample FFEncCfg.set_sample_fmt
    FFEncCfg.set_audio_buffer FFEncCfg.set_audio_buffer_size
    FFEncCfg.set_bytes_in_audio_buffer FFEncCfg.set_init_cts_setup FFEncCfg.s_npids
    FFEncCfg.s_trace fst snd negb andb orb fmap option_fmap option_map ] in H.

Ltac exec :=
  unfold wp, FFEncCfg.when, mbind, mret, FFEncCfg.M_bind, FFEncCfg.M_ret, FFEncCfg.bind,
    FFEncCfg.ret, FFEncCfg.leave, FFEncCfg.crash, FFEncCfg.get, FFEncCfg.modify,
    FFEncCfg.call, FFEncCfg.gf_filter_pid_new;
  ctx_simpl.

Ltac break_cfg_match :=
  match goal with
  | H : ?x = _ |- context [match ?x with _ => _ end] => rewrite H; ctx_simpl
  | |- context [match ?x with _ => _ end] =>
      lazymatch x with
      | context [match _ with _ => _ end] => fail
      | _ => destruct x eqn:?; ctx_simpl
      end
  end.

Section EncoderSteps.
Import FFEncCfg.
Context {lib : AVLib} {engine : AVEngine lib}.
#[local] Existing Instances M_ret M_bind.

(** *** The steps of [ffenc_config_input] *)

(** The fields the steps before the encoder's allocation leave alone,
    save where said. *)
Definition kept (c c' : GF_FFEncodeCtx lib) : Prop :=
  in_pid c' = in_pid c /\ out_pid c' = out_pid c /\ type c' = type c
  /\ encoder c' = encoder c /\ codecid c' = codecid c.

Lemma accept_pid_spec pid ty c s :
  wp (accept_pid pid ty)
    (fun _ c' s' =>
       s' = s /\ in_pid c' = Some (pid_id pid) /\ type c' = ty /\ out_pid c' = out_pid c
       /\ encoder c' = encoder c /\ codecid c' = codecid c)
    (fun r c' s' =>
       s' = s /\ (r = Ret GF_NOT_SUPPORTED \/ r = Ret GF_REQUIRES_NEW_INSTANCE))
    c s.
Proof.
  unfold accept_pid. exec. repeat break_cfg_match; repeat split; auto.
  all: try match goal with H : (_ =? _) = true |- _ => apply Z.eqb_eq in H end; auto.
  match goal with H : negb _ = false |- _ => apply negb_false_iff, Z.eqb_eq in H end. auto.
Qed.

Lemma read_format_spec pid ty c s :
  wp (read_format pid ty)
    (fun a c' s' =>
       s' = s /\ kept c c'
       /\ (ty = GF_STREAM_VISUAL ->
           exists p, gf_filter_pid_get_property pid GF_PROP_PID_PIXFMT = Some p
                     /\ a = (uint p, 0))
       /\ (ty <> GF_STREAM_VISUAL ->
           exists p, gf_filter_pid_get_property pid GF_PROP_PID_AUDIO_FORMAT = Some p
                     /\ a = (0, uint p)))
    (fun r c' s' =>
       r = Ret GF_NON_COMPLIANT_BITSTREAM /\ kept c c'
       /\ exists msg, s' = told s (CfgLog GF_LOG_ERROR msg))
    c s.
Proof.
  unfold read_format, GET_PROP. exec.
  destruct (ty =? GF_STREAM_VISUAL) eqn:Hty;
    [apply Z.eqb_eq in Hty|apply Z.eqb_neq in Hty]; exec;
    repeat break_cfg_match; unfold kept; ctx_simpl; repeat split; eauto; try congruence.
Qed.

Lemma close_encoder_spec c s :
  wp close_encoder
    (fun _ c' s' =>
       encoder c' = None /\ in_pid c' = in_pid c /\ out_pid c' = out_pid c
       /\ type c' = type c /\ codecid c' = codecid c
       /\ (s' = s \/ s' = told s CfgAvcodecClose))
    (fun r c' s' =>
       c' = c /\ (r = Abort /\ s' = s
                  \/ r = Ret GF_NOT_SUPPORTED /\ exists msg, s' = told s (CfgLog GF_LOG_ERROR msg)))
    c s.
Proof.
  unfold close_encoder. exec. repeat break_cfg_match; repeat split; eauto.
Qed.

Lemma find_codec_spec c s :
  wp find_codec
    (fun codec c' s' =>
       c' = c /\ s' = s
       /\ avcodec_find_encoder (ffmpeg_codecid_from_gpac (codecid c)) = Some codec)
    (fun r c' s' => c' = c /\ s' = s /\ r = Ret GF_NOT_SUPPORTED)
    c s.
Proof.
  unfold find_codec. exec. repeat break_cfg_match; repeat split; auto.
Qed.

Lemma find_fmt_spec fmts fmt :
  find_fmt fmts fmt = if bool_decide (fmt ∈ u32 <$> fmts) then fmt else 0.
Proof.
  induction fmts as [|f fmts IH]; cbn [find_fmt fmap list_fmap].
  - rewrite bool_decide_false; [reflexivity|]. apply not_elem_of_nil.
  - destruct (u32 f =? fmt) eqn:Hf; [apply Z.eqb_eq in Hf|apply Z.eqb_neq in Hf].
    + rewrite bool_decide_true; [reflexivity|]. subst. apply list_elem_of_here.
    + rewrite IH. rewrite (bool_decide_ext (fmt ∈ u32 f :: (u32 <$> fmts)) (fmt ∈ u32 <$> fmts));
        [reflexivity|]. rewrite elem_of_cons. intuition congruence.
Qed.

(** The format is kept when it is 0 or one of the codec's. *)
Lemma fmt_kept_iff (fmts : option (list Z)) fmt :
  (fmt =? match fmts with Some l => find_fmt l fmt | None => 0 end) = true
  <-> fmt = 0 \/ fmt ∈ u32 <$> default [] fmts.
Proof.
  rewrite Z.eqb_eq. destruct fmts as [l|]; cbn [default].
  - rewrite find_fmt_spec. destruct (bool_decide_reflect (fmt ∈ u32 <$> l)); intuition.
  - cbn. rewrite elem_of_nil. intuition.
Qed.

Lemma check_format_video codec pfmt afmt c s ipid :
  in_pid c = Some ipid ->
  let fmt := u32 (ffmpeg_pixfmt_from_gpac pfmt) in
  let first := match pix_fmts codec with
               | Some fmts => first_fmt AV_PIX_FMT_NONE fmts
               | None => u32 AV_PIX_FMT_YUV420P
               end in
  check_format codec GF_STREAM_VISUAL pfmt afmt c s
  = if bool_decide (fmt = 0 \/ fmt ∈ u32 <$> default [] (pix_fmts codec)) then
      inr (false, set_pixel_fmt fmt c, s)
    else
      inr (true, set_pixel_fmt first (set_pixel_fmt fmt c),
           told s (CfgNegociateProperty ipid GF_PROP_PID_PIXFMT
                     (u32 (ffmpeg_pixfmt_to_gpac first)))).
Proof.
  intros Hi fmt first. unfold check_format. cbn [Z.eqb GF_STREAM_VISUAL Pos.eqb]. exec.
  pose proof (fmt_kept_iff (pix_fmts codec) fmt) as Hk. fold fmt.
  destruct (fmt =? _) eqn:He; cbn [negb].
  - rewrite bool_decide_true by now apply Hk. reflexivity.
  - rewrite bool_decide_false by (intros H; apply Hk in H; discriminate).
    unfold negociate. exec. rewrite Hi. reflexivity.
Qed.

Lemma check_format_audio codec ty pfmt afmt c s ipid :
  in_pid c = Some ipid -> ty <> GF_STREAM_VISUAL ->
  let fmt := u32 (ffmpeg_audio_fmt_from_gpac afmt) in
  let first := match sample_fmts codec with
               | Some fmts => first_fmt AV_SAMPLE_FMT_NONE fmts
               | None => u32 AV_SAMPLE_FMT_S16
               end in
  check_format codec ty pfmt afmt c s
  = if bool_decide (fmt = 0 \/ fmt ∈ u32 <$> default [] (sample_fmts codec)) then
      inr (false, set_sample_fmt fmt c, s)
    else
      inr (true, set_sample_fmt first (set_sample_fmt fmt c),
           told s (CfgNegociateProperty ipid GF_PROP_PID_AUDIO_FORMAT
                     (u32 (ffmpeg_audio_fmt_to_gpac first)))).
Proof.
  intros Hi Hty fmt first. unfold check_format.
  apply Z.eqb_neq in Hty. rewrite Hty. exec.
  pose proof (fmt_kept_iff (sample_fmts codec) fmt) as Hk. fold fmt.
  destruct (fmt =? _) eqn:He; cbn [negb].
  - rewrite bool_decide_true by now apply Hk. reflexivity.
  - rewrite bool_decide_false by (intros H; apply Hk in H; discriminate).
    unfold negociate. exec. rewrite Hi. reflexivity.
Qed.

(** The settings of the encoder: what they leave in the context. *)
Lemma setup_video_spec pid pfmt c s enc :
  encoder c = Some enc ->
  wp (setup_video pid pfmt)
    (fun _ c' s' =>
       process c' = Some Video /\ is_Some (encoder c')
       /\ enc_buffer c' = Some (u64 (width c * height c))
       /\ in_pid c' = in_pid c /\ out_pid c' = out_pid c /\ type c' = type c
       /\ codecid c' = codecid c /\ width c' = width c /\ height c' = height c
       /\ s' = told s (CfgMalloc (u64 (width c * height c))))
    (fun r c' s' => r = Abort /\ s' = s)
    c s.
Proof.
  intros Henc. unfold setup_video, on_encoder, dict_set. exec. rewrite Henc. ctx_simpl.
  repeat break_cfg_match; repeat split; eauto.
Qed.

Lemma setup_audio_spec pid afmt c s enc :
  encoder c = Some enc ->
  wp (setup_audio pid afmt)
    (fun _ c' s' =>
       process c' = Some Audio /\ is_Some (encoder c') /\ enc_buffer c' = Some (sample_rate c)
       /\ audio_buffer c' = Some (sample_rate c) /\ bytes_in_audio_buffer c' = 0
       /\ init_cts_setup c' = true
       /\ timescale c' = match gf_filter_pid_get_property pid (Key GF_PROP_PID_TIMESCALE) with
                         | Some prop => uint prop
                         | None => sample_rate c
                         end
       /\ in_pid c' = in_pid c /\ out_pid c' = out_pid c /\ type c' = type c
       /\ codecid c' = codecid c /\ sample_rate c' = sample_rate c
       /\ s' = told (told s (CfgMalloc (sample_rate c))) (CfgMalloc (sample_rate c)))
    (fun _ _ _ => False)
    c s.
Proof.
  intros Henc. unfold setup_audio, on_encoder, dict_set. exec. rewrite Henc. ctx_simpl.
  repeat break_cfg_match; repeat split; eauto.
Qed.

(** The calls made from a session on, all of them of one kind. *)
Definition since (P : CfgEv -> Prop) (s s' : Session) : Prop :=
  exists evs, s_trace s' = s_trace s ++ evs /\ Forall P evs.

Lemma since_refl P s : since P s s.
Proof. exists []. now rewrite app_nil_r. Qed.

Lemma since_told P s s' ev : P ev -> since P s s' -> since P s (told s' ev).
Proof.
  intros Hev (evs & Htr & Hall). exists (evs ++ [ev]). cbn [told s_trace].
  rewrite Htr, app_assoc. split; [reflexivity|]. apply Forall_app. auto.
Qed.

Lemma since_emitted P s s' : since P s s' -> Forall P (cfg_emitted s s').
Proof. intros (evs & Htr & Hall). now rewrite (cfg_emitted_app _ _ _ Htr). Qed.

(** The calls of a refusal: a log, the closing of the encoder. *)
Definition refusal_call (ev : CfgEv) : Prop :=
  match ev with
  | CfgLog _ _ | CfgAvcodecClose => True
  | _ => False
  end.

(** [ffenc_config_input] up to the look at the input format: either
    it has left, on a refusal, or it is there with a codec and no
    encoder. *)
Lemma config_input_wp pid ctx s (E : Outcome -> GF_FFEncodeCtx lib -> Session -> Prop) :
  (forall r c' s', r <> Ret GF_OK -> since refusal_call s s' -> E r c' s') ->
  (forall c1 s1 codec ty pfmt afmt,
      in_pid c1 = Some (pid_id pid) -> type c1 = ty ->
      ty = GF_STREAM_AUDIO \/ ty = GF_STREAM_VISUAL ->
      encoder c1 = None -> out_pid c1 = out_pid ctx ->
      avcodec_find_encoder (ffmpeg_codecid_from_gpac (codecid c1)) = Some codec ->
      (ty = GF_STREAM_VISUAL ->
       exists p, gf_filter_pid_get_property pid GF_PROP_PID_PIXFMT = Some p /\ pfmt = uint p) ->
      (ty <> GF_STREAM_VISUAL ->
       exists p, gf_filter_pid_get_property pid GF_PROP_PID_AUDIO_FORMAT = Some p
                 /\ afmt = uint p) ->
      s1 = s \/ s1 = told s CfgAvcodecClose ->
      wp (infmt_negociate ← check_format codec ty pfmt afmt;
          if infmt_negociate : bool then ret GF_OK
          else configure_encoder pid codec ty pfmt afmt)
        (fun e => E (Ret e)) E c1 s1) ->
  wp (ffenc_config_input pid false) (fun e => E (Ret e)) E ctx s.
Proof.
  intros Hearly Hgo. unfold ffenc_config_input.
  apply wp_bind. unfold wp at 1.
  destruct (check_pid_spec pid ctx s) as [(Hraw & pt & Hpt & ->)|(Hraw & ->)].
  2: { apply Hearly; [discriminate|apply since_refl]. }
  assert (uint pt = GF_STREAM_AUDIO \/ uint pt = GF_STREAM_VISUAL) as Hty.
  { destruct Hraw as [(p & Hp & Hty) _]. congruence. }
  set (ty := uint pt) in *.
  apply wp_bind.
  apply wp_mono with
    (Q := fun _ c' s' => s' = s /\ out_pid c' = out_pid ctx) (E := fun _ _ _ => False);
    [|cbv beta|tauto].
  { destruct (gf_filter_pid_caps_query _ _); exec; now split. }
  intros _ c0 s0 [-> Hk0].
  apply wp_bind. eapply wp_mono; [apply accept_pid_spec|cbv beta|cbv beta].
  2: { intros r c' s' [-> Hr]. apply Hearly; [|apply since_refl].
       destruct Hr as [-> | ->]; discriminate. }
  intros _ c1 s1 (-> & Hin & Htype & Hout & Henc & Hcid).
  apply wp_bind. eapply wp_mono; [apply read_format_spec|cbv beta|cbv beta].
  2: { intros r c' s' (-> & _ & msg & ->). apply Hearly; [discriminate|].
       apply since_told; [exact I|apply since_refl]. }
  intros [pfmt afmt] c2 s2 (-> & Hk2 & Hpix & Haud).
  apply wp_bind. eapply wp_mono; [apply close_encoder_spec|cbv beta|cbv beta].
  2: { intros r c' s' (-> & [[-> ->]|[-> (msg & ->)]]).
       - apply Hearly; [discriminate|apply since_refl].
       - apply Hearly; [discriminate|]. apply since_told; [exact I|apply since_refl]. }
  intros _ c3 s3 (Henc3 & Hin3 & Hout3 & Hty3 & Hcid3 & Hs3).
  assert (since refusal_call s s3) as Hsince.
  { destruct Hs3 as [-> | ->]; [apply since_refl|].
    apply since_told; [exact I|apply since_refl]. }
  apply wp_bind. eapply wp_mono; [apply find_codec_spec|cbv beta|cbv beta].
  2: { intros r c' s' (-> & -> & ->). apply Hearly; [discriminate|exact Hsince]. }
  intros codec c4 s4 (-> & -> & Hcodec).
  destruct Hk2 as (Hk21 & Hk22 & Hk23 & Hk24 & Hk25).
  apply (Hgo c3 s3 codec ty pfmt afmt); auto; try congruence.
  - intros Hv. destruct (Hpix Hv) as (p & Hp & [= -> _]). eauto.
  - intros Hv. destruct (Haud Hv) as (p & Hp & [= _ ->]). eauto.
Qed.

(** What the opening of the codec and the declaration of the output
    leave alone. *)
Definition settled (c c' : GF_FFEncodeCtx lib) : Prop :=
  process c' = process c /\ type c' = type c /\ codecid c' = codecid c
  /\ timescale c' = timescale c /\ enc_buffer c' = enc_buffer c
  /\ audio_buffer c' = audio_buffer c /\ sample_rate c' = sample_rate c
  /\ bytes_in_audio_buffer c' = bytes_in_audio_buffer c
  /\ init_cts_setup c' = init_cts_setup c
  /\ width c' = width c /\ height c' = height c.

(** The calls after [avcodec_open2] has given [res], [out_pid] being
    [before] at first. *)
Definition output_declared (pid : GF_FilterPid) (ty res : Z) (before : option nat)
    (r : Outcome) (c' : GF_FFEncodeCtx lib) (evs : list CfgEv) : Prop :=
  (res < 0 ->
   r = Ret GF_NON_COMPLIANT_BITSTREAM /\ out_pid c' = before
   /\ Forall (fun ev => pid_call ev = None) evs)
  /\ (0 <= res ->
      (r = Ret GF_OK \/ r = Abort) /\ in_pid c' = Some (pid_id pid)
      /\ exists o,
          out_pid c' = Some o
          /\ (CfgPidNew o ∈ evs <-> before = None)
          /\ (r = Ret GF_OK ->
              CfgCopyProperties o (pid_id pid) ∈ evs
              /\ CfgSetProperty o (Key GF_PROP_PID_CODECID)
                   (Some (Val (PROP_UINT (codecid c')))) ∈ evs
              /\ (ty = GF_STREAM_AUDIO ->
                  CfgSetProperty o (Key GF_PROP_PID_TIMESCALE)
                    (Some (Val (PROP_UINT (timescale c')))) ∈ evs))).

Ltac not_in H :=
  repeat (apply elem_of_cons in H as [H|H]; [discriminate|]); now apply elem_of_nil in H.

Lemma open_and_declare_spec pid codec ty c s enc0 :
  encoder c = Some enc0 ->
  let post := fun r c' s' =>
    exists res evs,
      s_trace s' = s_trace s ++ CfgAvcodecOpen res :: evs
      /\ Forall (fun ev => is_open ev = false /\ is_negociate ev = false) evs
      /\ is_Some (encoder c') /\ settled c c'
      /\ (res < 0 -> in_pid c' = in_pid c)
      /\ output_declared pid ty res (out_pid c) r c' evs in
  wp (open_and_declare pid codec ty) (fun e => post (Ret e)) post c s.
Proof.
  intros Henc post. unfold open_and_declare. exec. rewrite Henc.
  destruct (avcodec_open2 _ _ _) as [[res enc] opts]. exec.
  destruct (res <? 0) eqn:Hres; [apply Z.ltb_lt in Hres|apply Z.ltb_ge in Hres]; exec.
  { eexists res, _. rewrite <- !app_assoc. cbn [app].
    split; [reflexivity|]. split; [repeat constructor|]. split; [eauto|].
    split; [now repeat split|]. split; [reflexivity|]. split; [|lia].
    intros _. repeat split. repeat constructor. }
  unfold declare_output, new_out_pid. exec.
  repeat break_cfg_match; subst post; cbv beta; eexists res, _;
    rewrite <- ?app_assoc; cbn [app]; unfold output_declared; ctx_simpl;
    repeat match goal with H : out_pid c = _ |- _ => rewrite H; clear H end;
    (split; [reflexivity|]); (split; [repeat constructor|]); (split; [eauto|]);
    (split; [now repeat split|]); (split; [lia|]); (split; [lia|]); intros _;
    (split; [auto|]); (split; [reflexivity|]); eexists; (split; [reflexivity|]).
  all: split; [split; intros H;
               [first [reflexivity | not_in H]
               |first [discriminate | rewrite !elem_of_cons; auto 10]]|].
  all: intros Hr; try discriminate; rewrite !elem_of_cons; repeat split; auto 10.
  all: intros ->; discriminate.
Qed.

(** The context of a configured encoder, for the input pid [pid]. *)
Definition configured (pid : GF_FilterPid) (c : GF_FFEncodeCtx lib) : Prop :=
  type c = GF_STREAM_VISUAL /\ process c = Some Video
  /\ enc_buffer c = Some (u64 (width c * height c))
  \/ type c = GF_STREAM_AUDIO /\ process c = Some Audio
     /\ enc_buffer c = Some (sample_rate c) /\ audio_buffer c = Some (sample_rate c)
     /\ bytes_in_audio_buffer c = 0 /\ init_cts_setup c = true
     /\ timescale c = match gf_filter_pid_get_property pid (Key GF_PROP_PID_TIMESCALE) with
                      | Some prop => uint prop
                      | None => sample_rate c
                      end.

Lemma configured_settled pid c c' : settled c c' -> configured pid c -> configured pid c'.
Proof.
  unfold settled, configured.
  intros (-> & -> & _ & -> & -> & -> & -> & -> & -> & -> & ->). tauto.
Qed.

(** Calls that are on no output pid, open no codec and ask for no
    format. *)
Definition plain (ev : CfgEv) : Prop :=
  pid_call ev = None /\ is_open ev = false /\ is_negociate ev = false.

Lemma declared_after pid ty res before r c' pre evs :
  Forall plain pre ->
  output_declared pid ty res before r c' evs ->
  output_declared pid ty res before r c' (pre ++ CfgAvcodecOpen res :: evs).
Proof.
  intros Hpre [Hneg Hpos]. split.
  - intros Hres. destruct (Hneg Hres) as (Hr & Ho & Hall). repeat split; auto.
    apply Forall_app. split.
    + eapply Forall_impl; [exact Hpre|]. now intros ev [? _].
    + now constructor.
  - intros Hres. destruct (Hpos Hres) as (Hr & Hi & o & Ho & Hnew & Hok).
    repeat split; auto. exists o. split; [exact Ho|]. split.
    + rewrite <- Hnew, elem_of_app, elem_of_cons. split; [|auto].
      intros [Hin|[Hin|Hin]]; [|discriminate|exact Hin].
      rewrite Forall_forall in Hpre. now destruct (Hpre _ Hin).
    + intros Hr'. destruct (Hok Hr') as (H1 & H2 & H3).
      rewrite !elem_of_app, !elem_of_cons. auto 10.
Qed.

(** [ffenc_config_input] from the allocation of the encoder on, the
    calls made before being [pre]. *)
Lemma configure_encoder_spec pid codec ty pfmt afmt c s s0 pre :
  in_pid c = Some (pid_id pid) -> type c = ty ->
  ty = GF_STREAM_AUDIO \/ ty = GF_STREAM_VISUAL ->
  s_trace s = s_trace s0 ++ pre -> Forall plain pre ->
  let post := fun r c' s' =>
    Forall (fun ev => is_negociate ev = false) (cfg_emitted s0 s')
    /\ forall res, CfgAvcodecOpen res ∈ cfg_emitted s0 s' ->
         is_Some (encoder c') /\ in_pid c' = Some (pid_id pid) /\ type c' = ty
         /\ configured pid c'
         /\ output_declared pid ty res (out_pid c) r c' (cfg_emitted s0 s') in
  wp (configure_encoder pid codec ty pfmt afmt) (fun e => post (Ret e)) post c s.
Proof.
  intros Hin Htype Hty Hs Hpre post.
  assert (forall r c' s' evs,
            s_trace s' = s_trace s ++ evs -> Forall plain evs -> post r c' s') as Hplain.
  { intros r c' s' evs Hs' Hevs. rewrite Hs, <- app_assoc in Hs'.
    assert (Forall plain (pre ++ evs)) as Hall by (apply Forall_app; auto).
    unfold post. rewrite (cfg_emitted_app _ _ _ Hs'). split.
    - eapply Forall_impl; [exact Hall|]. now intros ev (_ & _ & ?).
    - intros res Hres. rewrite Forall_forall in Hall.
      destruct (Hall _ Hres) as (_ & Ho & _). discriminate. }
  assert (forall c2 s2 evs,
            s_trace s2 = s_trace s ++ evs -> Forall plain evs ->
            is_Some (encoder c2) -> in_pid c2 = in_pid c -> out_pid c2 = out_pid c ->
            type c2 = type c -> configured pid c2 ->
            wp (open_and_declare pid codec ty) (fun e => post (Ret e)) post c2 s2) as Hopen.
  { intros c2 s2 evs Hs2 Hevs [enc2 Henc2] Hin2 Hout2 Htype2 Hconf.
    eapply wp_mono; [apply (open_and_declare_spec pid codec ty c2 s2 enc2 Henc2)|cbv beta..].
    all: intros r c3 s3 (res & evs3 & Hs3 & Hev3 & Henc3 & Hset & Hin3 & Hdecl).
    all: rewrite Hs2, Hs, <- !app_assoc in Hs3.
    all: assert (Forall plain (pre ++ evs)) as Hall by (apply Forall_app; auto).
    all: unfold post; rewrite (cfg_emitted_app _ _ _ Hs3), app_assoc; split.
    1,3: apply Forall_app; split;
         [eapply Forall_impl; [exact Hall|]; now intros ev (_ & _ & ?)
         |constructor; [reflexivity|]; eapply Forall_impl; [exact Hev3|]; now intros ev [_ ?]].
    all: intros res' Hres'.
    all: assert (res' = res) as ->.
    1,3: apply elem_of_app in Hres' as [Hres'|Hres'];
         [rewrite Forall_forall in Hall; destruct (Hall _ Hres') as (_ & Ho & _); discriminate|];
         apply elem_of_cons in Hres' as [[= ->]|Hres']; [reflexivity|];
         rewrite Forall_forall in Hev3; destruct (Hev3 _ Hres') as [Ho _]; discriminate.
    all: split; [exact Henc3|].
    all: split;
         [destruct (Z.lt_ge_cases res 0) as [Hlt|Hge];
          [rewrite (Hin3 Hlt); congruence|now destruct Hdecl as [_ Hd]; destruct (Hd Hge) as (_ & ? & _)]|].
    all: split; [destruct Hset as (_ & Ht & _); congruence|].
    all: split; [now apply (configured_settled pid c2)|].
    all: rewrite <- Hout2; now apply declared_after. }
  unfold configure_encoder. apply wp_bind.
  destruct (avcodec_alloc_context3 codec) as [enc|]; exec.
  2: { apply (Hplain _ _ _ []); [now rewrite app_nil_r|constructor]. }
  apply wp_bind. destruct Hty as [Hty|Hty]; rewrite Hty in *; cbn [Z.eqb GF_STREAM_AUDIO GF_STREAM_VISUAL Pos.eqb].
  - eapply wp_mono; [apply (setup_audio_spec pid afmt _ s enc); reflexivity|cbv beta|now intros ? ? ? ?].
    intros _ c2 s2 (Hp & Henc2 & Hb & Hab & Hbytes & Hinit & Hts & Hin2 & Hout2 & Hty2 & Hcid
                    & Hsr & ->).
    apply (Hopen _ _ [CfgMalloc (sample_rate c); CfgMalloc (sample_rate c)]); auto.
    + cbn. now rewrite <- app_assoc.
    + repeat constructor.
    + right. ctx_simpl_in Hb. ctx_simpl_in Hab. ctx_simpl_in Hts. ctx_simpl_in Hty2.
      ctx_simpl_in Hsr. rewrite Hsr. repeat split; auto. congruence.
  - eapply wp_mono; [apply (setup_video_spec pid pfmt _ s enc); reflexivity|cbv beta..].
    + intros _ c2 s2 (Hp & Henc2 & Hb & Hin2 & Hout2 & Hty2 & Hcid & Hw & Hh & ->).
      apply (Hopen _ _ [CfgMalloc (u64 (width c * height c))]); auto.
      * repeat constructor.
      * left. ctx_simpl_in Hty2. ctx_simpl_in Hw. ctx_simpl_in Hh.
        rewrite Hw, Hh. repeat split; auto. congruence.
    + intros r c2 s2 [-> ->]. apply (Hplain _ _ _ []); [now rewrite app_nil_r|constructor].
Qed.

(** What [ffenc_config_input] has done when it has asked for another
    format, and when it has opened the codec. *)
Definition asked_format (pid : GF_FilterPid) (ctx : GF_FFEncodeCtx lib) (s : Session)
    (r : Outcome) (ctx' : GF_FFEncodeCtx lib) (s' : Session) : Prop :=
  forall ipid k v, CfgNegociateProperty ipid k v ∈ cfg_emitted s s' ->
    r = Ret GF_OK /\ ipid = pid_id pid /\ in_pid ctx' = Some (pid_id pid)
    /\ encoder ctx' = None /\ out_pid ctx' = out_pid ctx
    /\ (cfg_emitted s s' = [CfgNegociateProperty ipid k v]
        \/ cfg_emitted s s' = [CfgAvcodecClose; CfgNegociateProperty ipid k v])
    /\ exists codec p,
        avcodec_find_encoder (ffmpeg_codecid_from_gpac (codecid ctx')) = Some codec
        /\ (type ctx' = GF_STREAM_VISUAL /\ k = GF_PROP_PID_PIXFMT
            /\ gf_filter_pid_get_property pid GF_PROP_PID_PIXFMT = Some p
            /\ u32 (ffmpeg_pixfmt_from_gpac (uint p)) <> 0
            /\ (u32 (ffmpeg_pixfmt_from_gpac (uint p)) ∉ u32 <$> default [] (pix_fmts codec))
            /\ pixel_fmt ctx' = match pix_fmts codec with
                                | Some fmts => first_fmt AV_PIX_FMT_NONE fmts
                                | None => u32 AV_PIX_FMT_YUV420P
                                end
            /\ v = u32 (ffmpeg_pixfmt_to_gpac (pixel_fmt ctx'))
            \/ type ctx' = GF_STREAM_AUDIO /\ k = GF_PROP_PID_AUDIO_FORMAT
               /\ gf_filter_pid_get_property pid GF_PROP_PID_AUDIO_FORMAT = Some p
               /\ u32 (ffmpeg_audio_fmt_from_gpac (uint p)) <> 0
               /\ (u32 (ffmpeg_audio_fmt_from_gpac (uint p))
                   ∉ u32 <$> default [] (sample_fmts codec))
               /\ sample_fmt ctx' = match sample_fmts codec with
                                    | Some fmts => first_fmt AV_SAMPLE_FMT_NONE fmts
                                    | None => u32 AV_SAMPLE_FMT_S16
                                    end
               /\ v = u32 (ffmpeg_audio_fmt_to_gpac (sample_fmt ctx'))).

Definition opened_codec (pid : GF_FilterPid) (ctx : GF_FFEncodeCtx lib) (s : Session)
    (r : Outcome) (ctx' : GF_FFEncodeCtx lib) (s' : Session) : Prop :=
  forall res, CfgAvcodecOpen res ∈ cfg_emitted s s' ->
    is_Some (encoder ctx') /\ in_pid ctx' = Some (pid_id pid)
    /\ configured pid ctx'
    /\ output_declared pid (type ctx') res (out_pid ctx) r ctx' (cfg_emitted s s').

Lemma config_input_post pid ctx s :
  let '(r, ctx', s') := run (ffenc_config_input pid false) ctx s in
  asked_format pid ctx s r ctx' s' /\ opened_codec pid ctx s r ctx' s'.
Proof.
  apply (wp_run _ (fun r c' s' => asked_format pid ctx s r c' s' /\ opened_codec pid ctx s r c' s')).
  apply config_input_wp.
  { intros r c' s' Hr Hsince. apply since_emitted in Hsince. rewrite Forall_forall in Hsince.
    split; [intros ipid k v H|intros res H]; destruct (Hsince _ H). }
  intros c1 s1 codec ty pfmt afmt Hin Htype Hty Henc Hout Hcodec Hpix Haud Hs1.
  assert (exists pre, s_trace s1 = s_trace s ++ pre /\ Forall plain pre
                      /\ (pre = [] \/ pre = [CfgAvcodecClose])) as (pre & Hpre & Hplain & Hshape).
  { destruct Hs1 as [-> | ->].
    - exists []. rewrite app_nil_r. repeat split; auto.
    - exists [CfgAvcodecClose]. repeat split; auto. repeat constructor. }
  (* the encoder's configuration asks for no format *)
  assert (forall c2, in_pid c2 = in_pid c1 -> type c2 = type c1 -> out_pid c2 = out_pid c1 ->
            wp (configure_encoder pid codec ty pfmt afmt)
              (fun e c' s' =>
                 asked_format pid ctx s (Ret e) c' s' /\ opened_codec pid ctx s (Ret e) c' s')
              (fun r c' s' => asked_format pid ctx s r c' s' /\ opened_codec pid ctx s r c' s')
              c2 s1) as Hconf.
  { intros c2 Hin2 Hty2 Hout2.
    eapply wp_mono;
      [apply (configure_encoder_spec pid codec ty pfmt afmt c2 s1 s pre); auto; congruence
      |cbv beta..].
    all: intros r c' s' [Hnoneg Hopen]; split.
    1,3: intros ipid k v Hneg; rewrite Forall_forall in Hnoneg;
         specialize (Hnoneg _ Hneg); discriminate.
    all: intros res Hres; destruct (Hopen res Hres) as (H1 & H2 & H3 & H4 & H5).
    all: rewrite H3, <- Hout, <- Hout2; auto. }
  (* the request for a format opens no codec *)
  assert (forall (E : Prop) res ev,
            CfgAvcodecOpen res ∈ cfg_emitted s (told s1 ev) -> is_open ev = false -> E)
    as Hnoopen.
  { intros E res ev Hres Hev.
    assert (s_trace (told s1 ev) = s_trace s ++ pre ++ [ev]) as Htr
      by (cbn; now rewrite Hpre, <- app_assoc).
    rewrite (cfg_emitted_app _ _ _ Htr) in Hres.
    apply elem_of_app in Hres as [Hres|Hres].
    - rewrite Forall_forall in Hplain. destruct (Hplain _ Hres) as (_ & ? & _). discriminate.
    - apply list_elem_of_singleton in Hres. subst ev. discriminate. }
  assert (forall ev ipid k v,
            CfgNegociateProperty ipid k v ∈ cfg_emitted s (told s1 ev) ->
            ev = CfgNegociateProperty ipid k v
            /\ (cfg_emitted s (told s1 ev) = [ev]
                \/ cfg_emitted s (told s1 ev) = [CfgAvcodecClose; ev])) as Hasked.
  { intros ev ipid k v Hneg.
    assert (s_trace (told s1 ev) = s_trace s ++ pre ++ [ev]) as Htr
      by (cbn; now rewrite Hpre, <- app_assoc).
    rewrite (cfg_emitted_app _ _ _ Htr) in *.
    apply elem_of_app in Hneg as [Hneg|Hneg].
    - rewrite Forall_forall in Hplain. destruct (Hplain _ Hneg) as (_ & _ & ?). discriminate.
    - apply list_elem_of_singleton in Hneg. split; [congruence|].
      destruct Hshape as [-> | ->]; auto. }
  apply wp_bind. unfold wp at 1.
  destruct (decide (ty = GF_STREAM_VISUAL)) as [Hv|Hv].
  - destruct (Hpix Hv) as (p & Hp & ->). subst ty. rewrite Hv.
    rewrite (check_format_video codec (uint p) afmt c1 s1 (pid_id pid) Hin). cbv zeta.
    destruct (bool_decide_reflect
                (u32 (ffmpeg_pixfmt_from_gpac (uint p)) = 0
                 \/ u32 (ffmpeg_pixfmt_from_gpac (uint p)) ∈ u32 <$> default [] (pix_fmts codec)))
      as [Hk|Hk].
    + rewrite <- Hv. now apply Hconf.
    + unfold wp, ret. split.
      * intros ipid k v Hneg. destruct (Hasked _ _ _ _ Hneg) as [[= <- <- <-] Hev].
        repeat split; auto. exists codec, p. split; [exact Hcodec|]. left.
        repeat split; auto; tauto.
      * intros res Hres. now apply (Hnoopen _ res _ Hres).
  - assert (ty = GF_STREAM_AUDIO) as Ha by tauto.
    destruct (Haud Hv) as (p & Hp & ->).
    rewrite (check_format_audio codec ty pfmt (uint p) c1 s1 (pid_id pid) Hin Hv). cbv zeta.
    destruct (bool_decide_reflect
                (u32 (ffmpeg_audio_fmt_from_gpac (uint p)) = 0
                 \/ u32 (ffmpeg_audio_fmt_from_gpac (uint p))
                    ∈ u32 <$> default [] (sample_fmts codec)))
      as [Hk|Hk].
    + now apply Hconf.
    + unfold wp, ret. split.
      * intros ipid k v Hneg. destruct (Hasked _ _ _ _ Hneg) as [[= <- <- <-] Hev].
        repeat split; auto. exists codec, p. split; [exact Hcodec|]. right.
        repeat split; auto; try tauto. ctx_simpl. congruence.
      * intros res Hres. now apply (Hnoopen _ res _ Hres).
Qed.

End EncoderSteps.

Section EncoderSettings.
Import FFEncCfg.
Context {lib : AVLib} {engine : AVEngine lib}.
#[local] Existing Instances M_ret M_bind.

(** *** What the filter keeps for life *)

(** A field of the context has a value. *)
Definition field_is {T : Type} (field : GF_FFEncodeCtx lib -> T) (v : T)
  : GF_FFEncodeCtx lib -> Session -> Prop :=
  fun c _ => field c = v.

Ltac field_side :=
  first [ exact (fun _ _ H => H)
        | intros ? ? ?; unfold field_is in *; break_let;
          first [assumption | reflexivity | cbn; congruence] ].

Lemma accept_pid_in_pid i pid ty :
  triple (field_is in_pid (Some i)) (accept_pid pid ty)
    (fun _ c s => field_is in_pid (Some i) c s /\ pid_id pid = i)
    (fun _ => field_is in_pid (Some i)).
Proof.
  intros c s H. unfold field_is in *. unfold accept_pid. exec. rewrite H.
  destruct (bool_decide_reflect (Some i = None \/ Some i = Some (pid_id pid))) as [Hp|Hp];
    [|exact H].
  assert (pid_id pid = i) as Hi by (destruct Hp; congruence).
  exec. repeat break_cfg_match; ctx_simpl; auto; split; congruence.
Qed.

Lemma accept_pid_type t pid ty :
  t <> 0 ->
  triple (field_is type t) (accept_pid pid ty) (fun _ => field_is type t)
    (fun _ => field_is type t).
Proof.
  intros Ht c s H. unfold field_is in *. unfold accept_pid. exec. rewrite H.
  apply Z.eqb_neq in Ht. rewrite Ht. repeat break_cfg_match; ctx_simpl; auto.
Qed.

Ltac field_step :=
  lazymatch goal with
  | |- triple _ (mbind _ (accept_pid _ _)) _ _ =>
      first
        [ eapply triple_bind;
          [apply accept_pid_in_pid|intros ?; apply triple_pure; intros ?]
        | eapply triple_bind; [apply accept_pid_type; assumption|intros ?] ]
  | _ => triple_step field_side
  end.

Ltac unfold_config :=
  unfold ffenc_config_input, check_pid, read_format, close_encoder, find_codec,
    check_format, configure_encoder, setup_video, setup_audio, open_and_declare,
    declare_output, new_out_pid, negociate, GET_PROP, on_encoder, dict_set, when.

Lemma callback_in_pid i cb :
  triple (field_is in_pid (Some i)) (callback cb)
    (fun _ => field_is in_pid (Some i)) (fun _ => field_is in_pid (Some i)).
Proof.
  destruct cb as [|name val|pid is_remove]; cbn [callback].
  - unfold ffenc_initialize. repeat triple_step field_side.
  - unfold ffenc_update_arg, dict_set, when. repeat triple_step field_side.
  - unfold_config. repeat field_step.
Qed.

Lemma callback_type t cb :
  t <> 0 ->
  triple (field_is type t) (callback cb) (fun _ => field_is type t) (fun _ => field_is type t).
Proof.
  intros Ht. destruct cb as [|name val|pid is_remove]; cbn [callback].
  - unfold ffenc_initialize. repeat triple_step field_side.
  - unfold ffenc_update_arg, dict_set, when. repeat triple_step field_side.
  - unfold_config. repeat field_step.
Qed.

Lemma callback_low_delay cb :
  triple (field_is low_delay true) (callback cb)
    (fun _ => field_is low_delay true) (fun _ => field_is low_delay true).
Proof.
  destruct cb as [|name val|pid is_remove]; cbn [callback].
  - unfold ffenc_initialize. repeat triple_step field_side.
  - unfold ffenc_update_arg, dict_set, when. repeat triple_step field_side.
  - unfold_config. unfold accept_pid, when. repeat triple_step field_side.
Qed.

Lemma callback_initialized cb :
  triple (field_is initialized true) (callback cb)
    (fun _ => field_is initialized true) (fun _ => field_is initialized true).
Proof.
  destruct cb as [|name val|pid is_remove]; cbn [callback].
  - unfold ffenc_initialize. repeat triple_step field_side.
  - unfold ffenc_update_arg, dict_set, when. repeat triple_step field_side.
  - unfold_config. unfold accept_pid, when. repeat triple_step field_side.
Qed.

(** X25: what the filter has taken, it keeps.  Over any calls of
    [ffenc_initialize], [ffenc_update_arg] and [ffenc_config_input],
    from any context: the input pid, once there is one, stays the same;
    the stream type, once it is not 0, stays the same; [low_delay] and
    [initialized], once set, stay set. *)
Theorem ffenc_settings_are_kept (cbs : list Callback) (ctx : GF_FFEncodeCtx lib)
    (s : Session) :
  let '(_, ctx', _) := callbacks cbs ctx s in
  (forall ipid, in_pid ctx = Some ipid -> in_pid ctx' = Some ipid)
  /\ (type ctx <> 0 -> type ctx' = type ctx)
  /\ (low_delay ctx = true -> low_delay ctx' = true)
  /\ (initialized ctx = true -> initialized ctx' = true).
Proof.
  pose proof (fun i => callbacks_keep _ (callback_in_pid i) cbs ctx s) as Hin.
  pose proof (fun t (Ht : t <> 0) =>
                callbacks_keep _ (fun cb => callback_type t cb Ht) cbs ctx s) as Hty.
  pose proof (callbacks_keep _ callback_low_delay cbs ctx s) as Hlow.
  pose proof (callbacks_keep _ callback_initialized cbs ctx s) as Hinit.
  destruct (callbacks cbs ctx s) as [[r ctx'] s']. unfold field_is in *.
  repeat split; auto.
Qed.

End EncoderSettings.

Section EncoderFormats.
Import FFEncCfg.
Context {lib : AVLib} {engine : AVEngine lib}.

(** X27: the encoder asks the input pid for another format only for
    a format that is not 0 and that the codec does not list, whatever the
    codec lists for format 0; the format asked is the first the codec
    lists ([AV_PIX_FMT_YUV420P], [AV_SAMPLE_FMT_S16] without a list).  The
    request is then the last call of [ffenc_config_input], after the
    closing of a former encoder if any; the callback returns [GF_OK] with
    the input pid recorded, without an encoder, and with nothing
    allocated, opened or declared. *)
Theorem ffenc_config_input_asks_format (pid : GF_FilterPid) (ctx : GF_FFEncodeCtx lib)
    (s : Session) :
  let '(r, ctx', s') := run (ffenc_config_input pid false) ctx s in
  forall ipid k v, CfgNegociateProperty ipid k v ∈ cfg_emitted s s' ->
    r = Ret GF_OK /\ ipid = pid_id pid /\ in_pid ctx' = Some (pid_id pid)
    /\ encoder ctx' = None /\ out_pid ctx' = out_pid ctx
    /\ (cfg_emitted s s' = [CfgNegociateProperty ipid k v]
        \/ cfg_emitted s s' = [CfgAvcodecClose; CfgNegociateProperty ipid k v])
    /\ exists codec p,
        avcodec_find_encoder (ffmpeg_codecid_from_gpac (codecid ctx')) = Some codec
        /\ (type ctx' = GF_STREAM_VISUAL /\ k = GF_PROP_PID_PIXFMT
            /\ gf_filter_pid_get_property pid GF_PROP_PID_PIXFMT = Some p
            /\ u32 (ffmpeg_pixfmt_from_gpac (uint p)) <> 0
            /\ (u32 (ffmpeg_pixfmt_from_gpac (uint p)) ∉ u32 <$> default [] (pix_fmts codec))
            /\ pixel_fmt ctx' = match pix_fmts codec with
                                | Some fmts => first_fmt AV_PIX_FMT_NONE fmts
                                | None => u32 AV_PIX_FMT_YUV420P
                                end
            /\ v = u32 (ffmpeg_pixfmt_to_gpac (pixel_fmt ctx'))
            \/ type ctx' = GF_STREAM_AUDIO /\ k = GF_PROP_PID_AUDIO_FORMAT
               /\ gf_filter_pid_get_property pid GF_PROP_PID_AUDIO_FORMAT = Some p
               /\ u32 (ffmpeg_audio_fmt_from_gpac (uint p)) <> 0
               /\ (u32 (ffmpeg_audio_fmt_from_gpac (uint p))
                   ∉ u32 <$> default [] (sample_fmts codec))
               /\ sample_fmt ctx' = match sample_fmts codec with
                                    | Some fmts => first_fmt AV_SAMPLE_FMT_NONE fmts
                                    | None => u32 AV_SAMPLE_FMT_S16
                                    end
               /\ v = u32 (ffmpeg_audio_fmt_to_gpac (sample_fmt ctx'))).
Proof.
  pose proof (config_input_post pid ctx s) as H.
  destruct (run (ffenc_config_input pid false) ctx s) as [[r ctx'] s'].
  exact (proj1 H).
Qed.

(** X28: when [ffenc_config_input] has called [avcodec_open2], with
    result [res], the context has the encoder, the input pid, the
    [process] callback of its stream type and the buffers newly
    allocated for it, whether the codec has opened or not.  If it has
    not ([res < 0]) the callback returns [GF_NON_COMPLIANT_BITSTREAM],
    [out_pid] is as before and no call was made on an output pid.  If it
    has, the callback returns [GF_OK] (or stops, the codec of the opened
    encoder being null); [out_pid] is set, and was created in this call
    exactly when there was none; on [GF_OK] the properties of the input
    were copied to it and its codec id set, and for audio its timescale. *)
Theorem ffenc_config_input_opens (pid : GF_FilterPid) (ctx : GF_FFEncodeCtx lib)
    (s : Session) :
  let '(r, ctx', s') := run (ffenc_config_input pid false) ctx s in
  forall res, CfgAvcodecOpen res ∈ cfg_emitted s s' ->
    is_Some (encoder ctx') /\ in_pid ctx' = Some (pid_id pid)
    /\ (type ctx' = GF_STREAM_VISUAL /\ process ctx' = Some Video
        /\ enc_buffer ctx' = Some (u64 (width ctx' * height ctx'))
        \/ type ctx' = GF_STREAM_AUDIO /\ process ctx' = Some Audio
           /\ enc_buffer ctx' = Some (sample_rate ctx')
           /\ audio_buffer ctx' = Some (sample_rate ctx')
           /\ bytes_in_audio_buffer ctx' = 0 /\ init_cts_setup ctx' = true
           /\ timescale ctx'
              = match gf_filter_pid_get_property pid (Key GF_PROP_PID_TIMESCALE) with
                | Some prop => uint prop
                | None => sample_rate ctx'
                end)
    /\ (res < 0 ->
        r = Ret GF_NON_COMPLIANT_BITSTREAM /\ out_pid ctx' = out_pid ctx
        /\ Forall (fun ev => pid_call ev = None) (cfg_emitted s s'))
    /\ (0 <= res ->
        (r = Ret GF_OK \/ r = Abort) /\ in_pid ctx' = Some (pid_id pid)
        /\ exists o,
            out_pid ctx' = Some o
            /\ (CfgPidNew o ∈ cfg_emitted s s' <-> out_pid ctx = None)
            /\ (r = Ret GF_OK ->
                CfgCopyProperties o (pid_id pid) ∈ cfg_emitted s s'
                /\ CfgSetProperty o (Key GF_PROP_PID_CODECID)
                     (Some (Val (PROP_UINT (codecid ctx')))) ∈ cfg_emitted s s'
                /\ (type ctx' = GF_STREAM_AUDIO ->
                    CfgSetProperty o (Key GF_PROP_PID_TIMESCALE)
                      (Some (Val (PROP_UINT (timescale ctx')))) ∈ cfg_emitted s s'))).
Proof.
  pose proof (config_input_post pid ctx s) as H.
  destruct (run (ffenc_config_input pid false) ctx s) as [[r ctx'] s'].
  exact (proj2 H).
Qed.

End EncoderFormats.

Section EncoderRegister.
Import FFEncCfg.
Variable ffmpeg_arg_translate : AVOption -> GF_FilterArgs.

Lemma count_option_filter (opts : list AVOption) (i : nat) :
  foldl count_option i opts = (i + length (filter (fun o => is_encoding o = true) opts))%nat.
Proof.
  revert i. induction opts as [|o opts IH]; intros i; cbn [foldl].
  - rewrite filter_nil. cbn. lia.
  - rewrite IH, filter_cons. unfold count_option.
    destruct (is_encoding o) eqn:He.
    + rewrite decide_True by reflexivity. cbn [length]. lia.
    + rewrite decide_False by discriminate. lia.
Qed.

Lemma write_option_fills (opts : list AVOption) (pre : list GF_FilterArgs) (k : nat) :
  snd (foldl (write_option ffmpeg_arg_translate)
         (length pre,
          pre ++ replicate (length (filter (fun o => is_encoding o = true) opts) + k) zero_arg)
         opts)
  = pre ++ (ffmpeg_arg_translate <$> filter (fun o => is_encoding o = true) opts)
        ++ replicate k zero_arg.
Proof.
  revert pre. induction opts as [|o opts IH]; intros pre; cbn [foldl].
  - rewrite filter_nil. reflexivity.
  - rewrite filter_cons. unfold write_option at 2. destruct (is_encoding o) eqn:He.
    + rewrite decide_True by reflexivity. cbn [length Nat.add replicate fmap list_fmap].
      replace (<[length pre:=ffmpeg_arg_translate o]>
                 (pre ++ zero_arg :: replicate (length (filter (fun o => is_encoding o = true) opts) + k) zero_arg))
        with ((pre ++ [ffmpeg_arg_translate o])
                ++ replicate (length (filter (fun o => is_encoding o = true) opts) + k) zero_arg).
      2: { rewrite insert_app_r_alt by lia. rewrite Nat.sub_diag. cbn.
           now rewrite <- app_assoc. }
      replace (S (length pre)) with (length (pre ++ [ffmpeg_arg_translate o]))
        by (rewrite length_app; cbn; lia).
      rewrite IH. now rewrite <- app_assoc.
    + rewrite decide_False by discriminate. apply IH.
Qed.

(** X30: the table of arguments [ffenc_register] builds for a session
    is the static arguments without their terminator, then the
    translation of every option of the codec context class that has the
    encoding flag, in the order of the class, then one zeroed entry as
    terminator; every write of the second loop is inside the table the
    first loop has sized.  Without a session the table is the static one. *)
Theorem ffenc_register_table (session : bool) (options : option (list AVOption)) :
  ffenc_register ffmpeg_arg_translate session options
  = if session then
      take FFENC_STATIC_ARGS FFEncodeArgs
      ++ (ffmpeg_arg_translate <$> filter (fun o => is_encoding o = true) (default [] options))
      ++ [zero_arg]
    else FFEncodeArgs.
Proof.
  unfold ffenc_register. destruct session; cbn [negb]; [|reflexivity].
  set (opts := default [] options). rewrite count_option_filter.
  set (n := length (filter (fun o => is_encoding o = true) opts)).
  change (0 + n + (FFENC_STATIC_ARGS + 1))%nat with (n + 3)%nat.
  replace (n + 3)%nat with (2 + (n + 1))%nat by lia.
  rewrite replicate_add.
  change (foldl _ (replicate 2 zero_arg ++ replicate (n + 1) zero_arg) (seq 0 FFENC_STATIC_ARGS))
    with (take FFENC_STATIC_ARGS FFEncodeArgs ++ replicate (n + 1) zero_arg).
  change FFENC_STATIC_ARGS with (length (take FFENC_STATIC_ARGS FFEncodeArgs)) at 1.
  subst n. apply write_option_fills.
Qed.

End EncoderRegister.

(** ** The configuration callbacks on a library of one codec *)

Module EncoderScenario.
Import FFEncCfg.

(** A library with one encoder, the one a chain asks for under the codec
    id of AVC: it takes the pixel formats 0 and 12 and the sample format
    8. *)
Definition one_codec : AVLib :=
  {| AVCodec := unit;
     AVDictionary := list (string * string);
     AVInternal := unit;
     codec_id := fun _ => 27;
     codec_name := fun _ => Some "libx264"%string;
     pix_fmts := fun _ => Some [0; 12];
     sample_fmts := fun _ => Some [8];
     GF_CODECID_RAW := 1;
     GF_CODECID_AVC := 2;
     GF_CODECID_HEVC := 3;
     ffmpeg_codecid_from_gpac := fun id => if id =? 2 then 27 else 0;
     ffmpeg_pixfmt_from_gpac := fun f => f;
     ffmpeg_pixfmt_to_gpac := fun f => f;
     ffmpeg_audio_fmt_from_gpac := fun f => f;
     ffmpeg_audio_fmt_to_gpac := fun f => f;
     ffmpeg_channel_layout_from_gpac := fun l => l;
     gf_audio_fmt_bit_depth := fun _ => 16;
     gf_pixel_get_size_info := fun _ w h _ => (w, w / 2, 3, h / 2);
     avcodec_find_encoder := fun id => if id =? 27 then Some tt else None;
     av_dict_set := fun d k v => (0, Some ((k, v) :: default [] d)) |}.

(** Its engine, [avcodec_open2] giving [res]. *)
Definition fresh_context (codec : @AVCodec one_codec) : AVCodecContext one_codec :=
  @Build_AVCodecContext one_codec (Some codec) 0 0 (0, 1) (0, 1) 12 0 (-1) 0 0 0 (-1) None 0 tt.

Definition engine_giving (res : Z) : AVEngine one_codec :=
  {| avcodec_alloc_context3 := fun codec => Some (fresh_context codec);
     ffmpeg_set_enc_dec_flags := fun _ enc => enc;
     avcodec_open2 := fun enc codec d => (res, enc, d) |}.

Definition uint_value (v : Z) : GF_PropertyValue :=
  {| uint := v; frac_num := 0; frac_den := 0 |}.

(** A raw video pid of 16x8 pixels in the format [pixfmt], on a chain
    that asks for AVC. *)
Definition video_pid (pixfmt : Z) : GF_FilterPid :=
  {| pid_id := 7;
     gf_filter_pid_get_property := fun k =>
       match k with
       | Key GF_PROP_PID_STREAM_TYPE => Some (uint_value GF_STREAM_VISUAL)
       | Key GF_PROP_PID_CODECID => Some (uint_value 1)
       | Key GF_PROP_PID_WIDTH => Some (uint_value 16)
       | Key GF_PROP_PID_HEIGHT => Some (uint_value 8)
       | GF_PROP_PID_PIXFMT => Some (uint_value pixfmt)
       | _ => None
       end;
     gf_filter_pid_caps_query := fun k =>
       match k with
       | Key GF_PROP_PID_CODECID => Some (uint_value 2)
       | _ => None
       end |}.

(** A raw audio pid at 48 kHz, stereo, in the format [afmt]. *)
Definition audio_pid (afmt : Z) : GF_FilterPid :=
  {| pid_id := 9;
     gf_filter_pid_get_property := fun k =>
       match k with
       | Key GF_PROP_PID_STREAM_TYPE => Some (uint_value GF_STREAM_AUDIO)
       | Key GF_PROP_PID_CODECID => Some (uint_value 1)
       | Key GF_PROP_PID_SAMPLE_RATE => Some (uint_value 48000)
       | Key GF_PROP_PID_NUM_CHANNELS => Some (uint_value 2)
       | GF_PROP_PID_AUDIO_FORMAT => Some (uint_value afmt)
       | _ => None
       end;
     gf_filter_pid_caps_query := fun k =>
       match k with
       | Key GF_PROP_PID_CODECID => Some (uint_value 2)
       | _ => None
       end |}.

(** What the callbacks return and the calls they make, on a fresh
    filter. *)
Fixpoint outcomes (res : Z) (cbs : list Callback)
    (c : GF_FFEncodeCtx one_codec) (s : Session) : list Outcome * list CfgEv :=
  match cbs with
  | [] => ([], s_trace s)
  | cb :: rest =>
      match run (callback (engine := engine_giving res) cb) c s with
      | (Abort, c, s) => ([Abort], s_trace s)
      | (Ret e, c, s) => let '(rs, tr) := outcomes res rest c s in (Ret e :: rs, tr)
      end
  end.

Definition life (res : Z) (cbs : list Callback)
  : list Outcome * list CfgEv :=
  outcomes res cbs zero_ctx new_session.

End EncoderScenario.

Section EncoderInstances.
Import FFEncCfg EncoderScenario.

(** A pixel format the codec does not list is negotiated. *)
Example ffenc_asks_the_first_format :
  life 0 [ConfigurePid (video_pid 5) false]
  = ([Ret GF_OK], [CfgNegociateProperty 7 GF_PROP_PID_PIXFMT 0]).
Proof. vm_compute. reflexivity. Qed.

(** One it lists is taken, and the output declared. *)
Example ffenc_opens_and_declares :
  life 0 [ConfigurePid (video_pid 12) false]
  = ([Ret GF_OK],
     [CfgMalloc 128; CfgAvcodecOpen 0; CfgPidNew 0; CfgSetName "ffenc:libx264";
      CfgSetFramingMode 7 true; CfgCopyProperties 0 7;
      CfgSetProperty 0 GF_PROP_PID_DECODER_CONFIG None;
      CfgSetProperty 0 (Key GF_PROP_PID_CODECID) (Some (Val (PROP_UINT 2)));
      CfgSetProperty 0 GF_PROP_PID_UNFRAMED (Some (Val (PROP_BOOL true)))]).
Proof. vm_compute. reflexivity. Qed.

(** The codec fails to open. *)
Example ffenc_fails_to_open :
  life (-22) [ConfigurePid (video_pid 12) false]
  = ([Ret GF_NON_COMPLIANT_BITSTREAM],
     [CfgMalloc 128; CfgAvcodecOpen (-22);
      CfgLog GF_LOG_ERROR "[FFEnc] PID failed to open codec context"]).
Proof. vm_compute. reflexivity. Qed.

(** Configured twice, then removed: one output pid, two buffers. *)
Example ffenc_configured_twice :
  life 0 [Initialize; ConfigurePid (audio_pid 8) false; ConfigurePid (audio_pid 8) false;
          ConfigurePid (audio_pid 8) true]
  = ([Ret GF_OK; Ret GF_OK; Ret GF_OK; Ret GF_OK],
     [CfgMalloc 48000; CfgMalloc 48000; CfgAvcodecOpen 0; CfgPidNew 0;
      CfgSetName "ffenc:libx264"; CfgSetFramingMode 9 true; CfgCopyProperties 0 9;
      CfgSetProperty 0 (Key GF_PROP_PID_TIMESCALE) (Some (Val (PROP_UINT 48000)));
      CfgSetProperty 0 GF_PROP_PID_DECODER_CONFIG None;
      CfgSetProperty 0 (Key GF_PROP_PID_CODECID) (Some (Val (PROP_UINT 2)));
      CfgSetProperty 0 GF_PROP_PID_UNFRAMED (Some (Val (PROP_BOOL true)));
      CfgAvcodecClose;
      CfgMalloc 48000; CfgMalloc 48000; CfgAvcodecOpen 0; CfgCopyProperties 0 9;
      CfgSetProperty 0 (Key GF_PROP_PID_TIMESCALE) (Some (Val (PROP_UINT 48000)));
      CfgSetProperty 0 GF_PROP_PID_DECODER_CONFIG None;
      CfgSetProperty 0 (Key GF_PROP_PID_CODECID) (Some (Val (PROP_UINT 2)));
      CfgSetProperty 0 GF_PROP_PID_UNFRAMED (Some (Val (PROP_BOOL true)));
      CfgPidRemove 0]).
Proof. vm_compute. reflexivity. Qed.

(** A second input pid is refused, and nothing is called for it. *)
Example ffenc_refuses_a_second_pid :
  life 0 [ConfigurePid (video_pid 5) false; ConfigurePid (audio_pid 8) false]
  = ([Ret GF_OK; Ret GF_REQUIRES_NEW_INSTANCE], [CfgNegociateProperty 7 GF_PROP_PID_PIXFMT 0]).
Proof. vm_compute. reflexivity. Qed.

(** A pixel format the codec does not list: the first one it lists is
    asked for. *)
Lemma ffenc_config_input_asks_format_witness :
  let '(r, ctx', s') :=
    run (ffenc_config_input (engine := engine_giving 0) (video_pid 5) false)
      zero_ctx new_session in
  r = Ret GF_OK /\ in_pid ctx' = Some 7%nat /\ encoder ctx' = None
  /\ pixel_fmt ctx' = 0
  /\ cfg_emitted new_session s' = [CfgNegociateProperty 7 GF_PROP_PID_PIXFMT 0].
Proof.
  pose proof (ffenc_config_input_asks_format (engine := engine_giving 0)
                (video_pid 5) zero_ctx new_session) as H.
  destruct (run (ffenc_config_input (engine := engine_giving 0) (video_pid 5) false)
              zero_ctx new_session) as [[r ctx'] s'] eqn:E.
  assert (cfg_emitted new_session s' = [CfgNegociateProperty 7 GF_PROP_PID_PIXFMT 0]) as He
    by (change s' with (snd (r, ctx', s')); rewrite <- E; vm_compute; reflexivity).
  destruct (H 7%nat GF_PROP_PID_PIXFMT 0) as (Hr & _ & Hin & Henc & _ & _ & codec & p & _ & Hfmt).
  { rewrite He. left. }
  split; [exact Hr|]. split; [exact Hin|]. split; [exact Henc|]. split; [|exact He].
  destruct Hfmt as [(_ & _ & _ & _ & _ & Hpf & _)|(_ & Hk & _)]; [|discriminate Hk].
  rewrite Hpf. destruct codec. reflexivity.
Defined.

(** A format it lists: the codec is opened and the output declared. *)
Lemma ffenc_config_input_opens_witness :
  let '(r, ctx', s') :=
    run (ffenc_config_input (engine := engine_giving 0) (video_pid 12) false)
      zero_ctx new_session in
  r = Ret GF_OK /\ is_Some (encoder ctx') /\ in_pid ctx' = Some 7%nat
  /\ process ctx' = Some Video /\ out_pid ctx' = Some 0%nat
  /\ CfgCopyProperties 0 7 ∈ cfg_emitted new_session s'.
Proof.
  pose proof (ffenc_config_input_opens (engine := engine_giving 0)
                (video_pid 12) zero_ctx new_session) as H.
  destruct (run (ffenc_config_input (engine := engine_giving 0) (video_pid 12) false)
              zero_ctx new_session) as [[r ctx'] s'] eqn:E.
  assert (r = Ret GF_OK) as Hr
    by (change r with (fst (fst (r, ctx', s'))); rewrite <- E; vm_compute; reflexivity).
  assert (type ctx' = GF_STREAM_VISUAL) as Hv
    by (change ctx' with (snd (fst (r, ctx', s'))); rewrite <- E; vm_compute; reflexivity).
  assert (out_pid ctx' = Some 0%nat) as Ho
    by (change ctx' with (snd (fst (r, ctx', s'))); rewrite <- E; vm_compute; reflexivity).
  assert (CfgAvcodecOpen 0 ∈ cfg_emitted new_session s') as Hopen
    by (change s' with (snd (r, ctx', s')); rewrite <- E; vm_compute; right; left).
  destruct (H 0 Hopen) as (Henc & Hin & Hty & _ & Hok).
  destruct (Hok ltac:(lia)) as (_ & _ & o & Ho' & _ & Hdecl).
  rewrite Ho in Ho'. injection Ho' as <-.
  destruct (Hdecl Hr) as (Hcopy & _).
  destruct Hty as [(_ & Hp & _)|(Hty & _)]; [|rewrite Hv in Hty; discriminate Hty].
  repeat split; auto.
Defined.

End EncoderInstances.
